(* ===== verification/_CoqProject ===== *)
-Q . S2P
Prelude.v
RustStr.v
World.v
Follow.v
Stall.v
Auth.v
Config.v
Crypto.v
Float64.v
Pacer.v
Frame.v
Backlog.v
Pumps.v
Summary.v
Report.v
Server.v
Registry.v
Routes.v
Connect.v
ServerMain.v
ClientBench.v
Client.v
StreamBench.v
DatagramBench.v
BenchEnds.v
Keygen.v
Tunnel.v
StreamTunnel.v
