(* ===== verification/Prelude.v ===== *)
(** * LiteVPN: a verification development

    LiteVPN (the Rust crates under [src/crates]) is a point-to-point VPN over
    QUIC: a server with a TUN device serves one VPN client at a time, a client
    with a TUN device tunnels its packets to it as QUIC datagrams or over two
    framed streams; both can also run throughput benchmarks, and a small tool
    generates keys. This library is a shallow embedding of that code with the
    theorems that make it correct.

    ** How the code is modelled

    - A function of the program becomes a function here, of the same name
      where Rocq allows it. Pure code is translated to pure functions;
      [anyhow::Result] is [result] with the type [error] of messages, contexts
      and library errors.
    - Asynchronous code becomes a tree of calls ([prog], World.v): each call
      to quinn, tokio, tun-rs, the file system, a command or the operating
      system is a constructor of [Op], and the code goes on with its answer.
      [M A] is such a tree that ends with a value, an error, a panic or, when
      the fuel of an endless loop is used up, [Running]. [env] answers calls
      from the history so far and is universally quantified: a theorem that
      says "in every environment" holds whatever the libraries do, and the
      others name what they rely on (a monotonic clock [clock_ok], a stream
      that delivers given bytes [stream_delivers], a [route] command as
      documented [route_tool], ...).
    - [tokio::select!] of waits is a choice of the environment ([race],
      [select2], answered by [Poll]); [timeout limit] lets the environment cut
      the future before any of its calls ([Expired limit], with the duration
      or the instant the code gives), and a call that is cut has had no
      effect. Sleeps and clock readings are calls, times are nanoseconds.
    - [run] answers every call: what it says of a program is what the program
      has done whenever its awaits complete. That an await may never complete
      is Stall.v's: [wait_run] also takes a predicate that says which awaits
      never do, and a run of it ends or hangs. The theorems about it are those
      of BenchEnds.v; the others that promise an end do so for code that awaits
      only clocks, timers and what a timer bounds, or for a stream that
      delivers.
    - Machine integers are [Z] with the release build's wrap-around or the
      code's saturation written out; [f64] is the Standard Library's binary64
      (Float64.v); text is a list of Unicode scalar values with the parts of
      [str] the program uses (RustStr.v).
    - [panic = "abort"]: a panic of a task ends the process.
    - Logging ([tracing]) is left out; a line printed with [println!] is a call
      whose failure is a panic.

    ** The files

    - Prelude.v (this file): integers, results, errors, step relations.
      RustStr.v: the string functions of the Rust library. World.v: calls,
      programs, environments, the rules of [wp], and the classes of calls a
      program can make ([all_ops]; the hints [calls] know the smallest class
      of a function, larger ones follow). Follow.v: a program on the histories
      of any trace, for futures that run interleaved or are cut. Stall.v: calls
      that never answer, and where a program can hang. Float64.v: binary64
      with error bounds.
    - Auth.v ([litevpn-core/src/auth.rs], [lib.rs]): the request, its parser
      and the exchange of both ends. Theorems: round trip, agreement of the
      two ends, the server grants only with the token, parsed values have
      their Rust types.
    - Config.v ([config.rs], [tun.rs], the transport parameters of
      [crypto.rs]): configurations, defaults, validation, the configuration
      and token files, TUN options. Theorems: what validation accepts, what
      the initial MTU fits.
    - Crypto.v ([crypto.rs]): certificates, keys, the configurations of both
      ends as records of what rustls and quinn are given (the records are in
      World.v, since an endpoint is made with them). Theorem: a configuration
      is made of the files named and of nothing else, and two ends fit each
      other.
    - Pacer.v, Backlog.v ([quic.rs]: [EgressPacer], [DatagramBacklog]): pacing
      with float arithmetic, back-pressure. Theorems: the target rate is never
      exceeded; over any sequence of calls the rate follows the losses, at
      looks 250 ms apart; the backlog is bounded, waiting with a deadline
      terminates.
    - Frame.v, Pumps.v ([quic.rs]): framing of packets on a stream and the four
      pumps. Theorems: framing refines a reference parser on any chunks, each
      pump passes its packets on, in order and once each, the senders never
      panic, the stream tunnel delivers end to end. ([Frame.Reader]: what a
      reader took from a stream when it ends in any way.)
    - Summary.v (both binaries): the benchmark summary, written and read.
    - Report.v ([litevpn-client/src/main.rs]): the lines a benchmark prints,
      with the text of floats. Theorem: the figures over several runs.
    - Server.v ([litevpn-server/src/main.rs]): the task of one connection with
      the four benchmarks. Theorems: no tunnel without the token, and where a
      benchmark can and cannot panic.
    - ServerMain.v: the server's [main] up to and with the accept loop.
      Theorem: it accepts only when everything is in place (from the file the
      configuration was read from to the endpoint made of the certificate and
      key it names), one task each.
    - Registry.v (the state the server's tasks share): any number of tasks
      interleaved call by call. Theorems: the active client is served,
      displaced clients are closed, or will be by the next call of the task
      that displaced them; cleanup spares others.
    - Routes.v ([macos_routes.rs]): installing and removing routes, against a
      model of the routing table: the destinations the [route] commands have
      added, whatever their gateway, with a command whose only failing
      deletion is that of a route that is not there.
    - Connect.v, ClientBench.v, Client.v ([litevpn-client/src/main.rs]):
      connecting with retries, the benchmarks of the client and the whole of
      [main] ([client_program]). Theorems: retries, counting; every benchmark's
      connection is closed before the next, whatever its result; no route is
      left behind; nothing is touched before the server's consent.
    - StreamBench.v, DatagramBench.v: the benchmarks of the two ends together.
      Theorems: what is sent and what is received are counted alike, so the
      two reports agree when a stream delivered everything, also when a time
      limit cuts the receiver off, and differ by what the network lost of the
      datagrams (and at most one more). BenchEnds.v: the stream benchmarks end
      when timers fire and the clock goes on, also when calls never answer,
      but for the points it lists, at which they hang (one is a write that
      outlasts the benchmark's deadline).
    - Keygen.v ([litevpn-keygen/src/main.rs]): the files it writes, and that
      the ends can use them.
    - Tunnel.v, StreamTunnel.v: both pumps of an end at once, under every
      interleaving, in the two transport modes. What an end promises is a
      class ([DatagramEnd], [StreamEnd]) with an instance or a lemma for each
      binary; the theorems about both ends together ([vpn_end_to_end],
      [stream_vpn_end_to_end]) follow from the promises and from what the
      network may do ([NetworkEffect]; for streams, a prefix arrives).

    ** Fuel

    [loop] takes fuel. The pumps are endless, so their theorems hold for any
    fuel and also of the [Running] outcome (safety), and the theorems that
    promise an end ([queued_until_terminates], [stream_benches_end],
    [stream_to_tun_refines], [read_stream_packet_refines],
    [stream_tunnel_delivers]) say which fuel is enough. Loops over a counter
    ([connect_attempts], [bench_iterations]) are structural.

    ** Not modelled

    TOML parsing and [SocketAddr] parsing (functions given as arguments to
    [server_main] and [client_program]) and argument parsing (its result is an
    argument); TLS, QUIC, the TUN driver and rcgen (calls of the environment);
    logging; the shell scripts. [install_crypto_provider] and
    [quinn::default_runtime] have no effect the program can see. A call
    that a lost [select!] branch has begun is taken as not made. *)

From stdpp Require Export base list numbers option strings gmap.
From Stdlib Require Export ZArith Lia.

#[global] Open Scope Z_scope.

(** ** Machine integers

    A Rust [u64]/[usize] (the targets are 64-bit) is a [Z] in
    [0, U64_MAX]; an operation that can leave the range writes its wrap,
    saturation or check out. *)

Definition U8_MAX : Z := 255.
Definition U16_MAX : Z := 65535.
Definition U32_MAX : Z := 4294967295.
Definition U64_MAX : Z := 18446744073709551615.
Definition U128_MAX : Z := 340282366920938463463374607431768211455.
Definition I64_MAX : Z := 9223372036854775807.

Definition is_u16 (n : Z) : Prop := 0 <= n <= U16_MAX.
Definition is_u64 (n : Z) : Prop := 0 <= n <= U64_MAX.

(** [saturating_add], [saturating_sub] at a given maximum, and the wrapping
    [+] of a release build (the profile does not set [overflow-checks]). *)
Definition saturating_add (max a b : Z) : Z := Z.min (a + b) max.
Definition saturating_sub (a b : Z) : Z := Z.max (a - b) 0.
Definition wrapping_add_u64 (a b : Z) : Z := (a + b) mod (U64_MAX + 1).

(** Length of a list as a machine integer. *)
Abbreviation zlen l := (Z.of_nat (length l)).

(** The total length of some byte strings; a [u64] counter after [n] steps. *)
Definition sum_len (ds : list (list Z)) : Z := foldr (fun d n => zlen d + n) 0 ds.

Lemma sum_len_snoc ds d : sum_len (ds ++ [d]) = sum_len ds + zlen d.
Proof. unfold sum_len. induction ds as [|a ds IH]; cbn; [lia|]. rewrite IH. lia. Qed.

Definition wrap (n : Z) : Z := n mod (U64_MAX + 1).

Lemma wrap_add n m : wrapping_add_u64 (wrap n) m = wrap (n + m).
Proof. unfold wrapping_add_u64, wrap. by rewrite Zplus_mod_idemp_l. Qed.

(** ** Tactics *)

(** [lia] on goals with [/] and [mod]. *)
Ltac zlia := Z.to_euclidean_division_equations; lia.

(** Destruct every boolean comparison in the goal, turning it into an
    arithmetic fact. *)
Ltac bcase :=
  repeat match goal with
  | |- context [?a <? ?b] => destruct (Z.ltb_spec a b)
  | |- context [?a <=? ?b] => destruct (Z.leb_spec a b)
  | |- context [?a =? ?b] => destruct (Z.eqb_spec a b)
  | |- context [Nat.ltb ?a ?b] => destruct (Nat.ltb_spec a b)
  | |- context [Nat.leb ?a ?b] => destruct (Nat.leb_spec a b)
  end.

(** The same in a hypothesis. *)
Ltac bcase_in H :=
  repeat match type of H with
  | context [?a <? ?b] => destruct (Z.ltb_spec a b)
  | context [?a <=? ?b] => destruct (Z.leb_spec a b)
  | context [?a =? ?b] => destruct (Z.eqb_spec a b)
  end.

Ltac invc H := inversion H; subst; clear H.

(** ** Results and errors

    [anyhow::Error]: a message made by [bail!]/[anyhow!] or by [.context] on
    an [Option], a message put in front of a cause by [.context] on a
    [Result], or the error value of a library call, which the program only
    carries along. *)

(** Text: a Rust [str] as the list of its Unicode scalar values; bytes as
    integers in [0, 255]. *)
Abbreviation str := (list Z) (only parsing).
Abbreviation bytes := (list Z) (only parsing).

Inductive error : Type :=
| Msg (m : str)
| Context (m : str) (cause : error)
| External (what : str).

Inductive result (A E : Type) : Type :=
| Ok (a : A)
| Err (e : E).
Arguments Ok {A E} a.
Arguments Err {A E} e.

(** [anyhow::Result<A>]. *)
Abbreviation res A := (result A error).

#[global] Instance result_eq_dec `{EqDecision A, EqDecision E} :
  EqDecision (result A E).
Proof. solve_decision. Defined.

#[global] Instance error_eq_dec : EqDecision error.
Proof. solve_decision. Defined.

Definition res_bind {A B E} (r : result A E) (f : A -> result B E) : result B E :=
  match r with
  | Ok a => f a
  | Err e => Err e
  end.

Notation "x <-? r ; k" := (res_bind r (fun x => k))
  (at level 20, r at level 100, k at level 200, right associativity,
   format "x  <-?  r ;  '/' k").
Notation "' p <-? r ; k" := (res_bind r (fun p => k))
  (at level 20, p pattern, r at level 100, k at level 200,
   right associativity).

(** [Result::is_ok]. *)
Definition is_ok {A E} (r : result A E) : bool :=
  match r with Ok _ => true | Err _ => false end.

(** A string literal of the source, as scalar values (also its bytes: the
    literals are ASCII). *)
Fixpoint lit (s : string) : str :=
  match s with
  | EmptyString => []
  | String c s' => Z.of_N (Ascii.N_of_ascii c) :: lit s'
  end.

(** [.context(m)] on an [Option] and on a [Result]; [context_ext] is the
    [Result] form where the cause is the error of a library call. *)
Definition context_opt {A} (m : string) (o : option A) : res A :=
  match o with
  | Some a => Ok a
  | None => Err (Msg (lit m))
  end.

Definition context_res {A} (m : string) (r : res A) : res A :=
  match r with
  | Ok a => Ok a
  | Err e => Err (Context (lit m) e)
  end.

Definition context_ext {A} (m : string) (r : result A str) : res A :=
  match r with
  | Ok a => Ok a
  | Err e => Err (Context (lit m) (External e))
  end.

(** [bail!(m)]. *)
Definition bail {A} (m : string) : res A := Err (Msg (lit m)).

Lemma res_bind_ok {A B E} (r : result A E) (f : A -> result B E) b :
  res_bind r f = Ok b <-> exists a, r = Ok a /\ f a = Ok b.
Proof.
  destruct r; simpl; split.
  - eauto.
  - by intros (? & [= ->] & ?).
  - done.
  - by intros (? & ? & ?).
Qed.

Lemma context_opt_ok {A} m (o : option A) a :
  context_opt m o = Ok a <-> o = Some a.
Proof. destruct o; simpl; naive_solver. Qed.

Lemma context_res_ok {A} m (r : res A) a :
  context_res m r = Ok a <-> r = Ok a.
Proof. destruct r; simpl; naive_solver. Qed.

Lemma context_ext_ok {A} m (r : result A str) a :
  context_ext m r = Ok a <-> r = Ok a.
Proof. destruct r; simpl; naive_solver. Qed.

Create HintDb vpn.
Create HintDb calls.
Create Rewrite HintDb vpn.
#[export] Hint Rewrite @res_bind_ok @context_opt_ok @context_res_ok
  @context_ext_ok : vpn.

(** Decompose a successful chain of [?] into its successful steps. *)
Ltac res_inv H :=
  repeat first
    [ apply res_bind_ok in H as (? & ?H & H)
    | apply context_opt_ok in H
    | apply context_res_ok in H
    | apply context_ext_ok in H ].

(** ** Lists *)

Lemma prefix_take_drop {A} (l k : list A) :
  l `prefix_of` k -> k = l ++ drop (length l) k.
Proof. intros [r ->]. by rewrite drop_app_length. Qed.

Lemma take_app_le' {A} (n : nat) (l k : list A) :
  (n <= length l)%nat -> take n (l ++ k) = take n l.
Proof. intros. rewrite take_app_le; auto. Qed.

Lemma lit_app s1 s2 : lit (String.append s1 s2) = lit s1 ++ lit s2.
Proof. induction s1; simpl; [done|by rewrite IHs1]. Qed.

(** ** Finite executions of a step relation *)

Section Star.
Context {S L : Type} (step : S -> L -> S -> Prop).

Inductive steps : S -> list L -> S -> Prop :=
| steps_nil s : steps s [] s
| steps_snoc s ls s' l s'' : steps s ls s' -> step s' l s'' -> steps s (ls ++ [l]) s''.

(** An invariant that holds initially and is preserved by every step holds
    along every execution. *)
Lemma steps_invariant (I : S -> Prop) :
  (forall s l s', I s -> step s l s' -> I s') ->
  forall s ls s', steps s ls s' -> I s -> I s'.
Proof. intros Hstep s ls s'. induction 1; eauto. Qed.
End Star.
