(* ===== verification/RustStr.v ===== *)
(** * Strings of the Rust standard library

    The parts of [core::str], [alloc::string] and [core::num] that the
    program uses: UTF-8, splitting, trimming, decimal printing and parsing.
    A [str] is the list of its Unicode scalar values; [as_bytes] and
    [from_utf8] go to and from its UTF-8 encoding. *)

From S2P Require Import Prelude.

(** ** UTF-8 *)

Definition is_scalar (c : Z) : bool :=
  ((0 <=? c) && (c <? 55296)) || ((57344 <=? c) && (c <=? 1114111)).

(** [char::encode_utf8]. *)
Definition encode_char (c : Z) : bytes :=
  if c <? 128 then [c]
  else if c <? 2048 then [192 + c / 64; 128 + c mod 64]
  else if c <? 65536 then [224 + c / 4096; 128 + (c / 64) mod 64; 128 + c mod 64]
  else [240 + c / 262144; 128 + (c / 4096) mod 64; 128 + (c / 64) mod 64; 128 + c mod 64].

(** [str::as_bytes]. *)
Fixpoint as_bytes (s : str) : bytes :=
  match s with
  | [] => []
  | c :: s' => encode_char c ++ as_bytes s'
  end.

Definition between (lo hi b : Z) : bool := (lo <=? b) && (b <=? hi).
Definition is_cont (b : Z) : bool := between 128 191 b.

(** The admissible second bytes after a three- or four-byte lead: no overlong
    form, no surrogate, nothing above U+10FFFF. *)
Definition second3_ok (b0 b1 : Z) : bool :=
  if b0 =? 224 then between 160 191 b1
  else if b0 =? 237 then between 128 159 b1
  else is_cont b1.
Definition second4_ok (b0 b1 : Z) : bool :=
  if b0 =? 240 then between 144 191 b1
  else if b0 =? 244 then between 128 143 b1
  else is_cont b1.

(** [core::str::from_utf8]. *)
Fixpoint from_utf8 (bs : bytes) : option str :=
  match bs with
  | [] => Some []
  | b0 :: r0 =>
    if between 0 127 b0 then cons b0 <$> from_utf8 r0 else
    match r0 with
    | [] => None
    | b1 :: r1 =>
      if between 194 223 b0 then
        if is_cont b1 then cons ((b0 - 192) * 64 + (b1 - 128)) <$> from_utf8 r1
        else None
      else
      match r1 with
      | [] => None
      | b2 :: r2 =>
        if between 224 239 b0 then
          if second3_ok b0 b1 && is_cont b2 then
            cons ((b0 - 224) * 4096 + (b1 - 128) * 64 + (b2 - 128)) <$> from_utf8 r2
          else None
        else
        match r2 with
        | [] => None
        | b3 :: r3 =>
          if between 240 244 b0 then
            if second4_ok b0 b1 && is_cont b2 && is_cont b3 then
              cons ((b0 - 240) * 262144 + (b1 - 128) * 4096
                    + (b2 - 128) * 64 + (b3 - 128)) <$> from_utf8 r3
            else None
          else None
        end
      end
    end
  end.

(** Every [str] value is valid: all its elements are scalar values. *)
Definition valid_str (s : str) : Prop := Forall (fun c => is_scalar c = true) s.

(** ** Splitting and trimming *)

(** [char::is_whitespace]: the Unicode property White_Space. *)
Definition is_whitespace (c : Z) : bool :=
  between 9 13 c || (c =? 32) || (c =? 133) || (c =? 160) || (c =? 5760)
  || between 8192 8202 c || (c =? 8232) || (c =? 8233) || (c =? 8239)
  || (c =? 8287) || (c =? 12288).

(** [slice::strip_prefix] / [str::strip_prefix]. *)
Fixpoint strip_prefix (p s : list Z) : option (list Z) :=
  match p, s with
  | [], _ => Some s
  | _ :: _, [] => None
  | a :: p', b :: s' => if a =? b then strip_prefix p' s' else None
  end.

(** [str::strip_suffix(c)] for one character. *)
Fixpoint strip_suffix (c : Z) (s : str) : option str :=
  match s with
  | [] => None
  | a :: s' =>
    match s' with
    | [] => if a =? c then Some [] else None
    | _ => cons a <$> strip_suffix c s'
    end
  end.

(** [str::split_inclusive(c)]. *)
Fixpoint split_inclusive (c : Z) (s : str) : list str :=
  match s with
  | [] => []
  | a :: s' =>
    if a =? c then [a] :: split_inclusive c s'
    else match split_inclusive c s' with
         | [] => [[a]]
         | l :: ls => (a :: l) :: ls
         end
  end.

Definition LF : Z := 10.
Definition CR : Z := 13.

(** What [str::lines] does to each piece of [split_inclusive('\n')]. *)
Definition line_of (piece : str) : str :=
  match strip_suffix LF piece with
  | None => piece
  | Some line =>
    match strip_suffix CR line with
    | None => line
    | Some line' => line'
    end
  end.

(** [str::lines]. *)
Definition lines (s : str) : list str := map line_of (split_inclusive LF s).

(** [str::split(p)], then [str::split_whitespace]: the non-empty pieces
    between white space. *)
Fixpoint split_by (p : Z -> bool) (s : str) : list str :=
  match s with
  | [] => [[]]
  | a :: s' =>
    if p a then [] :: split_by p s'
    else match split_by p s' with
         | [] => [[a]]
         | l :: ls => (a :: l) :: ls
         end
  end.

Definition is_empty {A} (l : list A) : bool :=
  match l with [] => true | _ => false end.

Definition split_whitespace (s : str) : list str :=
  List.filter (fun w => negb (is_empty w)) (split_by is_whitespace s).

(** [str::trim]. *)
Fixpoint trim_start (s : str) : str :=
  match s with
  | [] => []
  | a :: s' => if is_whitespace a then trim_start s' else s
  end.
Definition trim_end (s : str) : str := rev (trim_start (rev s)).
Definition trim (s : str) : str := trim_end (trim_start s).

(** [str::len] counts bytes. *)
Definition str_len (s : str) : Z := zlen (as_bytes s).

(** [str::contains] and [[&str]::join(" ")]. *)
Fixpoint contains (needle s : str) : bool :=
  match strip_prefix needle s with
  | Some _ => true
  | None => match s with [] => false | _ :: s' => contains needle s' end
  end.

Fixpoint join_spaces (ws : list str) : str :=
  match ws with
  | [] => []
  | [w] => w
  | w :: ws' => w ++ lit " " ++ join_spaces ws'
  end.

(** ** Decimal integers *)

(** [ToString] of an unsigned integer. The fuel is the number of bits, which
    bounds the number of decimal digits. *)
Fixpoint to_dec_fuel (fuel : nat) (n : Z) (acc : str) : str :=
  match fuel with
  | O => acc
  | S fuel' =>
    let acc' := (48 + n mod 10) :: acc in
    if n / 10 =? 0 then acc' else to_dec_fuel fuel' (n / 10) acc'
  end.
Definition to_dec (n : Z) : str := to_dec_fuel (S (Z.to_nat (Z.log2 n))) n [].

Inductive int_error : Type := Empty | InvalidDigit | PosOverflow.

Definition int_error_str (e : int_error) : str :=
  match e with
  | Empty => lit "cannot parse integer from empty string"
  | InvalidDigit => lit "invalid digit found in string"
  | PosOverflow => lit "number too large to fit in target type"
  end.

Definition is_digit (c : Z) : bool := between 48 57 c.

(** The digit loop of [u64::from_str]: [checked_mul], [to_digit],
    [checked_add]. *)
Fixpoint parse_digits (max acc : Z) (s : str) : result Z int_error :=
  match s with
  | [] => Ok acc
  | c :: s' =>
    if negb (is_digit c) then Err InvalidDigit
    else if max <? acc * 10 then Err PosOverflow
    else if max <? acc * 10 + (c - 48) then Err PosOverflow
    else parse_digits max (acc * 10 + (c - 48)) s'
  end.

(** [str::parse::<uN>()] with largest value [max]: a leading [+] is allowed, a
    lone sign or a [-] is an invalid digit. *)
Definition parse_uint (max : Z) (s : str) : result Z int_error :=
  match s with
  | [] => Err Empty
  | [c] => if (c =? 43) || (c =? 45) then Err InvalidDigit else parse_digits max 0 s
  | c :: s' => if c =? 43 then parse_digits max 0 s' else parse_digits max 0 s
  end.

Definition parse_u64 : str -> result Z int_error := parse_uint U64_MAX.

(** [parse().context(m)]. *)
Definition parse_context (m : string) (r : result Z int_error) : res Z :=
  match r with
  | Ok n => Ok n
  | Err e => Err (Context (lit m) (External (int_error_str e)))
  end.

(** ** UTF-8 round trips *)

Lemma as_bytes_app s1 s2 : as_bytes (s1 ++ s2) = as_bytes s1 ++ as_bytes s2.
Proof. induction s1; simpl; [done|]. by rewrite IHs1, app_assoc. Qed.

Definition is_ascii (c : Z) : Prop := 0 <= c < 128.

Lemma as_bytes_ascii s : Forall is_ascii s -> as_bytes s = s.
Proof.
  induction 1 as [|c s Hc _ IH]; [done|]. simpl. rewrite IH.
  unfold encode_char, is_ascii in *. by bcase; try lia.
Qed.

Lemma is_ascii_scalar c : is_ascii c -> is_scalar c = true.
Proof. unfold is_ascii, is_scalar. intros. bcase; simpl; try done; lia. Qed.

Lemma ascii_valid s : Forall is_ascii s -> valid_str s.
Proof. intros H. eapply Forall_impl; [exact H|apply is_ascii_scalar]. Qed.

(** The base-64 digits of a character. *)
Lemma base64_digits c :
  0 <= c ->
  exists q r0 r1 r2,
    c = 262144 * q + 4096 * r2 + 64 * r1 + r0 /\
    0 <= r0 < 64 /\ 0 <= r1 < 64 /\ 0 <= r2 < 64 /\ 0 <= q /\
    c mod 64 = r0 /\ c / 64 = 4096 * q + 64 * r2 + r1 /\
    (c / 64) mod 64 = r1 /\ c / 4096 = 64 * q + r2 /\
    (c / 4096) mod 64 = r2 /\ c / 262144 = q.
Proof.
  intros Hc.
  exists (c / 262144), (c mod 64), ((c / 64) mod 64), ((c / 4096) mod 64).
  replace (c / 4096) with (c / 64 / 64) by (rewrite Z.div_div by lia; done).
  replace (c / 262144) with (c / 64 / 64 / 64) by (rewrite !Z.div_div by lia; done).
  pose proof (Z.div_mod c 64). pose proof (Z.div_mod (c / 64) 64).
  pose proof (Z.div_mod (c / 64 / 64) 64).
  pose proof (Z.mod_pos_bound c 64). pose proof (Z.mod_pos_bound (c / 64) 64).
  pose proof (Z.mod_pos_bound (c / 64 / 64) 64).
  pose proof (Z.div_pos c 64). pose proof (Z.div_pos (c / 64) 64).
  pose proof (Z.div_pos (c / 64 / 64) 64).
  lia.
Qed.

Lemma between_spec lo hi b : between lo hi b = true <-> lo <= b <= hi.
Proof. unfold between. rewrite andb_true_iff, !Z.leb_le. done. Qed.

Lemma between_false lo hi b : b < lo \/ hi < b -> between lo hi b = false.
Proof. intros. unfold between. bcase; simpl; try done; lia. Qed.

Lemma is_scalar_spec c :
  is_scalar c = true <-> 0 <= c < 55296 \/ 57344 <= c <= 1114111.
Proof. unfold is_scalar. bcase; simpl; split; try done; lia. Qed.

(** Decoding what [encode_char] wrote gives the character back and goes on
    with the rest. *)
Lemma from_utf8_encode_char c r :
  is_scalar c = true -> from_utf8 (encode_char c ++ r) = cons c <$> from_utf8 r.
Proof.
  intros Hr%is_scalar_spec.
  destruct (base64_digits c) as (q & r0 & r1 & r2 & Hc & ? & ? & ? & ? & E0 & E1 & E2 & E3 & E4 & E5);
    [lia|].
  unfold encode_char. rewrite E0, E2, E4, E5.
  destruct (Z.ltb_spec c 128); [|destruct (Z.ltb_spec c 2048);
    [|destruct (Z.ltb_spec c 65536)]]; cbn [app from_utf8].
  - by rewrite (proj2 (between_spec 0 127 c)) by lia.
  - rewrite E1, between_false, (proj2 (between_spec 194 223 _)) by lia.
    unfold is_cont. rewrite (proj2 (between_spec 128 191 _)) by lia.
    f_equal. f_equal. lia.
  - rewrite E3, !between_false, (proj2 (between_spec 224 239 _)) by lia.
    replace (second3_ok (224 + (64 * q + r2)) (128 + r1)) with true.
    2:{ unfold second3_ok, is_cont. symmetry. bcase; apply between_spec; lia. }
    unfold is_cont. rewrite (proj2 (between_spec 128 191 _)) by lia.
    simpl. f_equal. f_equal. lia.
  - rewrite !between_false, (proj2 (between_spec 240 244 _)) by lia.
    replace (second4_ok (240 + q) (128 + r2)) with true.
    2:{ unfold second4_ok, is_cont. symmetry. bcase; apply between_spec; lia. }
    unfold is_cont. rewrite !(proj2 (between_spec 128 191 _)) by lia.
    simpl. f_equal. f_equal. lia.
Qed.

Lemma from_utf8_as_bytes s : valid_str s -> from_utf8 (as_bytes s) = Some s.
Proof.
  induction 1 as [|c s Hc _ IH]; [done|].
  simpl. by rewrite from_utf8_encode_char, IH.
Qed.

(** The other direction: whatever [from_utf8] accepts is valid text and its
    encoding is the input, byte for byte. *)
Lemma encode_char_2 b0 b1 :
  194 <= b0 <= 223 -> 128 <= b1 <= 191 ->
  let c := (b0 - 192) * 64 + (b1 - 128) in
  is_scalar c = true /\ encode_char c = [b0; b1].
Proof.
  intros ?? c. subst c. split; [apply is_scalar_spec; lia|].
  unfold encode_char. bcase; try lia.
  rewrite <-(Z.div_unique _ 64 (b0 - 192) (b1 - 128)) by lia.
  rewrite <-(Z.mod_unique _ 64 (b0 - 192) (b1 - 128)) by lia.
  f_equal; [lia|]. f_equal. lia.
Qed.

Lemma second3_ok_spec b0 b1 :
  second3_ok b0 b1 = true <->
  128 <= b1 <= 191 /\ (b0 = 224 -> 160 <= b1) /\ (b0 = 237 -> b1 <= 159).
Proof.
  unfold second3_ok, is_cont. bcase; rewrite between_spec; lia.
Qed.

Lemma second4_ok_spec b0 b1 :
  second4_ok b0 b1 = true <->
  128 <= b1 <= 191 /\ (b0 = 240 -> 144 <= b1) /\ (b0 = 244 -> b1 <= 143).
Proof.
  unfold second4_ok, is_cont. bcase; rewrite between_spec; lia.
Qed.

Lemma encode_char_3 b0 b1 b2 :
  224 <= b0 <= 239 -> second3_ok b0 b1 = true -> 128 <= b2 <= 191 ->
  let c := (b0 - 224) * 4096 + (b1 - 128) * 64 + (b2 - 128) in
  is_scalar c = true /\ encode_char c = [b0; b1; b2].
Proof.
  intros ? H1%second3_ok_spec ? c.
  assert (is_scalar c = true) as Hs by (apply is_scalar_spec; subst c; lia).
  split; [done|]. unfold encode_char.
  destruct (base64_digits c) as (q & r0 & r1 & r2 & Hc & ? & ? & ? & ? & E0 & E1 & E2 & E3 & E4 & E5);
    [subst c; lia|].
  rewrite E0, E2, E3. subst c. bcase; try lia.
  assert (64 * q + r2 = b0 - 224 /\ r1 = b1 - 128 /\ r0 = b2 - 128) as (? & ? & ?) by lia.
  repeat f_equal; lia.
Qed.

Lemma encode_char_4 b0 b1 b2 b3 :
  240 <= b0 <= 244 -> second4_ok b0 b1 = true ->
  128 <= b2 <= 191 -> 128 <= b3 <= 191 ->
  let c := (b0 - 240) * 262144 + (b1 - 128) * 4096 + (b2 - 128) * 64 + (b3 - 128) in
  is_scalar c = true /\ encode_char c = [b0; b1; b2; b3].
Proof.
  intros ? H1%second4_ok_spec ?? c.
  assert (is_scalar c = true) as Hs by (apply is_scalar_spec; subst c; lia).
  split; [done|]. unfold encode_char.
  destruct (base64_digits c) as (q & r0 & r1 & r2 & Hc & ? & ? & ? & ? & E0 & E1 & E2 & E3 & E4 & E5);
    [subst c; lia|].
  rewrite E0, E2, E4, E5. subst c. bcase; try lia.
  assert (q = b0 - 240 /\ r2 = b1 - 128 /\ r1 = b2 - 128 /\ r0 = b3 - 128)
    as (? & ? & ? & ?) by lia.
  repeat f_equal; lia.
Qed.

Lemma from_utf8_sound bs : forall s,
  from_utf8 bs = Some s -> valid_str s /\ as_bytes s = bs.
Proof.
  induction bs as [bs IH] using (well_founded_induction
    (well_founded_ltof _ (@length Z))). unfold ltof in IH.
  intros s Hs.
  destruct bs as [|b0 r0]; cbn [from_utf8] in Hs.
  { simplify_eq. split; [constructor|done]. }
  (* one step: a character [c] encoded by [pre], then the rest [r] *)
  assert (forall c pre r, b0 :: r0 = pre ++ r -> (0 < length pre)%nat ->
    is_scalar c = true /\ encode_char c = pre ->
    cons c <$> from_utf8 r = Some s -> valid_str s /\ as_bytes s = b0 :: r0) as Hstep.
  { intros c pre r Heq Hpre [Hc Henc] H.
    destruct (from_utf8 r) as [s'|] eqn:Hr; simpl in H; simplify_eq.
    destruct (IH r) with (s := s') as [Hv Hb]; [|done|].
    - rewrite Heq, length_app. lia.
    - split; [by constructor|]. simpl. by rewrite Hb, Heq. }
  destruct (between 0 127 b0) eqn:E0.
  { apply between_spec in E0. apply (Hstep b0 [b0] r0); [done|simpl; lia| |done].
    split; [by apply is_ascii_scalar; unfold is_ascii; lia|].
    unfold encode_char. by bcase; try lia. }
  destruct r0 as [|b1 r1]; [done|].
  destruct (between 194 223 b0) eqn:E1.
  { destruct (is_cont b1) eqn:C1; [|done]. apply between_spec in E1, C1.
    eapply (Hstep _ [b0; b1] r1); [done|simpl; lia|by apply encode_char_2|done]. }
  destruct r1 as [|b2 r2]; [done|].
  destruct (between 224 239 b0) eqn:E2.
  { destruct (second3_ok b0 b1 && is_cont b2) eqn:C2; [|done].
    apply andb_true_iff in C2 as [C1 C2]. apply between_spec in E2, C2.
    eapply (Hstep _ [b0; b1; b2] r2); [done|simpl; lia|by apply encode_char_3|done]. }
  destruct r2 as [|b3 r3]; [done|].
  destruct (between 240 244 b0) eqn:E3; [|done].
  destruct (second4_ok b0 b1 && is_cont b2 && is_cont b3) eqn:C3; [|done].
  apply andb_true_iff in C3 as [C2 C3]. apply andb_true_iff in C2 as [C1 C2].
  apply between_spec in E3, C2, C3.
  eapply (Hstep _ [b0; b1; b2; b3] r3); [done|simpl; lia|by apply encode_char_4|done].
Qed.

Lemma lit_ascii s : forallb (fun c => (c <? 128) && (0 <=? c)) (lit s) = true ->
  Forall is_ascii (lit s).
Proof.
  intros H. apply Forall_forall. intros x Hx.
  rewrite forallb_forall in H. apply list_elem_of_In in Hx.
  specialize (H x Hx). apply andb_true_iff in H as [H1 H2].
  unfold is_ascii. lia.
Qed.

(** Membership in explicit lists, without the set machinery. *)
Ltac elems :=
  repeat rewrite ?not_elem_of_cons, ?not_elem_of_app, ?elem_of_cons, ?elem_of_app,
    ?list_elem_of_singleton, ?elem_of_nil in *; naive_solver.

(** ** Splitting lemmas *)

Lemma strip_prefix_spec p s r : strip_prefix p s = Some r <-> s = p ++ r.
Proof.
  revert s. induction p as [|a p IH]; intros s; simpl.
  { split; by intros [= ->]. }
  destruct s as [|b s]; [split; discriminate|].
  destruct (Z.eqb_spec a b) as [->|Hne].
  - rewrite IH. split; [by intros ->|by intros [= ->]].
  - split; [discriminate|]. by intros [= ->].
Qed.

Lemma strip_prefix_app p s : strip_prefix p (p ++ s) = Some s.
Proof. by apply strip_prefix_spec. Qed.

Lemma strip_suffix_spec c s r : strip_suffix c s = Some r <-> s = r ++ [c].
Proof.
  revert r. induction s as [|a s IH]; intros r.
  { split; [done|]. by destruct r. }
  destruct s as [|b s].
  - simpl. destruct (Z.eqb_spec a c) as [->|Hne]; split; try done.
    + by intros [= <-].
    + by destruct r as [|x [|y r]]; intros [=].
    + by destruct r as [|x [|y r]]; intros [=].
  - change (strip_suffix c (a :: b :: s)) with (cons a <$> strip_suffix c (b :: s)).
    rewrite fmap_Some. setoid_rewrite IH. split.
    + by intros (r' & -> & ->).
    + destruct r as [|x r]; simpl; [done|]. intros [= -> H]. eauto.
Qed.

Lemma strip_suffix_snoc c s : strip_suffix c (s ++ [c]) = Some s.
Proof. by apply strip_suffix_spec. Qed.

Lemma strip_suffix_none c s : strip_suffix c s = None <-> last s <> Some c.
Proof.
  destruct (strip_suffix c s) as [r|] eqn:E.
  - apply strip_suffix_spec in E as ->. rewrite last_snoc. naive_solver.
  - split; [|done]. intros _ Hl. apply last_Some in Hl as [r ->].
    by rewrite strip_suffix_snoc in E.
Qed.

Lemma strip_suffix_no_char c s : c ∉ s -> strip_suffix c s = None.
Proof.
  intros Hc. apply strip_suffix_none. intros [r ->]%last_Some.
  apply Hc. elems.
Qed.

(** A piece without the separator, followed by it. *)
Lemma split_inclusive_line c s r :
  c ∉ s -> split_inclusive c (s ++ [c] ++ r) = (s ++ [c]) :: split_inclusive c r.
Proof.
  induction s as [|a s IH]; intros Hc; simpl.
  - by rewrite Z.eqb_refl.
  - destruct (Z.eqb_spec a c) as [->|_]; [elems|].
    simpl in IH. rewrite IH by elems. done.
Qed.

Lemma split_inclusive_rest c s : c ∉ s -> s <> [] -> split_inclusive c s = [s].
Proof.
  induction s as [|a s IH]; intros Hc Hne; [done|]. simpl.
  destruct (Z.eqb_spec a c) as [->|_]; [elems|].
  destruct s as [|b s]; [done|].
  rewrite IH; [done|elems|done].
Qed.

(** No piece of [split_inclusive] has the separator before its last place. *)
Lemma split_inclusive_pieces c s p :
  p ∈ split_inclusive c s -> (exists q, p = q ++ [c] /\ c ∉ q) \/ c ∉ p.
Proof.
  revert p. induction s as [|a s IH]; intros p; simpl; [elems|].
  destruct (Z.eqb_spec a c) as [->|Hne].
  - rewrite elem_of_cons. intros [->|H]; [|by apply IH].
    left. exists []. split; [done|elems].
  - destruct (split_inclusive c s) as [|l ls].
    + rewrite list_elem_of_singleton. intros ->. right. elems.
    + rewrite elem_of_cons. intros [->|H].
      * destruct (IH l) as [(q & -> & Hq)|Hq]; [elems| |].
        -- left. exists (a :: q). split; [done|elems].
        -- right. elems.
      * apply IH. elems.
Qed.

Lemma line_of_lf s : last s <> Some CR -> line_of (s ++ [LF]) = s.
Proof.
  intros H. unfold line_of. rewrite strip_suffix_snoc.
  by rewrite (proj2 (strip_suffix_none CR s)).
Qed.

Lemma line_of_rest s : LF ∉ s -> line_of s = s.
Proof. intros H. unfold line_of. by rewrite strip_suffix_no_char. Qed.

(** A line never contains a line feed. *)
Lemma lines_no_lf s l : l ∈ lines s -> LF ∉ l.
Proof.
  unfold lines. intros Hl. apply list_elem_of_In, in_map_iff in Hl as (p & <- & Hp).
  apply list_elem_of_In, split_inclusive_pieces in Hp as [(q & -> & Hq)|Hp].
  - unfold line_of. rewrite strip_suffix_snoc.
    destruct (strip_suffix CR q) as [r|] eqn:E; [|done].
    apply strip_suffix_spec in E as ->. elems.
  - by rewrite line_of_rest.
Qed.

(** A line has only characters of the text. *)
Lemma split_inclusive_chars c s : forall p x, p ∈ split_inclusive c s -> x ∈ p -> x ∈ s.
Proof.
  induction s as [|a s IH]; intros p x; simpl; [elems|].
  destruct (Z.eqb_spec a c) as [->|Hne].
  - rewrite elem_of_cons. intros [->|H] Hx; [elems|]. specialize (IH _ _ H Hx). elems.
  - destruct (split_inclusive c s) as [|l ls].
    + rewrite list_elem_of_singleton. intros -> Hx. elems.
    + rewrite elem_of_cons. intros [->|H] Hx.
      * apply elem_of_cons in Hx as [->|Hx]; [elems|]. specialize (IH l x ltac:(elems) Hx). elems.
      * specialize (IH p x ltac:(elems) Hx). elems.
Qed.

Lemma strip_suffix_chars c s x : x ∈ default s (strip_suffix c s) -> x ∈ s.
Proof.
  destruct (strip_suffix c s) as [r|] eqn:E; cbn; [|done].
  apply strip_suffix_spec in E as ->. elems.
Qed.

Lemma line_of_chars p x : x ∈ line_of p -> x ∈ p.
Proof.
  unfold line_of. pose proof (strip_suffix_chars LF p) as H.
  destruct (strip_suffix LF p) as [q|]; [|done]. cbn in H.
  intros Hx. apply H. by apply (strip_suffix_chars CR).
Qed.

Lemma lines_valid s l : valid_str s -> l ∈ lines s -> valid_str l.
Proof.
  unfold valid_str, lines. rewrite !Forall_forall. intros Hs Hl x Hx.
  apply list_elem_of_In, in_map_iff in Hl as (p & <- & Hp). apply list_elem_of_In in Hp.
  apply Hs. eapply split_inclusive_chars; [exact Hp|]. by apply line_of_chars.
Qed.

Lemma split_by_nonnil p s : split_by p s <> [].
Proof. destruct s as [|a s]; simpl; [done|]. by destruct (p a), (split_by p s). Qed.

Lemma split_by_word p w r :
  Forall (fun c => p c = false) w ->
  split_by p (w ++ r) =
  match split_by p r with [] => [w] | l :: ls => (w ++ l) :: ls end.
Proof.
  induction 1 as [|a w Ha _ IH]; simpl.
  - pose proof (split_by_nonnil p r). by destruct (split_by p r).
  - rewrite Ha, IH. by destruct (split_by p r).
Qed.

Definition is_word (w : str) : Prop :=
  w <> [] /\ Forall (fun c => is_whitespace c = false) w.

(** A word, a space and the rest; and a last word. *)
Lemma split_whitespace_word w r :
  is_word w -> split_whitespace (w ++ 32 :: r) = w :: split_whitespace r.
Proof.
  intros [Hne Hw]. unfold split_whitespace.
  rewrite split_by_word by done. simpl.
  rewrite app_nil_r. by destruct w.
Qed.

Lemma split_whitespace_last w : is_word w -> split_whitespace w = [w].
Proof.
  intros [Hne Hw]. unfold split_whitespace.
  rewrite <-(app_nil_r w) at 1. rewrite split_by_word by done. simpl.
  rewrite app_nil_r. by destruct w.
Qed.

Lemma split_whitespace_nil : split_whitespace [] = [].
Proof. done. Qed.

Lemma split_by_chars p s w c : w ∈ split_by p s -> c ∈ w -> p c = false /\ c ∈ s.
Proof.
  revert w. induction s as [|a s IH]; intros w; simpl.
  { intros ->%list_elem_of_singleton. elems. }
  destruct (p a) eqn:Ha.
  - rewrite elem_of_cons. intros [->|Hw] Hc; [elems|].
    destruct (IH w Hw Hc). elems.
  - destruct (split_by p s) as [|l ls].
    + rewrite list_elem_of_singleton. intros -> ->%list_elem_of_singleton. elems.
    + rewrite elem_of_cons. intros [->|Hw] Hc.
      * apply elem_of_cons in Hc as [->|Hc]; [elems|].
        destruct (IH l); [elems|done|elems].
      * destruct (IH w); [elems|done|elems].
Qed.

(** Every element of [split_whitespace] is a word. *)
Lemma split_whitespace_words s w : w ∈ split_whitespace s -> is_word w.
Proof.
  unfold split_whitespace. rewrite list_elem_of_In, filter_In. intros [Hw Hne].
  split; [by destruct w|]. apply Forall_forall. intros c Hc.
  apply list_elem_of_In in Hw. by eapply split_by_chars.
Qed.

(** ** Decimal round trip *)

Lemma to_dec_fuel_acc fuel n acc :
  to_dec_fuel fuel n acc = to_dec_fuel fuel n [] ++ acc.
Proof.
  revert n acc. induction fuel as [|fuel IH]; intros n acc; simpl; [done|].
  destruct (n / 10 =? 0); [done|].
  rewrite IH, (IH _ [_]). by rewrite <-app_assoc.
Qed.

Lemma to_dec_fuel_digits fuel n :
  0 <= n -> Forall (fun c => is_digit c = true) (to_dec_fuel fuel n []).
Proof.
  revert n. induction fuel as [|fuel IH]; intros n Hn; simpl; [constructor|].
  assert (is_digit (48 + n mod 10) = true) as Hd.
  { apply between_spec. pose proof (Z.mod_pos_bound n 10). lia. }
  destruct (n / 10 =? 0); [by repeat constructor|].
  rewrite to_dec_fuel_acc. apply Forall_app. split; [|by repeat constructor].
  apply IH. apply Z.div_pos; lia.
Qed.

Lemma to_dec_digits n : 0 <= n -> Forall (fun c => is_digit c = true) (to_dec n).
Proof. apply to_dec_fuel_digits. Qed.

Lemma to_dec_nonempty n : to_dec n <> [].
Proof.
  unfold to_dec. simpl. destruct (n / 10 =? 0); [done|].
  rewrite to_dec_fuel_acc. intros [_ ?]%app_eq_nil. done.
Qed.

(** The digit loop reads a concatenation digit by digit, as long as every
    prefix is in range. *)
Lemma parse_digits_app max acc s1 s2 :
  parse_digits max acc (s1 ++ s2) =
  match parse_digits max acc s1 with
  | Ok a => parse_digits max a s2
  | Err e => Err e
  end.
Proof.
  revert acc. induction s1 as [|c s1 IH]; intros acc; simpl; [done|].
  by destruct (negb _), (max <? acc * 10), (max <? acc * 10 + (c - 48)).
Qed.

Lemma parse_digits_to_dec_fuel max fuel n :
  0 <= n <= max -> n < 2 ^ Z.of_nat fuel -> (0 < fuel)%nat ->
  parse_digits max 0 (to_dec_fuel fuel n []) = Ok n.
Proof.
  revert n. induction fuel as [|fuel IH]; intros n Hn Hf Hpos; [lia|]. simpl.
  pose proof (Z.mod_pos_bound n 10 ltac:(lia)) as Hm.
  pose proof (Z.div_mod n 10 ltac:(lia)) as Hdm.
  assert (forall a, 0 <= a -> 10 * a + n mod 10 = n ->
    parse_digits max a [48 + n mod 10] = Ok n) as Hlast.
  { intros a Ha Heq. simpl.
    replace (is_digit (48 + n mod 10)) with true
      by (symmetry; apply between_spec; lia).
    simpl. bcase; try lia. f_equal. lia. }
  destruct (Z.eqb_spec (n / 10) 0) as [E|E]; [apply Hlast; lia|].
  assert (0 < n / 10) by (pose proof (Z.div_pos n 10); lia).
  destruct fuel as [|fuel]; [simpl in Hf; lia|].
  rewrite Nat2Z.inj_succ, Z.pow_succ_r in Hf by lia.
  rewrite to_dec_fuel_acc, parse_digits_app, IH by lia. apply Hlast; lia.
Qed.

Lemma is_digit_not_sign c : is_digit c = true -> (c =? 43) = false /\ (c =? 45) = false.
Proof. intros ?%between_spec. split; bcase; lia. Qed.

Lemma parse_uint_to_dec max n : 0 <= n <= max -> parse_uint max (to_dec n) = Ok n.
Proof.
  intros Hn.
  assert (parse_digits max 0 (to_dec n) = Ok n) as Hp.
  { apply parse_digits_to_dec_fuel; [done| |lia].
    rewrite Nat2Z.inj_succ, Z2Nat.id by apply Z.log2_nonneg.
    destruct (Z.eq_dec n 0) as [->|]; [done|]. apply Z.log2_spec. lia. }
  pose proof (to_dec_digits n ltac:(lia)) as Hd.
  destruct (to_dec n) as [|c s] eqn:E; [by destruct (to_dec_nonempty n)|].
  inversion Hd as [|?? Hc _]; subst.
  destruct (is_digit_not_sign c Hc) as [H1 H2].
  unfold parse_uint. rewrite H1, H2. by destruct s.
Qed.

Lemma parse_digits_range max acc s n :
  0 <= acc <= max -> parse_digits max acc s = Ok n -> 0 <= n <= max.
Proof.
  revert acc. induction s as [|c s IH]; intros acc Hacc; simpl; [by intros [= <-]|].
  destruct (is_digit c) eqn:Hc; simpl; [|done]. apply between_spec in Hc.
  bcase; try done. apply IH. lia.
Qed.

Lemma parse_uint_range max s n : 0 <= max -> parse_uint max s = Ok n -> 0 <= n <= max.
Proof.
  unfold parse_uint. intros Hm.
  destruct s as [|c [|c' s]]; [done| |].
  - destruct (_ || _); [done|]. apply parse_digits_range. lia.
  - destruct (c =? 43); apply parse_digits_range; lia.
Qed.

Lemma is_digit_word c : is_digit c = true -> is_whitespace c = false.
Proof.
  intros H%between_spec. unfold is_whitespace.
  rewrite !between_false by lia. by bcase; try lia.
Qed.

Lemma to_dec_word n : 0 <= n -> is_word (to_dec n).
Proof.
  intros Hn. split; [apply to_dec_nonempty|].
  eapply Forall_impl; [by apply to_dec_digits|apply is_digit_word].
Qed.

Lemma is_digit_ascii c : is_digit c = true -> is_ascii c.
Proof. intros ?%between_spec. unfold is_ascii. lia. Qed.

Lemma to_dec_ascii n : 0 <= n -> Forall is_ascii (to_dec n).
Proof.
  intros Hn. eapply Forall_impl; [by apply to_dec_digits|apply is_digit_ascii].
Qed.

Lemma to_dec_fuel_length fuel n k :
  0 <= n < 10 ^ Z.of_nat k -> (0 < k)%nat ->
  (length (to_dec_fuel fuel n []) <= k)%nat.
Proof.
  revert n k. induction fuel as [|fuel IH]; intros n k Hn Hk; simpl; [lia|].
  destruct (Z.eqb_spec (n / 10) 0); [simpl; lia|].
  rewrite to_dec_fuel_acc, length_app. simpl.
  destruct k as [|k]; [lia|].
  rewrite Nat2Z.inj_succ, Z.pow_succ_r in Hn by lia.
  pose proof (Z.div_pos n 10 ltac:(lia) ltac:(lia)).
  assert (n / 10 < 10 ^ Z.of_nat k) by (apply Z.div_lt_upper_bound; lia).
  destruct k as [|k]; [simpl in *; lia|].
  specialize (IH (n / 10) (S k)). lia.
Qed.

(** A [u64] prints in at most 20 digits, a [u128] in at most 39. *)
Lemma to_dec_length_u64 n : 0 <= n <= U64_MAX -> (length (to_dec n) <= 20)%nat.
Proof. intros. apply to_dec_fuel_length; [|lia]. unfold U64_MAX in *. lia. Qed.

Lemma to_dec_length_u128 n : 0 <= n <= U128_MAX -> (length (to_dec n) <= 39)%nat.
Proof. intros. apply to_dec_fuel_length; [|lia]. unfold U128_MAX in *. lia. Qed.

(** ** Trimming *)

Definition is_space (s : str) : Prop := Forall (fun c => is_whitespace c = true) s.

Lemma trim_start_spec s :
  exists pre, s = pre ++ trim_start s /\ is_space pre /\
    forall c, head (trim_start s) = Some c -> is_whitespace c = false.
Proof.
  unfold is_space. induction s as [|a s (pre & E & Hp & Hh)]; simpl; [by exists []|].
  destruct (is_whitespace a) eqn:Ha.
  - exists (a :: pre). rewrite E at 1. split; [done|]. split; [by constructor|done].
  - exists []. split; [done|]. split; [done|]. by intros c [= <-].
Qed.

Lemma trim_end_spec s :
  exists post, s = trim_end s ++ post /\ is_space post /\
    forall c, last (trim_end s) = Some c -> is_whitespace c = false.
Proof.
  assert (trim_end s = reverse (trim_start (reverse s))) as ->.
  { unfold trim_end, reverse. by rewrite !rev_alt. }
  destruct (trim_start_spec (reverse s)) as (pre & E & Hp & Hh).
  exists (reverse pre). split; [|split].
  - apply (f_equal reverse) in E. by rewrite reverse_involutive, reverse_app in E.
  - by apply Forall_reverse.
  - intros c. by rewrite last_reverse; apply Hh.
Qed.

(** What [trim] leaves has no white space at either end, and it removes
    nothing else. *)
Lemma trim_spec s :
  exists pre post, s = pre ++ trim s ++ post /\ is_space pre /\ is_space post /\
    (forall c, head (trim s) = Some c -> is_whitespace c = false) /\
    (forall c, last (trim s) = Some c -> is_whitespace c = false).
Proof.
  unfold trim.
  destruct (trim_start_spec s) as (pre & E1 & Hpre & Hh).
  destruct (trim_end_spec (trim_start s)) as (post & E2 & Hpost & Hl).
  exists pre, post. rewrite <-E2, <-E1. repeat (split; [done|]). split; [|done].
  intros c Hc. apply Hh. rewrite E2.
  destruct (trim_end (trim_start s)); [done|exact Hc].
Qed.

(** Text with no white space at either end is what [trim] finds in it. *)
Lemma trim_exact pre s post :
  is_space pre -> is_space post -> s <> [] ->
  (forall c, head s = Some c -> is_whitespace c = false) ->
  (forall c, last s = Some c -> is_whitespace c = false) ->
  trim (pre ++ s ++ post) = s.
Proof.
  intros Hpre Hpost Hne Hh Hl.
  assert (forall p r, is_space p -> trim_start (p ++ r) = trim_start r) as Hskip.
  { intros p r. induction 1 as [|c p Hc _ IH]; [done|]. simpl. by rewrite Hc. }
  assert (forall v r, v <> [] -> (forall c, head v = Some c -> is_whitespace c = false) ->
    trim_start (v ++ r) = v ++ r) as Hkeep.
  { intros [|c v] r Hv HF; [done|]. simpl. by rewrite (HF c eq_refl). }
  unfold trim, trim_end. rewrite Hskip, Hkeep by done.
  rewrite rev_app_distr, Hskip by by apply Forall_rev.
  rewrite <-(app_nil_r (rev s)), Hkeep, app_nil_r, rev_involutive; [done| |].
  - intros Hn. apply Hne. by rewrite <-(rev_involutive s), Hn.
  - intros c. assert (rev s = reverse s) as -> by (unfold reverse; by rewrite rev_alt).
    rewrite head_reverse. apply Hl.
Qed.

Lemma trim_word w pre post : is_word w -> is_space pre -> is_space post ->
  trim (pre ++ w ++ post) = w.
Proof.
  intros [Hne Hw] Hpre Hpost. apply trim_exact; try done.
  - intros c Hc. destruct w; [done|]. simplify_eq/=. by apply Forall_cons in Hw as [? _].
  - intros c Hc. apply last_Some in Hc as [w' ->].
    apply Forall_app in Hw as [_ Hw]. by apply Forall_cons in Hw as [? _].
Qed.

Lemma trim_empty s : is_empty (trim s) = true <-> is_space s.
Proof.
  destruct (trim_spec s) as (pre & post & E & Hpre & Hpost & Hh & _). split.
  - destruct (trim s); [|done]. intros _. rewrite E. by apply Forall_app.
  - intros Hs. destruct (trim s) as [|c r]; [done|]. exfalso.
    rewrite E in Hs. apply Forall_app in Hs as [_ Hs]. apply Forall_cons in Hs as [Hs _].
    by rewrite (Hh c eq_refl) in Hs.
Qed.

(** ** Words joined by spaces *)

Lemma split_join_spaces ws :
  Forall is_word ws -> ws <> [] -> split_whitespace (join_spaces ws) = ws.
Proof.
  induction ws as [|w ws IH]; [done|]. intros HF _. apply Forall_cons in HF as [Hw HF].
  destruct ws as [|w' ws]; [by apply split_whitespace_last|].
  change (join_spaces (w :: w' :: ws)) with (w ++ 32 :: join_spaces (w' :: ws)).
  rewrite split_whitespace_word by done. by rewrite IH.
Qed.

Lemma join_spaces_head w ws c :
  is_word w -> head (join_spaces (w :: ws)) = Some c -> is_whitespace c = false.
Proof.
  intros [Hne Hw] Hc. destruct w as [|a w]; [done|]. apply Forall_cons in Hw as [Ha _].
  destruct ws; simplify_eq/=; done.
Qed.

Lemma join_spaces_last ws c :
  Forall is_word ws -> last (join_spaces ws) = Some c -> is_whitespace c = false.
Proof.
  induction ws as [|w ws IH]; [done|]. intros HF Hc. apply Forall_cons in HF as [[Hne Hw] HF].
  destruct ws as [|w' ws].
  - apply last_Some in Hc as [w' E]. simpl in E. subst w.
    apply Forall_app in Hw as [_ Hw]. by apply Forall_cons in Hw as [? _].
  - apply IH; [done|]. rewrite <-Hc.
    change (join_spaces (w :: w' :: ws)) with (w ++ 32 :: join_spaces (w' :: ws)).
    rewrite last_app. change (32 :: ?l) with ([32] ++ l).
    apply Forall_cons in HF as [[Hne' _] _].
    assert (exists d, last (join_spaces (w' :: ws)) = Some d) as [d Hd].
    { destruct (last (join_spaces (w' :: ws))) eqn:El; [by eexists|].
      apply last_None in El. destruct w', ws; done. }
    by rewrite last_app, Hd.
Qed.

Lemma join_spaces_trim ws post :
  Forall is_word ws -> ws <> [] -> is_space post ->
  trim (join_spaces ws ++ post) = join_spaces ws.
Proof.
  intros HF Hne Hpost. destruct ws as [|w ws]; [done|].
  change (trim (join_spaces (w :: ws) ++ post))
    with (trim ([] ++ join_spaces (w :: ws) ++ post)).
  apply trim_exact; [constructor|done| | |].
  - apply Forall_cons in HF as [[? _] _]. destruct w, ws; done.
  - intros c. apply join_spaces_head. by apply Forall_cons in HF as [? _].
  - intros c. by apply join_spaces_last.
Qed.
