(* ===== verification/World.v ===== *)
(** * Effects: what the program asks of its environment

    LiteVPN is asynchronous code around calls to quinn, tokio, tun-rs and the
    operating system, none of which is part of the repository. Every such
    call is a constructor of [Op X], where [X] is the type of its answer; an
    asynchronous function is a tree ([prog]) that performs calls and goes on
    with their answers. Nothing is assumed of an answer: an [env] is any
    function from the calls made so far to the next answer, and a theorem
    that needs documented behaviour of a library states it as a hypothesis on
    the [env]. Running a program yields its outcome and its history, the list
    of calls with their answers; what the program did (the datagrams it sent,
    the bytes it wrote to a stream) is read off the history. *)

From S2P Require Import Prelude.

(** Connections, streams and endpoints are handles. *)
Abbreviation conn := Z (only parsing).
Abbreviation sid := Z (only parsing).

(** [quinn::ConnectionStats], the fields the program reads. *)
Record stats := mk_stats {
  udp_tx_datagrams : Z;
  udp_tx_bytes : Z;
  udp_rx_datagrams : Z;
  udp_rx_bytes : Z;
  lost_packets : Z;
  lost_bytes : Z;
  congestion_events : Z;
  cwnd : Z;
  rtt_ns : Z;
  current_mtu : Z;
  frame_tx_datagram : Z;
  frame_rx_datagram : Z;
}.

(** [std::process::Output]: exit status, stdout, stderr (lossily decoded). *)
Record output := mk_output {
  out_success : bool;
  out_stdout : str;
  out_stderr : str;
}.

(** [std::net::Ipv4Addr]. *)
Record Ipv4Addr := ipv4_new { octet0 : Z; octet1 : Z; octet2 : Z; octet3 : Z }.

#[global] Instance Ipv4Addr_eq_dec : EqDecision Ipv4Addr.
Proof. solve_decision. Defined.

(** The calls on tun-rs's [DeviceBuilder]. *)
Inductive tun_setting : Type :=
| LayerL3
| TunMtu (n : Z)
| TunIpv4 (addr : Ipv4Addr) (prefix : Z) (destination : option Ipv4Addr)
| TunName (n : str)
| PacketInformation (b : bool)
| TunOffload (b : bool)
| MultiQueue (b : bool)
| TxQueueLen (n : Z)
| AssociateRoute (b : bool)
| Persist (b : bool).

(** The setters [tune_transport] and [transport_config] call on quinn's
    [TransportConfig], in order; durations in nanoseconds. *)
Inductive transport_setting : Type :=
| MaxConcurrentBidiStreams (n : Z)
| MaxConcurrentUniStreams (n : Z)
| KeepAliveInterval (ns : option Z)
| MaxIdleTimeout (ns : option Z)
| InitialMtu (n : Z)
| ReceiveWindow (n : Z)
| StreamReceiveWindow (n : Z)
| SendWindow (n : Z)
| EnableSegmentationOffload (b : bool)
| SendFairness (b : bool)
| CongestionControllerBbr
| DatagramReceiveBufferSize (n : option Z)
| DatagramSendBufferSize (n : Z).

(** What quinn's [ServerConfig] and [ClientConfig] are made of. *)
Record QuicServerConfig := mk_quic_server {
  server_certs : list bytes;
  server_key : bytes;
  server_alpn : list bytes;
  server_transport : list transport_setting;
}.
Record QuicClientConfig := mk_quic_client {
  client_roots : list bytes;
  client_alpn : list bytes;
  client_transport : list transport_setting;
}.

(** The limit of a bounded wait: [timeout(duration, ..)] (nanoseconds) and
    [timeout_at(instant, ..)]. *)
Inductive time_limit : Type :=
| Within (ns : Z)
| Until (t : Z).

(** The answer of a library call that can fail: its error is opaque. *)
Abbreviation ext A := (result A str).

Inductive Op : Type -> Type :=
(** tokio: the clock (nanoseconds) and sleeping. *)
| Now : Op Z
| Sleep (ns : Z) : Op unit
| SleepUntil (t : Z) : Op unit
(** tokio: whether a bounded wait of this limit ends before the future makes
    its next call, and which of two concurrently polled futures makes the next call. *)
| Expired (limit : time_limit) : Op bool
| Poll : Op bool
(** tun-rs: [recv] into a buffer of the given size, [send], and building the
    device. *)
| TunRecv (cap : Z) : Op (ext bytes)
| TunSend (packet : bytes) : Op (ext Z)
| BuildAsync (builder : list tun_setting) : Op (ext unit)
(** quinn: connections. *)
| ConnStats (c : conn) : Op stats
| MaxDatagramSize (c : conn) : Op (option Z)
| SendDatagramWait (c : conn) (data : bytes) : Op (ext unit)
| ReadDatagram (c : conn) : Op (ext bytes)
| Closed (c : conn) : Op str
| Close (c : conn) (code : Z) (reason : str) : Op unit
| OpenBi (c : conn) : Op (ext (sid * sid))
| AcceptBi (c : conn) : Op (ext (sid * sid))
| OpenUni (c : conn) : Op (ext sid)
| AcceptUni (c : conn) : Op (ext sid)
(** quinn: streams. *)
| WriteAll (s : sid) (data : bytes) : Op (ext unit)
| WriteAllChunks (s : sid) (chunks : list bytes) : Op (ext unit)
| Write (s : sid) (data : bytes) : Op (ext Z)
| Finish (s : sid) : Op (ext unit)
| Stopped (s : sid) : Op (ext (option Z))
| Read (s : sid) (cap : Z) : Op (ext (option bytes))
| ReadToEnd (s : sid) (limit : Z) : Op (ext bytes)
(** Connecting: socket, endpoint (with the configuration of a server, or none,
    and the one to connect with), the start of a connection, idling. *)
| SocketNew (ipv6 : bool) : Op (ext Z)
| SetOnlyV6 (socket : Z) (only : bool) : Op (ext unit)
| SetRecvBufferSize (socket n : Z) : Op (ext unit)
| SetSendBufferSize (socket n : Z) : Op (ext unit)
| Bind (socket : Z) (addr : str) : Op (ext unit)
| EndpointNew (server_config : option QuicServerConfig) (socket : Z) : Op (ext Z)
| SetDefaultClientConfig (endpoint : Z) (client_config : QuicClientConfig) : Op unit
| StartConnect (endpoint : Z) (addr server_name : str) : Op (ext Z)
| WaitIdle (endpoint : Z) : Op unit
(** Accepting: an incoming connection; the handshake, on either side. *)
| IncomingAccept (incoming : Z) : Op (ext Z)
| Handshake (connecting : Z) : Op (ext conn)
(** The state the server's tasks share: [next_client_id.fetch_add(1)], and the
    two sections under the lock of [active] (taking the client's place, giving
    it up). *)
| NextClientId : Op Z
| ReplaceActive (id : Z) (c : conn) : Op (option (Z * conn))
| ClearActive (id : Z) : Op unit
(** tokio: the handler of SIGTERM, its signal, Ctrl+C. *)
| SignalTerminate : Op (ext unit)
| TerminateRecv : Op unit
| CtrlC : Op (ext unit)
(** Files and commands. *)
| ReadToString (path : str) : Op (ext str)
| Command (program : str) (args : list str) : Op (ext output)
(** A line on the standard output. *)
| Println (line : str) : Op (ext unit)
(** rustls and its PEM reader: an open file, the certificates and the private
    key in it; a root certificate accepted; the configurations accepted. *)
| OpenFile (path : str) : Op (ext Z)
| PemCerts (file : Z) : Op (ext (list bytes))
| PemPrivateKey (file : Z) : Op (ext (option bytes))
| AddRoot (cert : bytes) : Op (ext unit)
| SingleCert (certs : list bytes) (key : bytes) : Op (ext unit)
| QuicServerCrypto : Op (ext unit)
| QuicClientCrypto : Op (ext unit)
(** The accept loop: [endpoint.accept()], [tokio::spawn] of a client's task. *)
| Accept (endpoint : Z) : Op (option Z)
| SpawnTask (incoming : Z) : Op unit
(** Key generation: a directory, a self-signed certificate with its key (both
    as PEM text), random bytes, files and their modes. *)
| CreateDirAll (path : str) : Op (ext unit)
| GenerateCert (server_name : str) : Op (ext (str * str))
| GetRandom (n : Z) : Op (ext bytes)
| WriteFile (path : str) (content : bytes) : Op (ext unit)
| SetPermissions (path : str) (mode : Z) : Op (ext unit).

Inductive event : Type :=
| Ev {X : Type} (o : Op X) (x : X).

Abbreviation history := (list event).

Definition env : Type := forall X : Type, history -> Op X -> X.

(** ** Programs *)

Inductive prog (A : Type) : Type :=
| Ret (a : A)
| Vis {X : Type} (o : Op X) (k : X -> prog A).
Arguments Ret {A} a.
Arguments Vis {A X} o k.

Fixpoint pbind {A B} (p : prog A) (f : A -> prog B) : prog B :=
  match p with
  | Ret a => f a
  | Vis o k => Vis o (fun x => pbind (k x) f)
  end.

(** How a function ends: it returns [Ok] or [Err], it panics, or the fuel of
    one of its loops is used up (it is still running). *)
Inductive outcome (A : Type) : Type :=
| Val (a : A)
| Fail (e : error)
| Panic (m : str)
| Running.
Arguments Val {A} a.
Arguments Fail {A} e.
Arguments Panic {A} m.
Arguments Running {A}.

Definition M (A : Type) : Type := prog (outcome A).

Definition ret {A} (a : A) : M A := Ret (Val a).

(** [.await?]: go on with the value; an error, a panic or an unfinished loop
    ends the caller too. *)
Definition bind {A B} (m : M A) (f : A -> M B) : M B :=
  pbind m (fun r =>
    match r with
    | Val a => f a
    | Fail e => Ret (Fail e)
    | Panic w => Ret (Panic w)
    | Running => Ret Running
    end).

Notation "x <- m ; k" := (bind m (fun x => k))
  (at level 20, m at level 100, k at level 200, right associativity,
   format "x  <-  m ;  '/' k").
Notation "' p <- m ; k" := (bind m (fun p => k))
  (at level 20, p pattern, m at level 100, k at level 200,
   right associativity).
Notation "m ;; k" := (bind m (fun _ => k))
  (at level 100, k at level 200, right associativity,
   format "m ;;  '/' k").

(** One call. *)
Definition perform {X} (o : Op X) : M X := Vis o (fun x => ret x).

Definition fail {A} (e : error) : M A := Ret (Fail e).
Definition panic {A} (m : string) : M A := Ret (Panic (lit m)).

(** A pure [Result] with [?]. *)
Definition lift {A} (r : res A) : M A :=
  match r with
  | Ok a => ret a
  | Err e => fail e
  end.

(** [f().await?] and [f().await.context(m)?] on a library call. *)
Definition call {A} (o : Op (ext A)) : M A :=
  Vis o (fun r => match r with Ok a => ret a | Err e => fail (External e) end).
Definition call_context {A} (m : string) (o : Op (ext A)) : M A :=
  Vis o (fun r => lift (context_ext m r)).

(** [f().await.with_context(|| m)?] with a message made at run time. *)
Definition call_with_context {A} (m : str) (o : Op (ext A)) : M A :=
  Vis o (fun r => match r with Ok a => ret a | Err e => fail (Context m (External e)) end).

(** [println!]: a line that cannot be written is a panic. *)
Definition println (line : str) : M unit :=
  Vis (Println line) (fun r =>
    match r with
    | Ok _ => ret tt
    | Err e => Ret (Panic (lit "failed printing to stdout: " ++ e))
    end).

(** The error of [timeout] when the wait has elapsed. *)
Definition elapsed_error : error := External (lit "deadline has elapsed").

(** [match f().await { Ok(a) => .., Err(e) => .. }] on a function of the
    program, and [f().await.context(m)]. *)
Definition catch {A} (m : M A) : M (res A) :=
  pbind m (fun r =>
    match r with
    | Val a => ret (Ok a)
    | Fail e => ret (Err e)
    | Panic w => Ret (Panic w)
    | Running => Ret Running
    end).

(** [loop]: the body says [inl] to go round again with a new state, [inr] to
    leave the loop. *)
Fixpoint loop {S A} (fuel : nat) (body : S -> M (S + A)) (s : S) : M A :=
  match fuel with
  | O => Ret Running
  | Datatypes.S fuel' =>
    r <- body s;
    match r with
    | inl s' => loop fuel' body s'
    | inr a => ret a
    end
  end.

(** [tokio::time::timeout(..)] and a branch of [tokio::select!] that can lose:
    before each call of the future the wait may end, and the future is then
    dropped with the calls it has made. [None] is the elapsed case. *)
Fixpoint cuttable {A} (limit : time_limit) (p : prog A) : prog (option A) :=
  match p with
  | Ret a => Ret (Some a)
  | Vis o k =>
    Vis (Expired limit) (fun cut : bool =>
      if cut then Ret None else Vis o (fun x => cuttable limit (k x)))
  end.

Definition timeout {A} (limit : time_limit) (m : M A) : M (option (res A)) :=
  pbind (cuttable limit m) (fun r =>
    match r with
    | None => ret None
    | Some (Val a) => ret (Some (Ok a))
    | Some (Fail e) => ret (Some (Err e))
    | Some (Panic w) => Ret (Panic w)
    | Some Running => Ret Running
    end).

(** [tokio::select!] of two futures that both run: each call is made by the
    one the scheduler polls, and the first to finish ends the race. *)
Fixpoint race {A B} (p : prog A) : prog B -> prog (A + B) :=
  fix race_right (q : prog B) : prog (A + B) :=
    match p, q with
    | Ret a, _ => Ret (inl a)
    | _, Ret b => Ret (inr b)
    | Vis o k, Vis o' k' =>
      Vis Poll (fun left : bool =>
        if left then Vis o (fun x => race (k x) q)
        else Vis o' (fun y => race_right (k' y)))
    end.

Definition select2 {A} (m1 m2 : M A) : M A :=
  pbind (race m1 m2) (fun r => Ret (match r with inl o => o | inr o => o end)).

(** ** Running a program *)

Fixpoint run {A} (E : env) (h : history) (p : prog A) : A * history :=
  match p with
  | Ret a => (a, h)
  | Vis o k => let x := E _ h o in run E (h ++ [Ev o x]) (k x)
  end.

(** Weakest precondition: [Q] holds of the outcome and the history. *)
Definition wp {A} (E : env) (h : history) (p : prog A) (Q : A -> history -> Prop) : Prop :=
  Q (run E h p).1 (run E h p).2.

Section Wp.
Context (E : env).

Lemma run_pbind {A B} (p : prog A) (f : A -> prog B) h :
  run E h (pbind p f) = run E (run E h p).2 (f (run E h p).1).
Proof. revert h. induction p as [a|X o k IH]; intros h; simpl; [done|apply IH]. Qed.

(** Running only adds events. *)
Lemma run_extends {A} (p : prog A) h : exists t, (run E h p).2 = h ++ t.
Proof.
  revert h. induction p as [a|X o k IH]; intros h; simpl.
  - exists []. by rewrite app_nil_r.
  - destruct (IH (E X h o) (h ++ [Ev o (E X h o)])) as [t ->].
    exists (Ev o (E X h o) :: t). by rewrite <-app_assoc.
Qed.

Lemma wp_ret {A} (a : A) h (Q : A -> history -> Prop) : Q a h -> wp E h (Ret a) Q.
Proof. done. Qed.

Lemma wp_vis {A X} (o : Op X) (k : X -> prog A) h Q :
  wp E (h ++ [Ev o (E X h o)]) (k (E X h o)) Q -> wp E h (Vis o k) Q.
Proof. done. Qed.

Lemma wp_pbind {A B} (p : prog A) (f : A -> prog B) h Q :
  wp E h p (fun a h' => wp E h' (f a) Q) -> wp E h (pbind p f) Q.
Proof. unfold wp. by rewrite run_pbind. Qed.

Lemma wp_mono {A} (p : prog A) h (Q Q' : A -> history -> Prop) :
  wp E h p Q -> (forall a h', Q a h' -> Q' a h') -> wp E h p Q'.
Proof. unfold wp. auto. Qed.

Lemma wp_and {A} (p : prog A) h (Q Q' : A -> history -> Prop) :
  wp E h p Q -> wp E h p Q' -> wp E h p (fun a h' => Q a h' /\ Q' a h').
Proof. done. Qed.

(** The rule for [?]: the continuation runs on a value, and every other
    outcome is the outcome of the whole. *)
Lemma wp_bind {A B} (m : M A) (f : A -> M B) h (Q : outcome B -> history -> Prop) :
  wp E h m (fun r h' =>
    match r with
    | Val a => wp E h' (f a) Q
    | Fail e => Q (Fail e) h'
    | Panic w => Q (Panic w) h'
    | Running => Q Running h'
    end) ->
  wp E h (bind m f) Q.
Proof.
  intros H. apply wp_pbind. eapply wp_mono; [exact H|].
  intros [] h'; done.
Qed.

(** What a part keeps, the rest may use. *)
Lemma wp_keep (P : history -> Prop) {A B} (m : M A) (f : A -> M B) h
    (Q : outcome B -> history -> Prop) :
  wp E h m (fun _ h' => P h') ->
  (forall a h', P h' -> wp E h' (f a) Q) ->
  (forall r h', match r with Val _ => False | _ => True end -> Q r h') ->
  wp E h (bind m f) Q.
Proof.
  intros Hm Hf HQ. apply wp_bind. eapply wp_mono; [exact Hm|].
  intros r h' HP. destruct r; [by apply Hf|by apply HQ..].
Qed.

(** The loop rule: an invariant kept by every round. *)
Lemma wp_loop {S A} fuel (body : S -> M (S + A)) s h
    (I : S -> history -> Prop) (Q : outcome A -> history -> Prop) :
  I s h ->
  (forall s h, I s h ->
    wp E h (body s) (fun r h' =>
      match r with
      | Val (inl s') => I s' h'
      | Val (inr a) => Q (Val a) h'
      | Fail e => Q (Fail e) h'
      | Panic w => Q (Panic w) h'
      | Running => Q Running h'
      end)) ->
  (forall s h, I s h -> Q Running h) ->
  wp E h (loop fuel body s) Q.
Proof.
  intros HI Hbody Hfuel. revert s h HI.
  induction fuel as [|fuel IH]; intros s h HI; simpl.
  - apply wp_ret. eauto.
  - apply wp_bind. eapply wp_mono; [by apply Hbody|].
    intros [[s'|a]| | |] h' HQ; try done. by apply IH.
Qed.

(** The total rule: a measure that every further round decreases, below the
    fuel, so the loop does leave. *)
Lemma wp_loop_total {S A} fuel (body : S -> M (S + A)) s h
    (I : S -> history -> Prop) (measure : S -> history -> nat)
    (Q : outcome A -> history -> Prop) :
  I s h -> (measure s h < fuel)%nat ->
  (forall s h, I s h ->
    wp E h (body s) (fun r h' =>
      match r with
      | Val (inl s') => I s' h' /\ (measure s' h' < measure s h)%nat
      | Val (inr a) => Q (Val a) h'
      | Fail e => Q (Fail e) h'
      | Panic w => Q (Panic w) h'
      | Running => Q Running h'
      end)) ->
  wp E h (loop fuel body s) Q.
Proof.
  intros HI Hm Hbody. revert s h HI Hm.
  induction fuel as [|fuel IH]; intros s h HI Hm; simpl; [lia|].
  apply wp_bind. eapply wp_mono; [by apply Hbody|].
  intros [[s'|a]| | |] h' HQ; try done.
  destruct HQ as [HI' Hm']. apply IH; [done|lia].
Qed.
End Wp.

(** Take the program in a [wp] goal one construct further. *)
Ltac wp_step :=
  lazymatch goal with
  | |- wp _ _ (bind _ _) _ => apply wp_bind
  | |- wp _ _ (pbind _ _) _ => apply wp_pbind
  | |- wp _ _ (perform _) _ => apply wp_vis, wp_ret
  | |- wp _ _ (call _) _ => apply wp_vis
  | |- wp _ _ (call_context _ _) _ => apply wp_vis
  | |- wp _ _ (Vis _ _) _ => apply wp_vis
  | |- wp _ _ (Ret _) _ => apply wp_ret
  | |- wp _ _ (ret _) _ => apply wp_ret
  | |- wp _ _ (fail _) _ => apply wp_ret
  | |- wp _ _ (panic _) _ => apply wp_ret
  end.
Ltac wp_steps := repeat (wp_step; cbv beta).

(** ** Reading a history *)

Definition observe {B} (f : forall X, Op X -> X -> list B) (h : history) : list B :=
  flat_map (fun e => match e with Ev o x => f _ o x end) h.

Lemma observe_app {B} (f : forall X, Op X -> X -> list B) h1 h2 :
  observe f (h1 ++ h2) = observe f h1 ++ observe f h2.
Proof. apply flat_map_app. Qed.

Lemma observe_one {B} (f : forall X, Op X -> X -> list B) X (o : Op X) (x : X) :
  observe f [Ev o x] = f X o x.
Proof. apply app_nil_r. Qed.

(** The packets read from and written to the TUN device. *)
Definition tun_received : history -> list bytes :=
  observe (fun X o =>
    match o in Op X return X -> list bytes with
    | TunRecv _ => fun r => match r with Ok p => [p] | Err _ => [] end
    | _ => fun _ => []
    end).

Definition tun_sent : history -> list bytes :=
  observe (fun X o =>
    match o in Op X return X -> list bytes with
    | TunSend p => fun r => match r with Ok _ => [p] | Err _ => [] end
    | _ => fun _ => []
    end).

(** The datagrams queued on and received from a connection. *)
Definition datagrams_sent (c : conn) : history -> list bytes :=
  observe (fun X o =>
    match o in Op X return X -> list bytes with
    | SendDatagramWait c' p => fun r =>
        match r with Ok _ => if c' =? c then [p] else [] | Err _ => [] end
    | _ => fun _ => []
    end).

Definition datagrams_received (c : conn) : history -> list bytes :=
  observe (fun X o =>
    match o in Op X return X -> list bytes with
    | ReadDatagram c' => fun r =>
        match r with Ok p => if c' =? c then [p] else [] | Err _ => [] end
    | _ => fun _ => []
    end).

(** The bytes written to and read from a stream. *)
Definition stream_written (s : sid) : history -> bytes :=
  observe (fun X o =>
    match o in Op X return X -> bytes with
    | WriteAll s' d => fun r =>
        match r with Ok _ => if s' =? s then d else [] | Err _ => [] end
    | WriteAllChunks s' ds => fun r =>
        match r with Ok _ => if s' =? s then concat ds else [] | Err _ => [] end
    | Write s' d => fun r =>
        match r with
        | Ok n => if s' =? s then take (Z.to_nat n) d else []
        | Err _ => []
        end
    | _ => fun _ => []
    end).

Definition stream_read (s : sid) : history -> bytes :=
  observe (fun X o =>
    match o in Op X return X -> bytes with
    | Read s' _ => fun r =>
        match r with Ok (Some d) => if s' =? s then d else [] | _ => [] end
    | _ => fun _ => []
    end).

(** The connections closed by the program, with their reasons. *)
Definition closes : history -> list (conn * str) :=
  observe (fun X o =>
    match o in Op X return X -> list (conn * str) with
    | Close c _ reason => fun _ => [(c, reason)]
    | _ => fun _ => []
    end).

(** The commands run, in order. *)
Definition commands_run : history -> list (str * list str) :=
  observe (fun X o =>
    match o in Op X return X -> list (str * list str) with
    | Command p args => fun _ => [(p, args)]
    | _ => fun _ => []
    end).

(** The earliest time it can be after a history: clock readings and sleeps. *)
Definition time_floor (h : history) : Z :=
  fold_left (fun t e =>
    match e with
    | Ev o x =>
      (match o in Op X return X -> Z with
       | Now => fun now => Z.max t now
       | SleepUntil u => fun _ => Z.max t u
       | Sleep d => fun _ => t + d
       | _ => fun _ => t
       end) x
    end) h 0.

(** 2^62 seconds, in nanoseconds: far below the largest [Instant]. *)
Definition TIME_MAX : Z := 2 ^ 62 * 1000000000.

(** tokio's clock: non-negative, monotonic, [sleep_until] does not return early, and no
    reading jumps past [TIME_MAX] from before it. *)
Definition clock_ok (E : env) : Prop :=
  forall h, 0 <= E Z h Now /\ time_floor h <= E Z h Now /\
    (time_floor h <= TIME_MAX -> E Z h Now <= TIME_MAX).

Lemma time_floor_snoc h e :
  time_floor (h ++ [e]) =
  match e with
  | Ev o x =>
    (match o in Op X return X -> Z with
     | Now => fun now => Z.max (time_floor h) now
     | SleepUntil u => fun _ => Z.max (time_floor h) u
     | Sleep d => fun _ => time_floor h + d
     | _ => fun _ => time_floor h
     end) x
  end.
Proof. unfold time_floor. rewrite fold_left_app. done. Qed.

Create Rewrite HintDb hist.
#[export] Hint Rewrite @observe_app @observe_one app_nil_r : hist.

(** Compute an observation of a history extended by known events. *)
Ltac hist_simpl :=
  unfold tun_received, tun_sent, datagrams_sent, datagrams_received,
    stream_written, stream_read, closes, commands_run in *;
  autorewrite with hist in *; cbn [app] in *.

(** ** Time *)

Definition NANOS_PER_SEC : Z := 1000000000.
Definition secs (n : Z) : Z := n * NANOS_PER_SEC.
Definition millis (n : Z) : Z := n * 1000000.

(** [Instant + Duration] panics when the seconds leave [i64]. *)
Definition instant_add (t d : Z) : M Z :=
  if (t + d) / NANOS_PER_SEC <=? I64_MAX then ret (t + d)
  else panic "overflow when adding duration to instant".

(** ** A quiet environment

    Every fallible call fails and every wait goes on; concrete environments
    override the calls they are about. *)
Definition quiet : env := fun X _ o =>
  match o in Op X return X with
  | Now => 0
  | Sleep _ => tt
  | SleepUntil _ => tt
  | Expired _ => false
  | Poll => true
  | TunRecv _ => Err []
  | TunSend _ => Err []
  | BuildAsync _ => Err []
  | ConnStats _ => mk_stats 0 0 0 0 0 0 0 0 0 0 0 0
  | MaxDatagramSize _ => None
  | SendDatagramWait _ _ => Err []
  | ReadDatagram _ => Err []
  | Closed _ => []
  | Close _ _ _ => tt
  | OpenBi _ => Err []
  | AcceptBi _ => Err []
  | OpenUni _ => Err []
  | AcceptUni _ => Err []
  | WriteAll _ _ => Err []
  | WriteAllChunks _ _ => Err []
  | Write _ _ => Err []
  | Finish _ => Err []
  | Stopped _ => Err []
  | Read _ _ => Err []
  | ReadToEnd _ _ => Err []
  | SocketNew _ => Err []
  | SetOnlyV6 _ _ => Err []
  | SetRecvBufferSize _ _ => Err []
  | SetSendBufferSize _ _ => Err []
  | Bind _ _ => Err []
  | EndpointNew _ _ => Err []
  | SetDefaultClientConfig _ _ => tt
  | StartConnect _ _ _ => Err []
  | WaitIdle _ => tt
  | IncomingAccept _ => Err []
  | Handshake _ => Err []
  | NextClientId => 0
  | ReplaceActive _ _ => None
  | ClearActive _ => tt
  | SignalTerminate => Err []
  | TerminateRecv => tt
  | CtrlC => Err []
  | ReadToString _ => Err []
  | Command _ _ => Err []
  | Println _ => Ok tt
  | OpenFile _ => Err []
  | PemCerts _ => Err []
  | PemPrivateKey _ => Err []
  | AddRoot _ => Err []
  | SingleCert _ _ => Err []
  | QuicServerCrypto => Err []
  | QuicClientCrypto => Err []
  | Accept _ => None
  | SpawnTask _ => tt
  | CreateDirAll _ => Err []
  | GenerateCert _ => Err []
  | GetRandom _ => Err []
  | WriteFile _ _ => Err []
  | SetPermissions _ _ => Err []
  end.

(** The quiet environment with a clock that stands still between sleeps. *)
Definition ticking : env := fun X h o =>
  match o in Op X return X -> X with
  | Now => fun _ => Z.max 0 (time_floor h)
  | _ => fun x => x
  end (quiet X h o).

Lemma ticking_clock : clock_ok ticking.
Proof. intros h. unfold ticking. assert (0 <= TIME_MAX) by done. lia. Qed.

(** ** Waiting

    The events of code that only waits: they send and receive nothing. *)
Definition is_wait_op : forall X, Op X -> bool := fun X o =>
  match o with
  | Sleep d => 0 <=? d
  | Now | SleepUntil _ | Poll | Expired _ | ConnStats _ | Closed _ | MaxDatagramSize _ => true
  | _ => false
  end.
Definition is_wait (e : event) : Prop :=
  match e with Ev o _ => is_wait_op _ o = true end.
Definition only_waits (t : history) : Prop := Forall is_wait t.


(** [h'] continues [h] with waits only. *)
Definition waited (h h' : history) : Prop := exists t, h' = h ++ t /\ only_waits t.

Lemma waited_refl h : waited h h.
Proof. exists []. split; [by rewrite app_nil_r|constructor]. Qed.

Lemma waited_one h e : is_wait e -> waited h (h ++ [e]).
Proof. intros. exists [e]. split; [done|by repeat constructor]. Qed.

#[global] Instance waited_trans : Transitive waited.
Proof.
  intros h1 h2 h3 (t1 & -> & H1) (t2 & -> & H2). exists (t1 ++ t2).
  rewrite <-app_assoc. split; [done|]. by apply Forall_app.
Qed.

(** Time does not turn back while waiting. *)
Lemma waited_time h h' : waited h h' -> time_floor h <= time_floor h'.
Proof.
  intros (t & -> & Ht). induction t as [|e t IH] using rev_ind; [by rewrite app_nil_r|].
  apply Forall_app in Ht as [Ht He]. apply Forall_cons in He as [He _].
  rewrite app_assoc, time_floor_snoc. specialize (IH Ht).
  destruct e as [X o x]. destruct o; simpl in *; try done; lia.
Qed.

(** Go on with each answer of the scheduler; show that a history continues
    another with the waits seen. *)
Ltac case_poll :=
  match goal with
  | |- context [if ?b then _ else _] =>
    lazymatch b with _ _ _ Poll => destruct b end
  end.

Ltac waits := rewrite <- ?app_assoc; eexists; split; [reflexivity|repeat first [done|constructor]].

(** ** What a program can call

    [all_ops P p]: every call [p] can make, whatever the answers, is in [P]. *)
Fixpoint all_ops (P : forall X, Op X -> bool) {A} (p : prog A) : Prop :=
  match p with
  | Ret _ => True
  | Vis o k => P _ o = true /\ forall x, all_ops P (k x)
  end.

Section AllOps.
Context (P : forall X, Op X -> bool).

Lemma all_ops_run {A} E (p : prog A) : forall h, all_ops P p ->
  exists t, (run E h p).2 = h ++ t /\
    Forall (fun e => match e with Ev o _ => P _ o = true end) t.
Proof.
  induction p as [a|X o k IH]; intros h Hp; simpl.
  - exists []. by rewrite app_nil_r.
  - destruct Hp as [Ho Hk].
    destruct (IH (E X h o) (h ++ [Ev o (E X h o)]) (Hk _)) as (t & -> & Ht).
    exists (Ev o (E X h o) :: t). rewrite <-app_assoc. split; [done|by constructor].
Qed.

Lemma all_ops_pbind {A B} (p : prog A) (f : A -> prog B) :
  all_ops P p -> (forall a, all_ops P (f a)) -> all_ops P (pbind p f).
Proof.
  induction p as [a|X o k IH]; intros Hp Hf; simpl; [done|].
  destruct Hp as [Ho Hk]. split; [done|]. intros x. by apply IH.
Qed.

Lemma all_ops_bind {A B} (m : M A) (f : A -> M B) :
  all_ops P m -> (forall a, all_ops P (f a)) -> all_ops P (bind m f).
Proof. intros. apply all_ops_pbind; [done|]. by intros []. Qed.

Lemma all_ops_perform {X} (o : Op X) : P _ o = true -> all_ops P (perform o).
Proof. by split. Qed.

Lemma all_ops_call {X} (o : Op (ext X)) : P _ o = true -> all_ops P (call o).
Proof. split; [done|]. by intros []. Qed.

Lemma all_ops_call_context {X} m (o : Op (ext X)) : P _ o = true -> all_ops P (call_context m o).
Proof. split; [done|]. by intros []. Qed.

Lemma all_ops_call_with_context {X} m (o : Op (ext X)) :
  P _ o = true -> all_ops P (call_with_context m o).
Proof. split; [done|]. by intros []. Qed.

Lemma all_ops_println line : P _ (Println line) = true -> all_ops P (println line).
Proof. split; [done|]. by intros []. Qed.

Lemma all_ops_lift {A} (r : res A) : all_ops P (lift r).
Proof. by destruct r. Qed.

Lemma all_ops_catch {A} (m : M A) : all_ops P m -> all_ops P (catch m).
Proof. intros H. apply all_ops_pbind; [done|]. by intros []. Qed.

Lemma all_ops_loop {S A} fuel (body : S -> M (S + A)) :
  (forall s, all_ops P (body s)) -> forall s, all_ops P (loop fuel body s).
Proof.
  intros Hb. induction fuel as [|fuel IH]; intros s; simpl; [done|].
  apply all_ops_bind; [done|]. by intros [].
Qed.

Lemma all_ops_timeout {A} limit (m : M A) :
  P _ (Expired limit) = true -> all_ops P m -> all_ops P (timeout limit m).
Proof.
  intros He Hm. apply all_ops_pbind; [|by intros [[]|]].
  unfold M in m. induction m as [a|X o k IH]; simpl; [done|].
  destruct Hm as [Ho Hk]. split; [done|]. intros []; [done|]. split; [done|auto].
Qed.

Lemma all_ops_race {A B} (p : prog A) : forall q : prog B,
  P _ Poll = true -> all_ops P p -> all_ops P q -> all_ops P (race p q).
Proof.
  induction p as [a|X o k IH]; intros q Hpoll Hp Hq; [by destruct q|].
  induction q as [b|Y o' k' IH']; [done|].
  destruct Hp as [Ho Hk], Hq as [Ho' Hk'].
  split; [done|]. intros [].
  - split; [done|]. intros x. apply IH; [done|done|by split].
  - split; [done|]. intros y. apply IH'. apply Hk'.
Qed.

Lemma all_ops_select2 {A} (m1 m2 : M A) :
  P _ Poll = true -> all_ops P m1 -> all_ops P m2 -> all_ops P (select2 m1 m2).
Proof. intros. apply all_ops_pbind; [by apply all_ops_race|]. by intros [|]. Qed.
End AllOps.

Lemma all_ops_mono (P Q : forall X, Op X -> bool) {A} (p : prog A) :
  (forall X (o : Op X), P _ o = true -> Q _ o = true) -> all_ops P p -> all_ops Q p.
Proof.
  intros HPQ. induction p as [a|X o k IH]; [done|]. intros [Ho Hk].
  split; [by apply HPQ|]. intros x. apply IH, Hk.
Qed.

(** Walk through a program, call by call. *)
Ltac ops_step :=
  lazymatch goal with
  | |- all_ops _ (bind _ _) => apply all_ops_bind; [|intros ?]
  | |- all_ops _ (pbind _ _) => apply all_ops_pbind; [|intros ?]
  | |- all_ops _ (perform _) => apply all_ops_perform; reflexivity
  | |- all_ops _ (call _) => apply all_ops_call; reflexivity
  | |- all_ops _ (call_context _ _) => apply all_ops_call_context; reflexivity
  | |- all_ops _ (call_with_context _ _) => apply all_ops_call_with_context; reflexivity
  | |- all_ops _ (lift _) => apply all_ops_lift
  | |- all_ops _ (println _) => apply all_ops_println; reflexivity
  | |- all_ops _ (catch _) => apply all_ops_catch
  | |- all_ops _ (loop _ _ _) => apply all_ops_loop; intros ?
  | |- all_ops _ (timeout _ _) => apply all_ops_timeout; [reflexivity|]
  | |- all_ops _ (select2 _ _) => apply all_ops_select2; [reflexivity| |]
  | |- all_ops _ (ret _) => exact I
  | |- all_ops _ (fail _) => exact I
  | |- all_ops _ (panic _) => exact I
  | |- all_ops _ (Ret _) => exact I
  | |- all_ops _ (Vis _ _) => split; [reflexivity|intros ?]
  | |- all_ops _ (if ?b then _ else _) => destruct b
  | |- all_ops _ (match ?x with _ => _ end) => destruct x
  | |- all_ops _ (let _ := _ in _) => cbv zeta
  | |- forall _, _ => intros ?
  end.
Ltac ops := repeat ops_step; auto with vpn.

(** The functions of the library are in [calls] with the smallest class of
    what they call; any larger class follows. *)
#[export] Hint Extern 3 (all_ops _ _) =>
  eapply all_ops_mono; cycle 1; [solve [eauto with calls nocore]|intros ? [] ?; done] : vpn.

(** Programs that only wait. *)
Abbreviation waiting p := (all_ops is_wait_op p).

Lemma instant_add_waiting t d : waiting (instant_add t d).
Proof. unfold instant_add. ops. Qed.
#[export] Hint Resolve instant_add_waiting : calls.

Lemma waiting_waited {A} E (p : prog A) h :
  waiting p -> wp E h p (fun _ h' => waited h h').
Proof.
  intros Hp. destruct (all_ops_run is_wait_op E p h Hp) as (t & Et & Ht).
  exists t. split; [exact Et|]. exact Ht.
Qed.

(** An observer that waits do not concern sees nothing of them. *)
Lemma waits_observe {B} (f : forall X, Op X -> X -> list B) t :
  (forall X (o : Op X) x, is_wait (Ev o x) -> f X o x = []) ->
  only_waits t -> observe f t = [].
Proof.
  intros Hf Ht. induction Ht as [|[X o x] t He _ IH]; [done|].
  unfold observe in *. simpl. by rewrite Hf, IH.
Qed.

Lemma waits_unseen t : only_waits t ->
  tun_received t = [] /\ tun_sent t = [] /\ (forall c, datagrams_sent c t = []) /\
  (forall c, datagrams_received c t = []) /\ (forall s, stream_written s t = []) /\
  (forall s, stream_read s t = []).
Proof.
  intros Ht.
  split_and!; intros; (apply waits_observe; [|done]); intros X [] x Hx; done.
Qed.

Lemma tun_received_app h1 h2 : tun_received (h1 ++ h2) = tun_received h1 ++ tun_received h2.
Proof. apply observe_app. Qed.
Lemma tun_sent_app h1 h2 : tun_sent (h1 ++ h2) = tun_sent h1 ++ tun_sent h2.
Proof. apply observe_app. Qed.
Lemma datagrams_sent_app c h1 h2 :
  datagrams_sent c (h1 ++ h2) = datagrams_sent c h1 ++ datagrams_sent c h2.
Proof. apply observe_app. Qed.
Lemma datagrams_received_app c h1 h2 :
  datagrams_received c (h1 ++ h2) = datagrams_received c h1 ++ datagrams_received c h2.
Proof. apply observe_app. Qed.
Lemma stream_written_app s h1 h2 :
  stream_written s (h1 ++ h2) = stream_written s h1 ++ stream_written s h2.
Proof. apply observe_app. Qed.
Lemma stream_read_app s h1 h2 : stream_read s (h1 ++ h2) = stream_read s h1 ++ stream_read s h2.
Proof. apply observe_app. Qed.
#[export] Hint Rewrite tun_received_app tun_sent_app datagrams_sent_app datagrams_received_app
  stream_written_app stream_read_app app_nil_r : hist.

(** Forget the waits in an observed history. *)
Ltac unseen :=
  repeat match goal with
  | H : only_waits ?w |- context [?w] =>
    let Eq := fresh in
    pose proof (waits_unseen w H) as Eq; destruct Eq as (?Ew & ?Ew & ?Ew & ?Ew & ?Ew & ?Ew);
    clear H
  end;
  autorewrite with hist;
  repeat match goal with
  | E : tun_received ?w = [] |- context [tun_received ?w] => rewrite E
  | E : tun_sent ?w = [] |- context [tun_sent ?w] => rewrite E
  | E : forall c, datagrams_sent c ?w = [] |- context [datagrams_sent _ ?w] => rewrite E
  | E : forall c, datagrams_received c ?w = [] |- context [datagrams_received _ ?w] => rewrite E
  | E : forall s, stream_written s ?w = [] |- context [stream_written _ ?w] => rewrite E
  | E : forall s, stream_read s ?w = [] |- context [stream_read _ ?w] => rewrite E
  end;
  autorewrite with hist; cbn [app].

(** Every event of a run is an answer of the environment. *)
Lemma run_answers {A} (E : env) (p : prog A) : forall h,
  exists t, (run E h p).2 = h ++ t /\
    Forall (fun e => exists X (o : Op X) h1, e = Ev o (E X h1 o)) t.
Proof.
  induction p as [a|X o k IH]; intros h; simpl.
  - exists []. by rewrite app_nil_r.
  - destruct (IH (E X h o) (h ++ [Ev o (E X h o)])) as (t & -> & Ht).
    exists (Ev o (E X h o) :: t). rewrite <-app_assoc. split; [done|].
    constructor; [by eexists X, o, h|done].
Qed.

(** The packets received in a run have what every answer of the device has. *)
Lemma received_answers {A} (E : env) (p : prog A) (P : bytes -> Prop) h t :
  (forall h cap q, E _ h (TunRecv cap) = Ok q -> P q) ->
  (run E h p).2 = h ++ t -> Forall P (tun_received t).
Proof.
  intros HP Hrun. destruct (run_answers E p h) as (t' & Ht' & Hall).
  rewrite Hrun in Ht'. apply app_inv_head in Ht' as <-.
  clear Hrun. induction Hall as [|e t (X & o & h1 & ->) _ IH]; [constructor|].
  change (?e :: t) with ([e] ++ t). rewrite tun_received_app.
  apply Forall_app. split; [|exact IH].
  unfold tun_received. rewrite observe_one. destruct o; try constructor.
  destruct (E _ h1 (TunRecv cap)) eqn:Er; [|constructor].
  constructor; [by eapply HP|constructor].
Qed.
