(* ===== verification/Follow.v ===== *)
(** * Parts of runs

    A future in a [tokio::select!] or under a [timeout] makes its calls between
    the calls of others, and may be dropped before it ends. It is followed here
    call by call: the trace of a race is a merge of a trace of each side, the
    trace of a future that can be cut is a trace of the future with the
    scheduler's decisions in between, and each such trace is the beginning of
    a run of the future alone. What is proved of a program that runs alone is
    so carried over to its part in a race. *)

From S2P Require Import Prelude World.

(** ** Following a program for some calls

    Each call is answered by [E] at the history given for it, whichever that
    is. The result is the trace and what is left of the program. *)
Fixpoint follow (E : env) (hs : list history) {A} (p : prog A) : history * prog A :=
  match hs, p with
  | h :: hs, Vis o k =>
    let x := E _ h o in
    let '(t, p') := follow E hs (k x) in (Ev o x :: t, p')
  | _, _ => ([], p)
  end.

Section Follow.
Context (E : env).

Lemma follow_cons h hs {A X} (o : Op X) (k : X -> prog A) :
  follow E (h :: hs) (Vis o k) =
  (Ev o (E X h o) :: (follow E hs (k (E X h o))).1, (follow E hs (k (E X h o))).2).
Proof. cbn. by destruct (follow E hs (k (E X h o))). Qed.

Lemma follow_ret hs {A} (a : A) : follow E hs (Ret a) = ([], Ret a).
Proof. by destruct hs. Qed.

(** A run is followed at the histories it goes through. *)
Lemma run_followed {A} (p : prog A) : forall h, exists hs,
  (run E h p).2 = h ++ (follow E hs p).1 /\ (follow E hs p).2 = Ret (run E h p).1.
Proof.
  induction p as [a|X o k IH]; intros h.
  - exists []. by rewrite app_nil_r.
  - destruct (IH (E X h o) (h ++ [Ev o (E X h o)])) as (hs & Et & Er).
    exists (h :: hs). rewrite follow_cons. cbn [run fst snd]. rewrite Et.
    split; [by rewrite <-app_assoc|exact Er].
Qed.

(** [pbind] is followed in two parts. *)
Lemma follow_pbind {A B} (p : prog A) (f : A -> prog B) : forall hs, exists hs1,
  (exists t, (follow E hs (pbind p f)).1 = (follow E hs1 p).1 ++ t /\
    (t = [] \/ exists a hs2, (follow E hs1 p).2 = Ret a /\ t = (follow E hs2 (f a)).1)).
Proof.
  induction p as [a|X o k IH]; intros hs.
  - exists [], (follow E hs (f a)).1. split; [done|]. right. by exists a, hs.
  - destruct hs as [|h hs].
    + exists [], []. split; [done|by left].
    + destruct (IH (E X h o) hs) as (hs1 & t & Et & Ht). exists (h :: hs1), t.
      cbn [pbind]. rewrite !follow_cons. cbn [fst snd]. rewrite Et. by split.
Qed.

(** When what follows makes no calls, only the first part has any. *)
Lemma follow_pbind_ret {A B} (p : prog A) (f : A -> prog B) hs :
  (forall a, exists b, f a = Ret b) ->
  exists hs1, (follow E hs (pbind p f)).1 = (follow E hs1 p).1.
Proof.
  intros Hf. destruct (follow_pbind p f hs) as (hs1 & t & -> & [->|(a & hs2 & _ & ->)]);
    exists hs1; [by rewrite app_nil_r|].
  destruct (Hf a) as [b ->]. by rewrite follow_ret, app_nil_r.
Qed.

(** [t] is a merge of [t1] and [t2] and of the scheduler's decisions. *)
Inductive merged : history -> history -> history -> Prop :=
| merged_nil : merged [] [] []
| merged_left e t1 t2 t : merged t1 t2 t -> merged (e :: t1) t2 (e :: t)
| merged_right e t1 t2 t : merged t1 t2 t -> merged t1 (e :: t2) (e :: t)
| merged_poll b t1 t2 t : merged t1 t2 t -> merged t1 t2 (Ev Poll b :: t).

Lemma follow_race {A B} n : forall hs (p : prog A) (q : prog B), (length hs <= n)%nat ->
  exists hs1 hs2, merged (follow E hs1 p).1 (follow E hs2 q).1 (follow E hs (race p q)).1.
Proof.
  induction n as [n IH] using lt_wf_ind. intros hs p q Hn.
  destruct p as [a|X o k]; [exists [], []; destruct q, hs; constructor|].
  destruct q as [b|Y o' k']; [exists [], []; destruct hs; constructor|].
  destruct hs as [|h hs]; [exists [], []; constructor|].
  cbn [race]. rewrite follow_cons. cbn [fst].
  destruct (E bool h Poll).
  - destruct hs as [|h' hs]; [exists [], []; apply merged_poll, merged_nil|].
    rewrite follow_cons. cbn [fst].
    destruct (IH (length hs) ltac:(cbn in Hn; lia) hs (k (E X h' o)) (Vis o' k') ltac:(lia))
      as (hs1 & hs2 & Hm).
    exists (h' :: hs1), hs2. rewrite follow_cons. cbn [fst]. by apply merged_poll, merged_left.
  - destruct hs as [|h' hs]; [exists [], []; apply merged_poll, merged_nil|].
    rewrite follow_cons. cbn [fst].
    destruct (IH (length hs) ltac:(cbn in Hn; lia) hs (Vis o k) (k' (E Y h' o')) ltac:(lia))
      as (hs1 & hs2 & Hm).
    exists hs1, (h' :: hs2). rewrite follow_cons. cbn [fst]. by apply merged_poll, merged_right.
Qed.

Lemma follow_select2 {A} hs (m1 m2 : M A) :
  exists hs1 hs2, merged (follow E hs1 m1).1 (follow E hs2 m2).1 (follow E hs (select2 m1 m2)).1.
Proof.
  destruct (follow_pbind_ret (race m1 m2)
    (fun r => Ret (match r with inl o => o | inr o => o end)) hs) as [hs' E'].
  { intros a. by eexists. }
  unfold select2. rewrite E'. by apply (follow_race (length hs')).
Qed.

(** Following makes only calls the program can make. *)
Lemma follow_ops (P : forall X, Op X -> bool) {A} (p : prog A) : forall hs, all_ops P p ->
  Forall (fun e => match e with Ev o _ => P _ o = true end) (follow E hs p).1.
Proof.
  induction p as [a|X o k IH]; intros hs Hp; [rewrite follow_ret; constructor|].
  destruct hs as [|h hs]; [constructor|]. rewrite follow_cons. destruct Hp as [Ho Hk].
  constructor; [done|]. apply IH, Hk.
Qed.
End Follow.

(** ** What an observer sees of a merge *)

Definition silent {B} (f : forall X, Op X -> X -> list B) (e : event) : Prop :=
  match e with Ev o x => f _ o x = [] end.

Lemma observe_cons {B} (f : forall X, Op X -> X -> list B) X (o : Op X) x t :
  observe f (Ev o x :: t) = f X o x ++ observe f t.
Proof. done. Qed.

Lemma observe_silent {B} (f : forall X, Op X -> X -> list B) t :
  Forall (silent f) t -> observe f t = [].
Proof.
  induction 1 as [|[X o x] t He _ IH]; [done|]. rewrite observe_cons, IH.
  unfold silent in He. by rewrite He.
Qed.

Lemma merged_observe_left {B} (f : forall X, Op X -> X -> list B) t1 t2 t :
  (forall b, f bool Poll b = []) -> merged t1 t2 t -> Forall (silent f) t2 ->
  observe f t = observe f t1.
Proof.
  intros Hp. induction 1 as [|[X o x] ? ? ? _ IH|[X o x] ? ? ? _ IH|b ? ? ? _ IH];
    intros Hs; [done| | |]; rewrite !observe_cons.
  - by rewrite IH.
  - apply Forall_cons in Hs as [He Hs]. unfold silent in He. by rewrite He, IH.
  - by rewrite Hp, IH.
Qed.

Lemma merged_observe_right {B} (f : forall X, Op X -> X -> list B) t1 t2 t :
  (forall b, f bool Poll b = []) -> merged t1 t2 t -> Forall (silent f) t1 ->
  observe f t = observe f t2.
Proof.
  intros Hp. induction 1 as [|[X o x] ? ? ? _ IH|[X o x] ? ? ? _ IH|b ? ? ? _ IH];
    intros Hs; [done| | |]; rewrite !observe_cons.
  - apply Forall_cons in Hs as [He Hs]. unfold silent in He. by rewrite He, IH.
  - by rewrite IH.
  - by rewrite Hp, IH.
Qed.

(** ** A trace as the beginning of a run

    The run goes on, after the trace, in an environment of one's choice. *)
Definition patched (E after : env) (hs : list history) : env := fun X h o =>
  match hs !! length h with
  | Some h' => E X h' o
  | None => after X h o
  end.

Definition answered_by (E : env) (e : event) : Prop :=
  exists X (o : Op X) h, e = Ev o (E X h o).

Lemma patched_after E after hs {A} (p : prog A) : forall h, (length hs <= length h)%nat ->
  exists t, (run (patched E after hs) h p).2 = h ++ t /\ Forall (answered_by after) t /\
    (t = [] -> exists a, p = Ret a).
Proof.
  induction p as [a|X o k IH]; intros h Hh; cbn [run snd].
  - exists []. rewrite app_nil_r. split; [done|]. split; [done|]. by exists a.
  - assert (patched E after hs X h o = after X h o) as ->
      by (unfold patched; by rewrite lookup_ge_None_2).
    destruct (IH (after X h o) (h ++ [Ev o (after X h o)])) as (t & -> & Ht & _).
    { rewrite length_app. cbn. lia. }
    exists (Ev o (after X h o) :: t). rewrite <-app_assoc. split; [done|].
    split; [constructor; [by eexists X, o, h|done]|done].
Qed.

Lemma follow_begins_run E after {A} (p : prog A) : forall hs done h,
  length h = length done ->
  exists t, (run (patched E after (done ++ hs)) h p).2 = h ++ (follow E hs p).1 ++ t /\
    Forall (answered_by after) t /\ (t = [] -> exists a, (follow E hs p).2 = Ret a).
Proof.
  induction p as [a|X o k IH]; intros hs done h Hh.
  - exists []. rewrite follow_ret, app_nil_r. split; [done|]. split; [done|]. by exists a.
  - destruct hs as [|h' hs].
    + rewrite app_nil_r. destruct (patched_after E after done (Vis o k) h ltac:(lia)) as (t & -> & Ht).
      by exists t.
    + rewrite follow_cons. cbn [fst run].
      assert (patched E after (done ++ h' :: hs) X h o = E X h' o) as ->
        by (unfold patched; by rewrite Hh, lookup_app_r, Nat.sub_diag by lia).
      destruct (IH (E X h' o) hs (done ++ [h']) (h ++ [Ev o (E X h' o)])) as (t & Et & Ht).
      { rewrite !length_app. cbn. lia. }
      rewrite <-app_assoc in Et. cbn [app] in Et. exists t. rewrite Et, <-app_assoc. by split.
Qed.

(** What holds of every answer of both environments holds of the patched one. *)
Lemma patched_answers E after hs {X} (o : Op X) (P : X -> Prop) :
  (forall h, P (E X h o)) -> (forall h, P (after X h o)) -> forall h, P (patched E after hs X h o).
Proof. intros H1 H2 h. unfold patched. destruct (hs !! length h); auto. Qed.

(** ** What comes after a trace *)

(** After the trace nothing works any more, but the capacity is the same. *)
Definition severed (max : option Z) : env := fun X h o =>
  match o in Op X return X -> X with
  | MaxDatagramSize _ => fun _ => max
  | _ => fun x => x
  end (quiet X h o).

Lemma severed_unseen max c t : Forall (answered_by (severed max)) t ->
  tun_received t = [] /\ datagrams_sent c t = [] /\ tun_sent t = [] /\ datagrams_received c t = [].
Proof.
  intros Ht. split_and!; apply observe_silent; (eapply Forall_impl; [exact Ht|]);
    intros e (X & o & h & ->); by destruct o.
Qed.

Lemma follow_answered (E : env) {A} (p : prog A) : forall hs,
  Forall (answered_by E) (follow E hs p).1.
Proof.
  induction p as [a|X o k IH]; intros hs; [rewrite follow_ret; constructor|].
  destruct hs as [|h hs]; [constructor|]. rewrite follow_cons. constructor; [|apply IH].
  by exists X, o, h.
Qed.


(** ** Futures that can be cut *)

(** [t] is [t1] with the timer's decisions before each event: to wait, but
    for the last. *)
Inductive timed : history -> history -> Prop :=
| timed_nil : timed [] []
| timed_decision l b : timed [] [Ev (Expired l) b]
| timed_event l e t1 t : timed t1 t -> timed (e :: t1) (Ev (Expired l) false :: e :: t).

Lemma timed_observe {B} (f : forall X, Op X -> X -> list B) t1 t :
  (forall l b, f bool (Expired l) b = []) -> timed t1 t -> observe f t = observe f t1.
Proof.
  intros Hf. induction 1 as [|l b|l [X o x] t1 t _ IH]; [done|..]; rewrite !observe_cons, Hf; [done|].
  by rewrite IH.
Qed.

Lemma follow_cuttable (E : env) {A} l (p : prog A) : forall hs, exists hs1,
  timed (follow E hs1 p).1 (follow E hs (cuttable l p)).1 /\
  (forall a, (follow E hs (cuttable l p)).2 = Ret (Some a) -> (follow E hs1 p).2 = Ret a) /\
  ((follow E hs (cuttable l p)).2 = Ret None -> forall a, (follow E hs1 p).2 <> Ret a).
Proof.
  induction p as [a|X o k IH]; intros hs.
  - exists []. cbn [cuttable]. rewrite !follow_ret. split; [constructor|]. split; [|done].
    by intros ? [= ->].
  - cbn [cuttable]. destruct hs as [|h hs]; [exists []; split; [constructor|done]|].
    rewrite follow_cons. cbn [fst snd]. destruct (E bool h (Expired l)) eqn:Hx.
    { exists []. rewrite follow_ret. split; [constructor|done]. }
    destruct hs as [|h' hs]; [exists []; split; [constructor|done]|].
    rewrite follow_cons. cbn [fst snd].
    destruct (IH (E X h' o) hs) as (hs1 & Ht & Hr). exists (h' :: hs1). rewrite follow_cons.
    split; [by constructor|exact Hr].
Qed.

(** A program followed to its end is a run. *)
Lemma follow_ends_run E after {A} (p : prog A) : forall hs done h a,
  length h = length done -> (follow E hs p).2 = Ret a ->
  run (patched E after (done ++ hs)) h p = (a, h ++ (follow E hs p).1).
Proof.
  induction p as [a|X o k IH]; intros hs done h b Hh Hb.
  - rewrite follow_ret in *. injection Hb as ->. by rewrite app_nil_r.
  - destruct hs as [|h' hs]; [done|]. rewrite follow_cons in *. cbn [fst snd run] in *.
    assert (patched E after (done ++ h' :: hs) X h o = E X h' o) as ->
      by (unfold patched; by rewrite Hh, lookup_app_r, Nat.sub_diag by lia).
    pose proof (IH (E X h' o) hs (done ++ [h']) (h ++ [Ev o (E X h' o)]) b) as H.
    rewrite <- !app_assoc in H. cbn [app] in H. apply H; [|done].
    rewrite !length_app. cbn. lia.
Qed.

(** The trace of [timeout m] is, but for the timer's decisions, a trace [t1]
    that begins a run of [m] in a patched environment: the whole run when the
    timer did not cut it, and then with its result. *)
Lemma timeout_follows (E after : env) {A} l (m : M A) h :
  exists hs t t1 t2, (run E h (timeout l m)).2 = h ++ t /\ timed t1 t /\
    (run (patched E after hs) [] m).2 = t1 ++ t2 /\ Forall (answered_by after) t2 /\
    match (run E h (timeout l m)).1 with
    | Val None => t2 <> []
    | Val (Some (Ok a)) => t2 = [] /\ (run (patched E after hs) [] m).1 = Val a
    | Val (Some (Err e)) => t2 = [] /\ (run (patched E after hs) [] m).1 = Fail e
    | Panic w => t2 = [] /\ (run (patched E after hs) [] m).1 = Panic w
    | Running => t2 = [] /\ (run (patched E after hs) [] m).1 = Running
    | Fail _ => False
    end.
Proof.
  unfold timeout. rewrite run_pbind.
  destruct (run_followed E (cuttable l m) h) as (hs0 & Et & Er).
  destruct (follow_cuttable E l m hs0) as (hs & Ht & Hr & Hcut).
  set (r := (run E h (cuttable l m)).1) in *.
  destruct (follow_begins_run E after m hs [] [] eq_refl) as (t2 & E2 & H2 & Hnil).
  cbn [app] in E2.
  assert (forall a, r = Some a -> t2 = [] /\ (run (patched E after hs) [] m).1 = a) as Hend.
  { intros a Ha. rewrite Ha in Er. specialize (Hr a Er).
    pose proof (follow_ends_run E after m hs [] [] a eq_refl Hr) as H. cbn [app] in H.
    rewrite H in *. cbn [snd fst] in *. split; [|done].
    rewrite <- (app_nil_r (follow E hs m).1) in E2 at 1. by apply app_inv_head in E2 as <-. }
  exists hs, (follow E hs0 (cuttable l m)).1, (follow E hs m).1, t2.
  destruct r as [[a|e|w|]|]; cbn [run fst snd]; rewrite Et; (split; [done|]; split; [done|];
    split; [done|]; split; [done|]); [by apply Hend..|].
  intros ->. destruct (Hnil eq_refl) as [a Ha]. by apply (Hcut Er a).
Qed.
