(* ===== verification/Stall.v ===== *)
(** * Calls that never answer

    [run] gives every call an answer. An await on the peer need not have one:
    a stream is never opened, a write is held up by flow control, a connection
    goes silent. Here a program runs against an environment [E] and a
    predicate [S] that says which of these awaits never complete; the program
    then hangs, unless the await is under a time limit, whose timer fires, or
    is a branch of a [tokio::select!] whose other branch can go on. [safe]
    bounds the calls a program can hang at, whatever [E] and [S] are. *)

From S2P Require Import Prelude World.

(** The calls that wait for the peer, the device or the user. Every other call
    is synchronous, or waits for a timer of its own. *)
Definition patient : forall X, Op X -> bool := fun X o =>
  match o with
  | TunRecv _ | TunSend _ | SendDatagramWait _ _ | ReadDatagram _ | Closed _
  | OpenBi _ | AcceptBi _ | OpenUni _ | AcceptUni _
  | WriteAll _ _ | WriteAllChunks _ _ | Write _ _ | Stopped _ | Read _ _ | ReadToEnd _ _
  | WaitIdle _ | Handshake _ | Accept _ | TerminateRecv | CtrlC => true
  | _ => false
  end.

(** Calls that are neither choices of the scheduler nor timers of a limit. *)
Definition single : forall X, Op X -> bool := fun X o =>
  match o with Poll | Expired _ => false | _ => true end.

Inductive pending_call : Type :=
| Call {X : Type} (o : Op X).

(** A run comes to an end, or hangs at some calls (several in a select). *)
Inductive ending (A : Type) : Type :=
| Ended (a : A)
| Hung (calls : list pending_call).
Arguments Ended {A} a.
Arguments Hung {A} calls.

Section Stalling.
Context (E : env) (S : forall X, history -> Op X -> bool).

(** Whether a call can make no progress, given which continuations cannot: a
    select when neither branch can, a time limit never. *)
Definition halted {X} (h : history) (o : Op X) (stuck : X -> bool) : bool :=
  match o in Op X return (X -> bool) -> bool -> bool with
  | Poll => fun stuck _ => stuck true && stuck false
  | Expired _ => fun _ _ => false
  | _ => fun _ s => s
  end stuck (patient X o && S X h o).

Fixpoint blocked (h : history) {A} (p : prog A) : bool :=
  match p with
  | Ret _ => false
  | Vis o k => halted h o (fun x => blocked (h ++ [Ev o x]) (k x))
  end.

(** The answers: those of [E], but a select goes on with the branch that can,
    and a timer fires when what it guards cannot go on. *)
Definition answer {X} (h : history) (o : Op X) (stuck : X -> bool) : X :=
  match o in Op X return (X -> bool) -> X -> X with
  | Poll => fun stuck b => if stuck b then negb b else b
  | Expired _ => fun stuck b => b || stuck false
  | _ => fun _ x => x
  end stuck (E X h o).

(** The calls a program hangs at. *)
Fixpoint pending {A} (p : prog A) : list pending_call :=
  match p with
  | Ret _ => []
  | Vis o k =>
    match o in Op X return (X -> list pending_call) -> list pending_call with
    | Poll => fun calls => calls true ++ calls false
    | Expired _ => fun _ => []
    | o => fun _ => [Call o]
    end (fun x => pending (k x))
  end.

Fixpoint wait_run {A} (h : history) (p : prog A) : ending A * history :=
  match p with
  | Ret a => (Ended a, h)
  | Vis o k =>
    let stuck x := blocked (h ++ [Ev o x]) (k x) in
    if halted h o stuck then (Hung (pending p), h)
    else let x := answer h o stuck in wait_run (h ++ [Ev o x]) (k x)
  end.
End Stalling.

(** Calls that go on, in front of the rest of a program. *)
Section Steps.
Context (E : env) (S : forall X, history -> Op X -> bool).

Lemma wait_run_perform {X B} h (o : Op X) (f : X -> M B) :
  single X o = true -> patient X o && S X h o = false ->
  wait_run E S h (bind (perform o) f) = wait_run E S (h ++ [Ev o (E X h o)]) (f (E X h o)).
Proof. intros Hs Hp. destruct o; try done; cbn [bind perform pbind wait_run halted]; by rewrite Hp. Qed.

Lemma wait_run_call_context {X B} h m (o : Op (ext X)) a (f : X -> M B) :
  single _ o = true -> patient _ o && S _ h o = false -> E _ h o = Ok a ->
  wait_run E S h (bind (call_context m o) f) = wait_run E S (h ++ [Ev o (Ok a)]) (f a).
Proof.
  intros Hs Hp Ho. transitivity (wait_run E S h (bind (perform o)
    (fun r => bind (lift (context_ext m r)) f))).
  - unfold bind, perform, call_context. cbn [pbind]. reflexivity.
  - rewrite wait_run_perform by done. by rewrite Ho.
Qed.

(** A select of two calls that never answer. *)
Lemma wait_run_select {A X Y} h (k : bool -> prog A) (o : Op X) (o' : Op Y) k1 k2 :
  k true = Vis o k1 -> k false = Vis o' k2 -> single X o = true -> single Y o' = true ->
  patient X o && S X (h ++ [Ev Poll true]) o = true ->
  patient Y o' && S Y (h ++ [Ev Poll false]) o' = true ->
  wait_run E S h (Vis Poll k) = (Hung [Call o; Call o'], h).
Proof.
  intros E1 E2 Ho Ho' Hs Hs'.
  assert (forall {Z} (q : Op Z) (r : Z -> prog A) h, single Z q = true ->
    patient Z q && S Z h q = true -> blocked S h (Vis q r) = true) as Hb
    by (intros Z q r h0 H1 H2; destruct q; done).
  assert (forall {Z} (q : Op Z) (r : Z -> prog A), single Z q = true -> pending (Vis q r) = [Call q]) as Hc
    by (intros Z q r H1; by destruct q).
  cbn [wait_run halted pending]. rewrite E1, E2, !Hb, !Hc by done. done.
Qed.
End Steps.

(** ** A run that ends is a run

    in an environment that answers the same, but for the choices of selects
    and for timers that fire earlier. *)

Definition hastens (E E' : env) : Prop := forall X h (o : Op X),
  match o in Op X return X -> X -> Prop with
  | Poll => fun _ _ => True
  | Expired _ => fun a a' => a = true -> a' = true
  | _ => eq
  end (E X h o) (E' X h o).

Lemma run_agree {A} (E E' : env) (p : prog A) : forall h,
  (forall X h' (o : Op X), (length h <= length h')%nat -> E X h' o = E' X h' o) ->
  run E h p = run E' h p.
Proof.
  induction p as [a|X o k IH]; intros h Heq; [done|]. cbn [run].
  rewrite <- (Heq X h o) by lia. apply IH. intros Y h' o' Hle. apply Heq.
  rewrite length_app in Hle. lia.
Qed.

(** [E'], but for the choice or timer answered after [n] events. *)
Definition answering (E : env) (n : nat) {Y} (o : Op Y) (y : Y) (E' : env) : env := fun X h o' =>
  match o' in Op X return X -> X -> X with
  | Poll => fun _ b =>
      if decide (length h = n)
      then match o in Op Y return Y -> bool with Poll => fun y => y | _ => fun _ => b end y else b
  | Expired _ => fun a b =>
      if decide (length h = n)
      then a || match o in Op Y return Y -> bool with Expired _ => fun y => y | _ => fun _ => b end y
      else b
  | _ => fun _ x => x
  end (E X h o') (E' X h o').

Lemma answering_later E n {Y} (o : Op Y) y E' X h (o' : Op X) :
  (n < length h)%nat -> answering E n o y E' X h o' = E' X h o'.
Proof.
  intros Hn. unfold answering. destruct o'; try done; by rewrite decide_False by lia.
Qed.

Lemma answering_hastens E n {Y} (o : Op Y) y E' : hastens E E' -> hastens E (answering E n o y E').
Proof.
  intros H X h o'. specialize (H X h o'). unfold answering. destruct o'; try exact H; cbn in *.
  intros Ha. rewrite Ha in *. destruct (decide _); [done|by apply H].
Qed.

Lemma answering_now E E' {X} h (o : Op X) stuck : hastens E E' ->
  answering E (length h) o (answer E h o stuck) E' X h o = answer E h o stuck.
Proof.
  intros H. specialize (H X h o). unfold answering, answer. destruct o; try (by rewrite <- H);
    rewrite decide_True by done; [|done].
  by destruct (E _ h _).
Qed.

Lemma wait_run_ends E S {A} (p : prog A) : forall h a h', wait_run E S h p = (Ended a, h') ->
  exists E', hastens E E' /\ run E' h p = (a, h').
Proof.
  induction p as [a|X o k IH]; intros h b h'; cbn [wait_run run].
  { intros [= -> ->]. exists E. split; [|done]. intros X h0 o. by destruct o. }
  destruct (halted S h o _); [done|]. set (x := answer E h o _). intros Hrun.
  destruct (IH x (h ++ [Ev o x]) b h' Hrun) as (E' & H & Hr).
  exists (answering E (length h) o x E'). split; [by apply answering_hastens|].
  unfold x at 2 3. rewrite answering_now by done. fold x. rewrite <- Hr. apply run_agree.
  intros Y h0 o' Hl. apply answering_later. rewrite length_app in Hl. cbn in Hl. lia.
Qed.

(** ** Where a program can hang *)

(** Whether a program could be blocked: what follows a branch is unknown. *)
Fixpoint may_block {A} (p : prog A) : bool :=
  match p with
  | Ret _ => true
  | Vis o k =>
    match o in Op X return (X -> bool) -> bool -> bool with
    | Poll => fun may _ => may true && may false
    | Expired _ => fun _ _ => false
    | _ => fun _ b => b
    end (fun x => may_block (k x)) (patient _ o)
  end.

(** A choice made, or a timer that has not fired, goes on with a call that is
    not blocked. *)
Definition exempts {X} (o : Op X) : X -> bool :=
  match o in Op X return X -> bool with
  | Poll => fun _ => true
  | Expired _ => negb
  | _ => fun _ => false
  end.

Section Safe.
Context (Q : pending_call -> bool).

Abbreviation allowed p := (forallb Q (pending p) = true).

(** Every call at which the program can hang is in [Q]. [exempt]: its first
    call is known to go on. *)
Fixpoint safe (exempt : bool) {A} (p : prog A) : Prop :=
  match p with
  | Ret _ => True
  | Vis o k =>
    (exempt = false -> may_block (Vis o k) = true -> allowed (Vis o k)) /\
    forall x, safe (exempts o x) (k x)
  end.

Lemma blocked_may_block S {A} (p : prog A) : forall h, blocked S h p = true -> may_block p = true.
Proof.
  induction p as [a|X o k IH]; intros h; [done|]. cbn [blocked may_block].
  destruct o; cbn; try done; rewrite ?andb_true_iff; try tauto.
  intros [H1 H2]. split; by eapply IH.
Qed.

Lemma answer_goes_on E S {X} h (o : Op X) stuck :
  halted S h o stuck = false -> exempts o (answer E h o stuck) = true ->
  stuck (answer E h o stuck) = false.
Proof.
  destruct o; try done; unfold halted, answer, exempts.
  - destruct (E bool h _); [done|]. cbn. by destruct (stuck false) eqn:E1.
  - intros H _. destruct (E bool h _); cbn; destruct (stuck true) eqn:E1, (stuck false) eqn:E2; done.
Qed.

Lemma safe_hung E S {A} (p : prog A) : forall exempt h calls h',
  safe exempt p -> (exempt = true -> blocked S h p = false) ->
  wait_run E S h p = (Hung calls, h') -> forallb Q calls = true.
Proof.
  induction p as [a|X o k IH]; intros exempt h calls h' Hs Hex; cbn [wait_run]; [done|].
  destruct Hs as [Hnow Hlater].
  destruct (halted S h o _) eqn:Hh.
  - change (blocked S h (Vis o k) = true) in Hh. intros [= <- _].
    apply Hnow; [destruct exempt; [by rewrite Hex in Hh|done]|by apply (blocked_may_block S _ h)].
  - set (x := answer E h o _). intros Hr. eapply (IH x); [apply Hlater| |exact Hr].
    intros Hx. exact (answer_goes_on E S h o _ Hh Hx).
Qed.

(** *** Programs that are safe *)

Lemma safe_exempt {A} (p : prog A) e : safe false p -> safe e p.
Proof. destruct p as [a|X o k]; [done|]. intros [Hnow Hlater]. split; [auto|exact Hlater]. Qed.

Lemma may_block_pbind {A B} (p : prog A) (f : A -> prog B) :
  may_block (pbind p f) = true -> may_block p = true.
Proof.
  induction p as [a|X o k IH]; [done|]. cbn. destruct o; try done.
  rewrite !andb_true_iff. intros [H1 H2]. split; by apply IH.
Qed.

Lemma pending_pbind {A B} (p : prog A) (f : A -> prog B) : (forall a, safe false (f a)) ->
  allowed p -> may_block (pbind p f) = true -> allowed (pbind p f).
Proof.
  intros Hf. induction p as [a|X o k IH]; cbn [pbind].
  - intros _ Hm. pose proof (Hf a) as H. destruct (f a) as [b|Y o k]; [done|by apply H].
  - destruct o; try done. cbn. rewrite !forallb_app, !andb_true_iff. intros [H1 H2] [M1 M2].
    split; by apply IH.
Qed.

Lemma safe_pbind {A B} (p : prog A) (f : A -> prog B) : forall exempt,
  safe exempt p -> (forall a, safe false (f a)) -> safe exempt (pbind p f).
Proof.
  induction p as [a|X o k IH]; intros exempt Hp Hf; cbn [pbind]; [by apply safe_exempt|].
  destruct Hp as [Hnow Hlater]. split; [|intros x; by apply IH].
  intros He Hm. change (Vis o (fun x => pbind (k x) f)) with (pbind (Vis o k) f) in Hm |- *.
  apply pending_pbind; [done| |done]. apply Hnow; [done|by eapply may_block_pbind].
Qed.

Lemma safe_bind {A B} (m : M A) (f : A -> M B) :
  safe false m -> (forall a, safe false (f a)) -> safe false (bind m f).
Proof. intros Hm Hf. apply safe_pbind; [exact Hm|]. by intros []. Qed.

(** A call that is not patient, or allowed. *)
Definition lets_go {X} (o : Op X) : bool :=
  match o with Poll | Expired _ => false | _ => negb (patient _ o) || Q (Call o) end.

Lemma safe_vis {A X} (o : Op X) (k : X -> prog A) e :
  lets_go o = true -> (forall x, safe false (k x)) -> safe e (Vis o k).
Proof.
  intros Ho Hk. split.
  - intros _. destruct o; try done; cbn in *; intros _; by rewrite andb_true_r.
  - intros x. apply safe_exempt, Hk.
Qed.

Lemma safe_perform {X} (o : Op X) : lets_go o = true -> safe false (perform o).
Proof. intros Ho. by apply safe_vis. Qed.
Lemma safe_call {X} (o : Op (ext X)) : lets_go o = true -> safe false (call o).
Proof. intros Ho. apply safe_vis; [done|]. by intros []. Qed.
Lemma safe_call_context {X} m (o : Op (ext X)) : lets_go o = true -> safe false (call_context m o).
Proof. intros Ho. apply safe_vis; [done|]. by intros []. Qed.
Lemma safe_call_with_context {X} m (o : Op (ext X)) :
  lets_go o = true -> safe false (call_with_context m o).
Proof. intros Ho. apply safe_vis; [done|]. by intros []. Qed.
Lemma safe_println line : safe false (println line).
Proof. apply safe_vis; [done|]. by intros []. Qed.
Lemma safe_lift {A} (r : res A) : safe false (lift r).
Proof. by destruct r. Qed.

Lemma safe_loop {S A} fuel (body : S -> M (S + A)) :
  (forall s, safe false (body s)) -> forall s, safe false (loop fuel body s).
Proof.
  intros Hb. induction fuel as [|fuel IH]; intros s; cbn [loop]; [done|].
  apply safe_bind; [done|]. by intros [].
Qed.

(** Nothing hangs under a time limit. *)
Lemma safe_cuttable {A} limit (p : prog A) : forall e, safe e (cuttable limit p).
Proof.
  induction p as [a|X o k IH]; intros e; cbn [cuttable]; [done|]. split; [done|].
  intros []; [done|]. split; [done|]. intros x. apply IH.
Qed.

Lemma safe_timeout {A} limit (m : M A) : safe false (timeout limit m).
Proof. apply safe_pbind; [apply safe_cuttable|]. by intros [[]|]. Qed.

(** A race hangs when both sides do, if they make one call at a time. *)
Lemma single_lets_go {A X} (o : Op X) (k : X -> prog A) :
  single X o = true -> safe false (Vis o k) -> lets_go o = true /\ forall x, safe false (k x).
Proof.
  intros So [Hnow Hlater]. split; [|intros x; specialize (Hlater x); by destruct o].
  destruct (patient X o) eqn:Hp.
  - specialize (Hnow eq_refl). destruct o; try done; cbn in *; rewrite andb_true_r in Hnow; auto.
  - by destruct o.
Qed.

Lemma safe_poll {A X Y} (o : Op X) (o' : Op Y) (k : X -> prog A) (k' : Y -> prog A) :
  lets_go o = true -> lets_go o' = true -> (forall x, safe false (k x)) ->
  (forall y, safe false (k' y)) ->
  safe false (Vis Poll (fun left : bool => if left then Vis o k else Vis o' k')).
Proof.
  intros Ho Ho' Hk Hk'. split; [|intros []; by apply safe_exempt, safe_vis].
  intros _ Hm. cbn [pending]. rewrite forallb_app, andb_true_iff.
  apply andb_true_iff in Hm as [M1 M2]. split.
  - destruct (safe_vis o k false Ho Hk) as [H _]. by apply H.
  - destruct (safe_vis o' k' false Ho' Hk') as [H _]. by apply H.
Qed.

Lemma safe_race {A B} (p : prog A) : forall q : prog B,
  all_ops single p -> all_ops single q -> safe false p -> safe false q -> safe false (race p q).
Proof.
  induction p as [a|X o k IH]; intros q Sp Sq Hp Hq; [by destruct q|].
  induction q as [b|Y o' k' IH']; [done|].
  destruct (single_lets_go o k (proj1 Sp) Hp) as [Ho Hk].
  destruct (single_lets_go o' k' (proj1 Sq) Hq) as [Ho' Hk'].
  apply safe_poll; [done|done| |].
  - intros x. by apply IH; [apply Sp|..].
  - intros y. by apply IH'; [apply Sq|].
Qed.

Lemma safe_select2 {A} (m1 m2 : M A) :
  all_ops single m1 -> all_ops single m2 -> safe false m1 -> safe false m2 ->
  safe false (select2 m1 m2).
Proof. intros. apply safe_pbind; [by apply safe_race|]. by intros [|]. Qed.
End Safe.

(** Walk through a program. *)
Ltac safe_step :=
  lazymatch goal with
  | |- safe _ _ (bind _ _) => apply safe_bind; [|intros ?]
  | |- safe _ _ (perform _) => apply safe_perform; reflexivity
  | |- safe _ _ (call _) => apply safe_call; reflexivity
  | |- safe _ _ (call_context _ _) => apply safe_call_context; reflexivity
  | |- safe _ _ (call_with_context _ _) => apply safe_call_with_context; reflexivity
  | |- safe _ _ (lift _) => apply safe_lift
  | |- safe _ _ (println _) => apply safe_println
  | |- safe _ _ (timeout _ _) => apply safe_timeout
  | |- safe _ _ (loop _ _ _) => apply safe_loop; intros ?
  | |- safe _ _ (ret _) => exact I
  | |- safe _ _ (fail _) => exact I
  | |- safe _ _ (panic _) => exact I
  | |- safe _ _ (Ret _) => exact I
  | |- safe _ _ (if ?b then _ else _) => destruct b
  | |- safe _ _ (match ?x with _ => _ end) => destruct x
  | |- safe _ _ (let _ := _ in _) => cbv zeta
  end.
Ltac safely := repeat safe_step; auto with safe.
Create HintDb safe.

(** ** The outcome of such a run *)

(** It ends, and has not merely used up its fuel; or it hangs, at calls in
    [Q]. *)
Definition ends_or_hangs (Q : pending_call -> bool) {A} (r : ending (outcome A)) : Prop :=
  match r with
  | Ended r => r <> Running
  | Hung calls => forallb Q calls = true
  end.

Lemma safe_ends_or_hangs Q E S h {A} (m : M A) :
  safe Q false m -> (forall E', hastens E E' -> (run E' h m).1 <> Running) ->
  ends_or_hangs Q (wait_run E S h m).1.
Proof.
  intros Hs He. destruct (wait_run E S h m) as [[r|calls] h'] eqn:Hw; cbn.
  - destruct (wait_run_ends E S m h r h' Hw) as (E' & HE & Hr). specialize (He E' HE).
    by rewrite Hr in He.
  - by eapply safe_hung; [exact Hs| |exact Hw].
Qed.
