(* ===== verification/Auth.v ===== *)
(** * Authentication: [litevpn-core/src/auth.rs]

    The request a client writes on its first bidirectional stream, the
    server's parser of it, and the two ends of the exchange. *)

From S2P Require Import Prelude RustStr World.

(** ** lib.rs: protocol constants *)

Definition ALPN : bytes := lit "litevpn/1".
Definition AUTH_MAGIC : bytes := lit "LVPN1 ".
Definition AUTH_OK : bytes := lit "OK" ++ [LF].
Definition AUTH_ERR : bytes := lit "ERR" ++ [LF].
Definition MAX_AUTH_BYTES : Z := 1024.

(** ** Modes *)

Inductive BenchDirection : Type :=
| Upload
| Download
| StreamUpload
| StreamDownload
| StreamPacketUpload
| StreamPacketDownload.

#[global] Instance BenchDirection_eq_dec : EqDecision BenchDirection.
Proof. solve_decision. Defined.

Definition as_str (d : BenchDirection) : str :=
  match d with
  | Upload => lit "upload"
  | Download => lit "download"
  | StreamUpload => lit "stream-upload"
  | StreamDownload => lit "stream-download"
  | StreamPacketUpload => lit "stream-packet-upload"
  | StreamPacketDownload => lit "stream-packet-download"
  end.

Definition uses_datagrams (d : BenchDirection) : bool :=
  match d with
  | Upload | Download => true
  | _ => false
  end.

Inductive AuthMode : Type :=
| Vpn
| Bench (direction : BenchDirection) (duration_secs payload_bytes : Z)
    (target_mbps : option Z).

#[global] Instance AuthMode_eq_dec : EqDecision AuthMode.
Proof. solve_decision. Defined.

(** ** The client *)

(** The bytes of the request ([client_authenticate_with_mode], before the
    stream is written). *)
Definition auth_request (token : str) (mode : AuthMode) : bytes :=
  AUTH_MAGIC ++ as_bytes token ++ [LF] ++
  match mode with
  | Vpn => []
  | Bench direction duration_secs payload_bytes target_mbps =>
    let target_mbps := default 0 target_mbps in
    as_bytes (lit "bench " ++ as_str direction ++ lit " " ++ to_dec duration_secs
              ++ lit " " ++ to_dec payload_bytes ++ lit " " ++ to_dec target_mbps
              ++ [LF])
  end.

Definition client_authenticate_with_mode (connection : conn) (token : str)
    (mode : AuthMode) : M unit :=
  '(send, recv) <- call_context "failed to open auth stream" (OpenBi connection);
  let request := auth_request token mode in
  call_context "failed to send auth token" (WriteAll send request) ;;
  call_context "failed to finish auth stream" (Finish send) ;;
  response <- call_context "failed to read auth response" (ReadToEnd recv MAX_AUTH_BYTES);
  if bool_decide (response = AUTH_OK) then ret tt
  else lift (bail "server rejected client token").

Definition client_authenticate (connection : conn) (token : str) : M unit :=
  client_authenticate_with_mode connection token Vpn.

(** ** The server *)

(** [Iterator::next] on what is left of an iterator. *)
Definition next (it : list str) : option str * list str :=
  match it with
  | [] => (None, [])
  | x :: it' => (Some x, it')
  end.

(** The [match parts.next()] on the direction word. *)
Definition match_direction (word : option str) : res BenchDirection :=
  if bool_decide (word = Some (lit "upload")) then Ok Upload
  else if bool_decide (word = Some (lit "download")) then Ok Download
  else if bool_decide (word = Some (lit "stream-upload")) then Ok StreamUpload
  else if bool_decide (word = Some (lit "stream-download")) then Ok StreamDownload
  else if bool_decide (word = Some (lit "stream-packet-upload")) then Ok StreamPacketUpload
  else if bool_decide (word = Some (lit "stream-packet-download")) then Ok StreamPacketDownload
  else bail "bench direction must be upload, download, stream-upload, stream-download, stream-packet-upload, or stream-packet-download".

Definition parse_mode (line : str) : res AuthMode :=
  let parts := split_whitespace line in
  let '(word, parts) := next parts in
  if negb (bool_decide (word = Some (lit "bench"))) then bail "unknown auth mode" else
  let '(word, parts) := next parts in
  direction <-? match_direction word;
  let '(word, parts) := next parts in
  word <-? context_opt "missing bench duration" word;
  duration_secs <-? parse_context "invalid bench duration" (parse_u64 word);
  let '(word, parts) := next parts in
  word <-? context_opt "missing bench payload size" word;
  payload_bytes <-? parse_context "invalid bench payload size" (parse_u64 word);
  let '(word, parts) := next parts in
  target_mbps <-?
    match word with
    | Some value =>
      value <-? parse_context "invalid bench target Mbps" (parse_u64 value);
      Ok (if value =? 0 then None else Some value)
    | None => Ok None
    end;
  if bool_decide (is_Some (next parts).1) then bail "too many bench mode fields" else
  if duration_secs =? 0 then bail "bench duration must be greater than zero" else
  if negb (between 64 1452 payload_bytes) then
    bail "bench payload size must be between 64 and 1452 bytes"
  else
  Ok (Bench direction duration_secs payload_bytes target_mbps).

Definition parse_request (request : bytes) : res (str * AuthMode) :=
  payload <-? context_opt "invalid auth magic" (strip_prefix AUTH_MAGIC request);
  payload <-? context_ext "auth request is not utf-8"
    (match from_utf8 payload with Some s => Ok s | None => Err (lit "invalid utf-8") end);
  payload <-? context_opt "auth request must end with newline" (strip_suffix LF payload);
  let it := lines payload in
  let '(line, it) := next it in
  token <-? context_opt "missing auth token" line;
  let '(line, it) := next it in
  mode <-?
    match line with
    | None => Ok Vpn
    | Some line => parse_mode line
    end;
  if bool_decide (is_Some (next it).1) then bail "too many auth request lines" else
  Ok (token, mode).

Definition server_authenticate (connection : conn) (expected_token : str) : M AuthMode :=
  '(send, recv) <- call_context "failed to accept auth stream" (AcceptBi connection);
  request <- call_context "failed to read auth request" (ReadToEnd recv MAX_AUTH_BYTES);
  '(token, mode) <- lift (parse_request request);
  let ok := bool_decide (token = expected_token) in
  call_context "failed to send auth response"
    (WriteAll send (if ok then AUTH_OK else AUTH_ERR)) ;;
  call_context "failed to finish auth response" (Finish send) ;;
  if negb ok then lift (bail "invalid client token") else ret mode.

(** ** The unit tests of the source *)

Example parses_token :
  parse_request (AUTH_MAGIC ++ lit "abcdef" ++ [LF]) = Ok (lit "abcdef", Vpn).
Proof. vm_compute. reflexivity. Qed.

Example parses_bench_mode :
  parse_request (AUTH_MAGIC ++ lit "abcdef" ++ [LF] ++ lit "bench download 3 1200" ++ [LF])
  = Ok (lit "abcdef", Bench Download 3 1200 None).
Proof. vm_compute. reflexivity. Qed.

Example parses_stream_packet_bench_mode :
  parse_request (AUTH_MAGIC ++ lit "abcdef" ++ [LF]
                 ++ lit "bench stream-packet-download 5 1300 40" ++ [LF])
  = Ok (lit "abcdef", Bench StreamPacketDownload 5 1300 (Some 40)).
Proof. vm_compute. reflexivity. Qed.

Example rejects_bad_magic : is_ok (parse_request (lit "bad token" ++ [LF])) = false.
Proof. vm_compute. reflexivity. Qed.

(** ** What the parser accepts *)

(** The modes [parse_mode] lets through. *)
Definition mode_ok (m : AuthMode) : Prop :=
  match m with
  | Vpn => True
  | Bench _ duration_secs payload_bytes target_mbps =>
    1 <= duration_secs <= U64_MAX /\ 64 <= payload_bytes <= 1452 /\
    match target_mbps with None => True | Some t => 1 <= t <= U64_MAX end
  end.

(** A request for a target of 0 Mbps is a request without a target. *)
Definition normalize_mode (m : AuthMode) : AuthMode :=
  match m with
  | Bench d s p (Some 0) => Bench d s p None
  | _ => m
  end.

(** The modes a client can ask for: the range checks up to the target, which
    may also be an explicit 0. *)
Definition mode_requestable (m : AuthMode) : Prop := mode_ok (normalize_mode m).

(** The tokens that survive the line format: a line feed would end the token
    early, an empty token is no line at all in VPN mode, and in bench mode a
    final carriage return would be taken for part of the line ending. *)
Definition token_ok (token : str) (mode : AuthMode) : Prop :=
  valid_str token /\ LF ∉ token /\
  match mode with
  | Vpn => token <> []
  | Bench _ _ _ _ => last token <> Some CR
  end.

Lemma parse_context_ok m (r : result Z int_error) n :
  parse_context m r = Ok n <-> r = Ok n.
Proof. destruct r; simpl; naive_solver. Qed.

Lemma match_direction_as_str d : match_direction (Some (as_str d)) = Ok d.
Proof. by destruct d. Qed.

Lemma match_direction_sound w d : match_direction w = Ok d -> w = Some (as_str d).
Proof. unfold match_direction. repeat case_bool_decide; intros [= <-]; done. Qed.

Lemma as_str_word d : is_word (as_str d).
Proof. split; [by destruct d|]. destruct d; repeat constructor. Qed.

Lemma as_str_ascii d : Forall is_ascii (as_str d).
Proof. by destruct d; repeat constructor. Qed.

(** The mode line and its words. *)
Definition mode_line (d : BenchDirection) (duration payload target : Z) : str :=
  lit "bench " ++ as_str d ++ lit " " ++ to_dec duration ++ lit " "
  ++ to_dec payload ++ lit " " ++ to_dec target.

Lemma mode_line_words d duration payload target :
  0 <= duration -> 0 <= payload -> 0 <= target ->
  split_whitespace (mode_line d duration payload target) =
  [lit "bench"; as_str d; to_dec duration; to_dec payload; to_dec target].
Proof.
  intros. unfold mode_line.
  change (lit "bench ") with (lit "bench" ++ [32]). rewrite <-app_assoc.
  change (lit " ") with [32]. cbn [app].
  rewrite split_whitespace_word by (split; [done|repeat constructor]).
  rewrite split_whitespace_word by apply as_str_word.
  rewrite !split_whitespace_word by (by apply to_dec_word).
  rewrite split_whitespace_last; [done|by apply to_dec_word].
Qed.

Lemma parse_mode_line d duration payload target :
  mode_requestable (Bench d duration payload (Some target)) ->
  parse_mode (mode_line d duration payload target) =
  Ok (normalize_mode (Bench d duration payload (Some target))).
Proof.
  intros Hok.
  assert (1 <= duration <= U64_MAX /\ 64 <= payload <= 1452 /\ 0 <= target <= U64_MAX)
    as (Hd & Hp & Ht).
  { unfold mode_requestable, mode_ok, normalize_mode in Hok.
    destruct target; unfold U64_MAX in *; lia. }
  unfold parse_mode. rewrite mode_line_words by lia. cbn [next].
  rewrite bool_decide_true by done. cbn [negb].
  rewrite match_direction_as_str. cbn [res_bind context_opt].
  unfold parse_u64. rewrite !parse_uint_to_dec by (unfold U64_MAX in *; lia).
  cbn [parse_context res_bind fst].
  rewrite bool_decide_false by (intros [? [=]]).
  rewrite (proj2 (between_spec 64 1452 payload)) by done.
  bcase; try lia; simpl; [by subst|by destruct target].
Qed.

Lemma parse_mode_ok line m : parse_mode line = Ok m -> mode_ok m /\ m <> Vpn.
Proof.
  unfold parse_mode. intros H.
  destruct (next _) as [w1 p1]. case_bool_decide; [|done]. cbn [negb] in H.
  destruct (next p1) as [w2 p2]. apply res_bind_ok in H as (d & _ & H).
  destruct (next p2) as [w3 p3]. apply res_bind_ok in H as (s3 & _ & H).
  apply res_bind_ok in H as (dur & Hdur & H).
  destruct (next p3) as [w4 p4]. apply res_bind_ok in H as (s4 & _ & H).
  apply res_bind_ok in H as (pay & _ & H).
  destruct (next p4) as [w5 p5]. apply res_bind_ok in H as (tgt & Htgt & H).
  case_bool_decide; [done|].
  destruct (Z.eqb_spec dur 0); [done|].
  destruct (between 64 1452 pay) eqn:Hp; [|done]. cbn [negb] in H.
  simplify_eq. apply between_spec in Hp.
  apply parse_context_ok, parse_uint_range in Hdur; [|done].
  split; [|done]. split; [lia|]. split; [done|].
  destruct w5 as [v|]; [|by simplify_eq].
  apply res_bind_ok in Htgt as (t & Ht & Htgt).
  apply parse_context_ok, parse_uint_range in Ht; [|done].
  destruct (Z.eqb_spec t 0); simplify_eq; [done|lia].
Qed.

(** The text after the magic, as the client builds it. *)
Definition request_text (token : str) (mode : AuthMode) : str :=
  token ++
  match mode with
  | Vpn => []
  | Bench d duration payload target =>
    [LF] ++ mode_line d duration payload (default 0 target)
  end.

Lemma mode_line_ascii d duration payload target :
  0 <= duration -> 0 <= payload -> 0 <= target ->
  Forall is_ascii (mode_line d duration payload target).
Proof.
  intros. unfold mode_line.
  repeat (apply Forall_app; split);
    try (by apply to_dec_ascii); try apply as_str_ascii; repeat constructor; done.
Qed.

Lemma mode_requestable_nonneg d duration payload target :
  mode_requestable (Bench d duration payload target) ->
  0 <= duration /\ 0 <= payload /\ 0 <= default 0 target.
Proof.
  unfold mode_requestable, normalize_mode, mode_ok.
  destruct target as [[]|]; simpl; lia.
Qed.

Lemma auth_request_text token mode :
  mode_requestable mode ->
  auth_request token mode = AUTH_MAGIC ++ as_bytes (request_text token mode ++ [LF]).
Proof.
  intros Hm. unfold auth_request, request_text. f_equal.
  rewrite !as_bytes_app. rewrite <-!app_assoc. f_equal.
  destruct mode as [|d duration payload target]; [done|].
  apply mode_requestable_nonneg in Hm as (? & ? & ?).
  rewrite !as_bytes_app. change (as_bytes [LF]) with [LF].
  rewrite <-app_assoc. f_equal.
  unfold mode_line. by rewrite !as_bytes_app, <-!app_assoc.
Qed.

Lemma lines_two t l :
  LF ∉ t -> last t <> Some CR -> LF ∉ l -> l <> [] -> lines (t ++ [LF] ++ l) = [t; l].
Proof.
  intros Ht Hcr Hl Hne. unfold lines.
  rewrite split_inclusive_line, split_inclusive_rest by done. simpl.
  by rewrite line_of_lf, line_of_rest.
Qed.

Lemma lines_one t : LF ∉ t -> t <> [] -> lines t = [t].
Proof.
  intros Ht Hne. unfold lines. rewrite split_inclusive_rest by done.
  simpl. by rewrite line_of_rest.
Qed.

Lemma word_no_lf w : is_word w -> LF ∉ w.
Proof.
  intros [_ Hw] Hin. rewrite Forall_forall in Hw. by specialize (Hw LF Hin).
Qed.

Lemma mode_line_no_lf d duration payload target :
  0 <= duration -> 0 <= payload -> 0 <= target ->
  LF ∉ mode_line d duration payload target.
Proof.
  intros ??? Hin. unfold mode_line in Hin.
  pose proof (word_no_lf _ (as_str_word d)).
  pose proof (word_no_lf _ (to_dec_word duration ltac:(done))).
  pose proof (word_no_lf _ (to_dec_word payload ltac:(done))).
  pose proof (word_no_lf _ (to_dec_word target ltac:(done))).
  assert (LF ∉ lit " ") by (by apply (bool_decide_unpack _)).
  assert (LF ∉ lit "bench ") by (by apply (bool_decide_unpack _)).
  rewrite !elem_of_app in Hin. tauto.
Qed.

Section Roundtrip.
Context (token : str) (mode : AuthMode).
Context (Htoken : token_ok token mode) (Hmode : mode_requestable mode).

Lemma request_text_valid : valid_str (request_text token mode).
Proof.
  destruct Htoken as (Hv & _ & _). unfold request_text.
  apply Forall_app. split; [done|]. destruct mode as [|d ? ? t]; [constructor|].
  apply mode_requestable_nonneg in Hmode as (? & ? & ?).
  apply ascii_valid, Forall_app.
  split; [by repeat constructor|by apply mode_line_ascii].
Qed.

Lemma request_text_lines :
  lines (request_text token mode) =
  match mode with
  | Vpn => [token]
  | Bench d duration payload target =>
    [token; mode_line d duration payload (default 0 target)]
  end.
Proof.
  destruct Htoken as (_ & Hlf & Hm). unfold request_text.
  destruct mode as [|d ? ? t].
  - rewrite app_nil_r. by apply lines_one.
  - apply mode_requestable_nonneg in Hmode as (? & ? & ?).
    apply lines_two; [done|done|by apply mode_line_no_lf|done].
Qed.

(** The parser inverts the request builder. *)
Lemma parse_auth_request :
  parse_request (auth_request token mode) = Ok (token, normalize_mode mode).
Proof.
  rewrite auth_request_text by done.
  unfold parse_request. rewrite strip_prefix_app. cbn [context_opt res_bind].
  rewrite from_utf8_as_bytes.
  2:{ apply Forall_app. split; [apply request_text_valid|by repeat constructor]. }
  cbn [context_ext res_bind]. rewrite strip_suffix_snoc. cbn [context_opt res_bind].
  rewrite request_text_lines.
  destruct mode as [|d dur pay t]; cbn [next res_bind context_opt].
  - by rewrite bool_decide_false by (intros [? [=]]).
  - assert (mode_requestable (Bench d dur pay (Some (default 0 t)))) as Hr.
    { destruct t; [done|]. apply Hmode. }
    rewrite parse_mode_line by done. cbn [res_bind].
    rewrite bool_decide_false by (intros [? [=]]).
    by destruct t.
Qed.
End Roundtrip.

(** Conversely, an accepted request has the magic, ends in a line feed, holds
    a token without line feeds as its first line, and asks for a mode within
    the limits. *)
Lemma parse_request_inv request token mode :
  parse_request request = Ok (token, mode) ->
  LF ∉ token /\ mode_ok mode /\
  exists text, request = AUTH_MAGIC ++ as_bytes (text ++ [LF]) /\ valid_str text /\
    match mode with
    | Vpn => lines text = [token]
    | Bench _ _ _ _ => exists line, lines text = [token; line] /\ parse_mode line = Ok mode
    end.
Proof.
  unfold parse_request. intros H.
  apply res_bind_ok in H as (p1 & Hp1 & H). apply context_opt_ok, strip_prefix_spec in Hp1.
  apply res_bind_ok in H as (p2 & Hp2 & H). apply context_ext_ok in Hp2.
  destruct (from_utf8 p1) as [s|] eqn:Hu; [|done]. simplify_eq.
  apply from_utf8_sound in Hu as [Hv Hb].
  apply res_bind_ok in H as (text & Htext & H). apply context_opt_ok, strip_suffix_spec in Htext.
  subst. apply Forall_app in Hv as [Hv _].
  assert (forall l, l ∈ lines text -> LF ∉ l) as Hlf by (intros; by eapply lines_no_lf).
  destruct (lines text) as [|t it] eqn:Hl; cbn [next context_opt res_bind] in H; [done|].
  destruct it as [|line it]; cbn [next context_opt res_bind] in H.
  - case_bool_decide; [done|]. simplify_eq.
    split; [apply Hlf; elems|]. split; [done|]. by exists text.
  - apply res_bind_ok in H as (m & Hm & H).
    destruct it as [|? ?]; cbn [next fst] in H; case_bool_decide as Hd; try done.
    2:{ by destruct Hd. }
    simplify_eq. destruct (parse_mode_ok _ _ Hm) as [Hok Hvpn].
    split; [apply Hlf; elems|]. split; [done|].
    exists text. split; [done|]. split; [done|].
    destruct mode; [done|by exists line].
Qed.

Lemma auth_request_length token mode :
  mode_requestable mode -> zlen (auth_request token mode) <= str_len token + 99.
Proof.
  intros Hm. unfold auth_request, str_len. rewrite !length_app.
  change (length AUTH_MAGIC) with 6%nat. change (length [LF]) with 1%nat.
  destruct mode as [|d dur pay t]; [simpl; lia|].
  pose proof (mode_requestable_nonneg _ _ _ _ Hm) as (? & ? & ?).
  assert (dur <= U64_MAX /\ pay <= U64_MAX /\ default 0 t <= U64_MAX) as (? & ? & ?).
  { unfold mode_requestable, normalize_mode, mode_ok, U64_MAX in *.
    destruct t as [[]|]; simpl; lia. }
  rewrite (as_bytes_ascii (lit "bench " ++ _)).
  2:{ change (lit "bench ") with (lit "bench" ++ lit " ").
      repeat (apply Forall_app; split); try (by apply to_dec_ascii);
        try apply as_str_ascii; by repeat constructor. }
  rewrite !length_app.
  pose proof (to_dec_length_u64 dur ltac:(lia)).
  pose proof (to_dec_length_u64 pay ltac:(lia)).
  pose proof (to_dec_length_u64 (default 0 t) ltac:(lia)).
  assert (length (as_str d) <= 22)%nat by (destruct d; simpl; lia).
  simpl length. lia.
Qed.

(** ** The exchange *)

(** What the server promises, with the I/O taken away: the answer it writes
    (nothing when the request does not parse) and what it returns. *)
Definition server_reply (expected_token : str) (request : bytes) : option bytes * res AuthMode :=
  match parse_request request with
  | Err e => (None, Err e)
  | Ok (token, mode) =>
    if bool_decide (token = expected_token) then (Some AUTH_OK, Ok mode)
    else (Some AUTH_ERR, bail "invalid client token")
  end.

Definition outcome_of {A} (r : res A) : outcome A :=
  match r with Ok a => Val a | Err e => Fail e end.

(** A server whose calls succeed: the client's stream is accepted as
    [(send, recv)] and its content, up to the limit, is [request]. *)
Record server_link (E : env) (c : conn) (send recv : sid) (request : bytes) : Prop := {
  link_accept : forall h, E _ h (AcceptBi c) = Ok (send, recv);
  link_request : forall h, zlen request <= MAX_AUTH_BYTES ->
    E _ h (ReadToEnd recv MAX_AUTH_BYTES) = Ok request;
  link_write : forall h d, E _ h (WriteAll send d) = Ok tt;
  link_finish : forall h, E _ h (Finish send) = Ok tt;
}.

(** A client whose calls succeed and who reads [response] back. *)
Record client_link (E : env) (c : conn) (send recv : sid) (response : bytes) : Prop := {
  clink_open : forall h, E _ h (OpenBi c) = Ok (send, recv);
  clink_response : forall h, zlen response <= MAX_AUTH_BYTES ->
    E _ h (ReadToEnd recv MAX_AUTH_BYTES) = Ok response;
  clink_write : forall h d, E _ h (WriteAll send d) = Ok tt;
  clink_finish : forall h, E _ h (Finish send) = Ok tt;
}.

Lemma server_run E h c send recv request expected :
  server_link E c send recv request -> zlen request <= MAX_AUTH_BYTES ->
  (run E h (server_authenticate c expected)).1 = outcome_of (server_reply expected request).2 /\
  stream_written send (run E h (server_authenticate c expected)).2
  = stream_written send h ++ default [] (server_reply expected request).1.
Proof.
  intros [Ha Hr Hw Hf] Hlen.
  unfold server_authenticate, server_reply. simpl. rewrite Ha. simpl. rewrite Hr by done.
  simpl. destruct (parse_request request) as [[token mode]|e]; simpl.
  - case_bool_decide; simpl; rewrite Hw; simpl; rewrite Hf; simpl;
      (split; [done|]); hist_simpl; by rewrite Z.eqb_refl.
  - split; [done|]. hist_simpl. done.
Qed.

(** Whatever it reads back, the client has written the request. *)
Lemma client_writes E h c send recv response token mode :
  client_link E c send recv response ->
  stream_written send (run E h (client_authenticate_with_mode c token mode)).2
  = stream_written send h ++ auth_request token mode.
Proof.
  intros [Ho _ Hw Hf].
  unfold client_authenticate_with_mode. simpl. rewrite Ho. simpl. rewrite Hw. simpl.
  rewrite Hf. simpl. destruct (E _ _ (ReadToEnd _ _)); simpl; [case_bool_decide; simpl|];
    hist_simpl; by rewrite Z.eqb_refl.
Qed.

Lemma client_run E h c send recv response token mode :
  client_link E c send recv response -> zlen response <= MAX_AUTH_BYTES ->
  (run E h (client_authenticate_with_mode c token mode)).1
  = if bool_decide (response = AUTH_OK) then Val tt
    else Fail (Msg (lit "server rejected client token")).
Proof.
  intros [Ho Hr Hw Hf] Hlen.
  unfold client_authenticate_with_mode. simpl. rewrite Ho. simpl. rewrite Hw. simpl.
  rewrite Hf. simpl. rewrite Hr by done. simpl. by case_bool_decide.
Qed.

(** Requests from the repository's own client parse back. *)
Lemma server_reply_request token mode expected :
  token_ok token mode -> mode_requestable mode ->
  server_reply expected (auth_request token mode) =
  if bool_decide (token = expected) then (Some AUTH_OK, Ok (normalize_mode mode))
  else (Some AUTH_ERR, bail "invalid client token").
Proof. intros. unfold server_reply. by rewrite parse_auth_request. Qed.

(** The same two directions for an arbitrary environment: whatever it
    answers, an authenticated mode was really asked for with the right token
    and answered with [OK]. *)
Definition reads_to_end : history -> list bytes :=
  observe (fun X o =>
    match o in Op X return X -> list bytes with
    | ReadToEnd _ _ => fun r => match r with Ok d => [d] | Err _ => [] end
    | _ => fun _ => []
    end).

Definition writes : history -> list bytes :=
  observe (fun X o =>
    match o in Op X return X -> list bytes with
    | WriteAll _ d => fun r => [d]
    | _ => fun _ => []
    end).

Lemma server_authenticate_cases E h c expected :
  wp E h (server_authenticate c expected) (fun r h' =>
    match r with
    | Val mode => exists request,
        reads_to_end h' = reads_to_end h ++ [request] /\
        parse_request request = Ok (expected, mode) /\
        writes h' = writes h ++ [AUTH_OK]
    | Fail _ =>
        writes h' = writes h \/
        (exists request token mode,
          reads_to_end h' = reads_to_end h ++ [request] /\
          parse_request request = Ok (token, mode) /\
          writes h' = writes h ++ [if bool_decide (token = expected) then AUTH_OK else AUTH_ERR])
    | Panic _ | Running => False
    end).
Proof.
  unfold wp, server_authenticate. simpl.
  destruct (E _ h _) as [[send recv]|e]; simpl;
    [|left; unfold writes; hist_simpl; done].
  destruct (E _ _ (ReadToEnd _ _)) as [request|e]; simpl;
    [|left; unfold writes; hist_simpl; done].
  destruct (parse_request request) as [[token mode]|e] eqn:Hp; simpl;
    [|left; unfold writes; hist_simpl; done].
  destruct (E _ _ (WriteAll _ _)) as [[]|e]; simpl.
  2:{ right. exists request, token, mode. unfold writes, reads_to_end. by hist_simpl. }
  destruct (E _ _ (Finish _)) as [[]|e]; simpl.
  2:{ right. exists request, token, mode. unfold writes, reads_to_end. by hist_simpl. }
  case_bool_decide; simpl.
  - exists request. subst. unfold writes, reads_to_end. by hist_simpl.
  - right. exists request, token, mode. unfold writes, reads_to_end. hist_simpl.
    by rewrite bool_decide_false.
Qed.

(** ** Properties *)

(** C10: Round trip. Whatever token (valid text, no line feed, not empty in VPN
    mode, not ending in a carriage return in bench mode) and mode within the
    limits the client asks for, [parse_request] on the bytes the client builds
    returns that token and that mode, an explicit target of 0 becoming no
    target. *)
Theorem auth_request_roundtrip token mode :
  token_ok token mode -> mode_requestable mode ->
  parse_request (auth_request token mode) = Ok (token, normalize_mode mode).
Proof. intros. by apply parse_auth_request. Qed.

Lemma auth_request_roundtrip_witness :
  parse_request (auth_request (lit "s3cret") (Bench StreamUpload 5 1300 (Some 40)))
  = Ok (lit "s3cret", Bench StreamUpload 5 1300 (Some 40)).
Proof.
  apply (auth_request_roundtrip (lit "s3cret") (Bench StreamUpload 5 1300 (Some 40))).
  - split; [by repeat constructor|]. split; [by apply (bool_decide_unpack _)|done].
  - unfold mode_requestable, normalize_mode, mode_ok, U64_MAX. lia.
Defined.

(** C7: Agreement of the two ends. On connections whose calls succeed and
    where each side reads what the other wrote, a request that fits the
    server's read limit is settled the same way by both: with equal tokens the
    client returns [Ok] and the server returns the requested mode; with
    different tokens both fail, the client with the server's rejection. *)
Theorem auth_exchange_agrees Ec Es hc hs cc cs send_c recv_c send_s recv_s token expected mode :
  token_ok token mode -> mode_requestable mode ->
  zlen (auth_request token mode) <= MAX_AUTH_BYTES ->
  let client := run Ec hc (client_authenticate_with_mode cc token mode) in
  let server := run Es hs (server_authenticate cs expected) in
  stream_written send_c hc = [] -> stream_written send_s hs = [] ->
  server_link Es cs send_s recv_s (stream_written send_c client.2) ->
  client_link Ec cc send_c recv_c (stream_written send_s server.2) ->
  if bool_decide (token = expected)
  then client.1 = Val tt /\ server.1 = Val (normalize_mode mode)
  else client.1 = Fail (Msg (lit "server rejected client token")) /\
       server.1 = Fail (Msg (lit "invalid client token")).
Proof.
  intros Htok Hmode Hlen client server Hc0 Hs0 Hs Hc.
  unfold client in Hs. rewrite (client_writes _ _ _ _ _ _ _ _ Hc), Hc0 in Hs.
  destruct (server_run Es hs cs send_s recv_s _ expected Hs Hlen) as [Hsv Hsw].
  cbn [app] in Hsv, Hsw. fold server in Hsv, Hsw. rewrite Hs0 in Hsw.
  rewrite server_reply_request in Hsv, Hsw by done.
  rewrite Hsw in Hc.
  assert (zlen (default [] (if bool_decide (token = expected)
    then (Some AUTH_OK, Ok (normalize_mode mode))
    else (Some AUTH_ERR, bail "invalid client token")).1) <= MAX_AUTH_BYTES) as Hl.
  { case_bool_decide; vm_compute; discriminate. }
  pose proof (client_run Ec hc cc send_c recv_c _ token mode Hc Hl) as Hcv.
  fold client in Hcv. clear Hc Hl.
  destruct (bool_decide (token = expected)); simpl in *; split; try done.
Qed.

Definition example_client : env := fun X h o =>
  match o in Op X return X with
  | OpenBi _ => Ok (1, 2)
  | WriteAll _ _ => Ok tt
  | Finish _ => Ok tt
  | ReadToEnd _ _ => Ok AUTH_OK
  | o' => quiet _ h o'
  end.

Definition example_server (request : bytes) : env := fun X h o =>
  match o in Op X return X with
  | AcceptBi _ => Ok (3, 4)
  | WriteAll _ _ => Ok tt
  | Finish _ => Ok tt
  | ReadToEnd _ _ => Ok request
  | o' => quiet _ h o'
  end.

Lemma auth_exchange_agrees_witness :
  let token := lit "s3cret" in
  let client := run example_client [] (client_authenticate_with_mode 7 token Vpn) in
  let server := run (example_server (auth_request token Vpn)) []
    (server_authenticate 8 token) in
  client.1 = Val tt /\ server.1 = Val Vpn.
Proof.
  apply (auth_exchange_agrees example_client (example_server (auth_request (lit "s3cret") Vpn))
    [] [] 7 8 1 2 3 4 (lit "s3cret") (lit "s3cret") Vpn).
  - split; [by repeat constructor|]. split; [by apply (bool_decide_unpack _)|done].
  - done.
  - done.
  - done.
  - done.
  - by split.
  - by split.
Defined.

(** Safety of the server. In any environment, if [server_authenticate]
    returns a mode then the client's request, read from the accepted stream,
    parsed to exactly the expected token and that mode, the mode respects the
    server's limits, and the one thing written was [OK]; it never panics. *)
Lemma server_grants_only_with_token E h c expected mode :
  (run E h (server_authenticate c expected)).1 = Val mode ->
  mode_ok mode /\
  exists request,
    reads_to_end (run E h (server_authenticate c expected)).2 = reads_to_end h ++ [request] /\
    parse_request request = Ok (expected, mode) /\
    writes (run E h (server_authenticate c expected)).2 = writes h ++ [AUTH_OK].
Proof.
  intros Hv. pose proof (server_authenticate_cases E h c expected) as H.
  unfold wp in H. rewrite Hv in H. destruct H as (request & Hr & Hp & Hw).
  split; [by apply parse_request_inv in Hp as (_ & ? & _)|]. eauto.
Qed.

Lemma server_grants_only_with_token_witness :
  mode_ok (Bench Upload 3 1200 None) /\
  exists request,
    reads_to_end (run (example_server (auth_request (lit "k") (Bench Upload 3 1200 None))) []
      (server_authenticate 8 (lit "k"))).2 = reads_to_end [] ++ [request] /\
    parse_request request = Ok (lit "k", Bench Upload 3 1200 None) /\
    writes (run (example_server (auth_request (lit "k") (Bench Upload 3 1200 None))) []
      (server_authenticate 8 (lit "k"))).2 = writes [] ++ [AUTH_OK].
Proof.
  apply (server_grants_only_with_token
    (example_server (auth_request (lit "k") (Bench Upload 3 1200 None))) [] 8 (lit "k")).
  vm_compute. reflexivity.
Defined.

(** C35: Types. The bytes a peer sends are arbitrary; a request that parses
    gives values of the Rust types, within the program's limits: a token of
    Unicode scalar values without a line feed, and for a benchmark a duration
    of a positive [u64], a payload size that fits a [u16] and an Ethernet
    frame, and a target that is absent or a positive [u64], never [Some(0)].
    Asked for again by a client with this token, the same mode is parsed. *)
Theorem parsed_request_typed request token mode :
  parse_request request = Ok (token, mode) ->
  valid_str token /\ LF ∉ token /\
  match mode with
  | Vpn => True
  | Bench _ duration_secs payload_bytes target_mbps =>
    is_u64 duration_secs /\ 1 <= duration_secs /\
    is_u16 payload_bytes /\ 64 <= payload_bytes <= 1452 /\
    target_mbps <> Some 0 /\ match target_mbps with Some t => is_u64 t | None => True end
  end /\
  (token_ok token mode -> parse_request (auth_request token mode) = Ok (token, mode)).
Proof.
  intros H. destruct (parse_request_inv _ _ _ H) as (Hlf & Hok & text & _ & Hv & Hl).
  assert (normalize_mode mode = mode) as Hn.
  { destruct mode as [|? ? ? [[]|]]; try done. cbn in Hok. lia. }
  split.
  { assert (token ∈ lines text) as Ht.
    { destruct mode; [rewrite Hl|destruct Hl as (? & -> & _)]; elems. }
    by eapply lines_valid. }
  split; [done|]. split.
  { destruct mode as [|d dur pay tgt]; [done|]. unfold is_u64, is_u16, U16_MAX. cbn in Hok.
    destruct tgt as [t|]; [|naive_solver lia]. split_and!; try lia. intros [= ->]. lia. }
  intros Htok. rewrite parse_auth_request, Hn; [done..|]. unfold mode_requestable. by rewrite Hn.
Qed.

Lemma parsed_request_typed_witness :
  valid_str (lit "abcdef") /\ LF ∉ lit "abcdef" /\
  (is_u64 3 /\ 1 <= 3 /\ is_u16 1200 /\ 64 <= 1200 <= 1452 /\ None <> Some 0 /\ True) /\
  (token_ok (lit "abcdef") (Bench Download 3 1200 None) ->
   parse_request (auth_request (lit "abcdef") (Bench Download 3 1200 None)) =
   Ok (lit "abcdef", Bench Download 3 1200 None)).
Proof.
  apply (parsed_request_typed (AUTH_MAGIC ++ lit "abcdef" ++ [LF] ++ lit "bench download 3 1200" ++ [LF])
    (lit "abcdef") (Bench Download 3 1200 None)).
  vm_compute. reflexivity.
Defined.

(** C38: A configured token with a line feed inside can never authenticate
    anybody, in any environment: the parser hands over a single line. *)
Theorem token_with_line_feed_never_accepted E h c expected mode :
  LF ∈ expected -> (run E h (server_authenticate c expected)).1 <> Val mode.
Proof.
  intros Hlf Hv. pose proof (server_authenticate_cases E h c expected) as H.
  unfold wp in H. rewrite Hv in H. destruct H as (request & _ & Hp & _).
  by apply parse_request_inv in Hp as (Hn & _).
Qed.

Lemma token_with_line_feed_never_accepted_witness :
  let expected := lit "abc" ++ [LF] ++ lit "def" in
  (run (example_server (auth_request expected Vpn)) [] (server_authenticate 8 expected)).1
  <> Val Vpn.
Proof.
  apply token_with_line_feed_never_accepted. apply (bool_decide_unpack _). done.
Defined.
