(* ===== verification/Config.v ===== *)
(** * Configuration: [litevpn-core/src/config.rs], [crypto.rs], [tun.rs]

    The two configuration records with their defaults and validation, the
    token file, and the transport and TUN parameters computed from them. The
    TOML parser is an argument: a configuration is any value it returns. *)

From S2P Require Import Prelude RustStr World.

(** ** lib.rs: limits and defaults *)

Definition DEFAULT_MTU : Z := 1300.
Definition MAX_MTU : Z := 1400.
Definition DEFAULT_DATAGRAM_BUFFER_BYTES : Z := 4 * 1024 * 1024.
Definition DEFAULT_DATAGRAM_BACKLOG_PACKETS : Z := 64.
Definition DEFAULT_UDP_SOCKET_BUFFER_BYTES : Z := 0.

(** ** The records *)

Inductive CongestionController : Type := Cubic | Bbr.
Inductive VpnTransportMode : Type := Datagram | Stream.

#[global] Instance CongestionController_eq_dec : EqDecision CongestionController.
Proof. solve_decision. Defined.
#[global] Instance VpnTransportMode_eq_dec : EqDecision VpnTransportMode.
Proof. solve_decision. Defined.

Module ServerConfig.
Record t := mk {
  listen : str;
  tun_name : str;
  tun_ip : Ipv4Addr;
  tun_prefix : Z;
  client_ip : Ipv4Addr;
  mtu : Z;
  cert_path : str;
  key_path : str;
  auth_token_path : str;
  external_interface : str;
  datagram_buffer_bytes : Z;
  enable_linux_offload : bool;
  tx_queue_len : option Z;
  congestion_controller : CongestionController;
  udp_recv_buffer_bytes : Z;
  udp_send_buffer_bytes : Z;
  egress_target_mbps : Z;
  datagram_backlog_packets : Z;
  adaptive_egress : bool;
  vpn_transport : VpnTransportMode;
}.

Definition default : t := {|
  listen := lit "0.0.0.0:443";
  tun_name := lit "tun0";
  tun_ip := ipv4_new 10 66 0 1;
  tun_prefix := 24;
  client_ip := ipv4_new 10 66 0 2;
  mtu := DEFAULT_MTU;
  cert_path := lit "/etc/litevpn/server.crt";
  key_path := lit "/etc/litevpn/server.key";
  auth_token_path := lit "/etc/litevpn/client.token";
  external_interface := lit "ens3";
  datagram_buffer_bytes := DEFAULT_DATAGRAM_BUFFER_BYTES;
  enable_linux_offload := false;
  tx_queue_len := Some 10000;
  congestion_controller := Cubic;
  udp_recv_buffer_bytes := DEFAULT_UDP_SOCKET_BUFFER_BYTES;
  udp_send_buffer_bytes := DEFAULT_UDP_SOCKET_BUFFER_BYTES;
  egress_target_mbps := 36;
  datagram_backlog_packets := DEFAULT_DATAGRAM_BACKLOG_PACKETS;
  adaptive_egress := true;
  vpn_transport := Datagram;
|}.
End ServerConfig.

Module ClientConfig.
Record t := mk {
  server : str;
  server_name : str;
  tun_name : str;
  client_ip : Ipv4Addr;
  server_tun_ip : Ipv4Addr;
  tun_prefix : Z;
  mtu : Z;
  ca_cert_path : str;
  auth_token_path : str;
  route_all : bool;
  dns : list str;
  datagram_buffer_bytes : Z;
  congestion_controller : CongestionController;
  udp_recv_buffer_bytes : Z;
  udp_send_buffer_bytes : Z;
  egress_target_mbps : Z;
  datagram_backlog_packets : Z;
  adaptive_egress : bool;
  vpn_transport : VpnTransportMode;
}.

Definition default : t := {|
  server := lit "127.0.0.1:443";
  server_name := lit "litevpn.local";
  tun_name := [];
  client_ip := ipv4_new 10 66 0 2;
  server_tun_ip := ipv4_new 10 66 0 1;
  tun_prefix := 24;
  mtu := DEFAULT_MTU;
  ca_cert_path := lit "./config/server.crt";
  auth_token_path := lit "./config/client.token";
  route_all := true;
  dns := [lit "1.1.1.1"; lit "8.8.8.8"];
  datagram_buffer_bytes := DEFAULT_DATAGRAM_BUFFER_BYTES;
  congestion_controller := Bbr;
  udp_recv_buffer_bytes := DEFAULT_UDP_SOCKET_BUFFER_BYTES;
  udp_send_buffer_bytes := DEFAULT_UDP_SOCKET_BUFFER_BYTES;
  egress_target_mbps := 13;
  datagram_backlog_packets := DEFAULT_DATAGRAM_BACKLOG_PACKETS;
  adaptive_egress := false;
  vpn_transport := Datagram;
|}.
End ClientConfig.

(** ** Validation *)

Definition validate_common (mtu prefix datagram_buffer_bytes : Z) : res unit :=
  if mtu <? 576 then bail "mtu must be >= 576" else
  if MAX_MTU <? mtu then bail "mtu must be <= 1400 for QUIC datagram safety" else
  if 32 <? prefix then bail "tun_prefix must be <= 32" else
  if datagram_buffer_bytes <? 64 * 1024 then bail "datagram_buffer_bytes is too small" else
  Ok tt.

Definition validate_udp_socket_buffers (recv_buffer_bytes send_buffer_bytes : Z) : res unit :=
  if negb (recv_buffer_bytes =? 0) && (recv_buffer_bytes <? 64 * 1024) then
    bail "udp_recv_buffer_bytes must be 0 or >= 65536"
  else if negb (send_buffer_bytes =? 0) && (send_buffer_bytes <? 64 * 1024) then
    bail "udp_send_buffer_bytes must be 0 or >= 65536"
  else Ok tt.

Definition validate_egress_target (egress_target_mbps : Z) : res unit :=
  if 10000 <? egress_target_mbps then bail "egress_target_mbps must be <= 10000"
  else Ok tt.

Definition validate_datagram_backlog (datagram_backlog_packets : Z) : res unit :=
  if 100000 <? datagram_backlog_packets then
    bail "datagram_backlog_packets must be <= 100000"
  else Ok tt.

Definition server_validate (c : ServerConfig.t) : res unit :=
  _ <-? validate_common (ServerConfig.mtu c) (ServerConfig.tun_prefix c)
          (ServerConfig.datagram_buffer_bytes c);
  _ <-? validate_udp_socket_buffers (ServerConfig.udp_recv_buffer_bytes c)
          (ServerConfig.udp_send_buffer_bytes c);
  _ <-? validate_egress_target (ServerConfig.egress_target_mbps c);
  _ <-? validate_datagram_backlog (ServerConfig.datagram_backlog_packets c);
  if is_empty (trim (ServerConfig.tun_name c)) then
    bail "server tun_name must not be empty"
  else if is_empty (trim (ServerConfig.external_interface c)) then
    bail "external_interface must not be empty"
  else Ok tt.

Definition client_validate (c : ClientConfig.t) : res unit :=
  _ <-? validate_common (ClientConfig.mtu c) (ClientConfig.tun_prefix c)
          (ClientConfig.datagram_buffer_bytes c);
  _ <-? validate_udp_socket_buffers (ClientConfig.udp_recv_buffer_bytes c)
          (ClientConfig.udp_send_buffer_bytes c);
  _ <-? validate_egress_target (ClientConfig.egress_target_mbps c);
  _ <-? validate_datagram_backlog (ClientConfig.datagram_backlog_packets c);
  if is_empty (trim (ClientConfig.server c)) then bail "server must not be empty"
  else if is_empty (trim (ClientConfig.server_name c)) then
    bail "server_name must not be empty"
  else Ok tt.

(** ** The configuration and token files *)

(** [load_toml], with [toml::from_str] of the configuration's type. *)
Definition load_toml {T} (from_str : str -> ext T) (path : str) : M T :=
  raw <- call_with_context (lit "failed to read config " ++ path) (ReadToString path);
  lift (match from_str raw with
        | Ok config => Ok config
        | Err e => Err (Context (lit "failed to parse config " ++ path) (External e))
        end).

(** [load_token]: the file's text without surrounding white space, at least 32
    bytes of it. *)
Definition load_token (path : str) : M str :=
  raw <- Vis (ReadToString path) (fun r =>
    match r with
    | Ok raw => ret raw
    | Err e => fail (Context (lit "failed to read token " ++ path) (External e))
    end);
  let token := trim raw in
  if str_len token <? 32 then
    fail (Msg (lit "token in " ++ path ++ lit " is too short; run litevpn-keygen"))
  else ret token.

(** ** crypto.rs: transport parameters *)

Definition quic_initial_mtu (tun_mtu : Z) : Z :=
  Z.min (saturating_add U16_MAX tun_mtu 160) 1452.

Definition tune_transport (tun_mtu : Z) (congestion_controller : CongestionController) :
    list transport_setting :=
  [ MaxConcurrentBidiStreams 4; MaxConcurrentUniStreams 4;
    KeepAliveInterval (Some (secs 5)); MaxIdleTimeout (Some (secs 30));
    InitialMtu (quic_initial_mtu tun_mtu);
    ReceiveWindow (8 * 1024 * 1024); StreamReceiveWindow (2 * 1024 * 1024);
    SendWindow (8 * 1024 * 1024); EnableSegmentationOffload true; SendFairness false ] ++
  match congestion_controller with
  | Cubic => []
  | Bbr => [CongestionControllerBbr]
  end.

Definition transport_config (datagram_buffer_bytes tun_mtu : Z)
    (congestion_controller : CongestionController) : list transport_setting :=
  tune_transport tun_mtu congestion_controller ++
  [ DatagramReceiveBufferSize (Some datagram_buffer_bytes);
    DatagramSendBufferSize datagram_buffer_bytes ].

(** ** tun.rs: the device *)

Record TunOptions := mk_tun_options {
  name : str;
  address : Ipv4Addr;
  prefix : Z;
  destination : option Ipv4Addr;
  tun_mtu : Z;
  offload : bool;
  queue_len : option Z;
}.

Inductive target_os : Type := Linux | MacOS.

(** The builder [create_tun] sets up, and the device it builds. *)
Definition tun_builder (os : target_os) (options : TunOptions) : list tun_setting :=
  [ LayerL3; TunMtu (tun_mtu options);
    TunIpv4 (address options) (prefix options) (destination options) ] ++
  (if is_empty (trim (name options)) then [] else [TunName (name options)]) ++
  [ PacketInformation false ] ++
  match os with
  | Linux =>
    [ TunOffload (offload options); MultiQueue false ] ++
    match queue_len options with Some n => [TxQueueLen n] | None => [] end
  | MacOS => [ AssociateRoute true; Persist false ]
  end.

Definition create_tun (os : target_os) (options : TunOptions) : M unit :=
  call (BuildAsync (tun_builder os options)).

(** The options each end passes ([main] of the two binaries). *)
Definition server_tun_options (c : ServerConfig.t) : TunOptions := {|
  name := ServerConfig.tun_name c;
  address := ServerConfig.tun_ip c;
  prefix := ServerConfig.tun_prefix c;
  destination := Some (ServerConfig.client_ip c);
  tun_mtu := ServerConfig.mtu c;
  offload := ServerConfig.enable_linux_offload c;
  queue_len := ServerConfig.tx_queue_len c;
|}.

Definition client_tun_options (c : ClientConfig.t) : TunOptions := {|
  name := ClientConfig.tun_name c;
  address := ClientConfig.client_ip c;
  prefix := ClientConfig.tun_prefix c;
  destination := Some (ClientConfig.server_tun_ip c);
  tun_mtu := ClientConfig.mtu c;
  offload := false;
  queue_len := None;
|}.

(** ** What validation lets through *)

(** The conditions both ends share, on the fields of the same names. *)
Definition common_valid (mtu prefix buffer recv send target backlog : Z) : Prop :=
  576 <= mtu <= 1400 /\ prefix <= 32 /\ 64 * 1024 <= buffer /\
  (recv = 0 \/ 64 * 1024 <= recv) /\ (send = 0 \/ 64 * 1024 <= send) /\
  target <= 10000 /\ backlog <= 100000.

Definition server_valid (c : ServerConfig.t) : Prop :=
  common_valid (ServerConfig.mtu c) (ServerConfig.tun_prefix c)
    (ServerConfig.datagram_buffer_bytes c) (ServerConfig.udp_recv_buffer_bytes c)
    (ServerConfig.udp_send_buffer_bytes c) (ServerConfig.egress_target_mbps c)
    (ServerConfig.datagram_backlog_packets c) /\
  ~ is_space (ServerConfig.tun_name c) /\ ~ is_space (ServerConfig.external_interface c).

Definition client_valid (c : ClientConfig.t) : Prop :=
  common_valid (ClientConfig.mtu c) (ClientConfig.tun_prefix c)
    (ClientConfig.datagram_buffer_bytes c) (ClientConfig.udp_recv_buffer_bytes c)
    (ClientConfig.udp_send_buffer_bytes c) (ClientConfig.egress_target_mbps c)
    (ClientConfig.datagram_backlog_packets c) /\
  ~ is_space (ClientConfig.server c) /\ ~ is_space (ClientConfig.server_name c).

(** The fields are machine integers: the record's types in the source. *)
Lemma validate_shared mtu prefix buffer recv send target backlog :
  0 <= recv -> 0 <= send ->
  (validate_common mtu prefix buffer = Ok tt /\
   validate_udp_socket_buffers recv send = Ok tt /\
   validate_egress_target target = Ok tt /\
   validate_datagram_backlog backlog = Ok tt)
  <-> common_valid mtu prefix buffer recv send target backlog.
Proof.
  intros Hr Hs.
  assert (validate_common mtu prefix buffer = Ok tt <->
    576 <= mtu <= 1400 /\ prefix <= 32 /\ 64 * 1024 <= buffer) as ->
    by (unfold validate_common, MAX_MTU, bail; bcase; intuition (discriminate || lia)).
  assert (validate_udp_socket_buffers recv send = Ok tt <->
    (recv = 0 \/ 64 * 1024 <= recv) /\ (send = 0 \/ 64 * 1024 <= send)) as ->
    by (unfold validate_udp_socket_buffers, bail; bcase; cbn [negb andb];
        intuition (discriminate || lia)).
  assert (validate_egress_target target = Ok tt <-> target <= 10000) as ->
    by (unfold validate_egress_target, bail; bcase; intuition (discriminate || lia)).
  assert (validate_datagram_backlog backlog = Ok tt <-> backlog <= 100000) as ->
    by (unfold validate_datagram_backlog, bail; bcase; intuition (discriminate || lia)).
  unfold common_valid. tauto.
Qed.

Lemma bail_if_empty s m (r : res unit) :
  (if is_empty (trim s) then bail m else r) = Ok tt <-> ~ is_space s /\ r = Ok tt.
Proof.
  rewrite <-trim_empty. destruct (is_empty (trim s)); naive_solver.
Qed.

Lemma unit_ok (r : res unit) (P : unit -> Prop) :
  (exists a, r = Ok a /\ P a) <-> r = Ok tt /\ P tt.
Proof. split; [intros ([] & ? & ?); done|intros []; by exists tt]. Qed.

Lemma load_token_run (E : env) h path :
  run E h (load_token path) =
  (match E _ h (ReadToString path) with
   | Err e => Fail (Context (lit "failed to read token " ++ path) (External e))
   | Ok raw =>
     if str_len (trim raw) <? 32
     then Fail (Msg (lit "token in " ++ path ++ lit " is too short; run litevpn-keygen"))
     else Val (trim raw)
   end, h ++ [Ev (ReadToString path) (E _ h (ReadToString path))]).
Proof.
  unfold load_token. cbn. destruct (E _ h (ReadToString path)) as [raw|e]; [|done].
  cbn. by destruct (str_len (trim raw) <? 32).
Qed.

Lemma server_validate_spec c :
  0 <= ServerConfig.udp_recv_buffer_bytes c -> 0 <= ServerConfig.udp_send_buffer_bytes c ->
  server_validate c = Ok tt <-> server_valid c.
Proof.
  intros. unfold server_validate, server_valid. rewrite <-validate_shared by done.
  rewrite !res_bind_ok, unit_ok, !res_bind_ok, unit_ok, !res_bind_ok, unit_ok,
    !res_bind_ok, unit_ok, !bail_if_empty. tauto.
Qed.

Lemma client_validate_spec c :
  0 <= ClientConfig.udp_recv_buffer_bytes c -> 0 <= ClientConfig.udp_send_buffer_bytes c ->
  client_validate c = Ok tt <-> client_valid c.
Proof.
  intros. unfold client_validate, client_valid. rewrite <-validate_shared by done.
  rewrite !res_bind_ok, unit_ok, !res_bind_ok, unit_ok, !res_bind_ok, unit_ok,
    !res_bind_ok, unit_ok, !bail_if_empty. tauto.
Qed.

(** ** Properties *)

(** C40: Validation is exact. [ServerConfig::validate] accepts exactly the
    configurations whose MTU, prefix, buffers, target and backlog are in range
    and whose interface names have a visible character;
    [ClientConfig::validate] exactly those in the same ranges whose server
    address and name have a visible character. *)
Theorem validation_exact s c :
  0 <= ServerConfig.udp_recv_buffer_bytes s -> 0 <= ServerConfig.udp_send_buffer_bytes s ->
  0 <= ClientConfig.udp_recv_buffer_bytes c -> 0 <= ClientConfig.udp_send_buffer_bytes c ->
  (server_validate s = Ok tt <-> server_valid s) /\
  (client_validate c = Ok tt <-> client_valid c).
Proof. intros. split; [by apply server_validate_spec|by apply client_validate_spec]. Qed.

Lemma validation_exact_witness :
  (server_validate ServerConfig.default = Ok tt <-> server_valid ServerConfig.default) /\
  (client_validate ClientConfig.default = Ok tt <-> client_valid ClientConfig.default).
Proof. apply validation_exact; done. Defined.

(** The defaults of the two ends pass their own validation and fit each
    other: the same MTU, prefix and transport, each end's peer address is the
    other end's own, and the devices created from them say so. *)
Lemma default_configs_agree :
  let s := ServerConfig.default in
  let c := ClientConfig.default in
  server_validate s = Ok tt /\ client_validate c = Ok tt /\
  ServerConfig.mtu s = ClientConfig.mtu c /\
  ServerConfig.tun_prefix s = ClientConfig.tun_prefix c /\
  ServerConfig.vpn_transport s = ClientConfig.vpn_transport c /\
  ServerConfig.client_ip s = ClientConfig.client_ip c /\
  ServerConfig.tun_ip s = ClientConfig.server_tun_ip c /\
  destination (server_tun_options s) = Some (address (client_tun_options c)) /\
  destination (client_tun_options c) = Some (address (server_tun_options s)).
Proof. vm_compute. tauto. Qed.

(** For a validated MTU the computed initial QUIC MTU is set without
    saturating, stays within an Ethernet frame (1452 bytes of UDP payload),
    leaves at least 52 bytes around a full tunnel packet, and the receive
    buffer of [mtu + 64] bytes is never too long for the 16-bit length of a
    stream frame. *)
Lemma initial_mtu_fits c controller :
  server_valid c ->
  let mtu := ServerConfig.mtu c in
  InitialMtu (quic_initial_mtu mtu)
    ∈ transport_config (ServerConfig.datagram_buffer_bytes c) mtu controller /\
  quic_initial_mtu mtu = Z.min (mtu + 160) 1452 /\
  mtu + 52 <= quic_initial_mtu mtu <= 1452 /\ mtu + 64 <= U16_MAX.
Proof.
  intros [(Hm & _) _] mtu. subst mtu.
  split; [unfold transport_config, tune_transport; cbn [app]; set_solver|].
  unfold quic_initial_mtu, saturating_add, U16_MAX. lia.
Qed.

Lemma initial_mtu_fits_witness :
  let mtu := ServerConfig.mtu ServerConfig.default in
  InitialMtu (quic_initial_mtu mtu)
    ∈ transport_config (ServerConfig.datagram_buffer_bytes ServerConfig.default) mtu Cubic /\
  quic_initial_mtu mtu = Z.min (mtu + 160) 1452 /\
  mtu + 52 <= quic_initial_mtu mtu <= 1452 /\ mtu + 64 <= U16_MAX.
Proof.
  apply (initial_mtu_fits ServerConfig.default Cubic).
  split; [unfold common_valid; cbv; intuition discriminate|].
  split; intros H; inversion H; discriminate.
Defined.

(** [load_token] reads the file once and, when it returns a token, that
    token is the file's text without the white space around it, has none at
    either end, and is at least 32 bytes long; it fails when the file cannot
    be read or less than that is left, and never panics. *)
Lemma load_token_trims (E : env) h path :
  match E _ h (ReadToString path), (run E h (load_token path)).1 with
  | Ok raw, Val token =>
    32 <= str_len token /\ exists pre post, raw = pre ++ token ++ post /\
      is_space pre /\ is_space post /\
      (forall c, head token = Some c -> is_whitespace c = false) /\
      (forall c, last token = Some c -> is_whitespace c = false)
  | Ok raw, Fail _ => str_len (trim raw) < 32
  | Err _, Fail _ => True
  | _, _ => False
  end.
Proof.
  rewrite load_token_run. destruct (E _ h (ReadToString path)) as [raw|e]; cbn [fst]; [|done].
  destruct (Z.ltb_spec (str_len (trim raw)) 32); [done|].
  split; [done|]. destruct (trim_spec raw) as (pre & post & ? & ?). by exists pre, post.
Qed.
