(* ===== verification/Crypto.v ===== *)
(** * TLS and transport configuration: [litevpn-core/src/crypto.rs]

    Certificates and keys read from PEM files, and the QUIC configurations of
    the two ends. rustls and its PEM reader are calls of the environment; a
    configuration is the record of what it was given. *)

From S2P Require Import Prelude RustStr World Auth Config.

Definition read_certs (path : str) : M (list bytes) :=
  file <- call_with_context (lit "failed to open " ++ path) (OpenFile path);
  certs <- call_with_context (lit "failed to parse certificates in " ++ path) (PemCerts file);
  if is_empty certs then fail (Msg (lit "no certificates found in " ++ path))
  else ret certs.

Definition read_private_key (path : str) : M bytes :=
  file <- call_with_context (lit "failed to open " ++ path) (OpenFile path);
  key <- call_with_context (lit "failed to parse private key in " ++ path) (PemPrivateKey file);
  match key with
  | Some key => ret key
  | None => fail (Msg (lit "no private key found in " ++ path))
  end.

Definition server_config (cert_path key_path : str) (datagram_buffer_bytes tun_mtu : Z)
    (congestion_controller : CongestionController) : M QuicServerConfig :=
  certs <- read_certs cert_path;
  key <- read_private_key key_path;
  call (SingleCert certs key) ;;
  call QuicServerCrypto ;;
  ret (mk_quic_server certs key [ALPN]
         (transport_config datagram_buffer_bytes tun_mtu congestion_controller)).

(** [for cert in read_certs(..)? { roots.add(cert)?; }]. *)
Fixpoint add_roots (certs : list bytes) : M unit :=
  match certs with
  | [] => ret tt
  | cert :: certs => call (AddRoot cert) ;; add_roots certs
  end.

Definition client_config (ca_cert_path : str) (datagram_buffer_bytes tun_mtu : Z)
    (congestion_controller : CongestionController) : M QuicClientConfig :=
  certs <- read_certs ca_cert_path;
  add_roots certs ;;
  call QuicClientCrypto ;;
  ret (mk_quic_client certs [ALPN]
         (transport_config datagram_buffer_bytes tun_mtu congestion_controller)).

(** ** What the files must hold *)

(** An answer a configuration is not made with: an error, a file without a
    certificate, a file without a key. *)
Definition refused (e : event) : bool :=
  match e with
  | Ev o x =>
    match o in Op X return X -> bool with
    | OpenFile _ => fun r => negb (is_ok r)
    | PemCerts _ => fun r => match r with Ok (_ :: _) => false | _ => true end
    | PemPrivateKey _ => fun r => match r with Ok (Some _) => false | _ => true end
    | AddRoot _ | SingleCert _ _ | QuicServerCrypto | QuicClientCrypto => fun r => negb (is_ok r)
    | _ => fun _ => false
    end x
  end.

(** A trace that ends with its first refusal. *)
Fixpoint cut_short (t : history) : bool :=
  match t with
  | [] => false
  | [e] => refused e
  | e :: t => negb (refused e) && cut_short t
  end.

Lemma cut_short_cons e t : refused e = false -> cut_short t = true -> cut_short (e :: t) = true.
Proof. intros He Ht. destruct t; [done|]. cbn [cut_short]. by rewrite He. Qed.

(** What was read for a server: the certificates of the file at one path, the
    private key of the file at the other, accepted together. *)
Definition server_files (cert_path key_path : str) (certs : list bytes) (key : bytes)
    (t : history) : Prop :=
  certs <> [] /\ exists cert_file key_file, t =
    [ Ev (OpenFile cert_path) (Ok cert_file); Ev (PemCerts cert_file) (Ok certs);
      Ev (OpenFile key_path) (Ok key_file); Ev (PemPrivateKey key_file) (Ok (Some key));
      Ev (SingleCert certs key) (Ok tt); Ev QuicServerCrypto (Ok tt) ].

(** What was read for a client: the certificates of one file, each accepted as
    a root. *)
Definition root_event (cert : bytes) : event := Ev (AddRoot cert) (Ok tt).
Definition client_files (ca_path : str) (certs : list bytes) (t : history) : Prop :=
  certs <> [] /\ exists file, t =
    [ Ev (OpenFile ca_path) (Ok file); Ev (PemCerts file) (Ok certs) ] ++
    map root_event certs ++ [ Ev QuicClientCrypto (Ok tt) ].

(** Walk through calls whose answers are all kept. *)
Ltac traced := rewrite <- ?app_assoc; eexists; split; [reflexivity|].

Lemma server_config_spec E h cert_path key_path buffer mtu cc :
  wp E h (server_config cert_path key_path buffer mtu cc) (fun r h' => exists t, h' = h ++ t /\
    match r with
    | Val sc =>
      server_files cert_path key_path (server_certs sc) (server_key sc) t /\
      server_alpn sc = [ALPN] /\ server_transport sc = transport_config buffer mtu cc
    | Fail _ => cut_short t = true
    | _ => False
    end).
Proof.
  unfold server_config, read_certs, read_private_key, call_with_context, wp. cbn -[app lit].
  destruct (E _ h (OpenFile cert_path)) as [f1|]; cbn -[app lit]; [|by traced].
  destruct (E _ _ (PemCerts f1)) as [[|c certs]|]; cbn -[app lit]; [by traced| |by traced].
  destruct (E _ _ (OpenFile key_path)) as [f2|]; cbn -[app lit]; [|by traced].
  destruct (E _ _ (PemPrivateKey f2)) as [[key|]|]; cbn -[app lit]; [|by traced..].
  destruct (E _ _ (SingleCert _ key)) as [[]|]; cbn -[app lit]; [|by traced].
  destruct (E _ _ QuicServerCrypto) as [[]|]; cbn -[app lit]; [|by traced].
  traced. split; [|done]. split; [done|]. by exists f1, f2.
Qed.

Lemma add_roots_spec E certs : forall h,
  wp E h (add_roots certs) (fun r h' => exists t, h' = h ++ t /\
    match r with
    | Val _ => t = map root_event certs
    | Fail _ => cut_short t = true
    | _ => False
    end).
Proof.
  induction certs as [|c certs IH]; intros h; cbn [add_roots].
  - apply wp_ret. exists []. by rewrite app_nil_r.
  - apply wp_bind, wp_vis. destruct (E _ h (AddRoot c)) as [[]|e] eqn:Ha; apply wp_ret.
    + eapply wp_mono; [apply IH|]. intros r h' (t & -> & Hr). traced.
      destruct r; try done; [by rewrite Hr|by apply cut_short_cons].
    + by traced.
Qed.

Lemma cut_short_roots certs t : cut_short t = true -> cut_short (map root_event certs ++ t) = true.
Proof. intros Ht. induction certs as [|c certs IH]; [done|by apply cut_short_cons]. Qed.

Lemma client_config_spec E h ca_path buffer mtu cc :
  wp E h (client_config ca_path buffer mtu cc) (fun r h' => exists t, h' = h ++ t /\
    match r with
    | Val c => client_files ca_path (client_roots c) t /\
        client_alpn c = [ALPN] /\ client_transport c = transport_config buffer mtu cc
    | Fail _ => cut_short t = true
    | _ => False
    end).
Proof.
  unfold client_config, read_certs, call_with_context. apply wp_bind, wp_bind, wp_vis.
  destruct (E _ h (OpenFile ca_path)) as [f|]; apply wp_ret; [|by traced].
  apply wp_bind, wp_vis.
  destruct (E _ _ (PemCerts f)) as [[|c certs]|]; apply wp_ret; [by traced| |by traced].
  cbn [is_empty]. apply wp_ret, wp_bind. eapply wp_mono; [apply add_roots_spec|].
  intros r h2 (t & -> & Hr). destruct r as [[]|e| |]; [|traced|done..].
  2:{ by do 2 (apply cut_short_cons; [done|]). }
  rewrite Hr. apply wp_bind, wp_vis.
  destruct (E _ _ QuicClientCrypto) as [[]|]; apply wp_ret; [apply wp_ret|]; traced.
  - split; [|done]. split; [done|]. by exists f.
  - do 2 (apply cut_short_cons; [done|]). by apply cut_short_roots.
Qed.

(** ** Properties *)

(** C37: The TLS configurations are made of the files named, and fit each
    other. In every environment: a server's configuration is returned exactly
    when the file at [cert] opened and held certificates, the file at [key]
    opened and held a private key, and rustls accepted that pair, and it
    consists of them; a client's exactly when the file at [ca] opened and held
    certificates and every one of them was accepted as a root, in order. Any
    failure is at the first refusal (an error, no certificate, no key), after
    which nothing more is called, and neither end panics. Two such
    configurations then speak the one protocol [ALPN], take datagrams up to
    the configured buffer, and send keep-alives more than twice as often as
    the other end's idle timeout. *)
Theorem tls_configs_agree Es Ec hs hc cert key ca bs bc ms mc ccs ccc :
  let s := run Es hs (server_config cert key bs ms ccs) in
  let c := run Ec hc (client_config ca bc mc ccc) in
  exists ts tc, s.2 = hs ++ ts /\ c.2 = hc ++ tc /\
  match s.1 with
  | Val sc => server_files cert key (server_certs sc) (server_key sc) ts
  | Fail _ => cut_short ts = true
  | _ => False
  end /\
  match c.1 with
  | Val cc => client_files ca (client_roots cc) tc
  | Fail _ => cut_short tc = true
  | _ => False
  end /\
  forall sc cc, s.1 = Val sc -> c.1 = Val cc ->
    server_alpn sc = [ALPN] /\ client_alpn cc = [ALPN] /\
    DatagramReceiveBufferSize (Some bs) ∈ server_transport sc /\
    DatagramReceiveBufferSize (Some bc) ∈ client_transport cc /\
    exists keep_alive idle, 2 * keep_alive < idle /\
      KeepAliveInterval (Some keep_alive) ∈ server_transport sc /\
      KeepAliveInterval (Some keep_alive) ∈ client_transport cc /\
      MaxIdleTimeout (Some idle) ∈ server_transport sc /\
      MaxIdleTimeout (Some idle) ∈ client_transport cc.
Proof.
  intros s c.
  destruct (server_config_spec Es hs cert key bs ms ccs) as (ts & Ets & Hs).
  destruct (client_config_spec Ec hc ca bc mc ccc) as (tc & Etc & Hc).
  fold s in Ets, Hs. fold c in Etc, Hc. exists ts, tc. split; [done|]. split; [done|].
  split; [by destruct s.1; [apply Hs|..]|]. split; [by destruct c.1; [apply Hc|..]|].
  intros sc cc E1 E2. rewrite E1 in Hs. rewrite E2 in Hc.
  destruct Hs as (_ & ? & Ht), Hc as (_ & ? & Ht').
  split; [done|]. split; [done|]. rewrite Ht, Ht'. unfold transport_config, tune_transport.
  split; [set_solver|]. split; [set_solver|].
  exists (secs 5), (secs 30). split; [done|].
  split_and!; apply elem_of_app; left; apply elem_of_app; left; set_solver.
Qed.

(** Three files: a certificate, its key, and an authority's two. *)
Definition pki : env := fun X h o =>
  match o in Op X return X -> X with
  | OpenFile path => fun _ =>
      if bool_decide (path = lit "server.crt") then Ok 1
      else if bool_decide (path = lit "server.key") then Ok 2
      else if bool_decide (path = lit "ca.crt") then Ok 3 else Err (lit "not found")
  | PemCerts file => fun _ => Ok (if file =? 1 then [[10]] else if file =? 3 then [[20]; [21]] else [])
  | PemPrivateKey file => fun _ => Ok (if file =? 2 then Some [30] else None)
  | AddRoot _ => fun _ => Ok tt
  | SingleCert _ _ => fun _ => Ok tt
  | QuicServerCrypto => fun _ => Ok tt
  | QuicClientCrypto => fun _ => Ok tt
  | _ => fun x => x
  end (quiet X h o).

Lemma tls_configs_agree_witness :
  let s := run pki [] (server_config (lit "server.crt") (lit "server.key") 1 2 Bbr) in
  let c := run pki [] (client_config (lit "ca.crt") 3 4 Cubic) in
  exists sc cc, s.1 = Val sc /\ c.1 = Val cc /\
    server_files (lit "server.crt") (lit "server.key") (server_certs sc) (server_key sc) s.2 /\
    client_files (lit "ca.crt") (client_roots cc) c.2 /\
    server_key sc = [30] /\ client_roots cc = [[20]; [21]] /\ server_alpn sc = client_alpn cc.
Proof.
  intros s c.
  destruct (tls_configs_agree pki pki [] [] (lit "server.crt") (lit "server.key") (lit "ca.crt")
    1 3 2 4 Bbr Cubic) as (ts & tc & Es & Ec & Hs & Hc & Hboth).
  exists (mk_quic_server [[10]] [30] [ALPN] (transport_config 1 2 Bbr)).
  exists (mk_quic_client [[20]; [21]] [ALPN] (transport_config 3 4 Cubic)).
  assert (s.1 = Val (mk_quic_server [[10]] [30] [ALPN] (transport_config 1 2 Bbr))) as Vs
    by (vm_compute; reflexivity).
  assert (c.1 = Val (mk_quic_client [[20]; [21]] [ALPN] (transport_config 3 4 Cubic))) as Vc
    by (vm_compute; reflexivity).
  fold s in Es, Hs, Hboth. fold c in Ec, Hc, Hboth. rewrite Vs in Hs. rewrite Vc in Hc.
  destruct (Hboth _ _ Vs Vc) as (Ha & Ha' & _).
  split; [exact Vs|]. split; [exact Vc|]. rewrite Es, Ec. split; [exact Hs|]. split; [exact Hc|done].
Defined.

(** A key file without a key, and paths given the wrong way round, are
    refused. *)
Example key_needed :
  (run pki [] (server_config (lit "server.crt") (lit "server.crt") 1 2 Bbr)).1 =
    Fail (Msg (lit "no private key found in server.crt")) /\
  (run pki [] (server_config (lit "server.key") (lit "server.crt") 1 2 Bbr)).1 =
    Fail (Msg (lit "no certificates found in server.key")).
Proof. vm_compute. done. Qed.
