(* ===== verification/Float64.v ===== *)
(** * Binary64 arithmetic

    Rust's [f64] as the Standard Library's [SpecFloat] at precision 53 and
    maximal exponent 1024: IEEE 754 binary64 with round-to-nearest-even,
    computed exactly and without axioms. The second half proves the facts
    about rounding that the pacer needs. *)

From S2P Require Import Prelude.
From Stdlib Require Export SpecFloat.

Abbreviation f64 := spec_float (only parsing).

Definition prec : Z := 53.
Definition emax : Z := 1024.

(** ** Operations *)

Definition f64_mul : f64 -> f64 -> f64 := SFmul prec emax.
Definition f64_div : f64 -> f64 -> f64 := SFdiv prec emax.
Definition f64_add : f64 -> f64 -> f64 := SFadd prec emax.
Definition f64_sub : f64 -> f64 -> f64 := SFsub prec emax.
Definition f64_le : f64 -> f64 -> bool := SFleb.
Definition f64_lt : f64 -> f64 -> bool := SFltb.
Definition f64_abs : f64 -> f64 := SFabs.

(** [n as f64]. *)
Definition f64_of_u64 (n : Z) : f64 := binary_normalize prec emax n 0 false.

(** A decimal literal [n/d] of the source: the quotient of two exact integers
    is the correctly rounded decimal. *)
Definition f64_lit (n d : Z) : f64 := f64_div (f64_of_u64 n) (f64_of_u64 d).

(** [f64::EPSILON], 2^-52. *)
Definition f64_epsilon : f64 := binary_normalize prec emax 1 (-52) false.

(** [f64::max], [f64::min]: a NaN operand is ignored. *)
Definition f64_max (x y : f64) : f64 :=
  match x, y with
  | S754_nan, _ => y
  | _, S754_nan => x
  | _, _ => if f64_lt x y then y else x
  end.
Definition f64_min (x y : f64) : f64 :=
  match x, y with
  | S754_nan, _ => y
  | _, S754_nan => x
  | _, _ => if f64_lt y x then y else x
  end.

(** The integer part and the ceiling of [m * 2^e]. *)
Definition floor_pow (m e : Z) : Z := if 0 <=? e then m * 2 ^ e else m / 2 ^ (- e).
Definition ceil_pow (m e : Z) : Z := - floor_pow (- m) e.

(** [f64::ceil]. *)
Definition f64_ceil (x : f64) : f64 :=
  match x with
  | S754_finite s m e =>
    let c := if s then - floor_pow (Zpos m) e else ceil_pow (Zpos m) e in
    binary_normalize prec emax c 0 s
  | _ => x
  end.

(** [x as u64]: truncates and saturates; NaN is 0. *)
Definition f64_to_u64 (x : f64) : Z :=
  match x with
  | S754_finite false m e => Z.min (floor_pow (Zpos m) e) U64_MAX
  | S754_infinity false => U64_MAX
  | _ => 0
  end.

(** [Duration::as_secs_f64] and [Duration::from_secs_f64], durations in
    nanoseconds: the latter rounds to the nearest nanosecond, ties to even,
    and panics ([None]) on a negative, too large or non-finite value. *)
Definition as_secs_f64 (ns : Z) : f64 :=
  f64_add (f64_of_u64 (ns / 1000000000))
    (f64_div (f64_of_u64 (ns mod 1000000000)) (f64_of_u64 1000000000)).

Definition round_half_even (a b : Z) : Z :=
  let q := a / b in
  let r := a mod b in
  if 2 * r <? b then q
  else if 2 * r =? b then (if Z.even q then q else q + 1)
  else q + 1.

(** The integer nearest to [m * 2^e * k]. *)
Definition round_scaled (k m e : Z) : Z :=
  if 0 <=? e then m * 2 ^ e * k else round_half_even (m * k) (2 ^ (- e)).

Definition from_secs_f64 (x : f64) : option Z :=
  match x with
  | S754_zero _ => Some 0
  | S754_finite false m e =>
    let ns := round_scaled 1000000000 (Zpos m) e in
    if ns / 1000000000 <=? U64_MAX then Some ns else None
  | _ => None
  end.

(** ** Rounding

    [rep mrs a b]: the shift record [mrs] stands for the number [a/b]: its
    mantissa is the integer part and its two bits say how the fraction
    compares with one half. *)

Definition rep (mrs : shr_record) (a b : Z) : Prop :=
  let m := shr_m mrs in
  let r := a - m * b in
  0 < b /\ 0 <= m /\ 0 <= r < b /\
  match shr_r mrs, shr_s mrs with
  | false, false => r = 0
  | false, true => 0 < r /\ 2 * r < b
  | true, false => 2 * r = b
  | true, true => b < 2 * r
  end.

Lemma shr_m_loc m l : shr_m (shr_record_of_loc m l) = m.
Proof. by destruct l as [|[]]. Qed.

Lemma rep_shr_1 mrs a b : rep mrs a b -> rep (shr_1 mrs) a (2 * b).
Proof.
  destruct mrs as [m r s]. unfold rep. intros (Hb & Hm & Hr & Hc).
  destruct m as [|[p|p|]|]; cbn [shr_m shr_r shr_s shr_1] in *; try lia.
  - destruct r, s; simpl; lia.
  - rewrite (Pos2Z.inj_xI p) in *.
    destruct r, s; cbn [orb] in *; lia.
  - rewrite (Pos2Z.inj_xO p) in *.
    destruct r, s; cbn [orb] in *; lia.
  - destruct r, s; cbn [orb] in *; lia.
Qed.

Lemma rep_iter p : forall mrs a b,
  rep mrs a b -> rep (iter_pos shr_1 p mrs) a (b * 2 ^ Zpos p).
Proof.
  induction p as [p IH|p IH|]; intros mrs a b H; cbn [iter_pos].
  - apply rep_shr_1, IH, IH in H. revert H.
    replace (b * 2 ^ Z.pos p~1) with (2 * b * 2 ^ Z.pos p * 2 ^ Z.pos p); [done|].
    replace (Z.pos p~1) with (1 + (Z.pos p + Z.pos p)) by lia.
    rewrite !Z.pow_add_r by lia. lia.
  - apply IH, IH in H. revert H.
    replace (b * 2 ^ Z.pos p~0) with (b * 2 ^ Z.pos p * 2 ^ Z.pos p); [done|].
    replace (Z.pos p~0) with (Z.pos p + Z.pos p) by lia.
    rewrite !Z.pow_add_r by lia. lia.
  - apply rep_shr_1 in H. revert H. by replace (b * 2 ^ 1) with (2 * b) by lia.
Qed.

(** Round-to-nearest-even of a represented number is within one half of it. *)
Lemma rep_round mrs a b :
  rep mrs a b ->
  let q := round_nearest_even (shr_m mrs) (loc_of_shr_record mrs) in
  2 * Z.abs (q * b - a) <= b /\ shr_m mrs <= q <= shr_m mrs + 1 /\
  (forall k, a <= k * b -> q <= k) /\ (forall k, k * b <= a -> k <= q).
Proof.
  destruct mrs as [m r s]. unfold rep. cbn [shr_m shr_r shr_s].
  intros (Hb & Hm & Hr & Hc).
  assert (forall q, m <= q <= m + 1 -> (a = m * b -> q = m) ->
    (forall k, a <= k * b -> q <= k) /\ (forall k, k * b <= a -> k <= q)) as Hk.
  { intros q Hq Hex. split; intros k Hk.
    - destruct (Z.eq_dec (a - m * b) 0) as [E|E]; [rewrite Hex by lia; nia|nia].
    - nia. }
  assert ((m + 1) * b = m * b + b) as Hm1 by lia.
  destruct r, s; cbn [loc_of_shr_record round_nearest_even];
    try (destruct (Z.even m)); rewrite ?Hm1;
    (split; [lia|]); (split; [lia|]); apply Hk; lia.
Qed.

(** ** Normal numbers *)

Definition is_mant (m : Z) : Prop := 2 ^ 52 <= m < 2 ^ 53.

Lemma digits2_log2 p : Zpos (digits2_pos p) = Z.log2 (Zpos p) + 1.
Proof.
  induction p as [p IH|p IH|]; cbn [digits2_pos]; [| |done].
  - rewrite Pos2Z.inj_succ, IH. rewrite (Pos2Z.inj_xI p), Z.log2_succ_double; lia.
  - rewrite Pos2Z.inj_succ, IH. rewrite (Pos2Z.inj_xO p), Z.log2_double; lia.
Qed.

(** The float [q * 2^e] for [q] between [2^52] and [2^53]. *)
Definition norm (q e : Z) : f64 :=
  let '(m, e') := if q =? 2 ^ 53 then (2 ^ 52, e + 1) else (q, e) in
  if e' <=? 971 then S754_finite false (Z.to_pos m) e' else S754_infinity false.

(** Dropping the last [n] digits of a number with [n + 53] leaves 53. *)
Lemma rep_digits m l mrs a b n : 0 < m -> n = Z.log2 m - 52 -> 0 <= n ->
  rep (shr_record_of_loc m l) a b -> rep mrs a (b * 2 ^ n) ->
  2 ^ 52 <= shr_m mrs < 2 ^ 53.
Proof.
  intros Hm Hn Hn0 (Hb & _ & Hra & _) (Hb' & _ & Hra' & _). rewrite shr_m_loc in Hra.
  assert (2 ^ (n + 52) <= m < 2 ^ (n + 53)) as Hlog.
  { replace (n + 52) with (Z.log2 m) by lia. replace (n + 53) with (Z.succ (Z.log2 m)) by lia.
    by apply Z.log2_spec. }
  rewrite !Z.pow_add_r in Hlog by lia.
  assert (0 < 2 ^ n) by (by apply Z.pow_pos_nonneg).
  set (c := 2 ^ n) in *. clearbody c. split.
  - assert (2 ^ 52 < shr_m mrs + 1); [|lia].
    apply (Z.mul_lt_mono_pos_r (b * c)); [lia|]. nia.
  - apply (Z.mul_lt_mono_pos_r (b * c)); [lia|]. nia.
Qed.

(** Rounding a number of at least 53 digits in the normal range. *)
Lemma binary_round_aux_spec m e l a b :
  rep (shr_record_of_loc m l) a b -> 2 ^ 52 <= m ->
  let n := Z.log2 m - 52 in
  -1074 <= e + n ->
  exists q, 2 ^ 52 <= q <= 2 ^ 53 /\
    binary_round_aux prec emax false m e l = norm q (e + n) /\
    2 * Z.abs (q * (b * 2 ^ n) - a) <= b * 2 ^ n /\
    (forall k, a <= k * (b * 2 ^ n) -> q <= k) /\
    (forall k, k * (b * 2 ^ n) <= a -> k <= q).
Proof.
  intros Hrep Hm n Hn.
  assert (0 <= n) as Hn0.
  { subst n. assert (52 <= Z.log2 m); [|lia]. by apply Z.log2_le_pow2; lia. }
  unfold binary_round_aux, shr_fexp.
  destruct m as [|pm|]; [lia| |lia].
  cbn [Zdigits2]. rewrite digits2_log2.
  assert (fexp prec emax (Z.log2 (Z.pos pm) + 1 + e) - e = n) as ->.
  { unfold fexp, emin, prec, emax. subst n. lia. }
  assert (exists mrs, shr (shr_record_of_loc (Z.pos pm) l) e n = (mrs, e + n) /\
    rep mrs a (b * 2 ^ n)) as (mrs & -> & Hr).
  { destruct n as [|p|]; [| |lia]; cbn [shr].
    - eexists. split; [f_equal; lia|]. by rewrite Z.mul_1_r.
    - eexists. split; [done|]. by apply rep_iter. }
  pose proof (rep_round _ _ _ Hr) as (Hab & Hq & Hup & Hlow).
  set (q := round_nearest_even _ _) in *.
  assert (2 ^ 52 <= shr_m mrs < 2 ^ 53) as Hmrs
    by (apply (rep_digits (Z.pos pm) l mrs a b n); [lia|done..]).
  exists q. split; [lia|]. split; [|done].
  destruct q as [|pq|] eqn:Eq; [lia| |lia].
  cbn [Zdigits2]. rewrite digits2_log2. unfold norm.
  destruct (Z.eqb_spec (Z.pos pq) (2 ^ 53)) as [E|E].
  - rewrite E. change (Z.log2 (2 ^ 53)) with 53.
    replace (fexp prec emax (53 + 1 + (e + n)) - (e + n)) with 1
      by (unfold fexp, emin, prec, emax; lia).
    cbn [shr iter_pos shr_record_of_loc]. vm_compute shr_1. cbn [shr_m]. done.
  - assert (Z.log2 (Z.pos pq) = 52) as ->.
    { apply Z.log2_unique; [lia|]. split; [lia|].
      change (2 ^ Z.succ 52) with (2 ^ 53). lia. }
    replace (fexp prec emax (52 + 1 + (e + n)) - (e + n)) with 0
      by (unfold fexp, emin, prec, emax; lia).
    cbn [shr shr_record_of_loc shr_m]. done.
Qed.

(** A positive normal number with exponent in [lo, hi], and the value of a
    positive float in units of [2^-2300] (an integer). *)
Definition normal_in (lo hi : Z) (x : f64) : Prop :=
  match x with
  | S754_finite false m e => is_mant (Zpos m) /\ lo <= e <= hi
  | _ => False
  end.
Definition is_norm : f64 -> Prop := normal_in (-1000) 900.
Definition is_tame : f64 -> Prop := normal_in (-400) 400.

Definition scale : Z := 2300.
Definition fval (x : f64) : Z :=
  match x with
  | S754_finite false m e => Zpos m * 2 ^ (e + scale)
  | _ => 0
  end.

Lemma tame_norm x : is_tame x -> is_norm x.
Proof. destruct x as [| | |[] m e]; simpl; try done. intros [??]. split; [done|lia]. Qed.

Lemma pow2_pos n : 0 <= n -> 0 < 2 ^ n.
Proof. intros. by apply Z.pow_pos_nonneg. Qed.

(** A larger exponent means a larger number. *)
Lemma mant_exp_lt m1 e1 m2 e2 :
  is_mant m1 -> is_mant m2 -> 0 <= e1 < e2 -> m1 * 2 ^ e1 < m2 * 2 ^ e2.
Proof.
  unfold is_mant. intros H1 H2 He.
  replace e2 with (e1 + 1 + (e2 - e1 - 1)) by lia.
  rewrite !Z.pow_add_r by lia. change (2 ^ 1) with 2.
  pose proof (pow2_pos e1 ltac:(lia)). pose proof (pow2_pos (e2 - e1 - 1) ltac:(lia)).
  change (2 ^ 53) with (2 ^ 52 * 2) in *.
  set (p := 2 ^ e1) in *. set (q := 2 ^ (e2 - e1 - 1)) in *.
  assert (0 < 2 ^ 52) as Hc by done. set (c := 2 ^ 52) in *. clearbody p q c.
  assert (0 <= m2 * (p * 2)) by (apply Z.mul_nonneg_nonneg; lia).
  assert (c * (p * 2) <= m2 * (p * 2)) by (apply Z.mul_le_mono_nonneg_r; lia).
  assert (m2 * (p * 2) * 1 <= m2 * (p * 2) * q)
    by (apply Z.mul_le_mono_nonneg_l; lia).
  assert (m1 * p < c * 2 * p) by (apply Z.mul_lt_mono_pos_r; lia). lia.
Qed.

Lemma mant_le m1 e1 m2 e2 :
  is_mant m1 -> is_mant m2 -> 0 <= e1 -> 0 <= e2 ->
  m1 * 2 ^ e1 <= m2 * 2 ^ e2 <-> e1 < e2 \/ (e1 = e2 /\ m1 <= m2).
Proof.
  intros H1 H2 He1 He2. split.
  - intros H. destruct (Z.lt_trichotomy e1 e2) as [?|[->|?]]; [by left| |].
    + right. split; [done|]. pose proof (pow2_pos e2 He2). nia.
    + pose proof (mant_exp_lt m2 e2 m1 e1 H2 H1 ltac:(lia)). lia.
  - intros [?|[-> ?]].
    + apply Z.lt_le_incl, mant_exp_lt; auto with lia.
    + pose proof (pow2_pos e2 He2). nia.
Qed.

Lemma f64_le_spec x y :
  is_norm x -> is_norm y -> f64_le x y = true <-> fval x <= fval y.
Proof.
  destruct x as [| | |[] m1 e1], y as [| | |[] m2 e2]; try done.
  intros [Hm1 He1] [Hm2 He2]. unfold fval.
  rewrite mant_le by (done || unfold scale; lia).
  unfold f64_le, SFleb, SFcompare.
  change (Pos.compare_cont Eq m1 m2) with (Pos.compare m1 m2).
  destruct (Z.compare_spec e1 e2); [subst| |]; [|split; [intros _; lia|done]|split; [done|lia]].
  destruct (Pos.compare_spec m1 m2); split; try done; intros; try lia.
Qed.

Lemma f64_lt_spec x y :
  is_norm x -> is_norm y -> f64_lt x y = true <-> fval x < fval y.
Proof.
  intros Hx Hy.
  assert (f64_lt x y = negb (f64_le y x)) as ->.
  { destruct x as [| | |[] m1 e1], y as [| | |[] m2 e2]; try done.
    unfold f64_lt, f64_le, SFltb, SFleb, SFcompare.
    change (Pos.compare_cont Eq m1 m2) with (Pos.compare m1 m2).
    change (Pos.compare_cont Eq m2 m1) with (Pos.compare m2 m1).
    rewrite (Z.compare_antisym e1 e2), (Pos.compare_antisym m1 m2).
    destruct (Z.compare e1 e2); try done. by destruct (Pos.compare m1 m2). }
  rewrite negb_true_iff, <-not_true_iff_false, f64_le_spec by done. lia.
Qed.

Lemma f64_max_spec x y :
  is_norm x -> is_norm y ->
  f64_max x y = (if fval x <? fval y then y else x).
Proof.
  intros Hx Hy. pose proof (f64_lt_spec x y Hx Hy) as H.
  assert (f64_max x y = if f64_lt x y then y else x) as ->.
  { by destruct x as [| | |[] ? ?], y as [| | |[] ? ?]. }
  destruct (f64_lt x y), (Z.ltb_spec (fval x) (fval y)); try done; intuition (try done; lia).
Qed.

Lemma f64_min_spec x y :
  is_norm x -> is_norm y ->
  f64_min x y = (if fval y <? fval x then y else x).
Proof.
  intros Hx Hy. pose proof (f64_lt_spec y x Hy Hx) as H.
  assert (f64_min x y = if f64_lt y x then y else x) as ->.
  { by destruct x as [| | |[] ? ?], y as [| | |[] ? ?]. }
  destruct (f64_lt y x), (Z.ltb_spec (fval y) (fval x)); try done; intuition (try done; lia).
Qed.

(** A normal number between two tame ones is tame. *)
Lemma tame_between lo hi x :
  is_tame lo -> is_tame hi -> is_norm x -> fval lo <= fval x <= fval hi -> is_tame x.
Proof.
  destruct lo as [| | |[] m1 e1], hi as [| | |[] m2 e2], x as [| | |[] m e]; try done.
  intros [Hm1 He1] [Hm2 He2] [Hm He] [H1 H2]. unfold fval, scale in *.
  apply mant_le in H1, H2; [|done || lia..]. split; [done|lia].
Qed.

Lemma norm_spec q e :
  2 ^ 52 <= q <= 2 ^ 53 -> -1000 <= e <= 899 ->
  is_norm (norm q e) /\ fval (norm q e) = q * 2 ^ (e + scale).
Proof.
  intros Hq He. unfold norm. destruct (Z.eqb_spec q (2 ^ 53)) as [->|Hne].
  - rewrite (proj2 (Z.leb_le (e + 1) 971)) by lia. split; [split; [done|lia]|].
    unfold fval. rewrite Z2Pos.id by lia.
    replace (e + 1 + scale) with (1 + (e + scale)) by lia.
    rewrite Z.pow_add_r by (unfold scale; lia). change (2 ^ 53) with (2 ^ 52 * 2). lia.
  - rewrite (proj2 (Z.leb_le e 971)) by lia. cbn [is_norm normal_in].
    unfold fval, is_norm, normal_in, is_mant. rewrite Z2Pos.id by lia.
    split; [split; lia|done].
Qed.

(** Rounding is monotone with respect to representable numbers: a rounded
    result stays on the same side of every normal number as the exact one.
    The exact number is [a/b * 2^e], its rounding [norm q (e + n)]. *)
Section RoundedSide.
Context (a b e n q : Z).
Context (Hb : 0 < b) (Hn : 0 <= n) (He : -2000 <= e) (Hen : -1000 <= e + n <= 899).
Context (Hq : 2 ^ 52 <= q <= 2 ^ 53).
Context (Hup : forall k, a <= k * (b * 2 ^ n) -> q <= k).
Context (Hlow : forall k, k * (b * 2 ^ n) <= a -> k <= q).
Context (Hmag : 2 ^ 52 * (b * 2 ^ n) <= a < 2 ^ 53 * (b * 2 ^ n)).

Lemma rounded_le z :
  is_norm z -> a * 2 ^ (e + scale) <= b * fval z -> fval (norm q (e + n)) <= fval z.
Proof.
  intros Hz Hle. rewrite (proj2 (norm_spec q (e + n) Hq Hen)).
  destruct z as [| | |[] mz ez]; try done. destruct Hz as [Hmz Hez].
  unfold fval in *. set (m := Z.pos mz) in *. unfold is_mant in Hmz. clearbody m.
  pose proof (pow2_pos n Hn) as Hpn.
  pose proof (pow2_pos (e + scale) ltac:(unfold scale; lia)) as Hpe.
  destruct (Z.le_gt_cases (e + n) ez) as [Hc|Hc].
  - (* [z] is a multiple of the result's unit *)
    assert (m * 2 ^ (ez + scale) = m * 2 ^ (ez - (e + n)) * (2 ^ n * 2 ^ (e + scale))) as E.
    { rewrite <-Z.mul_assoc, <-!Z.pow_add_r by (unfold scale; lia). f_equal. f_equal. lia. }
    rewrite E in *.
    replace (2 ^ (e + n + scale)) with (2 ^ n * 2 ^ (e + scale))
      by (rewrite <-Z.pow_add_r by (unfold scale; lia); f_equal; lia).
    apply Z.mul_le_mono_nonneg_r; [lia|]. apply Hup.
    apply (Z.mul_le_mono_pos_r _ _ (2 ^ (e + scale))); [done|]. lia.
  - (* [z] is below every number with the result's exponent *)
    exfalso.
    assert (m * 2 ^ (ez + scale) < 2 ^ 52 * (2 ^ n * 2 ^ (e + scale))) as H.
    { rewrite <-(Z.pow_add_r 2 n) by (unfold scale; lia).
      apply mant_exp_lt; [done|done|unfold scale; lia]. }
    apply (Z.mul_lt_mono_pos_l b) in H; [|done].
    assert (2 ^ 52 * (b * 2 ^ n) * 2 ^ (e + scale) <= a * 2 ^ (e + scale))
      by (apply Z.mul_le_mono_nonneg_r; lia).
    lia.
Qed.

Lemma rounded_ge z :
  is_norm z -> b * fval z <= a * 2 ^ (e + scale) -> fval z <= fval (norm q (e + n)).
Proof.
  intros Hz Hle. rewrite (proj2 (norm_spec q (e + n) Hq Hen)).
  destruct z as [| | |[] mz ez]; try done. destruct Hz as [Hmz Hez].
  unfold fval in *. set (m := Z.pos mz) in *. unfold is_mant in Hmz. clearbody m.
  pose proof (pow2_pos n Hn) as Hpn.
  pose proof (pow2_pos (e + scale) ltac:(unfold scale; lia)) as Hpe.
  replace (2 ^ (e + n + scale)) with (2 ^ n * 2 ^ (e + scale))
    by (rewrite <-Z.pow_add_r by (unfold scale; lia); f_equal; lia).
  destruct (Z.le_gt_cases (e + n) ez) as [Hc|Hc].
  - assert (m * 2 ^ (ez + scale) = m * 2 ^ (ez - (e + n)) * (2 ^ n * 2 ^ (e + scale))) as E.
    { rewrite <-Z.mul_assoc, <-!Z.pow_add_r by (unfold scale; lia). f_equal. f_equal. lia. }
    rewrite E in *.
    apply Z.mul_le_mono_nonneg_r; [lia|]. apply Hlow.
    apply (Z.mul_le_mono_pos_r _ _ (2 ^ (e + scale))); [done|]. lia.
  - assert (m * 2 ^ (ez + scale) < 2 ^ 52 * (2 ^ n * 2 ^ (e + scale))) as H.
    { rewrite <-(Z.pow_add_r 2 n) by (unfold scale; lia).
      apply mant_exp_lt; [done|done|unfold scale; lia]. }
    assert (2 ^ 52 * (2 ^ n * 2 ^ (e + scale)) <= q * (2 ^ n * 2 ^ (e + scale)))
      by (apply Z.mul_le_mono_nonneg_r; lia).
    lia.
Qed.
End RoundedSide.

(** [rounds_to r n d]: the float [r] is the rounding of the number [n/d]
    (in units of [2^-2300]): it lies on the same side of every normal number
    as [n/d], and is within a relative error of [2^-53]. *)
Definition rounds_to (r : f64) (n d : Z) : Prop :=
  is_norm r /\
  (forall z, is_norm z -> n <= d * fval z -> fval r <= fval z) /\
  (forall z, is_norm z -> d * fval z <= n -> fval z <= fval r) /\
  2 ^ 53 * Z.abs (d * fval r - n) <= n.

(** Only the quotient matters. *)
Lemma rounds_to_scale r n d n' d' :
  0 < d -> 0 < d' -> n * d' = n' * d -> rounds_to r n d -> rounds_to r n' d'.
Proof.
  intros Hd Hd' E (Hr & Hle & Hge & Herr). split; [done|].
  assert (forall v, n <= d * v <-> n' <= d' * v) as H1.
  { intros v. rewrite (Z.mul_le_mono_pos_r n _ d'), (Z.mul_le_mono_pos_r n' _ d) by done.
    rewrite E. by replace (d * v * d') with (d' * v * d) by lia. }
  assert (forall v, d * v <= n <-> d' * v <= n') as H2.
  { intros v. rewrite (Z.mul_le_mono_pos_r (d * v) _ d'), (Z.mul_le_mono_pos_r (d' * v) _ d) by done.
    rewrite E. by replace (d * v * d') with (d' * v * d) by lia. }
  split; [intros z Hz Hz'; apply Hle; [done|by apply H1]|].
  split; [intros z Hz Hz'; apply Hge; [done|by apply H2]|].
  apply (Z.mul_le_mono_pos_r _ _ d); [done|].
  rewrite <-E.
  replace (2 ^ 53 * Z.abs (d' * fval r - n') * d)
    with (2 ^ 53 * Z.abs (d * fval r - n) * d').
  - apply Z.mul_le_mono_nonneg_r; lia.
  - rewrite <-!Z.mul_assoc. f_equal.
    rewrite <-(Z.abs_eq d') at 1 by lia. rewrite <-(Z.abs_eq d) at 2 by lia.
    rewrite <-!Z.abs_mul. f_equal. lia.
Qed.

(** A result of [binary_round_aux] in the normal range is such a rounding. *)
Lemma binary_round_aux_rounds m e l a b :
  rep (shr_record_of_loc m l) a b -> 2 ^ 52 <= m -> -2000 <= e ->
  -1000 <= e + (Z.log2 m - 52) <= 899 ->
  rounds_to (binary_round_aux prec emax false m e l) (a * 2 ^ (e + scale)) b.
Proof.
  intros Hrep Hm He Hen.
  destruct (binary_round_aux_spec m e l a b Hrep Hm) as (q & Hq & -> & Hab & Hup & Hlow); [lia|].
  set (n := Z.log2 m - 52) in *.
  assert (0 <= n) as Hn.
  { subst n. assert (52 <= Z.log2 m); [|lia]. by apply Z.log2_le_pow2; lia. }
  assert (rep (shr_record_of_loc m l) a b) as (Hb & _ & Hra & _) by done.
  rewrite shr_m_loc in Hra.
  assert (2 ^ 52 * (b * 2 ^ n) <= a < 2 ^ 53 * (b * 2 ^ n)) as Hmag.
  { assert (2 ^ 52 * 2 ^ n <= m < 2 ^ 53 * 2 ^ n) as Hlog.
    { rewrite <-!Z.pow_add_r by lia. replace (52 + n) with (Z.log2 m) by lia.
      replace (53 + n) with (Z.succ (Z.log2 m)) by lia. apply Z.log2_spec. lia. }
    set (c := 2 ^ n) in *. clearbody c. split.
    - assert (2 ^ 52 * c * b <= m * b) by (apply Z.mul_le_mono_nonneg_r; lia). lia.
    - assert ((m + 1) * b <= 2 ^ 53 * c * b) by (apply Z.mul_le_mono_nonneg_r; lia). lia. }
  destruct (norm_spec q (e + n) Hq Hen) as [Hnorm Hval].
  split; [done|]. split.
  { intros z Hz Hle. by apply (rounded_le a b e n q). }
  split.
  { intros z Hz Hle. by apply (rounded_ge a b e n q). }
  rewrite Hval.
  pose proof (pow2_pos (e + scale) ltac:(unfold scale; lia)) as Hp.
  replace (b * (q * 2 ^ (e + n + scale)) - a * 2 ^ (e + scale))
    with ((q * (b * 2 ^ n) - a) * 2 ^ (e + scale)).
  2:{ replace (e + n + scale) with (n + (e + scale)) by lia.
      rewrite (Z.pow_add_r 2 n) by (unfold scale; lia). lia. }
  rewrite Z.abs_mul, (Z.abs_eq (2 ^ (e + scale))), Z.mul_assoc by lia.
  apply Z.mul_le_mono_nonneg_r; [lia|].
  set (c := b * 2 ^ n) in *. clearbody c. lia.
Qed.

(** ** The operations on positive numbers *)

Lemma fval_pos x : is_norm x -> 0 < fval x.
Proof.
  destruct x as [| | |[] m e]; try done. intros [Hm He]. unfold fval.
  apply Z.mul_pos_pos; [lia|]. apply pow2_pos. unfold scale. lia.
Qed.

Lemma f64_mul_rounds x y :
  is_tame x -> is_tame y -> rounds_to (f64_mul x y) (fval x * fval y) (2 ^ scale).
Proof.
  destruct x as [| | |[] m1 e1], y as [| | |[] m2 e2]; try done.
  intros [Hm1 He1] [Hm2 He2].
  set (a := Z.pos m1 * Z.pos m2).
  assert (2 ^ 104 <= a < 2 ^ 106) as Ha.
  { unfold is_mant in *. subst a. change (2 ^ 104) with (2 ^ 52 * 2 ^ 52).
    change (2 ^ 106) with (2 ^ 53 * 2 ^ 53). split.
    - apply Z.mul_le_mono_nonneg; lia.
    - apply Z.mul_lt_mono_nonneg; lia. }
  assert (104 <= Z.log2 a < 106) as Hlog.
  { split; [apply Z.log2_le_pow2; lia|apply Z.log2_lt_pow2; lia]. }
  apply (rounds_to_scale _ (a * 2 ^ (e1 + e2 + scale)) 1); [done|by apply pow2_pos| |].
  { unfold fval, a.
    assert (2 ^ (e1 + scale) * 2 ^ (e2 + scale) = 2 ^ (e1 + e2 + scale) * 2 ^ scale) as E.
    { rewrite <-!Z.pow_add_r by (unfold scale; lia). f_equal. lia. }
    rewrite <-(Z.mul_assoc _ (2 ^ (e1 + e2 + scale))), <-E. lia. }
  apply (binary_round_aux_rounds a (e1 + e2) loc_Exact a 1); [|lia..].
  unfold rep, shr_record_of_loc. cbn [shr_m shr_r shr_s]. lia.
Qed.

(** The remainder of a division, as a rounding location. *)
Lemma new_location_spec b r :
  0 < b -> 0 <= r < b ->
  new_location b r =
  if r =? 0 then loc_Exact
  else loc_Inexact (2 * r ?= b).
Proof.
  intros Hb Hr. unfold new_location, new_location_even, new_location_odd.
  assert ((r =? 0) = false -> 2 * r <> b -> Z.even b = false ->
    match 2 * r + 1 ?= b with Gt => Gt | _ => Lt end = (2 * r ?= b)) as Hodd.
  { intros _ Hne _.
    destruct (Z.compare_spec (2 * r + 1) b), (Z.compare_spec (2 * r) b); try lia; done. }
  destruct (IntDef.Z.even b) eqn:Hev; [done|].
  destruct (r =? 0) eqn:E; [done|]. f_equal. apply Hodd; [done| |done].
  intros H. rewrite <-H in Hev. change (Z.even (2 * r) = false) in Hev.
  by rewrite Z.even_mul in Hev.
Qed.

Lemma rep_new_location q r b a :
  0 < b -> 0 <= q -> 0 <= r < b -> a = q * b + r ->
  rep (shr_record_of_loc q (new_location b r)) a b.
Proof.
  intros Hb Hq Hr ->. rewrite new_location_spec by done.
  unfold rep. cbv zeta. rewrite shr_m_loc. replace (q * b + r - q * b) with r by lia.
  destruct (Z.eqb_spec r 0) as [->|Hr0]; cbn [shr_record_of_loc shr_r shr_s]; [lia|].
  destruct (Z.compare_spec (2 * r) b); cbn [shr_record_of_loc shr_r shr_s]; lia.
Qed.

Lemma f64_div_rounds x y :
  is_tame x -> is_tame y -> rounds_to (f64_div x y) (fval x * 2 ^ scale) (fval y).
Proof.
  destruct x as [| | |[] m1 e1], y as [| | |[] m2 e2]; try done.
  intros [Hm1 He1] [Hm2 He2]. unfold f64_div, SFdiv, SFdiv_core_binary.
  assert (forall m, is_mant (Z.pos m) -> Zdigits2 (Z.pos m) = 53) as Hdig.
  { intros m Hm. cbn [Zdigits2]. rewrite digits2_log2.
    rewrite (Z.log2_unique (Z.pos m) 52); [done|lia|apply Hm]. }
  rewrite !Hdig by done.
  replace (Z.min _ _) with (e1 - e2 - 53) by (unfold fexp, emin, prec, emax; lia).
  replace (e1 - e2 - (e1 - e2 - 53)) with 53 by lia.
  rewrite Z.shiftl_mul_pow2 by lia.
  pose proof (Z_div_mod (Z.pos m1 * 2 ^ 53) (Z.pos m2) ltac:(lia)) as Hdm.
  destruct (Z.div_eucl _ _) as [q r]. destruct Hdm as [Hdm Hr].
  assert (2 ^ 52 <= q < 2 ^ 54) as Hq.
  { unfold is_mant in *. change (2 ^ 54) with (2 ^ 53 * 2). split; nia. }
  assert (52 <= Z.log2 q < 54) as Hlog.
  { split; [apply Z.log2_le_pow2; lia|apply Z.log2_lt_pow2; lia]. }
  apply (rounds_to_scale _ (Z.pos m1 * 2 ^ 53 * 2 ^ (e1 - e2 - 53 + scale)) (Z.pos m2));
    [done|by apply fval_pos; split; [done|lia]| |].
  { unfold fval.
    assert (2 ^ 53 * 2 ^ (e1 - e2 - 53 + scale) * 2 ^ (e2 + scale)
      = 2 ^ (e1 + scale) * 2 ^ scale) as E.
    { rewrite <-!Z.pow_add_r by (unfold scale; lia). f_equal. lia. }
    set (u := 2 ^ 53) in *. set (v := 2 ^ (e1 - e2 - 53 + scale)) in *.
    set (w := 2 ^ (e2 + scale)) in *. set (x := 2 ^ (e1 + scale)) in *.
    set (y := 2 ^ scale) in *. clearbody u v w x y.
    transitivity (Z.pos m1 * Z.pos m2 * (u * v * w)); [lia|]. rewrite E. lia. }
  apply binary_round_aux_rounds; [|lia..].
  apply rep_new_location; lia.
Qed.

Lemma iter_xO p d : Zpos (Pos.iter xO p d) = Zpos p * 2 ^ Zpos d.
Proof.
  induction d as [|d IH] using Pos.peano_ind.
  - change (Pos.iter xO p 1) with (xO p). change (2 ^ 1) with 2. lia.
  - rewrite Pos.iter_succ, Pos2Z.inj_succ, Z.pow_succ_r by lia. lia.
Qed.

(** Rounding an exact [m * 2^e] of any size. *)
Lemma binary_round_rounds p e :
  -800 <= e -> -1000 <= e + (Z.log2 (Zpos p) - 52) <= 899 ->
  rounds_to (binary_round prec emax false p e) (Zpos p * 2 ^ (e + scale)) 1.
Proof.
  intros He Hen. unfold binary_round, shl_align. rewrite digits2_log2.
  replace (fexp prec emax (Z.log2 (Z.pos p) + 1 + e) - e) with (Z.log2 (Z.pos p) - 52)
    by (unfold fexp, emin, prec, emax; lia).
  assert (fexp prec emax (Z.log2 (Z.pos p) + 1 + e) = e + (Z.log2 (Z.pos p) - 52)) as ->
    by (unfold fexp, emin, prec, emax; lia).
  assert (forall m, rep (shr_record_of_loc m loc_Exact) m 1 <-> 0 <= m) as Hrep.
  { intros m. unfold rep, shr_record_of_loc. cbn [shr_m shr_r shr_s]. lia. }
  pose proof (Z.log2_spec (Z.pos p) ltac:(lia)) as Hlog.
  pose proof (Z.log2_nonneg (Z.pos p)) as Hlog0.
  destruct (Z.log2 (Z.pos p) - 52) as [|k|k] eqn:Ek.
  - apply binary_round_aux_rounds; [by apply Hrep| |lia|lia].
    replace (Z.log2 (Z.pos p)) with 52 in Hlog by lia. lia.
  - apply binary_round_aux_rounds; [by apply Hrep| |lia|lia].
    transitivity (2 ^ Z.log2 (Z.pos p)); [apply Z.pow_le_mono_r; lia|lia].
  - assert (Z.pos p * 2 ^ (e + scale)
      = Z.pos (Pos.iter xO p k) * 2 ^ (e + Z.neg k + scale)) as ->.
    { rewrite iter_xO, <-Z.mul_assoc, <-Z.pow_add_r by (unfold scale; lia).
      f_equal. f_equal. lia. }
    assert (Z.log2 (Z.pos (Pos.iter xO p k)) = 52) as Hl.
    { rewrite iter_xO. apply Z.log2_unique; [lia|].
      replace 52 with (Z.log2 (Z.pos p) + Z.pos k) by lia.
      rewrite <-Z.add_succ_l, !Z.pow_add_r by lia.
      pose proof (pow2_pos (Z.pos k) ltac:(lia)). split.
      - apply Z.mul_le_mono_nonneg_r; lia.
      - apply Z.mul_lt_mono_pos_r; lia. }
    apply binary_round_aux_rounds; [by apply Hrep| |lia|lia].
    pose proof (Z.log2_spec (Z.pos (Pos.iter xO p k)) ltac:(lia)) as H.
    rewrite Hl in H. lia.
Qed.

(** A normal number bounded by powers of two is tame. *)
Lemma rounds_to_tame r n d lo hi :
  0 < d -> -348 <= lo -> lo < hi -> hi <= 452 ->
  d * 2 ^ (lo + scale) <= n <= d * 2 ^ (hi + scale) -> rounds_to r n d -> is_tame r.
Proof.
  intros Hd Hlo Hlh Hhi [Hn1 Hn2] (Hr & Hle & Hge & _).
  assert (forall k, -348 <= k <= 452 ->
    exists z, is_tame z /\ fval z = 2 ^ (k + scale)) as Hz.
  { intros k Hk. exists (S754_finite false (2 ^ 52)%positive (k - 52)).
    split; [split; [done|lia]|]. unfold fval.
    change (Z.pos (2 ^ 52)) with (2 ^ 52).
    rewrite <-Z.pow_add_r by (unfold scale; lia). f_equal. lia. }
  destruct (Hz lo) as (zl & Htl & El); [lia|]. destruct (Hz hi) as (zh & Hth & Eh); [lia|].
  apply (tame_between zl zh); try done. split.
  - apply Hge; [by apply tame_norm|]. by rewrite El.
  - apply Hle; [by apply tame_norm|]. by rewrite Eh.
Qed.

Lemma f64_of_u64_rounds n :
  1 <= n <= U64_MAX -> rounds_to (f64_of_u64 n) (n * 2 ^ scale) 1.
Proof.
  intros Hn. unfold f64_of_u64, binary_normalize. destruct n as [|p|]; [lia| |lia].
  apply binary_round_rounds; [lia|].
  assert (0 <= Z.log2 (Z.pos p) < 64); [|lia].
  split; [apply Z.log2_nonneg|]. apply Z.log2_lt_pow2; [lia|]. unfold U64_MAX in Hn. lia.
Qed.

Lemma f64_of_u64_tame n : 1 <= n <= U64_MAX -> is_tame (f64_of_u64 n).
Proof.
  intros Hn. eapply (rounds_to_tame _ _ 1 0 64); [lia..| |by apply f64_of_u64_rounds].
  rewrite !Z.mul_1_l, (Z.pow_add_r 2 64) by (unfold scale; lia).
  pose proof (pow2_pos (0 + scale) ltac:(done)). change (0 + scale) with scale in *.
  change (2 ^ 64) with (U64_MAX + 1). split.
  - rewrite <-(Z.mul_1_l (2 ^ scale)) at 1. apply Z.mul_le_mono_nonneg_r; lia.
  - apply Z.mul_le_mono_nonneg_r; lia.
Qed.


(** ** Magnitudes

    [in_pow lo hi x]: [x] lies between [2^lo] and [2^hi]. *)
Definition in_pow (lo hi : Z) (x : f64) : Prop :=
  is_norm x /\ 2 ^ (lo + scale) <= fval x <= 2 ^ (hi + scale).

Definition pow_f64 (k : Z) : f64 := S754_finite false (2 ^ 52)%positive (k - 52).

Lemma pow_f64_spec k : -348 <= k <= 452 -> is_tame (pow_f64 k) /\ fval (pow_f64 k) = 2 ^ (k + scale).
Proof.
  intros Hk. split; [split; [done|lia]|]. unfold fval, pow_f64.
  change (Z.pos (2 ^ 52)) with (2 ^ 52).
  rewrite <-Z.pow_add_r by (unfold scale; lia). f_equal. lia.
Qed.

Lemma in_pow_tame lo hi x : -348 <= lo <= hi -> hi <= 452 -> in_pow lo hi x -> is_tame x.
Proof.
  intros Hl Hh [Hx [H1 H2]].
  destruct (pow_f64_spec lo) as [Tl El]; [lia|]. destruct (pow_f64_spec hi) as [Th Eh]; [lia|].
  apply (tame_between (pow_f64 lo) (pow_f64 hi)); [done..|]. rewrite El, Eh. done.
Qed.

(** A rounding lies between the powers of two that enclose the exact value. *)
Lemma rounds_to_in_pow r n d lo hi :
  -348 <= lo <= hi -> hi <= 452 ->
  d * 2 ^ (lo + scale) <= n <= d * 2 ^ (hi + scale) -> rounds_to r n d -> in_pow lo hi r.
Proof.
  intros Hl Hh [Hn1 Hn2] (Hr & Hle & Hge & _).
  destruct (pow_f64_spec lo) as [Tl El]; [lia|]. destruct (pow_f64_spec hi) as [Th Eh]; [lia|].
  split; [done|]. rewrite <-El, <-Eh. split.
  - apply Hge; [by apply tame_norm|]. by rewrite El.
  - apply Hle; [by apply tame_norm|]. by rewrite Eh.
Qed.

Lemma of_u64_in_pow n lo hi :
  0 <= lo <= hi -> hi <= 64 -> 2 ^ lo <= n <= 2 ^ hi -> n <= U64_MAX ->
  in_pow lo hi (f64_of_u64 n).
Proof.
  intros Hl Hh Hn Hmax. pose proof (pow2_pos lo ltac:(lia)).
  eapply rounds_to_in_pow; [lia..| |apply f64_of_u64_rounds; lia].
  rewrite !Z.mul_1_l, !(Z.pow_add_r 2 _ scale) by (unfold scale; lia).
  pose proof (pow2_pos scale ltac:(done)). split; apply Z.mul_le_mono_nonneg_r; lia.
Qed.

Lemma mul_in_pow x y l1 h1 l2 h2 :
  -170 <= l1 <= h1 -> h1 <= 220 -> -170 <= l2 <= h2 -> h2 <= 220 ->
  in_pow l1 h1 x -> in_pow l2 h2 y -> in_pow (l1 + l2) (h1 + h2) (f64_mul x y).
Proof.
  intros ???? Hx Hy.
  assert (is_tame x) by (eapply in_pow_tame; [..|done]; lia).
  assert (is_tame y) by (eapply in_pow_tame; [..|done]; lia).
  eapply rounds_to_in_pow; [lia..| |by apply f64_mul_rounds].
  destruct Hx as [_ [Hx1 Hx2]], Hy as [_ [Hy1 Hy2]].
  assert (forall a b, -170 <= a <= 220 -> -170 <= b <= 220 ->
    2 ^ scale * 2 ^ (a + b + scale) = 2 ^ (a + scale) * 2 ^ (b + scale)) as E.
  { intros. rewrite <-!Z.pow_add_r by (unfold scale; lia). f_equal. lia. }
  rewrite !E by lia.
  pose proof (pow2_pos (l1 + scale) ltac:(unfold scale; lia)).
  pose proof (pow2_pos (l2 + scale) ltac:(unfold scale; lia)).
  split; apply Z.mul_le_mono_nonneg; lia.
Qed.

Lemma div_in_pow x y l1 h1 l2 h2 :
  -170 <= l1 <= h1 -> h1 <= 220 -> -170 <= l2 <= h2 -> h2 <= 170 ->
  in_pow l1 h1 x -> in_pow l2 h2 y -> in_pow (l1 - h2) (h1 - l2) (f64_div x y).
Proof.
  intros ???? Hx Hy.
  assert (is_tame x) by (eapply in_pow_tame; [..|done]; lia).
  assert (is_tame y) by (eapply in_pow_tame; [..|done]; lia).
  eapply rounds_to_in_pow; [lia..| |by apply f64_div_rounds].
  destruct Hx as [_ [Hx1 Hx2]], Hy as [_ [Hy1 Hy2]].
  assert (forall a b, -170 <= a <= 220 -> -170 <= b <= 170 ->
    2 ^ (b + scale) * 2 ^ (a - b + scale) = 2 ^ (a + scale) * 2 ^ scale) as E.
  { intros. rewrite <-!Z.pow_add_r by (unfold scale; lia). f_equal. lia. }
  pose proof (pow2_pos scale ltac:(done)).
  split.
  - transitivity (2 ^ (h2 + scale) * 2 ^ (l1 - h2 + scale)).
    + apply Z.mul_le_mono_nonneg_r; [|done].
      apply Z.lt_le_incl, pow2_pos. unfold scale. lia.
    + rewrite E by lia. apply Z.mul_le_mono_nonneg_r; lia.
  - transitivity (2 ^ (l2 + scale) * 2 ^ (h1 - l2 + scale)).
    + rewrite E by lia. apply Z.mul_le_mono_nonneg_r; lia.
    + apply Z.mul_le_mono_nonneg_r; [|done].
      apply Z.lt_le_incl, pow2_pos. unfold scale. lia.
Qed.

(** Multiplying by a factor at most (at least) one does not go up (down). *)
Lemma mul_le_one x c :
  is_tame x -> is_tame c -> fval c <= 2 ^ scale -> fval (f64_mul x c) <= fval x.
Proof.
  intros Hx Hc Hle. destruct (f64_mul_rounds x c Hx Hc) as (_ & H & _).
  apply H; [by apply tame_norm|]. rewrite (Z.mul_comm (2 ^ scale)).
  apply Z.mul_le_mono_nonneg_l; [|done]. by apply Z.lt_le_incl, fval_pos, tame_norm.
Qed.

Lemma mul_ge_one x c :
  is_tame x -> is_tame c -> 2 ^ scale <= fval c -> fval x <= fval (f64_mul x c).
Proof.
  intros Hx Hc Hle. destruct (f64_mul_rounds x c Hx Hc) as (_ & _ & H & _).
  apply H; [by apply tame_norm|]. rewrite (Z.mul_comm (2 ^ scale)).
  apply Z.mul_le_mono_nonneg_l; [|done]. by apply Z.lt_le_incl, fval_pos, tame_norm.
Qed.

(** A representable value is its own rounding. *)
Lemma fval_inj x y : is_norm x -> is_norm y -> fval x = fval y -> x = y.
Proof.
  destruct x as [| | |[] m1 e1], y as [| | |[] m2 e2]; try done.
  intros [Hm1 He1] [Hm2 He2] E. unfold fval in E.
  assert (e1 = e2 /\ Z.pos m1 = Z.pos m2) as [-> Hm].
  { assert (Z.pos m1 * 2 ^ (e1 + scale) <= Z.pos m2 * 2 ^ (e2 + scale)) as H1 by lia.
    assert (Z.pos m2 * 2 ^ (e2 + scale) <= Z.pos m1 * 2 ^ (e1 + scale)) as H2 by lia.
    apply mant_le in H1, H2; try done; unfold scale in *; lia. }
  by simplify_eq.
Qed.

Lemma rounds_to_exact r n d z :
  is_norm z -> n = d * fval z -> rounds_to r n d -> r = z.
Proof.
  intros Hz -> (Hr & Hle & Hge & _). apply fval_inj; [done..|].
  apply Z.le_antisymm; [apply Hle|apply Hge]; done.
Qed.

(** ** Integers *)

(** An integer of at most 53 bits is a float. *)
Lemma int_float c :
  1 <= c <= 2 ^ 53 ->
  exists z, is_tame z /\ fval z = c * 2 ^ scale /\ f64_to_u64 z = c.
Proof.
  intros Hc. destruct (Z.eq_dec c (2 ^ 53)) as [->|Hne].
  { exists (pow_f64 53). split; [by split; [done|lia]|]. by vm_compute. }
  set (k := 52 - Z.log2 c).
  assert (0 <= Z.log2 c < 53) as Hl.
  { split; [apply Z.log2_nonneg|apply Z.log2_lt_pow2; lia]. }
  pose proof (Z.log2_spec c ltac:(lia)) as Hs.
  pose proof (pow2_pos k ltac:(lia)) as Hk.
  assert (2 ^ 52 <= c * 2 ^ k < 2 ^ 53) as Hm.
  { replace (2 ^ 52) with (2 ^ Z.log2 c * 2 ^ k) by (rewrite <-Z.pow_add_r by lia; f_equal; lia).
    replace (2 ^ 53) with (2 ^ Z.succ (Z.log2 c) * 2 ^ k)
      by (rewrite <-Z.pow_add_r by lia; f_equal; lia).
    split; [apply Z.mul_le_mono_nonneg_r; lia|apply Z.mul_lt_mono_pos_r; lia]. }
  exists (S754_finite false (Z.to_pos (c * 2 ^ k)) (- k)).
  unfold is_tame, normal_in, is_mant, fval, f64_to_u64, floor_pow.
  rewrite Z2Pos.id by lia. split; [lia|]. split.
  - rewrite <-Z.mul_assoc, <-Z.pow_add_r by (unfold scale; lia). do 2 f_equal. lia.
  - assert (c <= U64_MAX) by (unfold U64_MAX; lia).
    destruct (Z.leb_spec 0 (- k)).
    + replace k with 0 by lia. lia.
    + rewrite Z.opp_involutive, Z.div_mul by lia. lia.
Qed.

Lemma f64_of_u64_exact c :
  1 <= c <= 2 ^ 53 ->
  is_tame (f64_of_u64 c) /\ fval (f64_of_u64 c) = c * 2 ^ scale /\
  f64_to_u64 (f64_of_u64 c) = c.
Proof.
  intros Hc. destruct (int_float c Hc) as (z & Ht & Hv & Hu).
  assert (f64_of_u64 c = z) as ->; [|done].
  eapply rounds_to_exact; [by apply tame_norm| |apply f64_of_u64_rounds; unfold U64_MAX; lia].
  by rewrite Hv, Z.mul_1_l.
Qed.

(** [x.ceil() as u64] is the ceiling, saturated. *)
Lemma ceil_to_u64 x :
  is_tame x ->
  exists c, f64_to_u64 (f64_ceil x) = Z.min c U64_MAX /\
    (c - 1) * 2 ^ scale < fval x <= c * 2 ^ scale.
Proof.
  destruct x as [| | |[] m e]; try done. intros Hx. pose proof Hx as [Hm He].
  pose proof (pow2_pos scale ltac:(done)) as Hs.
  unfold f64_ceil, ceil_pow, floor_pow, fval.
  destruct (Z.leb_spec 0 e) as [He0|He0].
  - exists (Z.pos m * 2 ^ e). pose proof (pow2_pos e He0).
    rewrite (Z.pow_add_r 2 e scale), Z.mul_assoc by (unfold scale; lia).
    split; [|split; [apply Zmult_lt_compat_r; [exact Hs|]; rewrite Z.sub_1_r; apply Z.lt_pred_l|apply Z.le_refl]].
    replace (- (- Z.pos m * 2 ^ e)) with (Z.pos m * 2 ^ e) by lia.
    assert (binary_normalize prec emax (Z.pos m * 2 ^ e) 0 false = S754_finite false m e) as ->.
    2:{ unfold f64_to_u64, floor_pow. by rewrite (proj2 (Z.leb_le 0 e)). }
    destruct (Z.pos m * 2 ^ e) as [|p|p] eqn:Ep; [lia| |lia]. cbn [binary_normalize].
    eapply rounds_to_exact; [by apply (tame_norm _ Hx)| |apply binary_round_rounds; [lia|]].
    + rewrite <-Ep. unfold fval. rewrite (Z.pow_add_r 2 e) by (unfold scale; lia).
      rewrite Z.add_0_l. lia.
    + rewrite <-Ep, Z.log2_mul_pow2 by lia.
      rewrite (Z.log2_unique (Z.pos m) 52); [lia|lia|exact Hm].
  - set (d := 2 ^ (- e)). assert (0 < d) as Hd by (apply pow2_pos; lia).
    set (c := - (- Z.pos m / d)).
    assert ((c - 1) * d < Z.pos m <= c * d) as Hc.
    { subst c. pose proof (Z.div_mod (- Z.pos m) d ltac:(lia)).
      pose proof (Z.mod_pos_bound (- Z.pos m) d Hd). lia. }
    assert (2 ^ scale = d * 2 ^ (e + scale)) as E.
    { subst d. rewrite <-Z.pow_add_r by (unfold scale; lia). f_equal. lia. }
    pose proof (pow2_pos (e + scale) ltac:(unfold scale; lia)) as Hes.
    assert (1 <= c <= 2 ^ 53) as Hc53.
    { unfold is_mant in Hm. split.
      - assert (0 < c); [|lia]. apply (Z.mul_pos_cancel_r c d); lia.
      - assert (c - 1 < 2 ^ 53); [|lia]. apply (Z.mul_lt_mono_pos_r d); [done|].
        assert (2 ^ 53 * 1 <= 2 ^ 53 * d) by (apply Z.mul_le_mono_nonneg_l; lia). lia. }
    exists c. destruct (f64_of_u64_exact c Hc53) as (_ & _ & Hu).
    unfold f64_of_u64 in Hu. rewrite Hu. split; [unfold U64_MAX; lia|].
    rewrite E, !Z.mul_assoc. split.
    + apply Zmult_lt_compat_r; lia.
    + apply Z.mul_le_mono_nonneg_r; lia.
Qed.

(** ** Durations *)

Lemma round_half_even_spec a b :
  0 < b -> 2 * Z.abs (round_half_even a b * b - a) <= b.
Proof.
  intros Hb. unfold round_half_even.
  pose proof (Z.div_mod a b ltac:(lia)). pose proof (Z.mod_pos_bound a b Hb).
  bcase; try destruct (Z.even (a / b)); lia.
Qed.

Lemma round_scaled_spec k m e :
  -1000 <= e <= 900 ->
  2 * Z.abs (round_scaled k (Zpos m) e * 2 ^ scale - fval (S754_finite false m e) * k) <= 2 ^ scale.
Proof.
  intros He. pose proof (pow2_pos scale ltac:(done)) as Hs.
  unfold round_scaled, fval. destruct (Z.leb_spec 0 e).
  - rewrite (Z.pow_add_r 2 e) by (unfold scale; lia).
    replace (_ - _) with 0 by lia. simpl. lia.
  - set (d := 2 ^ (- e)). assert (0 < d) by (apply pow2_pos; lia).
    pose proof (pow2_pos (e + scale) ltac:(unfold scale; lia)) as Hes.
    assert (2 ^ scale = d * 2 ^ (e + scale)) as ->.
    { subst d. rewrite <-Z.pow_add_r by (unfold scale; lia). f_equal. lia. }
    pose proof (round_half_even_spec (Z.pos m * k) d ltac:(done)) as Hr.
    set (q := round_half_even _ _) in *. set (w := 2 ^ (e + scale)) in *.
    replace (q * (d * w) - Z.pos m * w * k) with ((q * d - Z.pos m * k) * w) by lia.
    rewrite Z.abs_mul, (Z.abs_eq w), Z.mul_assoc by lia.
    apply Z.mul_le_mono_nonneg_r; lia.
Qed.

(** [Duration::from_secs_f64] of less than 2^63 seconds succeeds and is
    within half a nanosecond. *)
Lemma from_secs_f64_spec x lo hi :
  in_pow lo hi x -> -348 <= lo <= hi -> 0 <= hi <= 63 ->
  exists t, from_secs_f64 x = Some t /\ 0 <= t <= 2 ^ hi * 1000000000 + 1 /\
    2 * Z.abs (t * 2 ^ scale - fval x * 1000000000) <= 2 ^ scale.
Proof.
  intros Hx Hlo Hhi.
  assert (is_tame x) as Ht by (eapply in_pow_tame; [| |done]; lia).
  pose proof (fval_pos x (tame_norm _ Ht)) as Hpos.
  destruct Hx as [_ [_ Hmax]].
  destruct x as [| | |[] m e]; try done. destruct Ht as [Hm He].
  pose proof (pow2_pos scale ltac:(done)) as Hs.
  set (k := 1000000000) in *.
  pose proof (round_scaled_spec k m e ltac:(lia)) as Herr. set (t := round_scaled k _ e) in *.
  set (v := fval _) in *. rewrite Z.pow_add_r in Hmax by (unfold scale; lia).
  pose proof (pow2_pos hi ltac:(lia)) as Hh.
  assert (0 <= t <= 2 ^ hi * k + 1) as Hb.
  { clearbody t v. set (s := 2 ^ scale) in *. clearbody s.
    assert (v * k <= 2 ^ hi * s * k) by (apply Z.mul_le_mono_nonneg_r; lia).
    assert (0 < v * k) by lia.
    split.
    - assert (-1 < t); [|lia]. apply (Z.mul_lt_mono_pos_r s); [done|]. lia.
    - assert (t < 2 ^ hi * k + 1 + 1); [|lia]. apply (Z.mul_lt_mono_pos_r s); [done|]. lia. }
  exists t. split; [|done].
  unfold from_secs_f64. fold k. fold t. rewrite (proj2 (Z.leb_le _ _)); [done|].
  assert (2 ^ hi <= 2 ^ 63) by (apply Z.pow_le_mono_r; lia).
  apply Z.div_le_upper_bound; unfold U64_MAX, k in *; lia.
Qed.

(** ** Addition, and numbers that may be zero *)

Lemma shl_align_val m e ez :
  ez <= e -> Zpos (fst (shl_align m e ez)) * 2 ^ (ez + scale) = Zpos m * 2 ^ (e + scale) \/ ez + scale < 0.
Proof.
  intros Hle. destruct (Z.lt_ge_cases (ez + scale) 0); [by right|left].
  unfold shl_align. destruct (ez - e) as [|d|d] eqn:Ed; cbn [fst]; [|lia|].
  - by replace ez with e by lia.
  - rewrite iter_xO, <-Z.mul_assoc, <-Z.pow_add_r by lia. do 2 f_equal. lia.
Qed.

Lemma f64_add_rounds x y :
  is_tame x -> is_tame y -> rounds_to (f64_add x y) (fval x + fval y) 1.
Proof.
  destruct x as [| | |[] m1 e1], y as [| | |[] m2 e2]; try done.
  intros [Hm1 He1] [Hm2 He2]. unfold f64_add, SFadd, cond_Zopp.
  change (IntDef.Z.min e1 e2) with (Z.min e1 e2).
  set (ez := Z.min e1 e2).
  destruct (shl_align_val m1 e1 ez) as [V1|?]; [lia| |unfold scale in *; lia].
  destruct (shl_align_val m2 e2 ez) as [V2|?]; [lia| |unfold scale in *; lia].
  set (p1 := fst (shl_align m1 e1 ez)) in *. set (p2 := fst (shl_align m2 e2 ez)) in *.
  change (IntDef.Z.add (Z.pos p1) (Z.pos p2)) with (Z.pos (p1 + p2)). cbn [binary_normalize].
  assert (fval (S754_finite false m1 e1) + fval (S754_finite false m2 e2)
    = Z.pos (p1 + p2) * 2 ^ (ez + scale)) as ->.
  { unfold fval. rewrite <-V1, <-V2. lia. }
  assert (0 <= Z.log2 (Z.pos (p1 + p2)) < 54 + 400 - ez) as Hlog.
  { split; [apply Z.log2_nonneg|]. apply Z.log2_lt_pow2; [lia|].
    pose proof (pow2_pos (ez + scale) ltac:(unfold scale; lia)) as Hez.
    apply (Z.mul_lt_mono_pos_r (2 ^ (ez + scale))); [done|].
    rewrite <-Z.pow_add_r by (unfold scale; lia).
    replace (54 + 400 - ez + (ez + scale)) with (1 + (53 + (400 + scale))) by lia.
    rewrite (Z.pow_add_r 2 1), (Z.pow_add_r 2 53) by (unfold scale; lia).
    assert (forall m e, is_mant (Z.pos m) -> -400 <= e <= 400 ->
      Z.pos m * 2 ^ (e + scale) < 2 ^ 53 * 2 ^ (400 + scale)) as Hb.
    { intros m e [_ Hm] He.
      assert (2 ^ (e + scale) <= 2 ^ (400 + scale)) by (apply Z.pow_le_mono_r; unfold scale; lia).
      pose proof (pow2_pos (e + scale) ltac:(unfold scale; lia)).
      apply Z.lt_le_trans with (2 ^ 53 * 2 ^ (e + scale)).
      - apply Zmult_lt_compat_r; lia.
      - apply Z.mul_le_mono_nonneg_l; lia. }
    pose proof (Hb m1 e1 Hm1 He1). pose proof (Hb m2 e2 Hm2 He2).
    rewrite Pos2Z.inj_add, Z.mul_add_distr_r, V1, V2. lia. }
  apply binary_round_rounds; lia.
Qed.

(** Zero or between powers of two. *)
Definition zero_or_pow (lo hi : Z) (x : f64) : Prop := x = S754_zero false \/ in_pow lo hi x.

Lemma fval_nonneg lo hi x : zero_or_pow lo hi x -> 0 <= fval x.
Proof. intros [->|[Hx _]]; [done|]. by apply Z.lt_le_incl, fval_pos. Qed.

Lemma rounds_to_ub r n d : rounds_to r n d -> 2 ^ 53 * (d * fval r) <= (2 ^ 53 + 1) * n.
Proof. intros (_ & _ & _ & H). lia. Qed.

Lemma rounds_to_lb r n d : rounds_to r n d -> (2 ^ 53 - 1) * n <= 2 ^ 53 * (d * fval r).
Proof. intros (_ & _ & _ & H). lia. Qed.

Lemma of_u64_zp n : is_u64 n -> zero_or_pow 0 64 (f64_of_u64 n).
Proof.
  intros Hn. destruct (Z.eq_dec n 0) as [->|]; [by left|right].
  unfold is_u64, U64_MAX in Hn. apply of_u64_in_pow; unfold U64_MAX; lia.
Qed.

Lemma of_u64_ub n : is_u64 n -> 2 ^ 53 * fval (f64_of_u64 n) <= (2 ^ 53 + 1) * (n * 2 ^ scale).
Proof.
  intros Hn. destruct (Z.eq_dec n 0) as [->|]; [by vm_compute|].
  pose proof (rounds_to_ub _ _ _ (f64_of_u64_rounds n ltac:(unfold is_u64 in Hn; lia))). lia.
Qed.

Lemma of_u64_lb n : is_u64 n -> (2 ^ 53 - 1) * (n * 2 ^ scale) <= 2 ^ 53 * fval (f64_of_u64 n).
Proof.
  intros Hn. destruct (Z.eq_dec n 0) as [->|]; [by vm_compute|].
  pose proof (rounds_to_lb _ _ _ (f64_of_u64_rounds n ltac:(unfold is_u64 in Hn; lia))). lia.
Qed.

(** The sum, quotient and product keep the shape and miss the exact value by
    at most [2^-53] of it. *)
Lemma add_zp_abs x y lo hi :
  -348 <= lo <= hi -> hi <= 400 -> zero_or_pow lo hi x -> zero_or_pow lo hi y ->
  zero_or_pow lo (hi + 1) (f64_add x y) /\
  2 ^ 53 * Z.abs (fval (f64_add x y) - (fval x + fval y)) <= fval x + fval y.
Proof.
  intros Hl Hh Hx Hy.
  assert (forall z, in_pow lo hi z -> in_pow lo (hi + 1) z) as Hw.
  { intros z [Hz [Hz1 Hz2]]. split; [done|]. split; [done|].
    etransitivity; [done|]. apply Z.pow_le_mono_r; lia. }
  destruct Hx as [->|Hx], Hy as [->|Hy].
  - split; [by left|done].
  - destruct y as [| | |[] m e]; try by destruct Hy.
    unfold f64_add, SFadd. split; [right; by apply Hw|].
    pose proof (fval_pos _ (proj1 Hy)). change (fval (S754_zero false)) with 0. lia.
  - destruct x as [| | |[] m e]; try by destruct Hx.
    unfold f64_add, SFadd. split; [right; by apply Hw|].
    pose proof (fval_pos _ (proj1 Hx)). change (fval (S754_zero false)) with 0. lia.
  - assert (is_tame x) by (eapply in_pow_tame; [| |done]; lia).
    assert (is_tame y) by (eapply in_pow_tame; [| |done]; lia).
    assert (rounds_to (f64_add x y) (fval x + fval y) 1) as Hr by (by apply f64_add_rounds).
    split.
    + right. eapply rounds_to_in_pow; [lia..| |done].
      destruct Hx as [_ [? ?]], Hy as [_ [? ?]].
      replace (hi + 1 + scale) with (1 + (hi + scale)) by lia.
      rewrite (Z.pow_add_r 2 1) by (unfold scale; lia).
      pose proof (pow2_pos (lo + scale) ltac:(unfold scale; lia)). lia.
    + destruct Hr as (_ & _ & _ & Hr). lia.
Qed.

Lemma add_zp x y lo hi :
  -348 <= lo <= hi -> hi <= 400 -> zero_or_pow lo hi x -> zero_or_pow lo hi y ->
  zero_or_pow lo (hi + 1) (f64_add x y) /\
  2 ^ 53 * fval (f64_add x y) <= (2 ^ 53 + 1) * (fval x + fval y).
Proof.
  intros Hl Hh Hx Hy. destruct (add_zp_abs x y lo hi Hl Hh Hx Hy) as [Hz Ha].
  split; [exact Hz|lia].
Qed.

Lemma mul_zp x y l1 h1 l2 h2 :
  -170 <= l1 <= h1 -> h1 <= 220 -> -170 <= l2 <= h2 -> h2 <= 220 ->
  zero_or_pow l1 h1 x -> in_pow l2 h2 y ->
  zero_or_pow (l1 + l2) (h1 + h2) (f64_mul x y) /\
  2 ^ 53 * (2 ^ scale * fval (f64_mul x y)) <= (2 ^ 53 + 1) * (fval x * fval y).
Proof.
  intros ???? Hx Hy. destruct Hx as [->|Hx].
  - destruct y as [| | |[] m e]; try by destruct Hy. split; [by left|done].
  - split; [right; by apply mul_in_pow|]. apply rounds_to_ub, f64_mul_rounds.
    + eapply in_pow_tame; [| |done]; lia.
    + eapply in_pow_tame; [| |done]; lia.
Qed.

Lemma div_zp_abs x y l1 h1 l2 h2 :
  -170 <= l1 <= h1 -> h1 <= 220 -> -170 <= l2 <= h2 -> h2 <= 170 ->
  zero_or_pow l1 h1 x -> in_pow l2 h2 y ->
  zero_or_pow (l1 - h2) (h1 - l2) (f64_div x y) /\
  2 ^ 53 * Z.abs (fval y * fval (f64_div x y) - fval x * 2 ^ scale) <= fval x * 2 ^ scale.
Proof.
  intros ???? Hx Hy. destruct Hx as [->|Hx].
  - destruct y as [| | |[] m e]; try by destruct Hy. split; [by left|].
    change (fval (f64_div _ _)) with 0. change (fval (S754_zero false)) with 0. lia.
  - split; [right; by apply div_in_pow|]. apply f64_div_rounds.
    + eapply in_pow_tame; [| |done]; lia.
    + eapply in_pow_tame; [| |done]; lia.
Qed.

Lemma div_zp x y l1 h1 l2 h2 :
  -170 <= l1 <= h1 -> h1 <= 220 -> -170 <= l2 <= h2 -> h2 <= 170 ->
  zero_or_pow l1 h1 x -> in_pow l2 h2 y ->
  zero_or_pow (l1 - h2) (h1 - l2) (f64_div x y) /\
  2 ^ 53 * (fval y * fval (f64_div x y)) <= (2 ^ 53 + 1) * (fval x * 2 ^ scale).
Proof.
  intros ? ? ? ? Hx Hy. destruct (div_zp_abs x y l1 h1 l2 h2) as [Hz Ha]; [done..|].
  split; [exact Hz|lia].
Qed.

Lemma f64_le_zp x y lo hi :
  -348 <= lo <= hi -> hi <= 452 -> zero_or_pow lo hi x -> zero_or_pow lo hi y ->
  f64_le x y = true -> fval x <= fval y.
Proof.
  intros Hl Hh Hx Hy H.
  destruct Hx as [->|Hx]; [by eapply fval_nonneg|].
  destruct Hy as [->|Hy].
  - by destruct x as [| | |[] m e]; try by destruct Hx.
  - apply f64_le_spec in H; [done|apply Hx|apply Hy].
Qed.

(** Comparison, and with it the minimum and the maximum, are those of the
    values. *)
Lemma f64_lt_zp x y lo hi :
  zero_or_pow lo hi x -> zero_or_pow lo hi y -> f64_lt x y = (fval x <? fval y).
Proof.
  intros Hx Hy. apply eq_true_iff_eq. rewrite Z.ltb_lt.
  destruct Hx as [->|[Nx _]], Hy as [->|[Ny _]].
  - done.
  - pose proof (fval_pos y Ny). by destruct y as [| | |[] m e].
  - pose proof (fval_pos x Nx). destruct x as [| | |[] m e]; try done.
    split; [done|]. change (fval (S754_zero false)) with 0. lia.
  - by apply f64_lt_spec.
Qed.

Lemma f64_min_zp x y lo hi :
  zero_or_pow lo hi x -> zero_or_pow lo hi y ->
  f64_min x y = if fval y <? fval x then y else x.
Proof.
  intros Hx Hy. rewrite <- (f64_lt_zp y x lo hi) by done.
  destruct Hx as [->|[Nx _]], Hy as [->|[Ny _]]; [done|..];
    try destruct x as [| | |[] ? ?]; try destruct y as [| | |[] ? ?]; done.
Qed.

Lemma f64_max_zp x y lo hi :
  zero_or_pow lo hi x -> zero_or_pow lo hi y ->
  f64_max x y = if fval x <? fval y then y else x.
Proof.
  intros Hx Hy. rewrite <- (f64_lt_zp x y lo hi) by done.
  destruct Hx as [->|[Nx _]], Hy as [->|[Ny _]]; [done|..];
    try destruct x as [| | |[] ? ?]; try destruct y as [| | |[] ? ?]; done.
Qed.

Lemma zp_weaken lo hi lo' hi' x :
  -400 <= lo' <= lo -> hi <= hi' -> -400 <= hi' ->
  zero_or_pow lo hi x -> zero_or_pow lo' hi' x.
Proof.
  intros ??? [->|[Hx [Hx1 Hx2]]]; [by left|right]. split; [done|]. split.
  - etransitivity; [|done]. apply Z.pow_le_mono_r; lia.
  - etransitivity; [done|]. apply Z.pow_le_mono_r; lia.
Qed.

(** [Duration::as_secs_f64] overshoots by less than [2^-51]. *)
Lemma as_secs_f64_ub ns :
  0 <= ns <= U64_MAX * 1000000000 ->
  zero_or_pow (-30) 65 (as_secs_f64 ns) /\
  2 ^ 51 * (1000000000 * fval (as_secs_f64 ns)) <= (2 ^ 51 + 1) * (ns * 2 ^ scale).
Proof.
  intros Hns. unfold as_secs_f64.
  set (s := ns / 1000000000). set (n := ns mod 1000000000).
  assert (ns = 1000000000 * s + n) as Hdm by (by apply Z.div_mod).
  assert (0 <= n < 1000000000) as Hn by (by apply Z.mod_pos_bound).
  assert (is_u64 s) as Hs by (unfold is_u64, U64_MAX in *; lia).
  assert (is_u64 n) as Hn' by (unfold is_u64, U64_MAX in *; lia).
  assert (in_pow 29 30 (f64_of_u64 1000000000)) as Hk by (by vm_compute).
  assert (fval (f64_of_u64 1000000000) = 1000000000 * 2 ^ scale) as Ek by (by vm_compute).
  pose proof (of_u64_zp s Hs) as Zs. pose proof (of_u64_zp n Hn') as Zn.
  pose proof (of_u64_ub s Hs) as Us. pose proof (of_u64_ub n Hn') as Un.
  destruct (div_zp _ _ 0 64 29 30 ltac:(lia) ltac:(lia) ltac:(lia) ltac:(lia) Zn Hk) as [Zd Ud].
  rewrite Ek in Ud. set (q := f64_div _ _) in *. set (a := f64_of_u64 s) in *.
  set (b := f64_of_u64 n) in *.
  destruct (add_zp a q (-30) 64) as [Za Ua]; [lia|lia| | |].
  { eapply zp_weaken; [..|done]; lia. }
  { eapply zp_weaken; [..|done]; lia. }
  split; [exact Za|].
  pose proof (pow2_pos scale ltac:(done)) as Hsc.
  set (w := 2 ^ scale) in *. clearbody w.
  assert (2 ^ 53 * (1000000000 * fval q) <= (2 ^ 53 + 1) * fval b).
  { apply (Z.mul_le_mono_pos_r _ _ w); [done|]. lia. }
  assert (0 <= s * w) by (unfold is_u64 in *; lia). assert (0 <= n * w) by lia.
  rewrite Hdm. clearbody s n. lia.
Qed.
