(* ===== verification/Pacer.v ===== *)
(** * Egress pacing: [EgressPacer] of [litevpn-core/src/quic.rs]

    A token bucket over an epoch: [record_and_wait] counts the bytes of a
    packet just sent, lowers or raises the rate from the connection's loss
    counters when the pacer is adaptive, and sleeps until the epoch's bytes
    beyond the burst are due at the current rate. Rates are binary64 numbers
    of bytes per second; times are nanoseconds. *)

From S2P Require Import Prelude World Float64.

Definition PACER_BURST_WINDOW_SECS : f64 := f64_lit 5 1000.

Record EgressPacer := mk_pacer {
  max_bytes_per_sec : option f64;
  current_bytes_per_sec : option f64;
  min_bytes_per_sec : option f64;
  burst_bytes : Z;
  epoch_started : Z;
  epoch_bytes : Z;
  adaptive : bool;
  last_adjust : Z;
  last_lost_packets : option Z;
  last_congestion_events : option Z;
}.

(** Field updates ([self.f = v]). *)
Definition set_current (r : option f64) (p : EgressPacer) : EgressPacer :=
  mk_pacer (max_bytes_per_sec p) r (min_bytes_per_sec p) (burst_bytes p)
    (epoch_started p) (epoch_bytes p) (adaptive p) (last_adjust p)
    (last_lost_packets p) (last_congestion_events p).
Definition set_epoch (started bytes : Z) (p : EgressPacer) : EgressPacer :=
  mk_pacer (max_bytes_per_sec p) (current_bytes_per_sec p) (min_bytes_per_sec p)
    (burst_bytes p) started bytes (adaptive p) (last_adjust p)
    (last_lost_packets p) (last_congestion_events p).
Definition set_last_adjust (t : Z) (p : EgressPacer) : EgressPacer :=
  mk_pacer (max_bytes_per_sec p) (current_bytes_per_sec p) (min_bytes_per_sec p)
    (burst_bytes p) (epoch_started p) (epoch_bytes p) (adaptive p) t
    (last_lost_packets p) (last_congestion_events p).
Definition set_last_lost (n : option Z) (p : EgressPacer) : EgressPacer :=
  mk_pacer (max_bytes_per_sec p) (current_bytes_per_sec p) (min_bytes_per_sec p)
    (burst_bytes p) (epoch_started p) (epoch_bytes p) (adaptive p) (last_adjust p)
    n (last_congestion_events p).
Definition set_last_congestion (n : option Z) (p : EgressPacer) : EgressPacer :=
  mk_pacer (max_bytes_per_sec p) (current_bytes_per_sec p) (min_bytes_per_sec p)
    (burst_bytes p) (epoch_started p) (epoch_bytes p) (adaptive p) (last_adjust p)
    (last_lost_packets p) n.

(** ** Construction *)

Definition target_bytes_per_sec (target_mbps : Z) : option f64 :=
  if target_mbps =? 0 then None
  else Some (f64_div (f64_mul (f64_of_u64 target_mbps) (f64_of_u64 1000000)) (f64_of_u64 8)).

Definition target_burst_bytes (target_bytes_per_sec : option f64) (mtu : Z) : Z :=
  match target_bytes_per_sec with
  | Some bytes_per_sec =>
    f64_to_u64 (f64_ceil
      (f64_max (f64_mul bytes_per_sec PACER_BURST_WINDOW_SECS) (f64_of_u64 mtu)))
  | None => 0
  end.

(** [EgressPacer::new], given the reading of the clock it makes. *)
Definition pacer_at (now target_mbps packet_bytes : Z) (adaptive : bool) : EgressPacer :=
  let max_bytes_per_sec := target_bytes_per_sec target_mbps in
  let min_bytes_per_sec :=
    (fun value => f64_mul value (f64_lit 50 100)) <$> max_bytes_per_sec in
  mk_pacer max_bytes_per_sec max_bytes_per_sec min_bytes_per_sec
    (target_burst_bytes max_bytes_per_sec packet_bytes) now 0 adaptive now None None.

Definition pacer_new (target_mbps packet_bytes : Z) (adaptive : bool) : M EgressPacer :=
  now <- perform Now;
  ret (pacer_at now target_mbps packet_bytes adaptive).

Definition from_optional (target_mbps : option Z) (packet_bytes : Z) (adaptive : bool)
    : M EgressPacer :=
  pacer_new (default 0 target_mbps) packet_bytes adaptive.

(** ** Adapting the rate *)

Definition reset_epoch (p : EgressPacer) : M EgressPacer :=
  now <- perform Now;
  ret (set_epoch now 0 p).

(** The next rate: down by 15% but not below the minimum when packets were
    lost or congestion was seen since the last look, up by 2% but not above
    the maximum otherwise. *)
Definition next_rate (p : EgressPacer) (current : f64) (trouble : bool) : f64 :=
  if trouble then
    let min := default current (min_bytes_per_sec p) in
    f64_max (f64_mul current (f64_lit 85 100)) min
  else
    let max := default current (max_bytes_per_sec p) in
    f64_min (f64_mul current (f64_lit 102 100)) max.

Definition adjust (p : EgressPacer) (connection : conn) : M EgressPacer :=
  match current_bytes_per_sec p with
  | None => ret p
  | Some current =>
    now <- perform Now;
    if saturating_sub now (last_adjust p) <? millis 250 then ret p else
    stats <- perform (ConnStats connection);
    let lost_packets := lost_packets stats in
    let congestion_events := congestion_events stats in
    let previous_lost := last_lost_packets p in
    let p := set_last_lost (Some lost_packets) p in
    match previous_lost with
    | None =>
      let p := set_last_congestion (Some congestion_events) p in
      now <- perform Now;
      ret (set_last_adjust now p)
    | Some previous_lost_packets =>
      let previous_congestion_events :=
        default congestion_events (last_congestion_events p) in
      let p := set_last_congestion (Some congestion_events) p in
      now <- perform Now;
      let p := set_last_adjust now p in
      let next := next_rate p current
        ((previous_lost_packets <? lost_packets)
         || (previous_congestion_events <? congestion_events)) in
      if f64_lt f64_epsilon (f64_abs (f64_sub next current)) then
        reset_epoch (set_current (Some next) p)
      else ret p
    end
  end.

(** ** Waiting *)

Definition wait (p : EgressPacer) : M unit :=
  match current_bytes_per_sec p with
  | None => ret tt
  | Some current_bytes_per_sec =>
    if epoch_bytes p <=? burst_bytes p then ret tt else
    now <- perform Now;
    let elapsed := as_secs_f64 (saturating_sub now (epoch_started p)) in
    let allowed_bytes :=
      f64_add (f64_mul elapsed current_bytes_per_sec) (f64_of_u64 (burst_bytes p)) in
    if f64_le (f64_of_u64 (epoch_bytes p)) allowed_bytes then ret tt else
    match from_secs_f64
            (f64_div (f64_of_u64 (epoch_bytes p - burst_bytes p)) current_bytes_per_sec) with
    | None => panic "cannot convert float seconds to Duration"
    | Some target_elapsed =>
      target_time <- instant_add (epoch_started p) target_elapsed;
      now <- perform Now;
      if now <? target_time then perform (SleepUntil target_time) else ret tt
    end
  end.

Definition record_and_wait (p : EgressPacer) (packet_bytes : Z) (connection : option conn)
    : M EgressPacer :=
  let p := set_epoch (epoch_started p)
             (saturating_add U64_MAX (epoch_bytes p) packet_bytes) p in
  p <- (if adaptive p then
          match connection with
          | Some connection => adjust p connection
          | None => ret p
          end
        else ret p);
  wait p ;;
  ret p.

Example burst_36 : target_burst_bytes (target_bytes_per_sec 36) 1300 = 22500.
Proof. vm_compute. reflexivity. Qed.
Example burst_1 : target_burst_bytes (target_bytes_per_sec 1) 1300 = 1300.
Proof. vm_compute. reflexivity. Qed.

(** ** Rates stay in range *)

(** A pacer without a target has no rate at all; one with a target has a
    maximum of at least 2^16 bytes per second, half of it (at least 2^15) as
    minimum, and a current rate between the two. *)
Definition rate_ok (p : EgressPacer) : Prop :=
  match max_bytes_per_sec p, current_bytes_per_sec p, min_bytes_per_sec p with
  | None, None, None => True
  | Some max, Some current, Some min =>
    in_pow 16 82 max /\ is_norm current /\ in_pow 15 82 min /\
    min = f64_mul max (f64_lit 50 100) /\
    fval min <= fval current <= fval max
  | _, _, _ => False
  end.

Lemma half_in_pow : in_pow (-1) (-1) (f64_lit 50 100).
Proof. split; [by split|]. by vm_compute. Qed.

Lemma c85_ok : is_tame (f64_lit 85 100) /\ fval (f64_lit 85 100) <= 2 ^ scale.
Proof. split; [by split|]. by vm_compute. Qed.

Lemma c102_ok : is_tame (f64_lit 102 100) /\ 2 ^ scale <= fval (f64_lit 102 100).
Proof. split; [by split|]. by vm_compute. Qed.

Lemma target_rate_in_pow t :
  1 <= t <= U64_MAX ->
  exists r, target_bytes_per_sec t = Some r /\ in_pow 16 82 r.
Proof.
  intros Ht. unfold target_bytes_per_sec. destruct (Z.eqb_spec t 0); [lia|].
  eexists. split; [done|].
  change 16 with (19 - 3). change 82 with (85 - 3).
  apply div_in_pow; try lia; [|split; [by split|by vm_compute]].
  change 19 with (0 + 19). change 85 with (64 + 21).
  apply mul_in_pow; try lia; [|split; [by split|by vm_compute]].
  apply of_u64_in_pow; try lia. unfold U64_MAX in Ht. lia.
Qed.

Lemma pacer_at_rate_ok now t n a : is_u64 t -> rate_ok (pacer_at now t n a).
Proof.
  intros Ht. unfold pacer_at, rate_ok. cbn [max_bytes_per_sec current_bytes_per_sec min_bytes_per_sec].
  destruct (Z.eq_dec t 0) as [->|Hne]; [done|].
  destruct (target_rate_in_pow t) as (r & -> & Hr); [unfold is_u64 in Ht; lia|].
  cbn [fmap option_fmap option_map].
  assert (in_pow 15 81 (f64_mul r (f64_lit 50 100))) as Hm.
  { change 15 with (16 + -1). change 81 with (82 + -1).
    apply mul_in_pow; try lia; [done|apply half_in_pow]. }
  split; [done|]. split; [apply Hr|]. split.
  { destruct Hm as [? [? ?]]. split; [done|]. split; [done|].
    etransitivity; [done|]. apply Z.pow_le_mono_r; unfold scale; lia. }
  split; [done|]. split; [|done].
  apply mul_le_one.
  - eapply in_pow_tame; [| |done]; lia.
  - eapply in_pow_tame; [| |apply half_in_pow]; lia.
  - by vm_compute.
Qed.

(** The current rate of a pacer in order. *)
Lemma rate_ok_current p current :
  rate_ok p -> current_bytes_per_sec p = Some current ->
  exists max min, max_bytes_per_sec p = Some max /\ min_bytes_per_sec p = Some min /\
    is_tame max /\ is_tame min /\ in_pow 15 82 current /\ is_tame current /\
    fval min <= fval current <= fval max.
Proof.
  unfold rate_ok. intros H E. rewrite E in H.
  destruct (max_bytes_per_sec p) as [max|]; [|done].
  destruct (min_bytes_per_sec p) as [min|]; [|done].
  destruct H as (Hmax & Hcur & Hmin & _ & Hb). exists max, min.
  assert (in_pow 15 82 current) as Hc.
  { split; [done|]. destruct Hmax as [_ [_ ?]], Hmin as [_ [? _]]. lia. }
  assert (is_tame max) by (eapply in_pow_tame; [| |done]; lia).
  assert (is_tame min) by (eapply in_pow_tame; [| |done]; lia).
  assert (is_tame current) by (eapply in_pow_tame; [| |done]; lia).
  done.
Qed.

(** The next rate is again between minimum and maximum; it does not go up on
    trouble and does not go down without. *)
Lemma next_rate_ok p current trouble max min :
  rate_ok p -> current_bytes_per_sec p = Some current ->
  max_bytes_per_sec p = Some max -> min_bytes_per_sec p = Some min ->
  let next := next_rate p current trouble in
  is_norm next /\ fval min <= fval next <= fval max /\
  if trouble then fval next <= fval current else fval current <= fval next.
Proof.
  intros Hok Ecur Emax Emin.
  destruct (rate_ok_current p current Hok Ecur)
    as (max' & min' & Emax' & Emin' & Tmax & Tmin & Hc & Tc & Hb).
  rewrite Emax in Emax'. rewrite Emin in Emin'. simplify_eq. rename max' into max, min' into min.
  destruct c85_ok as [T85 L85], c102_ok as [T102 G102].
  pose proof (mul_le_one current _ Tc T85 L85) as Hdown.
  pose proof (mul_ge_one current _ Tc T102 G102) as Hup.
  pose proof (proj1 (f64_mul_rounds current _ Tc T85)) as Ndown.
  pose proof (proj1 (f64_mul_rounds current _ Tc T102)) as Nup.
  pose proof (tame_norm _ Tmax) as Nmax. pose proof (tame_norm _ Tmin) as Nmin.
  unfold next_rate. rewrite Emax, Emin. cbn [default from_option].
  unfold id. clear T85 L85 T102 G102.
  set (down := f64_mul current (f64_lit 85 100)) in *. clearbody down.
  set (up := f64_mul current (f64_lit 102 100)) in *. clearbody up.
  destruct trouble.
  - rewrite (f64_max_spec _ _ Ndown Nmin).
    destruct (Z.ltb_spec (fval down) (fval min)); (split; [assumption|lia]).
  - rewrite (f64_min_spec _ _ Nup Nmax).
    destruct (Z.ltb_spec (fval max) (fval up)); (split; [assumption|lia]).
Qed.

(** [set_last_*] and [set_epoch] leave the rates alone; a new current rate in
    range keeps them in order. *)
Lemma rate_ok_set_current p next max min :
  rate_ok p -> max_bytes_per_sec p = Some max -> min_bytes_per_sec p = Some min ->
  is_norm next -> fval min <= fval next <= fval max ->
  rate_ok (set_current (Some next) p).
Proof.
  unfold rate_ok, set_current. cbn [max_bytes_per_sec current_bytes_per_sec min_bytes_per_sec].
  intros Hok E1 E2 Hn Hb. rewrite E1, E2 in *.
  destruct (current_bytes_per_sec p); [|exfalso; exact Hok]. destruct Hok as (? & _ & ? & ? & _).
  repeat (split; [assumption|]). assumption.
Qed.

(** What a step of the pacer never changes. *)
Definition same_shape (p p' : EgressPacer) : Prop :=
  max_bytes_per_sec p' = max_bytes_per_sec p /\
  min_bytes_per_sec p' = min_bytes_per_sec p /\
  burst_bytes p' = burst_bytes p /\ adaptive p' = adaptive p.

(** Whether the counters of [st] show trouble since the last look of [p]. *)
Definition trouble_since (p : EgressPacer) (previous_lost : Z) (st : stats) : bool :=
  (previous_lost <? lost_packets st)
  || (default (congestion_events st) (last_congestion_events p) <? congestion_events st).

(** [adjust]: it always returns; the rates stay in order; the epoch is kept
    unless the rate moves, in which case a new one begins now with no bytes
    and the rate is [next_rate] of what the counters showed. *)
Lemma adjust_spec E h p c :
  rate_ok p ->
  wp E h (adjust p c) (fun r h' => exists p',
    r = Val p' /\ rate_ok p' /\ same_shape p p' /\
    ((current_bytes_per_sec p' = current_bytes_per_sec p /\
      epoch_bytes p' = epoch_bytes p /\ epoch_started p' = epoch_started p) \/
     (millis 250 <= E Z h Now - last_adjust p /\ exists h1 current prev,
       last_lost_packets p = Some prev /\
       current_bytes_per_sec p = Some current /\
       current_bytes_per_sec p' =
         Some (next_rate p current (trouble_since p prev (E _ h1 (ConnStats c)))) /\
       epoch_bytes p' = 0 /\
       exists h2, epoch_started p' = E Z h2 Now /\
         h' = h2 ++ [Ev Now (epoch_started p')]))).
Proof.
  intros Hok. unfold adjust.
  destruct (current_bytes_per_sec p) as [current|] eqn:Ecur.
  2:{ apply wp_ret. exists p. rewrite Ecur. split; [done|]. split; [done|].
      split; [done|]. by left. }
  apply wp_bind, wp_vis, wp_ret. cbv beta iota.
  destruct (Z.ltb_spec (saturating_sub (E Z h Now) (last_adjust p)) (millis 250)) as [|Hold].
  { apply wp_ret. exists p. rewrite Ecur. split; [done|]. split; [done|].
    split; [done|]. by left. }
  apply wp_bind, wp_vis, wp_ret. cbv beta iota zeta.
  destruct (last_lost_packets p) as [prev|].
  2:{ apply wp_bind, wp_vis, wp_ret. cbv beta iota. apply wp_ret.
      eexists. split; [reflexivity|]. split; [exact Hok|]. split; [done|].
      left. by rewrite <-Ecur. }
  apply wp_bind, wp_vis, wp_ret. cbv beta iota.
  match goal with |- wp _ _ (if ?c then _ else _) _ => destruct c end.
  2:{ apply wp_ret. eexists. split; [reflexivity|]. split; [exact Hok|]. split; [done|].
      left. by rewrite <-Ecur. }
  unfold reset_epoch. apply wp_bind, wp_vis, wp_ret. cbv beta iota. apply wp_ret.
  destruct (rate_ok_current p current Hok Ecur) as (max & min & Emax & Emin & _).
  match goal with |- context [next_rate ?q current ?t] =>
    pose proof (next_rate_ok q current t max min Hok Ecur Emax Emin) as (Hn & Hb & _) end.
  eexists. split; [reflexivity|]. split.
  { match goal with |- rate_ok (set_epoch _ _ (set_current (Some ?n) ?q)) =>
      exact (rate_ok_set_current q n max min Hok Emax Emin Hn Hb) end. }
  split; [done|]. right. split; [unfold saturating_sub, millis in *; lia|].
  eexists _, current, prev.
  split; [done|]. split; [done|]. split; [reflexivity|]. split; [done|].
  eexists. by split.
Qed.

(** ** The waiting time *)

Definition NS : Z := 1000000000.

(** The epoch's bytes are at most the burst plus the rate times the elapsed
    time (one nanosecond more, for the rounding of the sleep), up to a
    relative error of [2^-50]. *)
Definition within_rate (p : EgressPacer) (rate : f64) (t : Z) : Prop :=
  2 ^ 50 * (epoch_bytes p * NS * 2 ^ scale)
  <= (2 ^ 50 + 1) * ((t - epoch_started p + 1) * fval rate + burst_bytes p * NS * 2 ^ scale).

Definition pacer_inv (h : history) (p : EgressPacer) : Prop :=
  rate_ok p /\ 0 <= epoch_started p <= time_floor h /\
  is_u64 (epoch_bytes p) /\ is_u64 (burst_bytes p).

(** The arithmetic of the branch that does not sleep. *)
Lemma allowed_within_rate p rate now :
  in_pow 15 82 rate -> is_u64 (epoch_bytes p) -> is_u64 (burst_bytes p) ->
  0 <= epoch_started p <= now -> now <= TIME_MAX ->
  f64_le (f64_of_u64 (epoch_bytes p))
    (f64_add (f64_mul (as_secs_f64 (saturating_sub now (epoch_started p))) rate)
       (f64_of_u64 (burst_bytes p))) = true ->
  within_rate p rate now.
Proof.
  intros Hr HB Hb Hs Hnow Hle.
  unfold saturating_sub in Hle. rewrite Z.max_l in Hle by lia.
  set (d := now - epoch_started p) in *.
  assert (0 <= d <= U64_MAX * 1000000000) as Hd by (unfold TIME_MAX, U64_MAX in *; lia).
  destruct (as_secs_f64_ub d Hd) as [Ze Ue]. set (el := as_secs_f64 d) in *.
  destruct (mul_zp el rate (-30) 65 15 82) as [Zm Um]; [lia..|done|done|].
  set (m := f64_mul el rate) in *.
  pose proof (of_u64_zp _ Hb) as Zb. pose proof (of_u64_ub _ Hb) as Ub.
  pose proof (of_u64_zp _ HB) as ZB. pose proof (of_u64_lb _ HB) as LB.
  set (fb := f64_of_u64 (burst_bytes p)) in *. set (fB := f64_of_u64 (epoch_bytes p)) in *.
  destruct (add_zp m fb (-30) 150) as [Za Ua]; [lia|lia| | |].
  { eapply zp_weaken; [..|done]; lia. }
  { eapply zp_weaken; [..|done]; lia. }
  apply (f64_le_zp _ _ (-30) 151) in Hle; [|lia|lia| |done].
  2:{ eapply zp_weaken; [..|done]; lia. }
  unfold within_rate. fold d.
  pose proof (pow2_pos scale ltac:(done)) as Hw. pose proof (fval_pos _ (proj1 Hr)) as Hrp.
  pose proof (fval_nonneg _ _ _ Zm). pose proof (fval_nonneg _ _ _ Ze).
  set (w := 2 ^ scale) in *. set (R := fval rate) in *.
  set (B := epoch_bytes p) in *. set (b := burst_bytes p) in *.
  assert (2 ^ 51 * NS * (fval el * R) <= (2 ^ 51 + 1) * (d * w * R)) as U1.
  { unfold NS. assert (2 ^ 51 * (1000000000 * fval el) * R <= (2 ^ 51 + 1) * (d * w) * R)
      by (apply Z.mul_le_mono_nonneg_r; lia). lia. }
  assert (2 ^ 53 * 2 ^ 51 * NS * fval m <= (2 ^ 53 + 1) * (2 ^ 51 + 1) * (d * R)) as U2.
  { apply (Z.mul_le_mono_pos_r _ _ w); [done|]. unfold NS in *. lia. }
  assert (0 <= d * R) by (apply Z.mul_nonneg_nonneg; lia).
  assert (0 <= b * w) by (unfold is_u64 in Hb; apply Z.mul_nonneg_nonneg; lia).
  assert (0 <= B * w) by (unfold is_u64 in HB; apply Z.mul_nonneg_nonneg; lia).
  replace ((d + 1) * R) with (d * R + R) by lia.
  clearbody w R m fb fB B b d el. unfold NS in *. lia.
Qed.

(** The arithmetic of the branch that does. *)
Lemma slept_within_rate p rate t now :
  in_pow 15 82 rate -> is_u64 (epoch_bytes p) -> is_u64 (burst_bytes p) ->
  burst_bytes p < epoch_bytes p ->
  2 * Z.abs (t * 2 ^ scale
    - fval (f64_div (f64_of_u64 (epoch_bytes p - burst_bytes p)) rate) * NS) <= 2 ^ scale ->
  epoch_started p + t <= now ->
  within_rate p rate now.
Proof.
  intros Hr HB Hb Hlt Ht Hnow. unfold within_rate.
  set (B := epoch_bytes p) in *. set (b := burst_bytes p) in *.
  assert (is_u64 (B - b)) as HD by (unfold is_u64 in *; lia).
  pose proof (of_u64_lb _ HD) as LD.
  assert (is_tame rate) as Tr by (eapply in_pow_tame; [| |done]; lia).
  assert (is_tame (f64_of_u64 (B - b))) as TD by (apply f64_of_u64_tame; unfold is_u64 in HD; lia).
  pose proof (rounds_to_lb _ _ _ (f64_div_rounds _ _ TD Tr)) as Lq.
  set (q := f64_div _ _) in *. set (fD := f64_of_u64 (B - b)) in *.
  pose proof (pow2_pos scale ltac:(done)) as Hw. pose proof (fval_pos _ (proj1 Hr)) as Hrp.
  set (w := 2 ^ scale) in *. set (R := fval rate) in *.
  assert (2 * (fval q * NS) <= (2 * t + 1) * w) as Hq by lia.
  assert ((2 ^ 53 - 1) * (2 ^ 53 - 1) * ((B - b) * w) * w <= 2 ^ 106 * (R * fval q)) as H1.
  { change (2 ^ 106) with (2 ^ 53 * 2 ^ 53).
    assert ((2 ^ 53 - 1) * ((B - b) * w) * w <= 2 ^ 53 * fval fD * w)
      by (apply Z.mul_le_mono_nonneg_r; lia).
    lia. }
  assert (R * (2 * (fval q * NS)) <= R * ((2 * t + 1) * w)) as H2
    by (apply Z.mul_le_mono_nonneg_l; lia).
  assert (2 * (2 ^ 53 - 1) * (2 ^ 53 - 1) * ((B - b) * w) * NS <= 2 ^ 106 * (R * (2 * t + 1))) as H3.
  { apply (Z.mul_le_mono_pos_r _ _ w); [done|]. unfold NS in *. lia. }
  assert (R * (2 * t + 1) <= 2 * (R * (now - epoch_started p + 1))) as H4.
  { assert (R * (2 * t + 1) <= R * (2 * (now - epoch_started p + 1)))
      by (apply Z.mul_le_mono_nonneg_l; lia). lia. }
  assert (0 <= (B - b) * w) by (apply Z.mul_nonneg_nonneg; unfold is_u64 in HD; lia).
  assert (0 <= b * w) by (apply Z.mul_nonneg_nonneg; unfold is_u64 in Hb; lia).
  set (X := R * (now - epoch_started p + 1)) in *.
  replace ((now - epoch_started p + 1) * R) with X by (subst X; lia).
  clearbody w R q fD X. unfold NS in *.
  change (2 ^ 106) with (2 ^ 53 * 2 ^ 53) in *. lia.
Qed.

(** Division by a rate in order gives a duration a pacer can wait for. *)
Lemma due_time rate n :
  in_pow 15 82 rate -> 1 <= n <= U64_MAX ->
  exists t, from_secs_f64 (f64_div (f64_of_u64 n) rate) = Some t /\
    0 <= t <= 2 ^ 49 * NS + 1 /\
    2 * Z.abs (t * 2 ^ scale - fval (f64_div (f64_of_u64 n) rate) * NS) <= 2 ^ scale.
Proof.
  intros Hr Hn.
  apply (from_secs_f64_spec _ (0 - 82) (64 - 15)); [|lia|lia].
  apply div_in_pow; [lia..| |done].
  apply of_u64_in_pow; try lia. unfold U64_MAX in Hn. lia.
Qed.

(** [wait] returns, without panicking, only when the epoch is within the rate. *)
Lemma wait_spec E h p :
  clock_ok E -> time_floor h <= TIME_MAX -> pacer_inv h p ->
  wp E h (wait p) (fun r h' =>
    r = Val tt /\ time_floor h <= time_floor h' /\
    match current_bytes_per_sec p with
    | None => True
    | Some rate =>
      epoch_bytes p <= burst_bytes p \/ within_rate p rate (time_floor h')
    end).
Proof.
  intros Hclock Htime (Hrate & Hstart & HB & Hb). unfold wait.
  destruct (current_bytes_per_sec p) as [rate|] eqn:Ecur; [|by apply wp_ret].
  destruct (rate_ok_current p rate Hrate Ecur) as (max & min & _ & _ & _ & _ & Hr & _).
  destruct (Z.leb_spec (epoch_bytes p) (burst_bytes p)) as [Hle|Hgt].
  { apply wp_ret. split; [done|]. split; [lia|by left]. }
  apply wp_bind, wp_vis, wp_ret. cbv beta iota zeta.
  destruct (Hclock h) as (_ & Hc1 & Hc2). specialize (Hc2 Htime).
  set (now := E Z h Now) in *. set (h1 := h ++ [Ev Now now]).
  assert (time_floor h1 = now) as Ef1 by (unfold h1; rewrite time_floor_snoc; lia).
  destruct (f64_le _ _) eqn:Ele.
  { apply wp_ret. split; [done|]. split; [lia|]. right. rewrite Ef1.
    apply (allowed_within_rate p rate now); (done || lia). }
  destruct (due_time rate (epoch_bytes p - burst_bytes p) Hr) as (t & -> & Ht & Herr);
    [unfold is_u64 in *; lia|].
  unfold instant_add.
  rewrite (proj2 (Z.leb_le _ _)).
  2:{ apply Z.div_le_upper_bound; unfold TIME_MAX, NANOS_PER_SEC, NS, I64_MAX in *; lia. }
  apply wp_bind, wp_ret. cbv beta iota. apply wp_bind, wp_vis, wp_ret. cbv beta iota.
  destruct (Hclock h1) as (_ & Hc3 & _). set (now' := E Z h1 Now) in *.
  assert (time_floor (h1 ++ [Ev Now now']) = now') as Ef2 by (rewrite time_floor_snoc; lia).
  destruct (Z.ltb_spec now' (epoch_started p + t)).
  - apply wp_vis, wp_ret. rewrite time_floor_snoc, Ef2.
    split; [by destruct (E unit _ _)|]. split; [lia|]. right.
    eapply slept_within_rate; try done; lia.
  - apply wp_ret. rewrite Ef2. split; [done|]. split; [lia|]. right.
    eapply slept_within_rate; try done; lia.
Qed.

(** Readings of the clock and of the counters do not turn time back. *)
Lemma adjust_time E h p c :
  clock_ok E -> time_floor h <= TIME_MAX -> 0 <= time_floor h ->
  wp E h (adjust p c) (fun r h' => time_floor h <= time_floor h' <= TIME_MAX).
Proof.
  intros Hclock Ht H0. unfold adjust.
  assert (forall h1, time_floor h <= time_floor h1 <= TIME_MAX ->
    time_floor h <= time_floor (h1 ++ [Ev Now (E Z h1 Now)]) <= TIME_MAX) as Hnow.
  { intros h1 H1. rewrite time_floor_snoc. destruct (Hclock h1) as (_ & ? & Hm). lia. }
  assert (forall h1 st, time_floor h <= time_floor h1 <= TIME_MAX ->
    time_floor h <= time_floor (h1 ++ [Ev (ConnStats c) st]) <= TIME_MAX) as Hst.
  { intros h1 st H1. by rewrite time_floor_snoc. }
  assert (time_floor h <= time_floor h <= TIME_MAX) as Hh by lia.
  destruct (current_bytes_per_sec p); [|by apply wp_ret].
  apply wp_bind, wp_vis, wp_ret. cbv beta iota.
  destruct (_ <? millis 250); [apply wp_ret; auto|].
  apply wp_bind, wp_vis, wp_ret. cbv beta iota zeta.
  destruct (last_lost_packets p).
  - apply wp_bind, wp_vis, wp_ret. cbv beta iota.
    match goal with |- wp _ _ (if ?c then _ else _) _ => destruct c end.
    + apply wp_bind, wp_vis, wp_ret. cbv beta iota. apply wp_ret. auto.
    + apply wp_ret. auto.
  - apply wp_bind, wp_vis, wp_ret. cbv beta iota. apply wp_ret. auto.
Qed.

Lemma time_floor_last_now h t : t <= time_floor (h ++ [Ev Now t]).
Proof. rewrite time_floor_snoc. lia. Qed.


(** What [record_and_wait] does to a pacer that is in order. *)
Lemma record_and_wait_spec E h p n c :
  clock_ok E -> 0 <= time_floor h <= TIME_MAX -> pacer_inv h p -> is_u64 n ->
  wp E h (record_and_wait p n c) (fun r h' => exists p',
    r = Val p' /\ pacer_inv h' p' /\ same_shape p p' /\
    match current_bytes_per_sec p' with
    | None => True
    | Some rate =>
      epoch_bytes p' <= burst_bytes p' \/ within_rate p' rate (time_floor h')
    end).
Proof.
  intros Hclock Ht (Hrate & Hstart & HB & Hb) Hn. unfold record_and_wait. cbv zeta.
  set (p0 := set_epoch (epoch_started p) (saturating_add U64_MAX (epoch_bytes p) n) p).
  assert (pacer_inv h p0) as H0.
  { split; [exact Hrate|]. split; [exact Hstart|]. split; [|exact Hb].
    unfold p0. cbn [epoch_bytes set_epoch]. unfold saturating_add, is_u64, U64_MAX in *. lia. }
  (* from any pacer in order of the same shape, waiting ends well *)
  assert (forall h1 p1, time_floor h1 <= TIME_MAX -> pacer_inv h1 p1 -> same_shape p p1 ->
    wp E h1 (wait p1 ;; ret p1) (fun r h' => exists p',
      r = Val p' /\ pacer_inv h' p' /\ same_shape p p' /\
      match current_bytes_per_sec p' with
      | None => True
      | Some rate =>
        epoch_bytes p' <= burst_bytes p' \/ within_rate p' rate (time_floor h')
      end)) as Hwait.
  { intros h1 p1 Ht1 H1 Hs1. apply wp_bind.
    eapply wp_mono; [apply wait_spec; done|].
    intros r h' (-> & Hf & Hw). apply wp_ret. exists p1.
    destruct H1 as (? & ? & ? & ?). split; [done|]. split; [|done].
    split; [done|]. split; [lia|done]. }
  assert (same_shape p p0) as Hs0 by done.
  apply wp_bind.
  destruct (adaptive p0); [|apply wp_ret; apply Hwait; done || lia].
  destruct c as [c|]; [|apply wp_ret; apply Hwait; done || lia].
  eapply wp_mono; [apply wp_and; [apply (adjust_spec E h p0 c); apply H0|
                                  apply (adjust_time E h p0 c Hclock); lia]|].
  intros r h' [(p1 & -> & Hr1 & Hs1 & Hcase) Ht1].
  assert (same_shape p p1) as Hsp.
  { destruct Hs0 as (A1 & A2 & A3 & A4), Hs1 as (B1 & B2 & B3 & B4).
    unfold same_shape. by rewrite B1, B2, B3, B4. }
  apply Hwait; [lia| |done].
  destruct H0 as (_ & Hst0 & HB0 & Hb0), Hs1 as (_ & _ & Eb & _).
  split; [done|]. rewrite Eb.
  destruct Hcase as [(_ & -> & ->)|(_ & h1 & cur & prev & _ & _ & _ & -> & h2 & Es & ->)];
    [split; [lia|done]|].
  split; [|split; [by unfold is_u64|done]].
  split; [rewrite Es; apply Hclock|apply time_floor_last_now].
Qed.

(** Whatever happens, the pacer only waits. *)
Lemma record_and_wait_waiting p n c : waiting (record_and_wait p n c).
Proof.
  unfold record_and_wait. ops.
  - unfold adjust, reset_epoch. ops.
  - unfold wait, instant_add. ops.
Qed.

Lemma pacer_new_waiting t n a : waiting (pacer_new t n a).
Proof. unfold pacer_new. ops. Qed.
Lemma from_optional_waiting t n a : waiting (from_optional t n a).
Proof. apply pacer_new_waiting. Qed.
#[export] Hint Resolve record_and_wait_waiting pacer_new_waiting from_optional_waiting : calls.

(** ** The burst *)

(** A packet never exceeds the burst of a pacer made for its size, so the
    first packet of an epoch is never delayed. *)
Lemma burst_covers_packet t n :
  1 <= t <= U64_MAX -> 1 <= n <= 2 ^ 53 ->
  n <= target_burst_bytes (target_bytes_per_sec t) n <= U64_MAX.
Proof.
  intros Ht Hn. destruct (target_rate_in_pow t Ht) as (r & -> & Hr).
  unfold target_burst_bytes.
  assert (in_pow (-8) (-7) PACER_BURST_WINDOW_SECS) as Hw by (by vm_compute).
  assert (in_pow (16 + -8) (82 + -7) (f64_mul r PACER_BURST_WINDOW_SECS)) as Hm
    by (apply mul_in_pow; done || lia).
  destruct (f64_of_u64_exact n Hn) as (Tn & Vn & _).
  assert (is_tame (f64_mul r PACER_BURST_WINDOW_SECS)) as Tm
    by (eapply in_pow_tame; [| |done]; lia).
  rewrite (f64_max_spec _ _ (tame_norm _ Tm) (tame_norm _ Tn)).
  set (x := if _ <? _ then _ else _).
  assert (is_tame x /\ n * 2 ^ scale <= fval x) as [Tx Hx].
  { rewrite <-Vn. unfold x.
    destruct (Z.ltb_spec (fval (f64_mul r PACER_BURST_WINDOW_SECS)) (fval (f64_of_u64 n)));
      (split; [assumption|lia]). }
  clearbody x. destruct (ceil_to_u64 x Tx) as (c & -> & Hc).
  pose proof (pow2_pos scale ltac:(done)).
  assert (n <= c).
  { apply (Z.mul_le_mono_pos_r _ _ (2 ^ scale)); [done|]. lia. }
  unfold U64_MAX in *. lia.
Qed.

(** ** Targets in the configurable range are exact *)

Lemma f64_mul_exact a b :
  1 <= a <= 2 ^ 53 -> 1 <= b <= 2 ^ 53 -> a * b <= 2 ^ 53 ->
  f64_mul (f64_of_u64 a) (f64_of_u64 b) = f64_of_u64 (a * b).
Proof.
  intros Ha Hb Hab.
  destruct (f64_of_u64_exact a Ha) as (Ta & Va & _).
  destruct (f64_of_u64_exact b Hb) as (Tb & Vb & _).
  destruct (f64_of_u64_exact (a * b)) as (Tc & Vc & _); [lia|].
  eapply rounds_to_exact; [apply tame_norm, Tc| |apply f64_mul_rounds; assumption].
  rewrite Va, Vb, Vc. clear. lia.
Qed.

Lemma f64_div_exact a b :
  1 <= a <= 2 ^ 53 -> 1 <= b <= 2 ^ 53 -> a * b <= 2 ^ 53 ->
  f64_div (f64_of_u64 (a * b)) (f64_of_u64 b) = f64_of_u64 a.
Proof.
  intros Ha Hb Hab.
  destruct (f64_of_u64_exact a Ha) as (Ta & Va & _).
  destruct (f64_of_u64_exact b Hb) as (Tb & Vb & _).
  destruct (f64_of_u64_exact (a * b)) as (Tc & Vc & _); [lia|].
  eapply rounds_to_exact; [apply tame_norm, Ta| |apply f64_div_rounds; assumption].
  rewrite Va, Vb, Vc. clear. lia.
Qed.

(** A validated target (at most 10000 Mbps) is 125000 bytes per second per
    Mbps, without rounding. *)
Lemma target_bytes_exact t :
  1 <= t <= 10000 -> target_bytes_per_sec t = Some (f64_of_u64 (t * 125000)).
Proof.
  intros Ht. unfold target_bytes_per_sec. destruct (Z.eqb_spec t 0); [lia|].
  rewrite f64_mul_exact by lia.
  replace (t * 1000000) with (t * 125000 * 8) by lia.
  rewrite f64_div_exact by lia. done.
Qed.

Lemma within_rate_target p rate max t now :
  rate_ok p -> current_bytes_per_sec p = Some rate -> max_bytes_per_sec p = Some max ->
  fval max = t * 125000 * 2 ^ scale -> epoch_started p <= now ->
  within_rate p rate now ->
  2 ^ 50 * (epoch_bytes p * NS)
  <= (2 ^ 50 + 1) * ((now - epoch_started p + 1) * (t * 125000) + burst_bytes p * NS).
Proof.
  intros Hok Hcur Hmax Hv Hnow Hw.
  destruct (rate_ok_current p rate Hok Hcur) as (m & ? & Em & _ & _ & _ & _ & _ & Hb).
  rewrite Hmax in Em. simplify_eq. unfold within_rate in Hw.
  assert ((now - epoch_started p + 1) * fval rate
    <= (now - epoch_started p + 1) * (t * 125000 * 2 ^ scale)) as Hle
    by (apply Z.mul_le_mono_nonneg_l; [lia|rewrite <-Hv; lia]).
  pose proof (pow2_pos scale ltac:(done)) as Hp.
  set (w := 2 ^ scale) in *.
  apply (Z.mul_le_mono_pos_r _ _ w); [done|].
  clearbody w. set (A := _ * fval rate) in *. clearbody A. lia.
Qed.

(** ** The looks of an adaptive pacer

    What a call of [record_and_wait] did about the rate, as its trace and the
    pacer it returned show: it read the clock and left it at that, or it looked
    at the connection's counters and read the clock again. *)
Inductive turn : Type :=
| Skipped (asked : Z)
| Looked (asked : Z) (seen : stats) (made : Z) (rate : option f64) (bytes : Z)
| NoClock.

Definition now_of (e : event) : option Z :=
  match e with
  | Ev o x => match o in Op X return X -> option Z with Now => Some | _ => fun _ => None end x
  end.
Definition stats_of (c : conn) (e : event) : option stats :=
  match e with
  | Ev o x =>
    match o in Op X return X -> option stats with
    | ConnStats c' => fun st => if c' =? c then Some st else None
    | _ => fun _ => None
    end x
  end.

Definition turn_of (c : conn) (p : EgressPacer) (t : history) : turn :=
  match t with
  | [] => NoClock
  | e1 :: t =>
    match now_of e1, t with
    | None, _ => NoClock
    | Some asked, e2 :: e3 :: _ =>
      match stats_of c e2, now_of e3 with
      | Some st, Some made => Looked asked st made (current_bytes_per_sec p) (epoch_bytes p)
      | _, _ => Skipped asked
      end
    | Some asked, _ => Skipped asked
    end
  end.

(** Calls of [record_and_wait], each after any history and for a packet of any
    size, one with the pacer the other returned (up to one that panics). *)
Fixpoint paced (E : env) (c : conn) (calls : list (history * Z)) (p : EgressPacer)
    : list turn * EgressPacer :=
  match calls with
  | [] => ([], p)
  | (h, n) :: calls =>
    match run E h (record_and_wait p n (Some c)) with
    | (Val p', h') =>
      let '(turns, last) := paced E c calls p' in
      (turn_of c p' (drop (length h) h') :: turns, last)
    | _ => ([], p)
    end
  end.

(** The rate due: 15% less on trouble, but at least half the target's rate;
    otherwise 2% more, but at most the target's; no change within an epsilon. *)
Definition due_rate (max rate : f64) (trouble : bool) : f64 :=
  let next := if trouble then f64_max (f64_mul rate (f64_lit 85 100)) (f64_mul max (f64_lit 50 100))
              else f64_min (f64_mul rate (f64_lit 102 100)) max in
  if f64_lt f64_epsilon (f64_abs (f64_sub next rate)) then next else rate.

(** The turns of a pacer with a current [rate], whose last look was at [since]
    and saw [seen] (lost packets and congestion events), and whose rate is
    [last] after them. *)
Fixpoint adapted (max rate : f64) (since : Z) (seen : option (Z * Z)) (turns : list turn)
    (last : f64) : Prop :=
  match turns with
  | [] => last = rate
  | Skipped asked :: turns => asked < since + millis 250 /\ adapted max rate since seen turns last
  | Looked asked st made rate' bytes :: turns =>
    since + millis 250 <= asked /\ exists next, rate' = Some next /\
    fval (f64_mul max (f64_lit 50 100)) <= fval next <= fval max /\
    match seen with
    | None => next = rate
    | Some (lost, events) =>
      let trouble := (lost <? lost_packets st) || (events <? congestion_events st) in
      next = due_rate max rate trouble /\
      (if trouble then fval next <= fval rate else fval rate <= fval next) /\
      (next = rate \/ bytes = 0)
    end /\
    adapted max next made (Some (lost_packets st, congestion_events st)) turns last
  | NoClock :: _ => False
  end.

(** Between two calls. *)
Record adapting (max rate : f64) (since : Z) (seen : option (Z * Z)) (p : EgressPacer) : Prop := {
  adapting_on : adaptive p = true;
  adapting_ok : rate_ok p;
  adapting_max : max_bytes_per_sec p = Some max;
  adapting_min : min_bytes_per_sec p = Some (f64_mul max (f64_lit 50 100));
  adapting_rate : current_bytes_per_sec p = Some rate;
  adapting_since : last_adjust p = since;
  adapting_lost : last_lost_packets p = fst <$> seen;
  adapting_events : last_congestion_events p = snd <$> seen;
}.

Lemma adapting_epoch max rate since seen p started bytes :
  adapting max rate since seen p -> adapting max rate since seen (set_epoch started bytes p).
Proof. by intros []. Qed.

Lemma adapting_bounds max rate since seen p : adapting max rate since seen p ->
  fval (f64_mul max (f64_lit 50 100)) <= fval rate <= fval max.
Proof.
  intros [_ Hok Emax Emin Ecur _ _ _].
  destruct (rate_ok_current p rate Hok Ecur) as (max' & min' & E1 & E2 & _ & _ & _ & _ & Hb).
  rewrite Emax in E1. rewrite Emin in E2. by simplify_eq.
Qed.

(** The rate after a look that is not the first. *)
Lemma adapting_due max rate since seen p trouble : adapting max rate since seen p ->
  next_rate p rate trouble =
    (if trouble then f64_max (f64_mul rate (f64_lit 85 100)) (f64_mul max (f64_lit 50 100))
     else f64_min (f64_mul rate (f64_lit 102 100)) max) /\
  rate_ok (set_current (Some (due_rate max rate trouble)) p) /\
  (if trouble then fval (due_rate max rate trouble) <= fval rate
   else fval rate <= fval (due_rate max rate trouble)).
Proof.
  intros [_ Hok Emax Emin Ecur _ _ _].
  destruct (next_rate_ok p rate trouble max _ Hok Ecur Emax Emin) as (Hn & Hb & Hd).
  assert (next_rate p rate trouble =
    (if trouble then f64_max (f64_mul rate (f64_lit 85 100)) (f64_mul max (f64_lit 50 100))
     else f64_min (f64_mul rate (f64_lit 102 100)) max)) as En
    by (unfold next_rate; rewrite Emin, Emax; by destruct trouble).
  split; [exact En|]. unfold due_rate. rewrite <- En. cbv zeta.
  destruct (f64_lt f64_epsilon _).
  - split; [|exact Hd]. by apply (rate_ok_set_current p _ max _ Hok Emax Emin).
  - split; [|by destruct trouble]. unfold rate_ok, set_current in *. cbn in *. by rewrite Ecur in Hok.
Qed.

(** What [adjust] does, with its trace. *)
Lemma adjust_turn (E : env) h p c max rate since seen : adapting max rate since seen p ->
  exists p' t, run E h (adjust p c) = (Val p', h ++ t) /\
    ((exists asked, t = [Ev Now asked] /\ asked < since + millis 250 /\ p' = p) \/
     (exists asked st made tail next,
        t = Ev Now asked :: Ev (ConnStats c) st :: Ev Now made :: tail /\
        since + millis 250 <= asked /\
        adapting max next made (Some (lost_packets st, congestion_events st)) p' /\
        match seen with
        | None => next = rate
        | Some (lost, events) =>
          let trouble := (lost <? lost_packets st) || (events <? congestion_events st) in
          next = due_rate max rate trouble /\
          (if trouble then fval next <= fval rate else fval rate <= fval next) /\
          (next = rate \/ epoch_bytes p' = 0)
        end)).
Proof.
  intros Hp. pose proof Hp as [Hon Hok Emax Emin Ecur Esince Elost Eevents]. unfold adjust.
  rewrite Ecur, Esince. cbn -[app millis saturating_sub Z.ltb next_rate f64_lt f64_abs f64_sub f64_epsilon].
  set (asked := E Z h Now). set (h1 := h ++ _).
  destruct (Z.ltb_spec (saturating_sub asked since) (millis 250)) as [Hlt|Hge];
    cbn -[app millis saturating_sub Z.ltb next_rate f64_lt f64_abs f64_sub f64_epsilon].
  { exists p, [Ev Now asked]. split; [done|]. left. exists asked.
    unfold saturating_sub in Hlt. split; [done|]. split; [lia|done]. }
  set (st := E stats h1 (ConnStats c)).
  assert (since + millis 250 <= asked) as Hle by (unfold saturating_sub, millis in *; lia).
  rewrite Elost, Eevents. destruct seen as [[lost events]|];
    cbn -[app millis Z.ltb next_rate f64_lt f64_abs f64_sub f64_epsilon].
  2:{ eexists _, _. unfold h1. rewrite <- !app_assoc. split; [reflexivity|]. right.
      exists asked, st, (E Z ((h ++ [Ev Now asked]) ++ [Ev (ConnStats c) st]) Now), [], rate.
      rewrite <- app_assoc. split; [done|]. split; [done|]. by split. }
  set (h2 := h1 ++ _). set (made := E Z h2 Now).
  set (q := set_last_adjust made (set_last_congestion (Some (congestion_events st))
              (set_last_lost (Some (lost_packets st)) p))).
  set (trouble := (lost <? lost_packets st) || (events <? congestion_events st)).
  assert (adapting max rate made (Some (lost_packets st, congestion_events st)) q) as Hq by done.
  destruct (adapting_due max rate made _ q trouble Hq) as (En & Hrate & Hdir).
  pose proof (eq_refl (due_rate max rate trouble)) as Hdue. unfold due_rate in Hdue at 2.
  cbv zeta in Hdue. rewrite <- En in Hdue.
  destruct (f64_lt f64_epsilon (f64_abs (f64_sub (next_rate q rate trouble) rate))) eqn:Hlt;
    cbn -[app next_rate]; (eexists _, _; unfold h2, h1; rewrite <- !app_assoc; split; [reflexivity|]);
    right; exists asked, st, made; eexists _, (due_rate max rate trouble); (split; [reflexivity|]);
    (split; [done|]); rewrite Hdue in *.
  - split; [|split; [done|split; [done|by right]]]. by split.
  - split; [done|split; [done|split; [done|by left]]].
Qed.

(** Waiting reads the clock only, and returns nothing. *)
Definition clock_op : forall X, Op X -> bool := fun X o =>
  match o with Now | SleepUntil _ => true | _ => false end.

Lemma wait_clock p : all_ops clock_op (wait p).
Proof. unfold wait, instant_add. ops. Qed.

Lemma clock_no_stats c e : match e with Ev o _ => clock_op _ o = true end -> stats_of c e = None.
Proof. destruct e as [X o x]. by destruct o. Qed.

(** One call, between calls. *)
Lemma record_and_wait_turn (E : env) h p n c max rate since seen p' h' :
  adapting max rate since seen p ->
  run E h (record_and_wait p n (Some c)) = (Val p', h') ->
  (exists asked, turn_of c p' (drop (length h) h') = Skipped asked /\ asked < since + millis 250 /\
     adapting max rate since seen p') \/
  (exists asked st made next, turn_of c p' (drop (length h) h') =
       Looked asked st made (Some next) (epoch_bytes p') /\
     since + millis 250 <= asked /\
     adapting max next made (Some (lost_packets st, congestion_events st)) p' /\
     match seen with
     | None => next = rate
     | Some (lost, events) =>
       let trouble := (lost <? lost_packets st) || (events <? congestion_events st) in
       next = due_rate max rate trouble /\
       (if trouble then fval next <= fval rate else fval rate <= fval next) /\
       (next = rate \/ epoch_bytes p' = 0)
     end).
Proof.
  intros Hp. unfold record_and_wait. cbv zeta.
  set (p0 := set_epoch _ _ p).
  assert (adapting max rate since seen p0) as H0 by by apply adapting_epoch.
  rewrite (adapting_on _ _ _ _ _ H0). unfold bind. rewrite run_pbind.
  destruct (adjust_turn E h p0 c max rate since seen H0) as (p1 & t & Er & Hcase). rewrite Er.
  cbn [fst snd]. rewrite run_pbind.
  destruct (all_ops_run clock_op E (wait p1) (h ++ t) (wait_clock p1)) as (w & Ew & Hw).
  destruct (run E (h ++ t) (wait p1)) as [[[]| | |] h2]; cbn [fst snd run] in *; try done.
  intros [= <- <-]. subst h2. rewrite <- app_assoc, drop_app_length.
  destruct Hcase as [(asked & -> & Hlt & ->)|(asked & st & made & tail & next & -> & Hle & Hp1 & Hs)].
  - left. exists asked. split; [|done]. cbn. destruct Hw as [|e1 w He1 Hw]; [done|].
    destruct Hw as [|e2 w _ _]; [done|]. by rewrite (clock_no_stats c e1 He1).
  - right. exists asked, st, made, next. split; [|done]. cbn. rewrite Z.eqb_refl.
    by rewrite (adapting_rate _ _ _ _ _ Hp1).
Qed.

Lemma paced_adapted E c max calls : forall p rate since seen,
  adapting max rate since seen p ->
  exists last, current_bytes_per_sec (paced E c calls p).2 = Some last /\
    adapted max rate since seen (paced E c calls p).1 last.
Proof.
  induction calls as [|[h n] calls IH]; intros p rate since seen Hp; cbn [paced].
  { exists rate. split; [apply Hp|done]. }
  destruct (run E h (record_and_wait p n (Some c))) as [[p'| | |] h'] eqn:Er;
    try (by exists rate; split; [apply Hp|]).
  destruct (record_and_wait_turn E h p n c max rate since seen p' h' Hp Er)
    as [(asked & Et & Hlt & Hp')|(asked & st & made & next & Et & Hle & Hp' & Hs)];
    destruct (IH p' _ _ _ Hp') as (last & Hlast & Ha); exists last;
    destruct (paced E c calls p') as [turns q]; cbn [fst snd] in *; rewrite Et;
    (split; [exact Hlast|]).
  - by split.
  - split; [done|]. exists next. split; [done|]. split; [by eapply adapting_bounds|].
    split; [|done]. destruct seen as [[lost events]|]; exact Hs.
Qed.

(** ** Properties *)

(** A pacer made for any target and packet size is in order, whatever the
    clock says: no rate at all for a target of 0, otherwise a current rate equal to
    the maximum with half of it as minimum; its burst is a [u64] that covers a
    packet, so a first packet is never delayed. *)
Lemma pacer_new_in_order E h t n a :
  clock_ok E -> is_u64 t -> 1 <= n <= 2 ^ 53 ->
  exists p, (run E h (pacer_new t n a)).1 = Val p /\
    pacer_inv (run E h (pacer_new t n a)).2 p /\
    current_bytes_per_sec p = max_bytes_per_sec p /\ epoch_bytes p = 0 /\
    (if t =? 0 then current_bytes_per_sec p = None else n <= burst_bytes p).
Proof.
  intros Hclock Ht Hn. cbn. eexists. split; [reflexivity|].
  destruct (Hclock h) as (H0 & Hf & _).
  assert (is_u64 (target_burst_bytes (target_bytes_per_sec t) n) /\
    (if t =? 0 then True else n <= target_burst_bytes (target_bytes_per_sec t) n)) as [Hb Hc].
  { destruct (Z.eqb_spec t 0) as [->|]; [done|].
    pose proof (burst_covers_packet t n ltac:(unfold is_u64 in *; lia) Hn). unfold is_u64. lia. }
  split; [|split; [done|split; [done|]]].
  - split; [by apply pacer_at_rate_ok|]. split; [|split; [by unfold is_u64|exact Hb]].
    split; [exact H0|apply time_floor_last_now].
  - destruct (Z.eqb_spec t 0) as [->|]; [done|exact Hc].
Qed.

Lemma pacer_new_in_order_witness :
  exists p, (run ticking [] (pacer_new 36 1300 true)).1 = Val p /\
    pacer_inv (run ticking [] (pacer_new 36 1300 true)).2 p /\
    current_bytes_per_sec p = max_bytes_per_sec p /\ epoch_bytes p = 0 /\
    (if 36 =? 0 then current_bytes_per_sec p = None else 1300 <= burst_bytes p).
Proof.
  apply (pacer_new_in_order ticking [] 36 1300 true);
    [apply ticking_clock|unfold is_u64, U64_MAX; lia|lia].
Defined.

(** C8: Egress pacing. With a monotonic clock and a pacer in order made for a
    target of 1 to 10000 Mbps, [record_and_wait] returns without panicking,
    keeps the pacer in order, and when it returns the bytes of the epoch are
    within the burst plus 125000 bytes per second and Mbps of the time since
    the epoch began (up to a relative error of 2^-50 for the float arithmetic),
    however the rate was adapted. *)
Theorem pacer_never_exceeds_target E h p n c t :
  clock_ok E -> 0 <= time_floor h <= TIME_MAX -> pacer_inv h p -> is_u64 n ->
  1 <= t <= 10000 -> max_bytes_per_sec p = target_bytes_per_sec t ->
  wp E h (record_and_wait p n c) (fun r h' => exists p',
    r = Val p' /\ pacer_inv h' p' /\ same_shape p p' /\
    2 ^ 50 * (epoch_bytes p' * NS)
    <= (2 ^ 50 + 1) *
       ((time_floor h' - epoch_started p' + 1) * (t * 125000) + burst_bytes p' * NS)).
Proof.
  intros Hclock Hf Hp Hn Ht Hmax.
  eapply wp_mono; [by apply record_and_wait_spec|].
  intros r h' (p' & -> & Hinv & Hs & Hw). exists p'.
  split; [done|]. split; [done|]. split; [done|].
  destruct Hs as (Em & _), Hinv as (Hrate & Hst & HB & Hb).
  rewrite Hmax, target_bytes_exact in Em by done.
  destruct (f64_of_u64_exact (t * 125000)) as (_ & Hv & _); [lia|].
  assert (0 <= (time_floor h' - epoch_started p' + 1) * (t * 125000)) by
    (apply Z.mul_nonneg_nonneg; lia).
  destruct (current_bytes_per_sec p') as [rate|] eqn:Ecur.
  2:{ unfold rate_ok in Hrate. by rewrite Em, Ecur in Hrate. }
  destruct Hw as [Hle|Hw].
  - unfold NS, is_u64 in *. lia.
  - eapply within_rate_target; try done; lia.
Qed.

(** A pacer with 30 packets to its epoch and an environment whose clock stands
    still, so that it has to sleep. *)
Definition loaded_pacer : EgressPacer :=
  set_epoch 0 39000 (pacer_at 0 36 1300 true).

Lemma loaded_pacer_inv : pacer_inv [] loaded_pacer.
Proof.
  split; [|split; [done|by split; vm_compute]].
  exact (pacer_at_rate_ok 0 36 1300 true ltac:(done)).
Qed.

Lemma pacer_never_exceeds_target_witness :
  wp ticking [] (record_and_wait loaded_pacer 1300 (Some 1)) (fun r h' => exists p',
    r = Val p' /\ pacer_inv h' p' /\ same_shape loaded_pacer p' /\
    2 ^ 50 * (epoch_bytes p' * NS)
    <= (2 ^ 50 + 1) *
       ((time_floor h' - epoch_started p' + 1) * (36 * 125000) + burst_bytes p' * NS)).
Proof.
  apply (pacer_never_exceeds_target ticking [] loaded_pacer 1300 (Some 1) 36).
  - apply ticking_clock.
  - done.
  - apply loaded_pacer_inv.
  - done.
  - done.
  - reflexivity.
Defined.

(** The sleep it takes: 40300 bytes less a burst of 22500, at 4.5 MB/s. *)
Example loaded_pacer_sleeps :
  (run ticking [] (record_and_wait loaded_pacer 1300 None)).2
  = [Ev Now 0; Ev Now 0; Ev (SleepUntil 3955556) tt].
Proof. vm_compute. reflexivity. Qed.

(** C31: The rate follows the losses. Take a pacer made adaptive, for a positive
    target, at time [now], and any calls of [record_and_wait] on it for a
    connection, whatever happens between them. A call looks at the connection's
    counters exactly when the clock reads at least 250 ms after the last look
    (or [now]), so two looks are at least 250 ms apart. The first look only
    notes the counters. Every later one compares them with those the look
    before it saw: if more packets were lost or more congestion events counted,
    the rate becomes 85% of what it was, but no less than half the target;
    otherwise 102%, but no more than the target; and a changed rate starts its
    epoch with no bytes. Between looks the rate stays. *)
Theorem rate_follows_losses E c now target packet calls :
  1 <= target <= U64_MAX ->
  let r := paced E c calls (pacer_at now target packet true) in
  exists max last, target_bytes_per_sec target = Some max /\
    current_bytes_per_sec r.2 = Some last /\ adapted max max now None r.1 last.
Proof.
  intros Ht. destruct (target_rate_in_pow target Ht) as (max & Emax & _). intros r.
  assert (adapting max max now None (pacer_at now target packet true)) as Hp.
  { pose proof (pacer_at_rate_ok now target packet true ltac:(unfold is_u64; lia)) as Hok.
    split; try done; unfold pacer_at; cbn; by rewrite Emax. }
  destruct (paced_adapted E c max calls _ _ _ _ Hp) as (last & Hlast & Ha). by exists max, last.
Qed.

(** A clock that reads the length of the history in tenths of a second, and
    losses that rise by one at 3 s. *)
Definition losing : env := fun X h o =>
  match o in Op X return X -> X with
  | Now => fun _ => millis (100 * zlen h)
  | ConnStats _ => fun _ =>
      mk_stats 0 0 0 0 (if zlen h <? 30 then 0 else 1) 0 0 0 0 0 0 0
  | _ => fun x => x
  end (quiet X h o).

(** Calls at 0.1, 1, 2, 3, 4 and 5 s: no look, the first look, no change at the
    maximum, down on the loss, and up again twice. *)
Definition losing_calls : list (history * Z) :=
  map (fun n => (repeat (Ev Poll true) n, 1300)) [1; 10; 20; 30; 40; 50]%nat.

Lemma rate_follows_losses_witness :
  let r := paced losing 1 losing_calls (pacer_at 0 36 1300 true) in
  (exists max last, target_bytes_per_sec 36 = Some max /\
     current_bytes_per_sec r.2 = Some last /\ adapted max max 0 None r.1 last) /\
  map (fun t => match t with Looked _ _ _ (Some rate) _ => f64_to_u64 rate | _ => 0 end) r.1
  = [0; 4500000; 4500000; 3825000; 3901500; 3979530].
Proof.
  split; [|vm_compute; reflexivity].
  apply (rate_follows_losses losing 1 0 36 1300 losing_calls). done.
Defined.
