(* ===== verification/Frame.v ===== *)
(** * Stream framing: [litevpn-core/src/quic.rs]

    Packets on a QUIC stream travel as a 16-bit big-endian length and that
    many bytes. A stream may deliver its bytes in chunks of any size, so the
    reader fills a buffer from as many reads as it takes. *)

From S2P Require Import Prelude RustStr World.

(** ** Writing *)

(** [u16::to_be_bytes] of [n as u16], [u16::from_be_bytes]. *)
Definition to_be_bytes (n : Z) : bytes := [n mod 65536 / 256; n mod 256].
Definition from_be_bytes (header : bytes) : Z :=
  match header with
  | hi :: lo :: _ => hi * 256 + lo
  | _ => 0
  end.

(** [buf[offset..offset + d.len()].copy_from_slice(d)]. *)
Definition splice (buf : bytes) (offset : Z) (d : bytes) : bytes :=
  take (Z.to_nat offset) buf ++ d ++ drop (Z.to_nat offset + length d) buf.

(** It returns the header buffer, which the caller keeps. *)
Definition write_stream_packet (stream : sid) (frame_header packet : bytes) (label : str)
    : M bytes :=
  let packet_len := zlen packet in
  if U16_MAX <? packet_len then
    fail (Msg (label ++ lit ": stream packet is too large: " ++ to_dec packet_len
               ++ lit " bytes")) else
  if zlen frame_header <? 2 then
    fail (Msg (label ++ lit ": stream frame header buffer " ++ to_dec (zlen frame_header)
               ++ lit " bytes is too small")) else
  let len := to_be_bytes packet_len in
  let frame_header := splice frame_header 0 len in
  let chunks := [take 2 frame_header; packet] in
  call (WriteAllChunks stream chunks) ;;
  ret frame_header.

(** ** Reading *)

(** One turn of the [while] loop: the state is the offset and the buffer. *)
Definition read_exact_body (stream : sid) (label : str) (st : Z * bytes)
    : M (Z * bytes + bool * bytes) :=
  let '(offset, buf) := st in
  if offset <? zlen buf then
    r <- call (Read stream (zlen buf - offset));
    match r with
    | Some d =>
      if zlen d =? 0 then ret (inl (offset, buf))
      else ret (inl (offset + zlen d, splice buf offset d))
    | None =>
      if offset =? 0 then ret (inr (false, buf))
      else fail (Msg (label ++ lit ": stream ended mid-frame"))
    end
  else ret (inr (true, buf)).

Definition read_stream_exact_or_eof (fuel : nat) (stream : sid) (buf : bytes) (label : str)
    : M (bool * bytes) :=
  loop fuel (read_exact_body stream label) (0, buf).

(** It returns the length of the packet and the buffer that starts with it. *)
Definition read_stream_packet (fuel : nat) (stream : sid) (buf : bytes) (label : str)
    : M (option Z * bytes) :=
  '(complete, header) <- read_stream_exact_or_eof fuel stream [0; 0] label;
  if negb complete then ret (None, buf) else
  let packet_len := from_be_bytes header in
  if packet_len =? 0 then ret (Some 0, buf) else
  if zlen buf <? packet_len then
    fail (Msg (label ++ lit ": stream packet " ++ to_dec packet_len
               ++ lit " bytes exceeds max " ++ to_dec (zlen buf) ++ lit " bytes")) else
  '(complete, packet) <-
    read_stream_exact_or_eof fuel stream (take (Z.to_nat packet_len) buf) label;
  let buf := splice buf 0 packet in
  if complete then ret (Some packet_len, buf)
  else fail (Msg (label ++ lit ": stream ended mid-packet")).

(** ** Finishing *)

(** The peer's acknowledgement is waited for, but neither its absence nor a
    stop code is an error. *)
Definition finish_stream_with_ack (stream : sid) (label : str) : M unit :=
  call_with_context (lit "failed to finish " ++ label) (Finish stream) ;;
  r <- timeout (Within (secs 5)) (call (Stopped stream));
  match r with
  | Some (Ok None) => ret tt
  | Some (Ok (Some _)) => ret tt
  | Some (Err error) => fail (Context (label ++ lit " stopped wait failed") error)
  | None => ret tt
  end.

(** ** The wire format *)

Definition frame (p : bytes) : bytes := to_be_bytes (zlen p) ++ p.

(** What is left on a stream, read as one frame into a buffer of [cap] bytes. *)
Inductive frame_result : Type :=
| Eof
| Packet (p rest : bytes)
| MidFrame
| MidPacket
| TooLarge.

Definition parse_frame (cap : Z) (s : bytes) : frame_result :=
  match s with
  | [] => Eof
  | [_] => MidFrame
  | hi :: lo :: body =>
    let n := hi * 256 + lo in
    if n =? 0 then Packet [] body else
    if cap <? n then TooLarge else
    if n <=? zlen body then Packet (take (Z.to_nat n) body) (drop (Z.to_nat n) body)
    else match body with [] => MidPacket | _ => MidFrame end
  end.

(** A stream that delivers the bytes [content] in order and then ends, in
    chunks of any size: a read returns at least one byte and no more than it
    has room for, and reports the end only when everything was delivered. *)
Definition stream_delivers (E : env) (s : sid) (content : bytes) : Prop :=
  forall h cap, 0 < cap -> stream_read s h `prefix_of` content ->
    match E _ h (Read s cap) with
    | Ok (Some d) => d <> [] /\ zlen d <= cap /\ stream_read s h ++ d `prefix_of` content
    | Ok None => stream_read s h = content
    | Err _ => False
    end.

(** The events a reader of [s] adds: nothing but reads of [s]. *)
Definition only_reads (s : sid) (t : history) : Prop :=
  Forall (fun e => exists cap r, e = Ev (Read s cap) r) t.

Lemma stream_read_snoc s h cap d :
  stream_read s (h ++ [Ev (Read s cap) (Ok (Some d))]) = stream_read s h ++ d.
Proof. hist_simpl. by rewrite Z.eqb_refl. Qed.

Lemma stream_read_end s h cap :
  stream_read s (h ++ [Ev (Read s cap) (Ok None)]) = stream_read s h.
Proof. hist_simpl. done. Qed.

Lemma only_reads_nil s : only_reads s [].
Proof. constructor. Qed.

Lemma only_reads_cons s h1 h cap r t :
  h1 = h ++ [Ev (Read s cap) r] -> only_reads s t ->
  exists t', h1 ++ t = h ++ t' /\ only_reads s t'.
Proof.
  intros -> Ht. exists (Ev (Read s cap) r :: t). rewrite <-app_assoc.
  split; [done|]. constructor; eauto.
Qed.

(** Reading [need] bytes more into a buffer that has [offset] of them. *)
Definition read_exact_result (label : str) (offset : Z) (buf rest : bytes)
    : outcome (bool * bytes) :=
  let need := zlen buf - offset in
  if need <=? zlen rest
  then Val (true, take (Z.to_nat offset) buf ++ take (Z.to_nat need) rest)
  else if (offset =? 0) && is_empty rest then Val (false, buf)
  else Fail (Msg (label ++ lit ": stream ended mid-frame")).

Lemma splice_take buf offset d :
  0 <= offset -> offset + zlen d <= zlen buf ->
  zlen (splice buf offset d) = zlen buf /\
  take (Z.to_nat (offset + zlen d)) (splice buf offset d) = take (Z.to_nat offset) buf ++ d.
Proof.
  intros H0 Hlen. unfold splice. split.
  - rewrite !length_app, length_take, length_drop. lia.
  - rewrite app_assoc, take_app_le' by (rewrite length_app, length_take; lia).
    apply take_ge. rewrite length_app, length_take. lia.
Qed.

(** The result of a read goes on to the result of the rest. *)
Lemma read_exact_result_more label offset buf d rest : 0 <= offset ->
  0 < zlen d <= zlen buf - offset ->
  read_exact_result label (offset + zlen d) (splice buf offset d) rest =
  read_exact_result label offset buf (d ++ rest).
Proof.
  intros Hoff Hd. destruct (splice_take buf offset d) as [Hlen Htake]; [lia|lia|].
  unfold read_exact_result. rewrite Hlen, length_app.
  destruct (Z.leb_spec (zlen buf - (offset + zlen d)) (zlen rest)).
  - rewrite (proj2 (Z.leb_le _ _)) by lia. do 2 f_equal. rewrite Htake, <-app_assoc. f_equal.
    rewrite take_app_ge by lia. do 2 f_equal. lia.
  - rewrite (proj2 (Z.leb_gt _ _)), (proj2 (Z.eqb_neq (offset + zlen d) 0)) by lia.
    destruct d; [cbn in Hd; lia|]. by rewrite andb_false_r.
Qed.

Lemma read_exact_spec E s content label fuel : forall h offset buf rest,
  stream_delivers E s content -> content = stream_read s h ++ rest ->
  0 <= offset <= zlen buf -> zlen buf - offset < Z.of_nat fuel ->
  wp E h (loop fuel (read_exact_body s label) (offset, buf)) (fun r h' =>
    r = read_exact_result label offset buf rest /\
    exists t, h' = h ++ t /\ only_reads s t /\
      (zlen buf - offset <= zlen rest ->
       stream_read s h' = stream_read s h ++ take (Z.to_nat (zlen buf - offset)) rest)).
Proof.
  induction fuel as [|fuel IH]; intros h offset buf rest HE Hc Hoff Hfuel; [lia|].
  cbn [loop]. apply wp_bind. unfold read_exact_body at 1.
  destruct (Z.ltb_spec offset (zlen buf)) as [Hlt|Hge].
  2:{ apply wp_ret, wp_ret. unfold read_exact_result.
      replace (zlen buf - offset) with 0 by lia. rewrite (proj2 (Z.leb_le _ _)) by lia.
      split; [rewrite take_ge by lia; by rewrite app_nil_r|].
      exists []. split; [by rewrite app_nil_r|]. split; [apply only_reads_nil|].
      intros _. by rewrite app_nil_r. }
  apply wp_bind, wp_vis.
  pose proof (HE h (zlen buf - offset) ltac:(lia) ltac:(rewrite Hc; by eexists)) as Hread.
  destruct (E _ h (Read s (zlen buf - offset))) as [[d|]|e] eqn:Er; [| |done].
  - destruct Hread as (Hne & Hcap & Hpre).
    assert (zlen d > 0) by (destruct d; [done|simpl; lia]).
    apply wp_ret. cbv beta iota. destruct (Z.eqb_spec (zlen d) 0); [lia|].
    apply wp_ret.
    rewrite Hc in Hpre. apply prefix_app_inv in Hpre as [rest' ->].
    destruct (splice_take buf offset d) as [Hlen Htake]; [lia|lia|].
    set (h1 := h ++ _). assert (stream_read s h1 = stream_read s h ++ d) as Hs1
      by apply stream_read_snoc.
    eapply wp_mono; [apply (IH h1 (offset + zlen d) (splice buf offset d) rest' HE)|].
    + by rewrite Hs1, <-app_assoc.
    + lia.
    + lia.
    + intros r h' (-> & t & -> & Ht & Hsr). rewrite Hlen in Hsr.
      split; [apply read_exact_result_more; lia|].
      destruct (only_reads_cons s h1 h _ _ t eq_refl Ht) as (t' & Et & Ht').
      exists t'. split; [done|]. split; [done|]. rewrite length_app. intros Hl.
      rewrite Hsr by lia. rewrite Hs1, <-app_assoc. f_equal.
      rewrite take_app_ge by lia. do 2 f_equal. lia.
  - apply wp_ret. cbv beta iota. subst content.
    assert (rest = []) as -> by (by apply (app_inv_head (stream_read s h)); rewrite app_nil_r).
    unfold read_exact_result. rewrite (proj2 (Z.leb_gt _ _)) by (simpl; lia).
    destruct (Z.eqb_spec offset 0); apply wp_ret; (split; [done|]);
      (eexists; split; [reflexivity|]; split; [by repeat econstructor|simpl; lia]).
Qed.

Definition is_byte (b : Z) : Prop := 0 <= b <= U8_MAX.

(** How [read_stream_packet] ends, from the reference parse of what is left. *)
Definition packet_outcome (label : str) (buf rest : bytes)
    (r : outcome (option Z * bytes)) : Prop :=
  match parse_frame (zlen buf) rest with
  | Eof => r = Val (None, buf)
  | Packet p _ => exists buf', r = Val (Some (zlen p), buf') /\
      zlen buf' = zlen buf /\ take (length p) buf' = p
  | MidFrame => r = Fail (Msg (label ++ lit ": stream ended mid-frame"))
  | MidPacket => r = Fail (Msg (label ++ lit ": stream ended mid-packet"))
  | TooLarge => r = Fail (Msg (label ++ lit ": stream packet "
                  ++ to_dec (from_be_bytes rest) ++ lit " bytes exceeds max "
                  ++ to_dec (zlen buf) ++ lit " bytes"))
  end.

Definition frame_rest (cap : Z) (s : bytes) : bytes :=
  match parse_frame cap s with Packet _ rest => rest | _ => [] end.

Lemma only_reads_app s t1 t2 : only_reads s t1 -> only_reads s t2 -> only_reads s (t1 ++ t2).
Proof. intros. by apply Forall_app. Qed.

Lemma splice_zero buf d : zlen d <= zlen buf ->
  zlen (splice buf 0 d) = zlen buf /\ take (length d) (splice buf 0 d) = d.
Proof.
  intros Hd. destruct (splice_take buf 0 d) as [Hl Ht]; [lia|lia|].
  split; [done|]. rewrite Z.add_0_l, Nat2Z.id in Ht. exact Ht.
Qed.

(** The body of a packet, after its header. *)
Lemma read_body_spec E s content label fuel h buf n rest :
  stream_delivers E s content -> content = stream_read s h ++ rest ->
  0 < n <= zlen buf -> n < Z.of_nat fuel ->
  wp E h ('(complete, packet) <-
            read_stream_exact_or_eof fuel s (take (Z.to_nat n) buf) label;
          let buf := splice buf 0 packet in
          if complete then ret (Some n, buf)
          else fail (Msg (label ++ lit ": stream ended mid-packet")))
    (fun r h' =>
      (if n <=? zlen rest then
         r = Val (Some n, splice buf 0 (take (Z.to_nat n) rest)) /\
         stream_read s h' = stream_read s h ++ take (Z.to_nat n) rest
       else r = Fail (Msg (label ++ (if is_empty rest then lit ": stream ended mid-packet"
                                     else lit ": stream ended mid-frame")))) /\
      exists t, h' = h ++ t /\ only_reads s t).
Proof.
  intros HE Hc Hn Hfuel. apply wp_bind.
  assert (zlen (take (Z.to_nat n) buf) = n) as Hl by (rewrite length_take; lia).
  eapply wp_mono;
    [apply (read_exact_spec E s content label fuel h 0 (take (Z.to_nat n) buf) rest HE Hc); lia|].
  intros r h' (-> & t & -> & Ht & Hsr). unfold read_exact_result. rewrite Hl, Z.sub_0_r in *.
  destruct (Z.leb_spec n (zlen rest)) as [Hle|Hgt]; cbv beta iota.
  - apply wp_ret. split; [split; [done|by apply Hsr]|by exists t].
  - destruct rest; cbn [Z.eqb is_empty andb].
    + apply wp_ret. split; [done|by exists t].
    + split; [done|by exists t].
Qed.

Lemma read_packet_spec E s content label fuel h buf rest :
  stream_delivers E s content -> content = stream_read s h ++ rest ->
  Forall is_byte rest -> 2 < Z.of_nat fuel -> zlen buf < Z.of_nat fuel ->
  wp E h (read_stream_packet fuel s buf label) (fun r h' =>
    packet_outcome label buf rest r /\
    exists t, h' = h ++ t /\ only_reads s t /\
      match parse_frame (zlen buf) rest with
      | Packet _ rest' => content = stream_read s h' ++ rest'
      | _ => True
      end).
Proof.
  intros HE Hc Hb Hf2 Hf. unfold read_stream_packet. apply wp_bind.
  eapply wp_mono; [apply (read_exact_spec E s content label fuel h 0 [0; 0] rest HE Hc);
    (simpl; lia)|].
  intros r h1 (-> & t1 & -> & Ht1 & Hs1). unfold packet_outcome, read_exact_result, parse_frame in *.
  change (zlen [0; 0] - 0) with 2 in *.
  destruct rest as [|hi [|lo body]].
  - cbn -[loop]. apply wp_ret. split; [done|by exists t1].
  - cbn -[loop]. split; [done|by exists t1].
  - rewrite (proj2 (Z.leb_le 2 _)) in * by (simpl; lia).
    specialize (Hs1 ltac:(simpl; lia)).
    apply Forall_cons in Hb as [Bhi Hb]. apply Forall_cons in Hb as [Blo Hb].
    change (Z.to_nat 2) with 2%nat in *. change (Z.to_nat 0) with 0%nat.
    cbn [take app negb] in *.
    change (from_be_bytes (hi :: lo :: _)) with (hi * 256 + lo).
    set (n := hi * 256 + lo) in *.
    assert (0 <= n) by (unfold is_byte in *; lia).
    destruct (Z.eqb_spec n 0) as [Hz|Hz].
    { apply wp_ret. split.
      - exists buf. by rewrite take_0.
      - exists t1. split; [done|]. split; [done|]. rewrite Hs1, Hc, <-app_assoc. done. }
    destruct (Z.ltb_spec (zlen buf) n); [apply wp_ret; split; [done|by exists t1]|].
    eapply wp_mono; [apply (read_body_spec E s content label fuel (h ++ t1) buf n body HE); try lia|].
    { rewrite Hs1, Hc, <-app_assoc. done. }
    intros r h' (Hr & t2 & -> & Ht2). rewrite <-app_assoc.
    destruct (Z.leb_spec n (zlen body)).
    + destruct Hr as (-> & Hs2). split.
      * eexists. split; [f_equal; f_equal; f_equal; rewrite length_take; lia|].
        apply splice_zero. rewrite length_take. lia.
      * exists (t1 ++ t2). split; [done|]. split; [by apply only_reads_app|].
        rewrite app_assoc, Hs2, Hs1, Hc, <-!app_assoc. cbn [app].
        do 3 f_equal. by rewrite take_drop.
    + split; [by destruct body|]. exists (t1 ++ t2). split; [done|]. split; [by apply only_reads_app|].
      by destruct body.
Qed.

(** ** Writing a frame *)

Lemma be_bytes_roundtrip n rest : 0 <= n <= U16_MAX ->
  from_be_bytes (to_be_bytes n ++ rest) = n /\ Forall is_byte (to_be_bytes n).
Proof.
  unfold U16_MAX. intros Hn. unfold to_be_bytes, from_be_bytes. cbn [app]. split; [zlia|].
  repeat constructor; unfold is_byte, U8_MAX; zlia.
Qed.

Lemma parse_frame_frame cap p rest :
  zlen p <= cap -> zlen p <= U16_MAX -> parse_frame cap (frame p ++ rest) = Packet p rest.
Proof.
  intros Hcap Hp. unfold frame.
  pose proof (proj1 (be_bytes_roundtrip (zlen p) (p ++ rest) ltac:(lia))) as Hn.
  rewrite <-app_assoc. unfold to_be_bytes in *. cbn [app from_be_bytes] in *.
  unfold parse_frame. rewrite Hn.
  destruct (Z.eqb_spec (zlen p) 0); [by destruct p|].
  rewrite (proj2 (Z.ltb_ge _ _)), (proj2 (Z.leb_le _ _)) by (rewrite ?length_app; lia).
  by rewrite Nat2Z.id, take_app_length, drop_app_length.
Qed.

Lemma frame_bytes p : Forall is_byte p -> zlen p <= U16_MAX -> Forall is_byte (frame p).
Proof.
  intros. apply Forall_app. split; [|done]. apply (be_bytes_roundtrip _ []). lia.
Qed.

(** What [write_stream_packet] does in every environment: one call of
    [write_all_chunks] with the frame of the packet, or none at all. *)
Lemma write_packet_spec E s header p label h :
  wp E h (write_stream_packet s header p label) (fun r h' =>
    if (zlen p <=? U16_MAX) && (2 <=? zlen header) then
      exists chunks, concat chunks = frame p /\
        h' = h ++ [Ev (WriteAllChunks s chunks) (E _ h (WriteAllChunks s chunks))] /\
        match E _ h (WriteAllChunks s chunks) with
        | Ok _ => exists header', r = Val header' /\ zlen header' = zlen header
        | Err e => r = Fail (External e)
        end
    else h' = h /\ exists e, r = Fail e).
Proof.
  unfold write_stream_packet.
  destruct (Z.ltb_spec U16_MAX (zlen p)).
  { rewrite (proj2 (Z.leb_gt _ _)) by done. apply wp_ret. split; [done|by eexists]. }
  rewrite (proj2 (Z.leb_le (zlen p) _)) by done.
  destruct (Z.ltb_spec (zlen header) 2).
  { rewrite (proj2 (Z.leb_gt _ _)) by done. apply wp_ret. split; [done|by eexists]. }
  rewrite (proj2 (Z.leb_le 2 _)) by done. cbn [andb].
  destruct (splice_zero header (to_be_bytes (zlen p))) as [Hl Ht]; [simpl; lia|].
  set (header' := splice header 0 (to_be_bytes (zlen p))) in *.
  change (length (to_be_bytes (zlen p))) with 2%nat in Ht.
  assert (concat [take 2 header'; p] = frame p) as Hc
    by (rewrite Ht; simpl; by rewrite app_nil_r).
  apply wp_bind, wp_vis.
  destruct (E _ h (WriteAllChunks s [take 2 header'; p])) as [[]|e] eqn:Ew;
    [apply wp_ret, wp_ret|apply wp_ret]; exists [take 2 header'; p]; rewrite Ew;
    (split; [done|]; split; [done|]); [by exists header'|done].
Qed.

Lemma stream_written_chunks s h chunks (r : ext unit) :
  stream_written s (h ++ [Ev (WriteAllChunks s chunks) r]) =
  stream_written s h ++ match r with Ok _ => concat chunks | Err _ => [] end.
Proof. hist_simpl. destruct r; [by rewrite Z.eqb_refl|done]. Qed.

(** quinn's [read] fills at most the buffer it is given, with bytes. *)
Definition reads_fit (E : env) : Prop := forall h s cap d,
  E _ h (Read s cap) = Ok (Some d) -> zlen d <= cap /\ Forall is_byte d.

(** ** Reading whatever comes *)

(** Bytes that hold at most one frame, whole or begun, and bytes that hold
    less than a whole one. *)
Definition within_frame (d : bytes) : Prop :=
  zlen d <= 1 \/ zlen d <= 2 + from_be_bytes d.
Definition begun (d : bytes) : Prop := zlen d <= 1 \/ zlen d < 2 + from_be_bytes d.

Lemma begun_within d : begun d -> within_frame d.
Proof. unfold begun, within_frame. lia. Qed.

Section Reader.
Context (E : env) (s : sid) (label : str) (HE : reads_fit E).

(** A trace of reads of [s] that returned the bytes [d]. *)
Definition reading (h h' : history) (d : bytes) : Prop :=
  exists t, h' = h ++ t /\ only_reads s t /\ stream_read s t = d /\ Forall is_byte d.

Lemma reading_refl h : reading h h [].
Proof. exists []. split; [by rewrite app_nil_r|]. repeat constructor. Qed.

Lemma reading_trans h1 h2 h3 d1 d2 :
  reading h1 h2 d1 -> reading h2 h3 d2 -> reading h1 h3 (d1 ++ d2).
Proof.
  intros (t1 & -> & O1 & R1 & B1) (t2 & -> & O2 & R2 & B2). exists (t1 ++ t2).
  rewrite <- app_assoc. split; [done|]. split; [by apply only_reads_app|].
  rewrite stream_read_app, R1, R2. split; [done|by apply Forall_app].
Qed.

Lemma reading_one h cap (r : ext (option bytes)) :
  match r with Ok (Some d) => Forall is_byte d | _ => True end ->
  reading h (h ++ [Ev (Read s cap) r]) (match r with Ok (Some d) => d | _ => [] end).
Proof.
  intros Hr. eexists. split; [reflexivity|]. split; [by repeat econstructor|].
  destruct r as [[d|]|e]; cbn; rewrite ?Z.eqb_refl, ?app_nil_r; by split.
Qed.

(** Filling a buffer that has [offset] bytes of it: what was read is what is
    now behind these, up to the end of the buffer. *)
Lemma read_exact_any fuel : forall h offset buf, 0 <= offset <= zlen buf ->
  wp E h (loop fuel (read_exact_body s label) (offset, buf)) (fun r h' =>
    exists d, reading h h' d /\ offset + zlen d <= zlen buf /\
    match r with
    | Val (true, buf') => offset + zlen d = zlen buf /\ buf' = take (Z.to_nat offset) buf ++ d
    | Val (false, buf') => offset = 0 /\ d = [] /\ buf' = buf
    | Fail _ => offset + zlen d < zlen buf
    | Panic _ => False
    | Running => True
    end).
Proof.
  induction fuel as [|fuel IH]; intros h offset buf Hoff.
  { exists []. split; [apply reading_refl|]. cbn. split; [lia|done]. }
  cbn [loop]. apply wp_bind. unfold read_exact_body at 1.
  destruct (Z.ltb_spec offset (zlen buf)) as [Hlt|Hge].
  2:{ apply wp_ret, wp_ret. exists []. split; [apply reading_refl|]. cbn [length].
      split; [lia|]. split; [lia|]. rewrite take_ge by lia. by rewrite app_nil_r. }
  apply wp_bind, wp_vis. pose proof (HE h s (zlen buf - offset)) as Hread.
  destruct (E _ h (Read s (zlen buf - offset))) as [[d|]|e].
  - destruct (Hread d eq_refl) as [Hcap Hb].
    pose proof (reading_one h (zlen buf - offset) (Ok (Some d)) Hb) as H1.
    set (h1 := h ++ _) in *. clearbody h1.
    apply wp_ret. cbv beta iota. destruct (Z.eqb_spec (zlen d) 0) as [Hz|Hz]; apply wp_ret; cbv beta iota.
    + assert (d = []) as -> by by destruct d.
      eapply wp_mono; [by apply IH|]. intros r h' (d & Hd & Hr). exists d.
      split; [exact (reading_trans _ _ _ [] d H1 Hd)|exact Hr].
    + destruct (splice_take buf offset d) as [Hl Ht]; [lia|lia|].
      eapply wp_mono; [apply (IH h1 (offset + zlen d)); lia|].
      intros r h' (d' & Hd & Hle & Hr). exists (d ++ d').
      split; [exact (reading_trans _ _ _ _ _ H1 Hd)|]. rewrite length_app. split; [lia|].
      destruct r as [[[] buf']|e| |]; [|lia..|done|done].
      destruct Hr as [Hr ->]. split; [lia|]. by rewrite Ht, <- app_assoc.
  - apply wp_ret. cbv beta iota. pose proof (reading_one h (zlen buf - offset) (Ok None) I) as H1.
    destruct (Z.eqb_spec offset 0); apply wp_ret; exists []; cbn [length];
      (split; [exact H1|]; split; [lia|first [done|lia]]).
  - apply wp_ret. exists []. split; [exact (reading_one h _ (Err e) I)|]. cbn [length].
    split; lia.
Qed.

(** Reading a packet: the bytes read are its frame, or it is not finished. *)
Lemma read_packet_any fuel h buf :
  wp E h (read_stream_packet fuel s buf label) (fun r h' => exists d, reading h h' d /\
    match r with
    | Val (Some n, buf') => zlen buf' = zlen buf /\ exists p, d = frame p /\ n = zlen p /\
        zlen p <= U16_MAX /\ take (length p) buf' = p
    | Val (None, buf') => d = [] /\ buf' = buf
    | Fail _ => begun d
    | Panic _ => False
    | Running => within_frame d
    end).
Proof.
  unfold read_stream_packet. apply wp_bind.
  eapply wp_mono; [apply (read_exact_any fuel h 0 [0; 0]); cbn; lia|].
  intros r h1 (d & Hd & Hle & Hr). change (zlen [0; 0]) with 2 in *.
  destruct r as [[[] header]|e| |]; try done;
    try (exists d; split; [done|]; destruct d as [|hi [|lo []]]; cbn in Hle, Hr; try lia;
         try (left; cbn; lia); right; destruct Hd as (_ & _ & _ & _ & Hb);
         apply Forall_cons in Hb as [? Hb]; apply Forall_cons in Hb as [? _];
         unfold is_byte in *; cbn; lia).
  2:{ destruct Hr as (_ & -> & ->). apply wp_ret. by exists []. }
  destruct Hr as [Hl ->].
  destruct d as [|hi [|lo []]]; cbn in Hl; try lia. clear Hl Hle.
  change (take (Z.to_nat 0) [0; 0] ++ [hi; lo]) with [hi; lo]. cbn [negb]. cbv zeta.
  change (from_be_bytes [hi; lo]) with (hi * 256 + lo). set (n := hi * 256 + lo).
  assert (0 <= n <= U16_MAX /\ to_be_bytes n = [hi; lo]) as [Hn Hbe].
  { destruct Hd as (_ & _ & _ & _ & Hb). apply Forall_cons in Hb as [Bhi Hb].
    apply Forall_cons in Hb as [Blo _]. unfold is_byte, U8_MAX, U16_MAX, n, to_be_bytes in *.
    split; [lia|]. repeat f_equal; zlia. }
  destruct (Z.eqb_spec n 0) as [Hz|Hz].
  { apply wp_ret. exists [hi; lo]. split; [done|]. split; [done|]. exists [].
    by rewrite <- Hbe, Hz. }
  destruct (Z.ltb_spec (zlen buf) n).
  { apply wp_ret. exists [hi; lo]. split; [done|]. right. cbn. lia. }
  assert (zlen (take (Z.to_nat n) buf) = n) as Htake by (rewrite length_take; lia).
  apply wp_bind. eapply wp_mono; [apply (read_exact_any fuel h1 0 (take (Z.to_nat n) buf)); lia|].
  intros r h2 (d & Hd2 & Hle & Hr). pose proof (reading_trans _ _ _ _ _ Hd Hd2) as H12.
  rewrite Htake in *. change (take (Z.to_nat 0) _) with (@nil Z) in Hr. cbn [app] in Hr.
  destruct r as [[[] packet]|e| |]; try done; try (apply wp_ret);
    [destruct Hr as [Hl ->]|..]; exists ([hi; lo] ++ d); (split; [exact H12|]).
  - destruct (splice_zero buf d) as [Hs1 Hs2]; [lia|]. split; [done|]. exists d.
    unfold frame. rewrite Z.add_0_l in Hl. rewrite Hl, Hbe. split; [done|]. split; [done|].
    split; [lia|exact Hs2].
  - destruct Hr as (_ & -> & _). right. cbn. lia.
  - right. rewrite length_app. cbn. lia.
  - right. rewrite length_app. cbn. lia.
Qed.
End Reader.

(** ** What framing calls *)

Definition read_op : forall X, Op X -> bool := fun X o =>
  match o with Read _ _ => true | _ => false end.
Definition write_op : forall X, Op X -> bool := fun X o =>
  match o with WriteAllChunks _ _ => true | _ => false end.
Definition finish_op : forall X, Op X -> bool := fun X o =>
  match o with Finish _ | Stopped _ | Expired _ => true | _ => false end.

Lemma read_stream_packet_calls fuel s buf l : all_ops read_op (read_stream_packet fuel s buf l).
Proof. unfold read_stream_packet, read_stream_exact_or_eof, read_exact_body. ops. Qed.
Lemma write_stream_packet_calls s h p l : all_ops write_op (write_stream_packet s h p l).
Proof. unfold write_stream_packet. ops. Qed.
Lemma finish_stream_with_ack_calls s l : all_ops finish_op (finish_stream_with_ack s l).
Proof. unfold finish_stream_with_ack. ops. Qed.
#[export] Hint Resolve read_stream_packet_calls write_stream_packet_calls
  finish_stream_with_ack_calls : calls.

(** ** Failing with the read

    A program that fails as soon as a read does. *)
Fixpoint heeds {A} (p : prog (outcome A)) : Prop :=
  match p with
  | Ret _ => True
  | Vis o k => (forall x, heeds (k x)) /\
    match o in Op X return (X -> prog (outcome A)) -> Prop with
    | Read _ _ => fun k => forall e, exists e', k (Err e) = Ret (Fail e')
    | _ => fun _ => True
    end k
  end.

Lemma heeds_bind {A B} (m : M A) (f : A -> M B) :
  heeds m -> (forall a, heeds (f a)) -> heeds (bind m f).
Proof.
  unfold bind. induction m as [r|X o k IH]; intros Hm Hf; cbn [pbind].
  - destruct r; cbn; auto.
  - destruct Hm as [Hk Ho]. split; [intros x; by apply IH|].
    destruct o; try done. intros e. destruct (Ho e) as [e' E']. exists e'. by rewrite E'.
Qed.

Lemma heeds_loop {S A} fuel (body : S -> M (S + A)) :
  (forall st, heeds (body st)) -> forall st, heeds (loop fuel body st).
Proof.
  intros Hb. induction fuel as [|fuel IH]; intros st; [done|]. cbn [loop].
  apply heeds_bind; [done|]. intros [st'|a]; [apply IH|done].
Qed.

Lemma read_stream_packet_heeds fuel s buf label : heeds (read_stream_packet fuel s buf label).
Proof.
  assert (forall buf, heeds (read_stream_exact_or_eof fuel s buf label)) as Hexact.
  { intros buf'. apply heeds_loop. intros [offset b]. unfold read_exact_body.
    destruct (_ <? _); [|done]. apply heeds_bind; [split; [|intros e; by eexists]|].
    - by intros [|].
    - intros [d|]; [by destruct (_ =? 0)|by destruct (_ =? 0)]. }
  unfold read_stream_packet. apply heeds_bind; [apply Hexact|]. intros [[] header]; [|done].
  cbn [negb]. cbv zeta. destruct (_ =? 0); [done|]. destruct (_ <? _); [done|].
  apply heeds_bind; [apply Hexact|]. by intros [[] packet].
Qed.

(** A run with a failed read in it fails. *)
Definition failed_read (e : event) : Prop :=
  match e with
  | Ev o x => match o in Op X return X -> Prop with
              | Read _ _ => fun r => match r with Err _ => True | Ok _ => False end
              | _ => fun _ => False
              end x
  end.

Lemma heeds_run (E : env) {A} (p : prog (outcome A)) : forall h, heeds p ->
  wp E h p (fun r h' => exists t, h' = h ++ t /\ (List.Exists failed_read t -> exists e, r = Fail e)).
Proof.
  induction p as [r|X o k IH]; intros h Hp.
  - exists []. rewrite app_nil_r. split; [done|]. intros H. inversion H.
  - destruct Hp as [Hk Ho]. unfold wp. cbn [run].
    destruct (IH (E X h o) (h ++ [Ev o (E X h o)]) (Hk _)) as (t & Et & Ht).
    exists (Ev o (E X h o) :: t). rewrite Et, <- app_assoc. split; [done|].
    intros [Hx|H]%List.Exists_cons; [|by apply Ht]. clear IH Ht Et Hk.
    destruct o; try done. cbn in Hx. destruct (E _ h _) as [|e]; [done|].
    destruct (Ho e) as [e' ->]. by exists e'.
Qed.

(** ** Frames and their packets *)

Lemma frame_inj p q d e :
  zlen p <= U16_MAX -> zlen q <= U16_MAX -> frame p ++ d = frame q ++ e -> p = q /\ d = e.
Proof.
  intros Hp Hq. unfold frame. rewrite <- !app_assoc. intros Eq.
  assert (zlen p = zlen q) as Hl.
  { rewrite <- (proj1 (be_bytes_roundtrip (zlen p) (p ++ d) ltac:(lia))), Eq.
    apply be_bytes_roundtrip. lia. }
  rewrite Hl in Eq. apply app_inv_head in Eq. apply app_inj_1 in Eq; [done|lia].
Qed.

(** Frames that are the beginning of frames are the first of them. *)
Lemma frames_prefix ps : forall qs tail, Forall (fun p => zlen p <= U16_MAX) ps ->
  Forall (fun p => zlen p <= U16_MAX) qs ->
  concat (map frame ps) ++ tail `prefix_of` concat (map frame qs) ->
  exists rest, qs = ps ++ rest /\ tail `prefix_of` concat (map frame rest).
Proof.
  induction ps as [|p ps IH]; intros qs tail Hps Hqs [d Hd]; [exists qs; split; [done|by exists d]|].
  apply Forall_cons in Hps as [Hp Hps]. cbn [map concat] in Hd. rewrite <- !app_assoc in Hd.
  destruct qs as [|q qs]; [by destruct p|].
  apply Forall_cons in Hqs as [Hq Hqs]. cbn [map concat] in Hd.
  apply frame_inj in Hd as [-> Hd]; [|done..].
  destruct (IH qs tail Hps Hqs) as (rest & -> & Hr); [exists d; by rewrite <- app_assoc|].
  by exists rest.
Qed.

Lemma within_frame_rest rest :
  Forall (fun p => zlen p <= U16_MAX) rest -> within_frame (concat (map frame rest)) ->
  (length rest <= 1)%nat.
Proof.
  intros Hr Hw. destruct rest as [|p [|q rest]]; [cbn; lia..|]. exfalso.
  apply Forall_cons in Hr as [Hp _]. cbn [map concat] in Hw.
  unfold within_frame in Hw. unfold frame in Hw. rewrite <- !app_assoc in Hw.
  rewrite (proj1 (be_bytes_roundtrip (zlen p) _ ltac:(lia))) in Hw.
  rewrite !length_app in Hw. cbn [length to_be_bytes] in Hw. lia.
Qed.

Lemma begun_rest rest :
  Forall (fun p => zlen p <= U16_MAX) rest -> begun (concat (map frame rest)) -> rest = [].
Proof.
  intros Hr Hb. destruct rest as [|p rest]; [done|]. exfalso.
  apply Forall_cons in Hr as [Hp _]. cbn [map concat] in Hb.
  unfold begun, frame in Hb. rewrite <- !app_assoc in Hb.
  rewrite (proj1 (be_bytes_roundtrip (zlen p) _ ltac:(lia))), !length_app in Hb.
  cbn [length to_be_bytes] in Hb. lia.
Qed.

(** ** A concrete stream

    It takes everything written and delivers [content] in chunks of at most
    [chunk] bytes. *)
Definition feeding (content : bytes) (chunk : nat) : env := fun X h o =>
  match o in Op X return X -> X with
  | WriteAllChunks _ _ => fun _ => Ok tt
  | Finish _ => fun _ => Ok tt
  | Read s cap => fun _ =>
    match drop (length (stream_read s h)) content with
    | [] => Ok None
    | rest => Ok (Some (take (Nat.min chunk (Z.to_nat cap)) rest))
    end
  | _ => fun x => x
  end (quiet X h o).

Lemma feeding_reads content chunk h s cap d : Forall is_byte content -> 0 <= cap ->
  feeding content chunk _ h (Read s cap) = Ok (Some d) -> zlen d <= cap /\ Forall is_byte d.
Proof.
  intros Hc Hcap. cbn. destruct (drop _ content) as [|b rest] eqn:Hd; [done|].
  assert (Forall is_byte (b :: rest)) as Hb by (rewrite <- Hd; by apply Forall_drop).
  intros [= <-]. split; [rewrite length_take; lia|by apply Forall_take].
Qed.

Lemma feeding_delivers content chunk s : (0 < chunk)%nat ->
  stream_delivers (feeding content chunk) s content.
Proof.
  intros Hchunk h cap Hcap [rest ->]. cbn. rewrite drop_app_length.
  destruct rest as [|b rest]; [by rewrite app_nil_r|].
  assert (exists m, Nat.min chunk (Z.to_nat cap) = S m) as [m Hm] by
    (exists (pred (Nat.min chunk (Z.to_nat cap))); lia).
  split; [by rewrite Hm|]. split; [rewrite length_take; lia|].
  apply prefix_app. exists (drop (Nat.min chunk (Z.to_nat cap)) (b :: rest)).
  by rewrite take_drop.
Qed.

(** ** Properties *)

(** C11: Whatever chunks the stream delivers, [read_stream_packet] ends as the
    reference parser [parse_frame] says on the bytes not yet read: a packet in
    the buffer with exactly its bytes consumed, the end of the stream, an end
    inside a header or body, a body missing altogether, or a packet too large
    for the buffer. It terminates: fuel above the buffer's size is enough. *)
Theorem read_stream_packet_refines (E : env) s content label fuel h buf rest :
  stream_delivers E s content -> content = stream_read s h ++ rest ->
  Forall is_byte rest -> 2 < Z.of_nat fuel -> zlen buf < Z.of_nat fuel ->
  let r := run E h (read_stream_packet fuel s buf label) in
  packet_outcome label buf rest r.1 /\
  forall p rest', parse_frame (zlen buf) rest = Packet p rest' ->
    content = stream_read s r.2 ++ rest'.
Proof.
  intros HE Hc Hb H2 Hf. destruct (read_packet_spec E s content label fuel h buf rest HE Hc Hb H2 Hf)
    as (Ho & t & _ & _ & Hr).
  split; [done|]. intros p rest' Hp. by rewrite Hp in Hr.
Qed.

Lemma read_stream_packet_refines_witness :
  let content := frame [7; 8; 9] ++ [0] in
  let r := run (feeding content 2) [] (read_stream_packet 9 5 [0; 0; 0; 0] (lit "x")) in
  packet_outcome (lit "x") [0; 0; 0; 0] content r.1 /\
  forall p rest', parse_frame (zlen [0; 0; 0; 0]) content = Packet p rest' ->
    content = stream_read 5 r.2 ++ rest'.
Proof.
  intros content.
  apply (read_stream_packet_refines (feeding content 2) 5 content (lit "x") 9 []).
  - apply feeding_delivers. lia.
  - done.
  - apply Forall_app. split; [apply frame_bytes; [repeat constructor; done|done]|].
    repeat constructor; done.
  - done.
  - done.
Defined.

(** Round trip of framing. A packet that [write_stream_packet] put on a
    stream, read by [read_stream_packet] from a stream that delivers those
    bytes and more in chunks of any size, comes out as the same bytes, and the
    reader stops exactly at the next frame. *)
Lemma frame_roundtrip (Ew Er : env) hw hr sw sr header p label label' buf rest fuel :
  (forall h s chunks, Ew _ h (WriteAllChunks s chunks) = Ok tt) ->
  zlen p <= U16_MAX -> 2 <= zlen header -> zlen p <= zlen buf ->
  2 < Z.of_nat fuel -> zlen buf < Z.of_nat fuel ->
  Forall is_byte p -> Forall is_byte rest ->
  let written := (run Ew hw (write_stream_packet sw header p label)).2 in
  stream_written sw hw = [] -> stream_read sr hr = [] ->
  stream_delivers Er sr (stream_written sw written ++ rest) ->
  wp Er hr (read_stream_packet fuel sr buf label') (fun r h' => exists buf',
    r = Val (Some (zlen p), buf') /\ take (length p) buf' = p /\
    stream_read sr h' = stream_written sw written).
Proof.
  intros Hw Hp Hh Hbuf H2 Hf Bp Br written Hw0 Hr0 HE.
  pose proof (write_packet_spec Ew sw header p label hw) as Hs. unfold wp in Hs.
  fold written in Hs.
  rewrite (proj2 (Z.leb_le _ _) Hp), (proj2 (Z.leb_le _ _) Hh) in Hs. cbn [andb] in Hs.
  destruct Hs as (chunks & Hc & Ewr & _).
  assert (stream_written sw written = frame p) as Hwr
    by (rewrite Ewr, stream_written_chunks, Hw0, Hw; done).
  clearbody written. rewrite Hwr in *.
  eapply wp_mono; [apply (read_packet_spec Er sr _ label' fuel hr buf (frame p ++ rest) HE)|].
  - by rewrite Hr0.
  - apply Forall_app. split; [by apply frame_bytes|done].
  - done.
  - done.
  - intros r h' (Ho & t & _ & _ & Hrest). unfold packet_outcome in Ho.
    rewrite parse_frame_frame in Ho, Hrest by done.
    destruct Ho as (buf' & -> & _ & Ht). exists buf'. split; [done|]. split; [done|].
    by apply app_inv_tail in Hrest.
Qed.

Lemma frame_roundtrip_witness :
  let E := feeding [0; 3; 7; 8; 9; 1] 2 in
  let written := (run E [] (write_stream_packet 3 [0; 0] [7; 8; 9] (lit "c"))).2 in
  wp E [] (read_stream_packet 9 5 [0; 0; 0; 0] (lit "s")) (fun r h' => exists buf',
    r = Val (Some (zlen [7; 8; 9]), buf') /\ take (length [7; 8; 9]) buf' = [7; 8; 9] /\
    stream_read 5 h' = stream_written 3 written).
Proof.
  intros E. apply (frame_roundtrip E E [] [] 3 5 [0; 0] [7; 8; 9] (lit "c") (lit "s")
    [0; 0; 0; 0] [1] 9); try done.
  - repeat constructor; done.
  - repeat constructor; done.
  - apply feeding_delivers. lia.
Defined.

(** [write_stream_packet] in every environment: a packet of at most 65535
    bytes makes exactly one [write_all_chunks] call, whose bytes are the frame
    of the packet; a longer packet (or a header buffer under 2 bytes) is an
    error and nothing is written. *)
Lemma write_stream_packet_writes_frame (E : env) s header p label h :
  let r := run E h (write_stream_packet s header p label) in
  if (zlen p <=? U16_MAX) && (2 <=? zlen header) then
    exists chunks, concat chunks = frame p /\
      r.2 = h ++ [Ev (WriteAllChunks s chunks) (E _ h (WriteAllChunks s chunks))] /\
      match E _ h (WriteAllChunks s chunks) with
      | Ok _ => exists header', r.1 = Val header' /\ zlen header' = zlen header
      | Err e => r.1 = Fail (External e)
      end
  else r.2 = h /\ exists e, r.1 = Fail e.
Proof. exact (write_packet_spec E s header p label h). Qed.

(** [finish_stream_with_ack] fails only when the stream cannot be
    finished or waiting for the peer fails: a stop code from the peer and the
    expiry of the wait both count as finished. *)
Lemma finish_stream_tolerates_peer (E : env) s label h :
  let h1 := h ++ [Ev (Finish s) (E _ h (Finish s))] in
  let h2 := h1 ++ [Ev (Expired (Within (secs 5))) (E bool h1 (Expired (Within (secs 5))))] in
  (run E h (finish_stream_with_ack s label)).1 =
  match E _ h (Finish s) with
  | Err e => Fail (Context (lit "failed to finish " ++ label) (External e))
  | Ok _ =>
    if E bool h1 (Expired (Within (secs 5))) then Val tt else
    match E _ h2 (Stopped s) with
    | Ok _ => Val tt
    | Err e => Fail (Context (label ++ lit " stopped wait failed") (External e))
    end
  end.
Proof.
  cbn. destruct (E _ h (Finish s)) as [[]|e]; [|done]. cbn.
  destruct (E bool _ (Expired _)); [done|]. cbn.
  destruct (E _ _ (Stopped s)) as [[code|]|e]; done.
Qed.
