(* ===== verification/Backlog.v ===== *)
(** * Datagram back-pressure: [DatagramBacklog] of [litevpn-core/src/quic.rs]

    quinn queues outgoing datagrams without a limit of its own here, so the
    sender counts what it queued, asks the connection's statistics how many
    datagram frames have left, and waits in steps of 2 ms while the difference
    is above a maximum. *)

From S2P Require Import Prelude World.

Record DatagramBacklog := mk_backlog {
  baseline_tx_datagrams : Z;
  queued_datagrams : Z;
  transmitted_datagrams : Z;
  max_backlog_packets : Z;
}.

Definition set_queued (n : Z) (b : DatagramBacklog) : DatagramBacklog :=
  mk_backlog (baseline_tx_datagrams b) n (transmitted_datagrams b) (max_backlog_packets b).
Definition set_transmitted (n : Z) (b : DatagramBacklog) : DatagramBacklog :=
  mk_backlog (baseline_tx_datagrams b) (queued_datagrams b) n (max_backlog_packets b).

Definition backlog_new (connection : conn) (max_backlog_packets : Z) : M DatagramBacklog :=
  stats <- perform (ConnStats connection);
  ret (mk_backlog (frame_tx_datagram stats) 0 0 max_backlog_packets).

Definition estimated_backlog (b : DatagramBacklog) : Z :=
  saturating_sub (queued_datagrams b) (transmitted_datagrams b).

Definition closed_error (reason : str) : error :=
  Msg (lit "connection closed while waiting for datagram backlog: " ++ reason).

(** The [tokio::select!] of a turn: [true] when a deadline timer won. *)
Definition wait_turn (connection : conn) (deadline : option Z) : M bool :=
  match deadline with
  | Some deadline =>
    select2 (perform (Sleep (millis 2)) ;; ret false)
      (select2 (perform (SleepUntil deadline) ;; ret true)
        (reason <- perform (Closed connection); fail (closed_error reason)))
  | None =>
    select2 (perform (Sleep (millis 2)) ;; ret false)
      (reason <- perform (Closed connection); fail (closed_error reason))
  end.

(** One turn of the loop of [wait_until]. *)
Definition wait_until_body (connection : conn) (deadline : option Z) (b : DatagramBacklog)
    : M (DatagramBacklog + bool * DatagramBacklog) :=
  stats <- perform (ConnStats connection);
  let b := set_transmitted
             (saturating_sub (frame_tx_datagram stats) (baseline_tx_datagrams b)) b in
  if estimated_backlog b <=? max_backlog_packets b then ret (inr (true, b)) else
  expired <- match deadline with
             | Some deadline => now <- perform Now; ret (deadline <=? now)
             | None => ret false
             end;
  if expired : bool then ret (inr (false, b)) else
  elapsed <- wait_turn connection deadline;
  if elapsed : bool then ret (inr (false, b)) else ret (inl b).

Definition wait_until (fuel : nat) (connection : conn) (deadline : option Z)
    (b : DatagramBacklog) : M (bool * DatagramBacklog) :=
  if max_backlog_packets b =? 0 then ret (true, b) else
  if estimated_backlog b <=? max_backlog_packets b then ret (true, b) else
  loop fuel (wait_until_body connection deadline) b.

Definition queued (fuel : nat) (connection : conn) (b : DatagramBacklog)
    : M DatagramBacklog :=
  let b := set_queued (saturating_add U64_MAX (queued_datagrams b) 1) b in
  '(_, b) <- wait_until fuel connection None b;
  ret b.

Definition queued_until (fuel : nat) (connection : conn) (deadline : Z)
    (b : DatagramBacklog) : M (bool * DatagramBacklog) :=
  let b := set_queued (saturating_add U64_MAX (queued_datagrams b) 1) b in
  wait_until fuel connection (Some deadline) b.

(** ** The contract

    [within b]: the estimate respects the maximum; a maximum of 0 turns the
    limit off. *)
Definition within (b : DatagramBacklog) : Prop :=
  max_backlog_packets b = 0 \/ estimated_backlog b <= max_backlog_packets b.

(** The fields that waiting leaves alone. *)
Definition same_queue (b b' : DatagramBacklog) : Prop :=
  baseline_tx_datagrams b' = baseline_tx_datagrams b /\
  queued_datagrams b' = queued_datagrams b /\
  max_backlog_packets b' = max_backlog_packets b.

(** [transmitted_datagrams] is 0 or comes from a reading of the statistics. *)
Definition measured (E : env) (c : conn) (b : DatagramBacklog) : Prop :=
  transmitted_datagrams b = 0 \/
  exists h, transmitted_datagrams b =
    saturating_sub (frame_tx_datagram (E _ h (ConnStats c))) (baseline_tx_datagrams b).

(** A turn sleeps 2 ms, sleeps to the deadline, or sees the connection close. *)
Lemma wait_turn_spec E c deadline h :
  wp E h (wait_turn c deadline) (fun r h' =>
    waited h h' /\
    match r with
    | Val false => time_floor h' = time_floor h + millis 2
    | Val true => exists d, deadline = Some d /\ d <= time_floor h'
    | Fail e => exists reason, e = closed_error reason
    | _ => False
    end).
Proof.
  unfold wait_turn, wp. destruct deadline as [d|]; cbn -[millis app time_floor];
    repeat (case_poll; cbn -[millis app time_floor]);
    (split; [waits|rewrite ?app_assoc, ?time_floor_snoc]);
    first [reflexivity|by eexists|exists d; split; [done|lia]].
Qed.

(** How a turn of [wait_until] ends: the estimate is within the maximum, the
    deadline has come, the connection is closed, or 2 ms have passed. *)
Definition body_post (E : env) (c : conn) (deadline : option Z) (b : DatagramBacklog)
    (h : history) (r : outcome (DatagramBacklog + bool * DatagramBacklog)) (h' : history) : Prop :=
  waited h h' /\
  match r with
  | Val (inl b') =>
    same_queue b b' /\ measured E c b' /\
    forall d, deadline = Some d -> clock_ok E ->
      time_floor h < d /\ time_floor h + millis 2 <= time_floor h'
  | Val (inr (true, b')) =>
    same_queue b b' /\ measured E c b' /\ estimated_backlog b' <= max_backlog_packets b'
  | Val (inr (false, b')) =>
    same_queue b b' /\ measured E c b' /\ exists d, deadline = Some d /\ d <= time_floor h'
  | Fail e => exists reason, e = closed_error reason
  | Panic _ | Running => False
  end.

Lemma body_spec E c deadline b h :
  wp E h (wait_until_body c deadline b) (body_post E c deadline b h).
Proof.
  unfold wait_until_body. apply wp_bind, wp_vis, wp_ret. cbv beta iota zeta.
  set (b' := set_transmitted _ b). set (h1 := h ++ _).
  assert (same_queue b b') as Hq by done.
  assert (measured E c b') as Hm by (right; by eexists).
  assert (waited h h1) as H1 by by apply waited_one.
  assert (time_floor h1 = time_floor h) as F1 by (unfold h1; by rewrite time_floor_snoc).
  clearbody b' h1.
  destruct (Z.leb_spec (estimated_backlog b') (max_backlog_packets b')).
  { by apply wp_ret. }
  (* the turn itself, entered at [h2] *)
  assert (forall h2, waited h h2 -> time_floor h <= time_floor h2 ->
    (forall d, deadline = Some d -> clock_ok E -> time_floor h < d) ->
    wp E h2 (elapsed <- wait_turn c deadline;
             if elapsed : bool then ret (inr (false, b')) else ret (inl b'))
      (body_post E c deadline b h)) as Hturn.
  { intros h2 H2 F2 Hd. apply wp_bind. eapply wp_mono; [apply wait_turn_spec|].
    intros [[]| | |] h' [Hw Hr]; try done; [apply wp_ret..|];
      (split; [by etransitivity|]); [done| |done].
    split; [done|]. split; [done|]. intros d Ed Hc. specialize (Hd d Ed Hc). lia. }
  apply wp_bind. destruct deadline as [d|].
  - apply wp_bind, wp_vis, wp_ret. apply wp_ret. cbv beta.
    set (h2 := h1 ++ _). assert (waited h h2) as H2 by (etransitivity; [done|by apply waited_one]).
    assert (time_floor h2 = Z.max (time_floor h) (E Z h1 Now)) as F2
      by (unfold h2; rewrite time_floor_snoc, F1; done).
    clearbody h2. destruct (Z.leb_spec d (E Z h1 Now)) as [Hle|Hgt].
    + apply wp_ret. split; [done|]. split; [done|]. split; [done|]. exists d. split; [done|lia].
    + apply Hturn; [done|lia|]. intros d' [= <-] Hc. destruct (Hc h1) as (_ & ? & _). lia.
  - apply wp_ret. apply Hturn; [done|lia|done].
Qed.

(** How waiting ends, by result. *)
Definition wait_post (E : env) (c : conn) (deadline : option Z) (b : DatagramBacklog)
    (h : history) (r : outcome (bool * DatagramBacklog)) (h' : history) : Prop :=
  waited h h' /\
  match r with
  | Val (true, b') => same_queue b b' /\ measured E c b' /\ within b'
  | Val (false, b') =>
    same_queue b b' /\ measured E c b' /\ exists d, deadline = Some d /\ d <= time_floor h'
  | Fail e => exists reason, e = closed_error reason
  | Panic _ => False
  | Running => True
  end.

Lemma same_queue_trans b1 b2 b3 : same_queue b1 b2 -> same_queue b2 b3 -> same_queue b1 b3.
Proof. intros (E1 & E2 & E3) (F1 & F2 & F3). unfold same_queue. by rewrite F1, F2, F3. Qed.

Lemma body_post_result E c deadline b0 h0 b h r h' :
  waited h0 h -> same_queue b0 b -> body_post E c deadline b h r h' ->
  match r with
  | Val (inl b') => waited h0 h' /\ same_queue b0 b' /\ measured E c b'
  | Val (inr x) => wait_post E c deadline b0 h0 (Val x) h'
  | Fail e => wait_post E c deadline b0 h0 (Fail e) h'
  | Panic _ | Running => False
  end.
Proof.
  intros H0 Hq [Hw Hr].
  assert (waited h0 h') by by etransitivity.
  destruct r as [[b'|[[] b']]| | |]; try done.
  - destruct Hr as (Hq' & Hm & _). split; [done|]. split; [by eapply same_queue_trans|done].
  - destruct Hr as (Hq' & Hm & Hb). split; [done|]. split; [by eapply same_queue_trans|].
    split; [done|by right].
  - destruct Hr as (Hq' & Hm & Hb). split; [done|]. split; [by eapply same_queue_trans|done].
Qed.

Lemma wait_until_spec E c deadline b h fuel :
  measured E c b -> wp E h (wait_until fuel c deadline b) (wait_post E c deadline b h).
Proof.
  intros Hm. unfold wait_until.
  destruct (Z.eqb_spec (max_backlog_packets b) 0).
  { apply wp_ret. split; [apply waited_refl|]. split; [done|]. split; [done|by left]. }
  destruct (Z.leb_spec (estimated_backlog b) (max_backlog_packets b)).
  { apply wp_ret. split; [apply waited_refl|]. split; [done|]. split; [done|by right]. }
  apply (wp_loop _ _ _ _ _ (fun b' h' => waited h h' /\ same_queue b b' /\ measured E c b')).
  - split; [apply waited_refl|done].
  - intros b1 h1 (H1 & Hq1 & _). eapply wp_mono; [apply body_spec|].
    intros r h' Hr. pose proof (body_post_result _ _ _ _ _ _ _ _ _ H1 Hq1 Hr) as Hres.
    by destruct r as [[|]| | |].
  - intros b1 h1 (H1 & _). by split.
Qed.

(** With a deadline the loop ends: every turn takes at least 2 ms. *)
Lemma wait_until_total E c d b h fuel :
  clock_ok E -> measured E c b ->
  Z.max 0 ((d - time_floor h) / millis 2 + 1) < Z.of_nat fuel ->
  wp E h (wait_until fuel c (Some d) b) (fun r h' =>
    r <> Running /\ wait_post E c (Some d) b h r h').
Proof.
  intros Hclock Hm Hfuel.
  apply wp_and; [|by apply wait_until_spec]. unfold wait_until.
  destruct (_ =? 0); [by apply wp_ret|]. destruct (_ <=? _); [by apply wp_ret|].
  apply (wp_loop_total _ _ _ _ _ (fun _ _ => True)
    (fun _ h => Z.to_nat ((d - time_floor h) / millis 2 + 1))).
  - done.
  - lia.
  - intros b1 h1 _. eapply wp_mono; [apply body_spec|].
    intros [[b'|[]]| | |] h' [_ Hr]; try done.
    split; [done|]. destruct Hr as (_ & _ & Ht).
    destruct (Ht d eq_refl Hclock) as [Hlt Hstep].
    unfold millis in *. zlia.
Qed.

(** [queued] in detail, for the pumps. *)
Lemma queued_spec E c b h fuel :
  measured E c b ->
  wp E h (queued fuel c b) (fun r h' =>
    waited h h' /\
    match r with
    | Val b' =>
      queued_datagrams b' = saturating_add U64_MAX (queued_datagrams b) 1 /\
      baseline_tx_datagrams b' = baseline_tx_datagrams b /\
      max_backlog_packets b' = max_backlog_packets b /\ measured E c b' /\ within b'
    | Fail e => exists reason, e = closed_error reason
    | Panic _ => False
    | Running => True
    end).
Proof.
  intros Hm. unfold queued. apply wp_bind.
  eapply wp_mono; [by apply wait_until_spec|].
  intros r h' [Hw Hr]. destruct r as [[[] b']| | |]; try done.
  - apply wp_ret. split; [done|]. by destruct Hr as ((? & ? & ?) & ? & ?).
  - destruct Hr as (_ & _ & d & ? & _). done.
Qed.

Lemma backlog_new_waiting c n : waiting (backlog_new c n).
Proof. unfold backlog_new. ops. Qed.
Lemma wait_until_waiting fuel c d b : waiting (wait_until fuel c d b).
Proof. unfold wait_until, wait_until_body, wait_turn. ops. Qed.
Lemma queued_waiting fuel c b : waiting (queued fuel c b).
Proof. unfold queued. pose proof wait_until_waiting. ops. Qed.
Lemma queued_until_waiting fuel c d b : waiting (queued_until fuel c d b).
Proof. apply wait_until_waiting. Qed.
#[export] Hint Resolve backlog_new_waiting queued_waiting queued_until_waiting : calls.

Lemma backlog_new_spec E c max h :
  wp E h (backlog_new c max) (fun r h' => exists b,
    r = Val b /\ waited h h' /\ measured E c b /\ queued_datagrams b = 0 /\
    max_backlog_packets b = max).
Proof.
  apply wp_bind, wp_vis, wp_ret, wp_ret. eexists. split; [reflexivity|].
  split; [by apply waited_one|]. split; [by left|done].
Qed.

(** ** Properties *)

(** C19: Back-pressure. In every environment [queued] counts the datagram and,
    when it returns, the datagrams queued exceed the datagram frames the
    connection reported as sent by at most the maximum (unless the maximum is
    0, which turns the limit off); it fails only when the connection is
    closed, never panics, and itself sends and receives nothing. *)
Theorem queued_bounds_backlog E c b h fuel :
  measured E c b ->
  let r := run E h (queued fuel c b) in
  waited h r.2 /\
  match r.1 with
  | Val b' =>
    queued_datagrams b' = saturating_add U64_MAX (queued_datagrams b) 1 /\
    (max_backlog_packets b = 0 \/
     queued_datagrams b' - transmitted_datagrams b' <= max_backlog_packets b) /\
    (transmitted_datagrams b' = 0 \/ exists h', transmitted_datagrams b' =
       saturating_sub (frame_tx_datagram (E _ h' (ConnStats c))) (baseline_tx_datagrams b))
  | Fail e => exists reason, e = closed_error reason
  | Panic _ => False
  | Running => True
  end.
Proof.
  intros Hm r. destruct (queued_spec E c b h fuel Hm) as [Hw Hr]. fold r in Hw, Hr.
  split; [done|]. destruct r.1; try done.
  destruct Hr as (Hq & Hb & Hx & Hm' & Hin). split; [done|].
  unfold within, estimated_backlog, saturating_sub in Hin. rewrite Hx in Hin.
  split; [lia|]. unfold measured in Hm'. by rewrite Hb in Hm'.
Qed.

(** A connection that has sent 4 datagram frames by the time it is asked. *)
Definition sent_four : env := fun X h o =>
  match o in Op X return X -> X with
  | ConnStats _ => fun _ => mk_stats 0 0 0 0 0 0 0 0 0 0 4 0
  | _ => fun x => x
  end (ticking X h o).

Lemma queued_bounds_backlog_witness :
  let b := mk_backlog 1 5 0 3 in
  let r := run sent_four [] (queued 9 1 b) in
  waited [] r.2 /\
  match r.1 with
  | Val b' =>
    queued_datagrams b' = saturating_add U64_MAX (queued_datagrams b) 1 /\
    (max_backlog_packets b = 0 \/
     queued_datagrams b' - transmitted_datagrams b' <= max_backlog_packets b) /\
    (transmitted_datagrams b' = 0 \/ exists h', transmitted_datagrams b' =
       saturating_sub (frame_tx_datagram (sent_four _ h' (ConnStats 1))) (baseline_tx_datagrams b))
  | Fail e => exists reason, e = closed_error reason
  | Panic _ => False
  | Running => True
  end.
Proof. apply (queued_bounds_backlog sent_four 1 (mk_backlog 1 5 0 3) [] 9). by left. Defined.

(** 6 queued, 3 sent since the baseline: the wait ends at once. *)
Example queued_example :
  (run sent_four [] (queued 9 1 (mk_backlog 1 5 0 3))).1 = Val (mk_backlog 1 6 3 3).
Proof. reflexivity. Qed.

(** C14: With a deadline and a monotonic clock [queued_until] terminates: one
    turn per 2 ms up to the deadline is enough. [true] means the backlog is
    within the maximum, [false] that the deadline has come. *)
Theorem queued_until_terminates E c d b h fuel :
  clock_ok E -> measured E c b ->
  Z.max 0 ((d - time_floor h) / millis 2 + 1) < Z.of_nat fuel ->
  wp E h (queued_until fuel c d b) (fun r h' =>
    waited h h' /\
    match r with
    | Val (true, b') => within b'
    | Val (false, _) => d <= time_floor h'
    | Fail e => exists reason, e = closed_error reason
    | Panic _ | Running => False
    end).
Proof.
  intros Hclock Hm Hfuel. unfold queued_until.
  eapply wp_mono; [by apply wait_until_total|].
  intros r h' (Hne & Hw & Hr). split; [done|].
  destruct r as [[[] b']| | |]; try done.
  - by destruct Hr as (_ & _ & ?).
  - destruct Hr as (_ & _ & d' & [= <-] & ?). done.
Qed.

Lemma queued_until_terminates_witness :
  wp ticking [] (queued_until 8 1 (millis 9) (mk_backlog 0 5 0 3)) (fun r h' =>
    waited [] h' /\
    match r with
    | Val (true, b') => within b'
    | Val (false, _) => millis 9 <= time_floor h'
    | Fail e => exists reason, e = closed_error reason
    | Panic _ | Running => False
    end).
Proof.
  apply (queued_until_terminates ticking 1 (millis 9) (mk_backlog 0 5 0 3) [] 8).
  - apply ticking_clock.
  - by left.
  - vm_compute. reflexivity.
Defined.
