(* ===== verification/Pumps.v ===== *)
(** * The pumps of the tunnel: [litevpn-core/src/quic.rs]

    Four endless loops between the TUN device and a connection: datagrams or a
    framed stream, one loop per direction. What a pump did is read off its
    history. *)

From S2P Require Import Prelude RustStr World Frame Float64 Pacer Backlog.

(** ** Sockets and capacity *)

(** [SocketAddr]: its IPv4 address, [None] when it is an IPv6 one, and its text. *)
Record SocketAddr := mk_addr { addr_ip : option Ipv4Addr; addr_text : str }.
Definition is_ipv6 (addr : SocketAddr) : bool :=
  match addr_ip addr with Some _ => false | None => true end.

Definition create_udp_socket (addr : SocketAddr) (recv_buffer_bytes send_buffer_bytes : Z)
    : M Z :=
  socket <- call_context "failed to create UDP socket" (SocketNew (is_ipv6 addr));
  (if is_ipv6 addr then _ <- perform (SetOnlyV6 socket false); ret tt else ret tt) ;;
  (if 0 <? recv_buffer_bytes then
     call_context "failed to set UDP receive buffer size"
       (SetRecvBufferSize socket recv_buffer_bytes)
   else ret tt) ;;
  (if 0 <? send_buffer_bytes then
     call_context "failed to set UDP send buffer size"
       (SetSendBufferSize socket send_buffer_bytes)
   else ret tt) ;;
  call_with_context (lit "failed to bind UDP socket to " ++ addr_text addr)
    (Bind socket (addr_text addr)) ;;
  ret socket.

Definition ensure_datagram_capacity (connection : conn) (mtu : Z) (label : str) : M unit :=
  max <- perform (MaxDatagramSize connection);
  match max with
  | Some max =>
    if max <? mtu then
      fail (Msg (label ++ lit ": QUIC datagram capacity " ++ to_dec max
                 ++ lit " is below configured tunnel MTU " ++ to_dec mtu))
    else ret tt
  | None => ret tt
  end.

(** ** From the TUN device *)

(** The [tokio::select!] both senders start a turn with. *)
Definition recv_or_closed (cap : Z) (connection : conn) (label : str) : M bytes :=
  select2 (call (TunRecv cap))
    (reason <- perform (Closed connection);
     fail (Msg (label ++ lit ": connection closed while waiting for tun packet: " ++ reason))).

Definition tun_to_quic_body (fuel : nat) (connection : conn) (mtu : Z) (label : str)
    (st : EgressPacer * DatagramBacklog) : M ((EgressPacer * DatagramBacklog) + unit) :=
  let '(pacer, datagram_backlog) := st in
  packet <- recv_or_closed (mtu + 64) connection label;
  let n := zlen packet in
  if n =? 0 then ret (inl (pacer, datagram_backlog)) else
  max <- perform (MaxDatagramSize connection);
  if (match max with Some max => max <? n | None => false end)
  then ret (inl (pacer, datagram_backlog)) else
  call (SendDatagramWait connection packet) ;;
  datagram_backlog <- queued fuel connection datagram_backlog;
  pacer <- record_and_wait pacer n (Some connection);
  ret (inl (pacer, datagram_backlog)).

Definition pump_tun_to_quic (fuel : nat) (connection : conn) (mtu : Z) (label : str)
    (egress_target_mbps datagram_backlog_packets : Z) (adaptive_egress : bool) : M unit :=
  pacer <- pacer_new egress_target_mbps mtu adaptive_egress;
  datagram_backlog <- backlog_new connection datagram_backlog_packets;
  loop fuel (tun_to_quic_body fuel connection mtu label) (pacer, datagram_backlog).

Definition tun_to_stream_body (stream : sid) (connection : conn) (mtu : Z) (label : str)
    (st : EgressPacer * bytes) : M ((EgressPacer * bytes) + unit) :=
  let '(pacer, frame_header) := st in
  packet <- recv_or_closed (mtu + 64) connection label;
  let n := zlen packet in
  if n =? 0 then ret (inl (pacer, frame_header)) else
  frame_header <- write_stream_packet stream frame_header packet label;
  pacer <- record_and_wait pacer n (Some connection);
  ret (inl (pacer, frame_header)).

Definition pump_tun_to_stream (fuel : nat) (stream : sid) (connection : conn) (mtu : Z)
    (label : str) (egress_target_mbps : Z) (adaptive_egress : bool) : M unit :=
  pacer <- pacer_new egress_target_mbps mtu adaptive_egress;
  loop fuel (tun_to_stream_body stream connection mtu label) (pacer, [0; 0]).

(** ** To the TUN device *)

Definition partial_write_error (label : str) (written n : Z) : error :=
  Msg (label ++ lit ": partial tun write: wrote " ++ to_dec written ++ lit " of "
       ++ to_dec n ++ lit " bytes").

Definition quic_to_tun_body (connection : conn) (label : str) (_ : unit) : M (unit + unit) :=
  packet <- call (ReadDatagram connection);
  written <- call (TunSend packet);
  if negb (written =? zlen packet) then fail (partial_write_error label written (zlen packet))
  else ret (inl tt).

Definition pump_quic_to_tun (fuel : nat) (connection : conn) (label : str) : M unit :=
  loop fuel (quic_to_tun_body connection label) tt.

Definition stream_to_tun_body (fuel : nat) (stream : sid) (label : str) (buf : bytes)
    : M (bytes + unit) :=
  '(packet_len, buf) <- read_stream_packet fuel stream buf label;
  match packet_len with
  | None => ret (inr tt)
  | Some packet_len =>
    if packet_len =? 0 then ret (inl buf) else
    written <- call (TunSend (take (Z.to_nat packet_len) buf));
    if negb (written =? packet_len) then fail (partial_write_error label written packet_len)
    else ret (inl buf)
  end.

Definition pump_stream_to_tun (fuel : nat) (stream : sid) (max_packet_bytes : Z) (label : str)
    : M unit :=
  loop fuel (stream_to_tun_body fuel stream label)
    (repeat 0 (Z.to_nat max_packet_bytes)).

(** ** Turns, event by event *)

Ltac race_steps := repeat (case_poll; cbn -[app time_floor]).

(** A sender's turn begins with a packet from the device, an error of the
    device, or the end of the connection. *)
Lemma recv_or_closed_spec E cap c label h :
  wp E h (recv_or_closed cap c label) (fun r h' => exists w, only_waits w /\
    match r with
    | Val p => h' = h ++ w ++ [Ev (TunRecv cap) (Ok p)] /\
        exists h1, E _ h1 (TunRecv cap) = Ok p
    | Fail _ => h' = h ++ w \/ exists e, h' = h ++ w ++ [Ev (TunRecv cap) (Err e)]
    | _ => False
    end).
Proof.
  unfold recv_or_closed, wp. cbn -[app]. case_poll; cbn -[app].
  - set (h1 := h ++ _). destruct (E _ h1 (TunRecv cap)) as [p|e] eqn:Er; cbn -[app].
    + exists [Ev Poll true]. split; [by repeat constructor|]. subst h1.
      rewrite <-app_assoc. split; [done|by eexists].
    + exists [Ev Poll true]. split; [by repeat constructor|]. right. exists e.
      subst h1. by rewrite <-app_assoc.
  - eexists (_ :: [_]). split; [|left; by rewrite <-app_assoc]. by repeat constructor.
Qed.

Section Sender.
(** What a sender makes of the packets it takes, and the observer of what
    it put out, which neither waiting nor receiving changes. *)
Context {B : Type} (pass : list bytes -> list B) (sent : history -> list B).
Hypothesis sent_waits : forall t w, only_waits w -> sent (t ++ w) = sent t.
Hypothesis sent_recv : forall t cap r, sent (t ++ [Ev (TunRecv cap) r]) = sent t.

(** Since [h], all packets received have been passed on; or all but the
    last, [p]. *)
Definition passed_on (h h' : history) : Prop :=
  exists t, h' = h ++ t /\ sent t = pass (tun_received t).

Definition holding (p : bytes) (h h' : history) : Prop :=
  exists t ps, h' = h ++ t /\ tun_received t = ps ++ [p] /\ sent t = pass ps.

(** The contract of a sender: however it ends, everything it received went
    out in order, except that one packet may be lost to the error that ended
    it. *)
Definition sender_post {A} (h : history) (r : outcome A) (h' : history) : Prop :=
  passed_on h h' \/ exists e p, r = Fail e /\ holding p h h'.

(** An error, a panic or a running loop, seen at another type of results. *)
Lemma sender_post_cast {A A'} h (r : outcome A) h' :
  sender_post h r h' ->
  match r return Prop with
  | Val _ => True
  | Fail e => sender_post (A:=A') h (Fail e) h'
  | Panic w => sender_post (A:=A') h (Panic w) h'
  | Running => sender_post (A:=A') h Running h'
  end.
Proof.
  intros [H|(e & p & -> & H)]; [by destruct r; [|left..]|]. right. eauto.
Qed.

Lemma passed_on_waits h h1 h2 : passed_on h h1 -> waited h1 h2 -> passed_on h h2.
Proof.
  intros (t & -> & Ht) (w & -> & Hw). exists (t ++ w). rewrite <-app_assoc.
  split; [done|]. rewrite sent_waits by done. by unseen.
Qed.

Lemma holding_waits p h h1 h2 : holding p h h1 -> waited h1 h2 -> holding p h h2.
Proof.
  intros (t & ps & -> & Hr & Ht) (w & -> & Hw). exists (t ++ w), ps. rewrite <-app_assoc.
  split; [done|]. rewrite sent_waits by done. split; [by unseen|done].
Qed.

Lemma passed_on_refl h : sent [] = pass [] -> passed_on h h.
Proof. exists []. by rewrite app_nil_r. Qed.

(** A packet that [pass] drops is passed on by doing nothing. *)
Lemma holding_dropped p h h1 :
  (forall ps, pass (ps ++ [p]) = pass ps) -> holding p h h1 -> passed_on h h1.
Proof.
  intros Hp (t & ps & -> & Hr & Ht). exists t. split; [done|]. by rewrite Hr, Hp.
Qed.

(** Passing it on: an event that puts out what [pass] adds for it. *)
Lemma holding_sent p h h1 e out :
  (forall ps, pass (ps ++ [p]) = pass ps ++ out) ->
  (forall t, sent (t ++ [e]) = sent t ++ out) -> tun_received [e] = [] ->
  holding p h h1 -> passed_on h (h1 ++ [e]).
Proof.
  intros Hp He Hn (t & ps & -> & Hr & Ht). exists (t ++ [e]). rewrite <-app_assoc.
  split; [done|]. rewrite He, tun_received_app, Hn, app_nil_r, Hr, Hp. by rewrite Ht.
Qed.

Lemma recv_step E cap c label h h1 :
  passed_on h h1 ->
  wp E h1 (recv_or_closed cap c label) (fun r h2 =>
    match r with
    | Val p => holding p h h2 /\ waited h1 (removelast h2) /\
        h2 = removelast h2 ++ [Ev (TunRecv cap) (Ok p)] /\
        exists h', E _ h' (TunRecv cap) = Ok p
    | Fail _ => passed_on h h2
    | _ => False
    end).
Proof.
  intros (t & -> & Ht). eapply wp_mono; [apply recv_or_closed_spec|].
  intros [p|e| |] h2 (w & Hw & Hr); try done.
  - destruct Hr as (-> & Hex). rewrite app_assoc, removelast_last.
    split; [|split; [by eexists|split; [done|exact Hex]]].
    exists (t ++ w ++ [Ev (TunRecv cap) (Ok p)]), (tun_received t).
    rewrite <-!app_assoc. split; [done|]. rewrite !app_assoc, sent_recv, sent_waits by done.
    split; [by unseen|done].
  - destruct Hr as [->|(e' & ->)].
    + apply (passed_on_waits _ (h ++ t)); [by exists t|by exists w].
    + exists (t ++ w ++ [Ev (TunRecv cap) (Err e')]). rewrite <-!app_assoc. split; [done|].
      rewrite !app_assoc, sent_recv, sent_waits by done. rewrite Ht. by unseen.
Qed.
End Sender.

(** The packets a datagram sender passes on: not empty, and within the size
    the connection takes. *)
Definition fits (max : option Z) (p : bytes) : bool :=
  negb (is_empty p) && match max with Some max => zlen p <=? max | None => true end.

Lemma datagrams_sent_waits c t w : only_waits w -> datagrams_sent c (t ++ w) = datagrams_sent c t.
Proof. intros. by unseen. Qed.

Lemma datagrams_sent_recv c t cap r :
  datagrams_sent c (t ++ [Ev (TunRecv cap) r]) = datagrams_sent c t.
Proof. rewrite datagrams_sent_app. apply app_nil_r. Qed.

Lemma stream_written_waits s t w : only_waits w -> stream_written s (t ++ w) = stream_written s t.
Proof. intros. by unseen. Qed.

Lemma stream_written_recv s t cap r :
  stream_written s (t ++ [Ev (TunRecv cap) r]) = stream_written s t.
Proof. rewrite stream_written_app. apply app_nil_r. Qed.

(** ** The datagram sender *)

Definition sent_datagrams (max : option Z) (ps : list bytes) : list bytes :=
  List.filter (fits max) ps.

Lemma sent_datagrams_snoc max ps p :
  sent_datagrams max (ps ++ [p]) = sent_datagrams max ps ++ (if fits max p then [p] else []).
Proof. unfold sent_datagrams. rewrite List.filter_app. simpl. by destruct (fits max p). Qed.

(** The packets a connection of capacity [max] does not take. *)
Lemma too_big_dropped max (p : bytes) ps :
  match max with Some max => max <? zlen p | None => false end = true ->
  sent_datagrams max (ps ++ [p]) = sent_datagrams max ps.
Proof.
  intros Hbig. rewrite sent_datagrams_snoc. unfold fits. destruct max as [m|]; [|done].
  apply Z.ltb_lt in Hbig. rewrite (proj2 (Z.leb_gt _ _)), andb_false_r by done.
  by rewrite app_nil_r.
Qed.

Lemma not_too_big_fits max (p : bytes) : zlen p <> 0 ->
  match max with Some max => max <? zlen p | None => false end = false -> fits max p = true.
Proof.
  intros Hp Hbig. unfold fits. destruct p; [done|]. cbn [is_empty negb andb].
  destruct max as [m|]; [|done]. apply Z.leb_le. by apply Z.ltb_ge in Hbig.
Qed.

Lemma tun_to_quic_body_spec (E : env) c max fuel mtu label h st h1 :
  (forall h, E _ h (MaxDatagramSize c) = max) -> measured E c st.2 ->
  passed_on (sent_datagrams max) (datagrams_sent c) h h1 ->
  wp E h1 (tun_to_quic_body fuel c mtu label st) (fun r h2 =>
    match r with
    | Val (inl st') =>
      passed_on (sent_datagrams max) (datagrams_sent c) h h2 /\ measured E c st'.2
    | Val (inr _) => False
    | _ => sender_post (sent_datagrams max) (datagrams_sent c) h r h2
    end).
Proof.
  intros Hmax Hm H1. destruct st as [pacer backlog]. unfold tun_to_quic_body.
  pose proof (datagrams_sent_waits c) as Sw. pose proof (datagrams_sent_recv c) as Sr.
  apply wp_bind. eapply wp_mono; [by apply (recv_step (sent_datagrams max) _ Sw Sr)|].
  intros [p|e| |] h2 Hr; try done; [|by left].
  destruct Hr as [Hr _]. cbv zeta.
  destruct (Z.eqb_spec (zlen p) 0) as [Hz|Hz].
  { apply wp_ret. split; [|done]. eapply holding_dropped; [|exact Hr].
    intros ps. rewrite sent_datagrams_snoc. destruct p; [by rewrite app_nil_r|done]. }
  apply wp_bind, wp_vis, wp_ret. cbv beta. rewrite Hmax.
  set (h3 := h2 ++ _).
  assert (holding (sent_datagrams max) (datagrams_sent c) p h h3) as H3
    by (eapply holding_waits; [done|exact Hr|by apply waited_one]).
  clearbody h3.
  destruct (match max with Some max => max <? zlen p | None => false end) eqn:Ebig.
  { apply wp_ret. split; [|done]. eapply holding_dropped; [|exact H3].
    intros ps. by apply too_big_dropped. }
  pose proof (not_too_big_fits max p Hz Ebig) as Hfits.
  apply wp_bind, wp_vis.
  destruct (E _ h3 (SendDatagramWait c p)) as [[]|e] eqn:Es.
  2:{ apply wp_ret. right. exists (External e), p. split; [done|].
      destruct H3 as (t & ps & -> & Hrt & Ht).
      eexists (t ++ [_]), ps. rewrite <-app_assoc. split; [done|].
      autorewrite with hist. by rewrite Hrt, Ht. }
  apply wp_ret. cbv beta.
  set (h4 := h3 ++ _).
  assert (passed_on (sent_datagrams max) (datagrams_sent c) h h4) as H4.
  { eapply holding_sent; [| |done|exact H3].
    - intros ps. by rewrite sent_datagrams_snoc, Hfits.
    - intros t. rewrite datagrams_sent_app. cbn. by rewrite Z.eqb_refl. }
  clearbody h4. apply wp_bind. eapply wp_mono; [by apply queued_spec|].
  intros [b'|e| |] h5 [W5 Q5]; [|left; by eapply passed_on_waits..].
  destruct Q5 as (_ & _ & _ & Hm' & _).
  apply wp_bind. eapply wp_mono; [apply waiting_waited, record_and_wait_waiting|].
  intros r h6 W6.
  assert (passed_on (sent_datagrams max) (datagrams_sent c) h h6) as H6
    by (eapply passed_on_waits; [done| |exact W6]; by eapply passed_on_waits).
  destruct r; [apply wp_ret; by split|by left..].
Qed.

Lemma pump_tun_to_quic_spec (E : env) c max fuel mtu label target backlog adaptive h :
  (forall h, E _ h (MaxDatagramSize c) = max) ->
  wp E h (pump_tun_to_quic fuel c mtu label target backlog adaptive)
    (sender_post (sent_datagrams max) (datagrams_sent c) h).
Proof.
  intros Hmax. unfold pump_tun_to_quic.
  pose proof (datagrams_sent_waits c) as Sw.
  apply wp_bind, wp_bind, wp_vis, wp_ret, wp_ret. cbv beta.
  set (h1 := h ++ _).
  assert (passed_on (sent_datagrams max) (datagrams_sent c) h h1) as H1
    by (eapply passed_on_waits; [done|by apply passed_on_refl|by apply waited_one]).
  clearbody h1. apply wp_bind. eapply wp_mono; [apply backlog_new_spec|].
  intros r h2 (b & -> & W2 & Hm & _).
  apply (wp_loop _ _ _ _ _ (fun st h' =>
    passed_on (sent_datagrams max) (datagrams_sent c) h h' /\ measured E c st.2)).
  - split; [by eapply passed_on_waits|done].
  - intros st h' [Hp Hm']. eapply wp_mono; [by apply (tun_to_quic_body_spec E c max)|].
    intros r h'' Hr.
    destruct r as [[|[]]| | |]; [exact Hr|done|apply (sender_post_cast _ _ _ _ _ Hr)..].
  - intros st h' [Hp _]. by left.
Qed.

(** ** The stream sender *)

Definition sent_frames (ps : list bytes) : bytes :=
  concat (map frame (List.filter (fits None) ps)).

Lemma sent_frames_snoc ps p :
  sent_frames (ps ++ [p]) = sent_frames ps ++ (if is_empty p then [] else frame p).
Proof.
  unfold sent_frames. rewrite List.filter_app, map_app, concat_app. f_equal.
  destruct p; simpl; [done|by rewrite app_nil_r].
Qed.

Lemma tun_to_stream_body_spec (E : env) s c mtu label h st h1 :
  2 <= zlen st.2 -> passed_on sent_frames (stream_written s) h h1 ->
  wp E h1 (tun_to_stream_body s c mtu label st) (fun r h2 =>
    match r with
    | Val (inl st') => passed_on sent_frames (stream_written s) h h2 /\ 2 <= zlen st'.2
    | Val (inr _) => False
    | _ => sender_post sent_frames (stream_written s) h r h2
    end).
Proof.
  intros Hh H1. destruct st as [pacer header]. unfold tun_to_stream_body. cbn [snd] in Hh.
  pose proof (stream_written_waits s) as Sw. pose proof (stream_written_recv s) as Sr.
  apply wp_bind. eapply wp_mono; [by apply (recv_step sent_frames _ Sw Sr)|].
  intros [p|e| |] h2 Hr; try done; [|by left].
  destruct Hr as [Hr _]. cbv zeta.
  destruct (Z.eqb_spec (zlen p) 0) as [Hz|Hz].
  { apply wp_ret. split; [|done]. eapply holding_dropped; [|exact Hr].
    intros ps. rewrite sent_frames_snoc. destruct p; [by rewrite app_nil_r|done]. }
  apply wp_bind. eapply wp_mono; [apply write_packet_spec|].
  rewrite (proj2 (Z.leb_le 2 _) Hh), andb_true_r.
  intros r h3 Hw. destruct (zlen p <=? U16_MAX).
  2:{ destruct Hw as (-> & e & ->). right. eauto. }
  destruct Hw as (chunks & Hc & -> & Hres).
  destruct (E _ h2 (WriteAllChunks s chunks)) as [[]|e] eqn:Es.
  2:{ subst r. right. exists (External e), p. split; [done|].
      destruct Hr as (t & ps & -> & Hrt & Ht).
      eexists (t ++ [_]), ps. rewrite <-app_assoc. split; [done|].
      rewrite stream_written_chunks, app_nil_r. autorewrite with hist. by rewrite Hrt, Ht. }
  destruct Hres as (header' & -> & Hl).
  set (h4 := h2 ++ _).
  assert (passed_on sent_frames (stream_written s) h h4) as H4.
  { eapply (holding_sent _ _ p _ _ _ (frame p)); [| |done|exact Hr].
    - intros ps. rewrite sent_frames_snoc. by destruct p.
    - intros t. by rewrite stream_written_chunks, Hc. }
  clearbody h4.
  apply wp_bind. eapply wp_mono; [apply waiting_waited, record_and_wait_waiting|].
  intros r h6 W6.
  assert (passed_on sent_frames (stream_written s) h h6) as H6
    by (eapply passed_on_waits; [done|exact H4|exact W6]).
  destruct r; [apply wp_ret; split; [done|cbn [snd]; lia]|by left..].
Qed.

Lemma pump_tun_to_stream_spec (E : env) s c fuel mtu label target adaptive h :
  wp E h (pump_tun_to_stream fuel s c mtu label target adaptive)
    (sender_post sent_frames (stream_written s) h).
Proof.
  unfold pump_tun_to_stream.
  pose proof (stream_written_waits s) as Sw.
  apply wp_bind, wp_bind, wp_vis, wp_ret, wp_ret. cbv beta.
  apply (wp_loop _ _ _ _ _ (fun st h' =>
    passed_on sent_frames (stream_written s) h h' /\ 2 <= zlen st.2)).
  - split; [|done].
    eapply passed_on_waits; [done|by apply passed_on_refl|by apply waited_one].
  - intros st h' [Hp Hm']. eapply wp_mono; [by apply (tun_to_stream_body_spec E s)|].
    intros r h'' Hr.
    destruct r as [[|[]]| | |]; [exact Hr|done|apply (sender_post_cast _ _ _ _ _ Hr)..].
  - intros st h' [Hp _]. by left.
Qed.

(** ** The datagram receiver *)

(** What it was given is what it wrote, in order; an error may keep one last
    packet from the device. *)
Definition receiver_post (c : conn) (h : history) {A} (r : outcome A) (h' : history) : Prop :=
  exists t, h' = h ++ t /\
    (tun_sent t = datagrams_received c t \/
     exists e p, r = Fail e /\ datagrams_received c t = tun_sent t ++ [p]).

Lemma quic_to_tun_body_spec E c label h :
  wp E h (quic_to_tun_body c label tt) (fun r h' => exists t, h' = h ++ t /\
    match r with
    | Val (inl _) => tun_sent t = datagrams_received c t
    | Fail e => tun_sent t = datagrams_received c t \/
        exists p, datagrams_received c t = tun_sent t ++ [p]
    | _ => False
    end).
Proof.
  unfold quic_to_tun_body. apply wp_bind, wp_vis.
  destruct (E _ h (ReadDatagram c)) as [p|e] eqn:Er.
  2:{ apply wp_ret. eexists. split; [reflexivity|]. by left. }
  apply wp_ret, wp_bind, wp_vis. set (h1 := h ++ _).
  destruct (E _ h1 (TunSend p)) as [n|e] eqn:Ew.
  2:{ apply wp_ret. unfold h1. rewrite <-app_assoc. eexists. split; [reflexivity|].
      right. exists p. cbn. by rewrite Z.eqb_refl. }
  apply wp_ret. destruct (negb (n =? zlen p)); apply wp_ret;
    (unfold h1; rewrite <-app_assoc; eexists; split; [reflexivity|]); cbn;
    rewrite Z.eqb_refl; [by left|done].
Qed.

Lemma pump_quic_to_tun_spec E c label fuel h :
  wp E h (pump_quic_to_tun fuel c label) (receiver_post c h).
Proof.
  apply (wp_loop _ _ _ _ _ (fun _ h' => exists t, h' = h ++ t /\
    tun_sent t = datagrams_received c t)).
  - exists []. by rewrite app_nil_r.
  - intros [] h1 (t & -> & Ht). eapply wp_mono; [apply quic_to_tun_body_spec|].
    intros r h2 (t' & -> & Hr). rewrite <-app_assoc.
    destruct r as [[|]|e| |]; try done.
    + exists (t ++ t'). split; [done|]. autorewrite with hist. by rewrite Ht, Hr.
    + exists (t ++ t'). split; [done|]. autorewrite with hist. rewrite Ht.
      destruct Hr as [->|(p & ->)]; [by left|]. right. exists e, p. by rewrite app_assoc.
  - intros [] h1 (t & -> & Ht). exists t. split; [done|by left].
Qed.

(** ** The stream receiver *)

(** The packets a stream holds, and how it ends. *)
Fixpoint deframe (fuel : nat) (cap : Z) (s : bytes) : list bytes * frame_result :=
  match fuel with
  | O => ([], Eof)
  | S fuel =>
    match parse_frame cap s with
    | Packet p rest => let '(ps, e) := deframe fuel cap rest in (p :: ps, e)
    | e => ([], e)
    end
  end.

(** Each frame takes at least its header. *)
Lemma parse_frame_shorter cap s p rest :
  parse_frame cap s = Packet p rest -> (length rest < length s)%nat.
Proof.
  destruct s as [|hi [|lo body]]; simpl; try done.
  repeat case_match; intros [= <- <-]; rewrite ?length_drop; lia.
Qed.

(** How the pump ends on a stream, from the reference parse. *)
Definition stream_end (label : str) (r : outcome unit) (e : frame_result) : Prop :=
  match e with
  | Eof => r = Val tt
  | Packet _ _ => False
  | MidFrame => r = Fail (Msg (label ++ lit ": stream ended mid-frame"))
  | MidPacket => r = Fail (Msg (label ++ lit ": stream ended mid-packet"))
  | TooLarge => exists m, r = Fail (Msg m)
  end.

Definition nonempty (p : bytes) : bool := negb (is_empty p).

Lemma only_reads_unseen s t : only_reads s t ->
  tun_sent t = [] /\ tun_received t = [].
Proof.
  intros Ht. unfold tun_sent, tun_received, observe.
  induction Ht as [|e t (cap & r & ->) _ [IH1 IH2]]; [done|]. simpl. by rewrite IH1, IH2.
Qed.

Lemma stream_to_tun_loop (E : env) s content label F cap :
  stream_delivers E s content -> Forall is_byte content ->
  (forall h p, E _ h (TunSend p) = Ok (zlen p)) ->
  2 < Z.of_nat F -> cap < Z.of_nat F ->
  forall fuel h buf rest, zlen buf = cap -> content = stream_read s h ++ rest ->
  (length rest < fuel)%nat ->
  wp E h (loop fuel (stream_to_tun_body F s label) buf) (fun r h' =>
    exists t, h' = h ++ t /\
      tun_sent t = List.filter nonempty (deframe fuel cap rest).1 /\
      stream_end label r (deframe fuel cap rest).2).
Proof.
  intros HE Hb Hw HF2 HF. induction fuel as [|fuel IH]; intros h buf rest Hbuf Hc Hfuel; [lia|].
  cbn [loop deframe]. apply wp_bind. unfold stream_to_tun_body at 1. apply wp_bind.
  assert (Forall is_byte rest) as Hbr by (rewrite Hc in Hb; by apply Forall_app in Hb as [_ ?]).
  eapply wp_mono; [apply (read_packet_spec E s content label F h buf rest HE Hc Hbr HF2); lia|].
  intros r h1 (Ho & t1 & -> & Ht1 & Hc1). unfold packet_outcome in Ho. rewrite Hbuf in *.
  destruct (only_reads_unseen s t1 Ht1) as [U1 _].
  destruct (parse_frame cap rest) as [|p rest'| | |] eqn:Hp.
  1,3,4,5: subst r; cbn [deframe]; cbn; exists t1; cbn [fst snd List.filter];
    rewrite U1; split; [done|]; split; [done|]; first [done|by eexists].
  destruct Ho as (buf' & -> & Hl & Htake).
  pose proof (parse_frame_shorter _ _ _ _ Hp) as Hlt.
  specialize (IH). destruct (deframe fuel cap rest') as [ps e] eqn:Ed.
  cbn [fst snd List.filter]. unfold nonempty at 1.
  destruct (Z.eqb_spec (zlen p) 0) as [Hz|Hz].
  - assert (p = []) as -> by by destruct p.
    apply wp_ret. cbv beta iota. eapply wp_mono; [apply (IH (h ++ t1) buf' rest' Hl Hc1); lia|].
    intros r h2 (t2 & -> & Ht2 & Hend). rewrite Ed in Ht2, Hend. rewrite <-app_assoc.
    exists (t1 ++ t2). split; [done|]. rewrite tun_sent_app, U1, Ht2. done.
  - assert (is_empty p = false) as -> by by destruct p. cbn [negb].
    rewrite Nat2Z.id, Htake.
    apply wp_bind, wp_vis. rewrite Hw. apply wp_ret. cbv beta. rewrite Z.eqb_refl. cbn [negb].
    apply wp_ret. cbv beta iota. set (h2 := (h ++ t1) ++ _).
    eapply wp_mono; [apply (IH h2 buf' rest' Hl)|].
    + unfold h2. rewrite stream_read_app, Hc1. f_equal. symmetry. apply app_nil_r.
    + lia.
    + intros r h3 (t2 & -> & Ht2 & Hend). rewrite Ed in Ht2, Hend.
      unfold h2. rewrite <-!app_assoc. eexists. split; [reflexivity|].
      rewrite !tun_sent_app, U1, Ht2. done.
Qed.

(** ** Ends of the tunnel together *)

Lemma deframe_frames cap ps : forall fuel,
  Forall (fun p => zlen p <= cap /\ zlen p <= U16_MAX) ps ->
  (length (concat (map frame ps)) < fuel)%nat ->
  deframe fuel cap (concat (map frame ps)) = (ps, Eof).
Proof.
  induction ps as [|p ps IH]; intros [|fuel] HF Hlen; try (simpl in Hlen; lia); [done|].
  apply Forall_cons in HF as [[Hc Hp] HF]. cbn [map concat deframe] in *.
  rewrite length_app in Hlen. unfold frame at 1 in Hlen. rewrite length_app in Hlen.
  cbn [length to_be_bytes] in Hlen.
  rewrite parse_frame_frame by done. rewrite IH by (done || lia). done.
Qed.

(** A TUN device hands over packets of bytes no longer than its MTU. *)
Definition tun_delivers (E : env) (mtu : Z) : Prop :=
  forall h cap p, E _ h (TunRecv cap) = Ok p -> zlen p <= mtu /\ Forall is_byte p.

Lemma filter_idem (f : bytes -> bool) l : List.filter f (List.filter f l) = List.filter f l.
Proof.
  induction l as [|a l IH]; simpl; [done|].
  destruct (f a) eqn:Hf; simpl; rewrite ?Hf; by rewrite IH.
Qed.

Lemma Forall_filter (P : bytes -> Prop) f l : Forall P l -> Forall P (List.filter f l).
Proof. induction 1; simpl; [done|]. by destruct (f x); [constructor|]. Qed.

(** What a stream sender wrote, and what a receiver of it makes of it. *)
Lemma sent_frames_deframe cap ps fuel :
  Forall (fun p => zlen p <= cap /\ Forall is_byte p) ps -> cap <= U16_MAX ->
  (length (sent_frames ps) < fuel)%nat ->
  deframe fuel cap (sent_frames ps) = (List.filter nonempty ps, Eof) /\
  Forall is_byte (sent_frames ps).
Proof.
  intros HF Hcap Hlen. unfold sent_frames in *.
  assert (List.filter (fits None) ps = List.filter nonempty ps) as Ef
    by (apply List.filter_ext; intros p; unfold fits; by rewrite andb_true_r).
  rewrite Ef in *. pose proof (Forall_filter _ nonempty _ HF) as HF'. split.
  - apply deframe_frames; [|done]. eapply Forall_impl; [exact HF'|].
    cbv beta. intros p [? ?]. split; [done|lia].
  - clear Hlen Ef HF. induction HF' as [|p l [Hp Hb] _ IH]; [constructor|]. cbn [map concat].
    apply Forall_app. split; [apply frame_bytes; [done|lia]|done].
Qed.

(** ** No panic

    The one panicking operation of a pump is the pacer's arithmetic on time,
    which is safe as long as the clock is below [TIME_MAX]. *)
Definition timed_pacer (h : history) (p : EgressPacer) : Prop :=
  0 <= time_floor h /\ (time_floor h <= TIME_MAX -> pacer_inv h p).

Definition panic_free {A} (r : outcome A) (h : history) : Prop :=
  match r with Panic _ => TIME_MAX < time_floor h | _ => True end.

Lemma timed_pacer_mono h h' p :
  time_floor h <= time_floor h' -> timed_pacer h p -> timed_pacer h' p.
Proof.
  intros Hle [H0 Hp]. split; [lia|]. intros Ht.
  destruct (Hp ltac:(lia)) as (? & ? & ? & ?). split; [done|]. split; [lia|done].
Qed.

Lemma record_timed E h p n c :
  clock_ok E -> timed_pacer h p -> is_u64 n ->
  wp E h (record_and_wait p n c) (fun r h' =>
    panic_free r h' /\ match r with Val p' => timed_pacer h' p' | _ => True end).
Proof.
  intros Hclock [H0 Hp] Hn.
  assert (wp E h (record_and_wait p n c) (fun _ h' => time_floor h <= time_floor h')) as Htime.
  { eapply wp_mono; [apply waiting_waited, record_and_wait_waiting|].
    intros r h' Hw. exact (waited_time _ _ Hw). }
  destruct (Z.le_gt_cases (time_floor h) TIME_MAX) as [Hle|Hgt].
  - eapply wp_mono; [apply wp_and; [exact Htime|by apply record_and_wait_spec; auto]|].
    intros r h' (Ht & p' & -> & Hinv & _). split; [done|]. split; [lia|done].
  - eapply wp_mono; [exact Htime|]. intros r h' Ht.
    split; [destruct r; cbn; done || lia|]. destruct r; [|done..].
    split; lia.
Qed.

Lemma recv_or_closed_time E cap c label h :
  wp E h (recv_or_closed cap c label) (fun r h' =>
    time_floor h <= time_floor h' /\
    match r with
    | Val p => exists h1, E _ h1 (TunRecv cap) = Ok p
    | Fail _ => True
    | _ => False
    end).
Proof.
  eapply wp_mono; [apply recv_or_closed_spec|].
  intros [p|e| |] h' (w & Hw & Hr); try done.
  - destruct Hr as (-> & Hr). split; [|done].
    rewrite app_assoc, time_floor_snoc. by apply waited_time; exists w.
  - split; [|done]. destruct Hr as [->|(e' & ->)].
    + by apply waited_time; exists w.
    + rewrite app_assoc, time_floor_snoc. by apply waited_time; exists w.
Qed.

(** One turn of the datagram sender. *)
Lemma tun_to_quic_body_timed E c fuel mtu label st h :
  clock_ok E -> tun_delivers E mtu -> mtu <= U16_MAX -> timed_pacer h st.1 -> measured E c st.2 ->
  wp E h (tun_to_quic_body fuel c mtu label st) (fun r h' =>
    panic_free r h' /\
    match r with Val (inl st') => timed_pacer h' st'.1 /\ measured E c st'.2 | _ => True end).
Proof.
  intros Hclock Htun Hmtu Hp Hm. destruct st as [p b]. unfold tun_to_quic_body. cbn [fst snd] in *.
  apply wp_bind. eapply wp_mono; [apply recv_or_closed_time|].
  intros [q|e| |] h1 [T1 Hr]; try done. destruct Hr as (h' & Hr).
  apply Htun in Hr as [Hlen _]. cbv zeta.
  destruct (Z.eqb_spec (zlen q) 0).
  { apply wp_ret. split; [done|]. split; [by eapply timed_pacer_mono|done]. }
  apply wp_bind, wp_vis, wp_ret. cbv beta. set (h2 := h1 ++ _).
  assert (time_floor h2 = time_floor h1) as T2 by (unfold h2; by rewrite time_floor_snoc).
  clearbody h2. destruct (match E _ h1 _ with Some _ => _ | None => _ end).
  { apply wp_ret. split; [done|]. split; [eapply timed_pacer_mono; [|done]; cbn; lia|done]. }
  apply wp_bind, wp_vis. set (h3 := h2 ++ _).
  assert (time_floor h3 = time_floor h1) as T3 by (unfold h3; by rewrite time_floor_snoc).
  clearbody h3. destruct (E _ h2 _) as [[]|]; apply wp_ret; [|done].
  apply wp_bind. eapply wp_mono; [by apply queued_spec|].
  intros [b'|e| |] h4 [W4 Q4]; try done. apply waited_time in W4.
  apply wp_bind. eapply wp_mono.
  - apply (record_timed E h4 p (zlen q) (Some c) Hclock); [|unfold is_u64, U64_MAX, U16_MAX in *; lia].
    eapply timed_pacer_mono; [|done]. lia.
  - intros r h5 [Hpan Hr]. destruct r; [|done..].
    apply wp_ret. split; [done|]. split; [done|by destruct Q4 as (_ & _ & _ & ? & _)].
Qed.

Lemma tun_to_stream_body_timed E s c mtu label st h :
  clock_ok E -> tun_delivers E mtu -> mtu <= U16_MAX -> timed_pacer h st.1 ->
  wp E h (tun_to_stream_body s c mtu label st) (fun r h' =>
    panic_free r h' /\
    match r with Val (inl st') => timed_pacer h' st'.1 | _ => True end).
Proof.
  intros Hclock Htun Hmtu Hp. destruct st as [p hd]. unfold tun_to_stream_body. cbn [fst snd] in *.
  apply wp_bind. eapply wp_mono; [apply recv_or_closed_time|].
  intros [q|e| |] h1 [T1 Hr]; try done. destruct Hr as (h' & Hr).
  apply Htun in Hr as [Hlen _]. cbv zeta.
  destruct (Z.eqb_spec (zlen q) 0).
  { apply wp_ret. split; [done|by eapply timed_pacer_mono]. }
  apply wp_bind. eapply wp_mono; [apply write_packet_spec|].
  intros r h2 Hw. destruct (_ && _).
  2:{ destruct Hw as (_ & e & ->). done. }
  destruct Hw as (chunks & _ & -> & Hw). destruct (E _ h1 _) as [[]|]; [|by subst].
  destruct Hw as (hd' & -> & _). apply wp_bind. eapply wp_mono.
  - apply (record_timed E _ p (zlen q) (Some c) Hclock); [|unfold is_u64, U64_MAX, U16_MAX in *; lia].
    eapply timed_pacer_mono; [|done]. by rewrite time_floor_snoc.
  - intros r h5 [Hpan Hr]. destruct r; [|done..]. by apply wp_ret.
Qed.

Lemma pacer_new_timed E h target n a :
  clock_ok E -> is_u64 target -> 1 <= n <= U16_MAX ->
  wp E h (pacer_new target n a) (fun r h' => exists p, r = Val p /\ timed_pacer h' p).
Proof.
  intros Hclock Ht Hn. apply wp_bind, wp_vis, wp_ret, wp_ret. eexists. split; [reflexivity|].
  destruct (Hclock h) as (H0 & _ & _).
  pose proof (time_floor_last_now h (E Z h Now)).
  split; [lia|]. intros _. split; [by apply pacer_at_rate_ok|]. split; [done|].
  split; [done|]. cbn [burst_bytes pacer_at].
  destruct (Z.eq_dec target 0) as [->|]; [done|].
  pose proof (burst_covers_packet target n ltac:(unfold is_u64 in Ht; lia)
    ltac:(unfold U16_MAX in Hn; lia)). unfold is_u64, U16_MAX in *. lia.
Qed.

(** ** Properties *)

(** Datagram uplink. On a connection of a given datagram capacity
    [pump_tun_to_quic], in every environment and however long it runs, has
    sent exactly the packets it took from the TUN device, in order and once
    each, less the empty ones and those above the capacity; when it ends with
    an error, that error may have cost the last packet and no other. *)
Lemma tun_to_quic_sends_packets (E : env) c max fuel mtu label target backlog adaptive h :
  (forall h, E _ h (MaxDatagramSize c) = max) ->
  let r := run E h (pump_tun_to_quic fuel c mtu label target backlog adaptive) in
  (exists t, r.2 = h ++ t /\
     datagrams_sent c t = List.filter (fits max) (tun_received t)) \/
  (exists e t ps p, r.1 = Fail e /\ r.2 = h ++ t /\ tun_received t = ps ++ [p] /\
     datagrams_sent c t = List.filter (fits max) ps).
Proof.
  intros Hmax r.
  destruct (pump_tun_to_quic_spec E c max fuel mtu label target backlog adaptive h Hmax)
    as [(t & Ht)|(e & p & He & t & ps & H1 & H2 & H3)]; [left; by exists t|].
  right. by exists e, t, ps, p.
Qed.

(** A device that has three packets, on a connection that takes 4 bytes. *)
Definition three_packets : env := fun X h o =>
  match o in Op X return X -> X with
  | TunRecv _ => fun _ =>
    match length (tun_received h) with
    | 0%nat => Ok [1; 2]
    | 1%nat => Ok [3; 4; 5; 6; 7]
    | 2%nat => Ok [8]
    | _ => Err (lit "gone")
    end
  | TunSend p => fun _ => Ok (zlen p)
  | MaxDatagramSize _ => fun _ => Some 4
  | SendDatagramWait _ _ => fun _ => Ok tt
  | WriteAllChunks _ _ => fun _ => Ok tt
  | _ => fun x => x
  end (ticking X h o).

Lemma tun_to_quic_sends_packets_witness :
  let r := run three_packets [] (pump_tun_to_quic 9 1 20 (lit "client") 0 0 false) in
  (exists t, r.2 = [] ++ t /\
     datagrams_sent 1 t = List.filter (fits (Some 4)) (tun_received t)) \/
  (exists e t ps p, r.1 = Fail e /\ r.2 = [] ++ t /\ tun_received t = ps ++ [p] /\
     datagrams_sent 1 t = List.filter (fits (Some 4)) ps).
Proof.
  apply (tun_to_quic_sends_packets three_packets 1 (Some 4) 9 20 (lit "client") 0 0 false []).
  done.
Defined.

Example three_packets_sent :
  datagrams_sent 1 (run three_packets [] (pump_tun_to_quic 9 1 20 (lit "client") 0 0 false)).2
  = [[1; 2]; [8]].
Proof. vm_compute. reflexivity. Qed.

(** Datagram downlink. In every environment [pump_quic_to_tun] has written
    to the TUN device exactly the datagrams it received, in order and once
    each; when it ends with an error the last one may not have been written. *)
Lemma quic_to_tun_writes_packets E c label fuel h :
  let r := run E h (pump_quic_to_tun fuel c label) in
  exists t, r.2 = h ++ t /\
    (tun_sent t = datagrams_received c t \/
     exists e p, r.1 = Fail e /\ datagrams_received c t = tun_sent t ++ [p]).
Proof. exact (pump_quic_to_tun_spec E c label fuel h). Qed.

(** C6: The stream tunnel end to end. A sender takes packets from its TUN
    device with [pump_tun_to_stream] for as long as it runs; the bytes it
    wrote reach the peer's [pump_stream_to_tun] in chunks of any size, and the
    stream ends. Then the receiver returns [Ok] and has written to its device
    exactly the non-empty packets the sender took, in order, except that the
    last one may be missing when the sender ended with an error. *)
Theorem stream_tunnel_delivers (Es Er : env) c ss sr mtu label label' target adaptive
    fuel fuel' :
  tun_delivers Es mtu -> 0 <= mtu -> mtu + 64 <= U16_MAX ->
  (forall h p, Er _ h (TunSend p) = Ok (zlen p)) ->
  let s := run Es [] (pump_tun_to_stream fuel ss c mtu label target adaptive) in
  stream_delivers Er sr (stream_written ss s.2) ->
  zlen (stream_written ss s.2) < Z.of_nat fuel' -> mtu + 66 < Z.of_nat fuel' ->
  let r := run Er [] (pump_stream_to_tun fuel' sr (mtu + 64) label') in
  r.1 = Val tt /\ exists lost,
    List.filter nonempty (tun_received s.2) = tun_sent r.2 ++ lost /\
    (lost = [] \/ exists e p, s.1 = Fail e /\ lost = [p]).
Proof.
  intros Htun Hm0 Hm Hsend s HE Hfuel HF r.
  assert (Forall (fun p => zlen p <= mtu + 64 /\ Forall is_byte p) (tun_received s.2)) as HP.
  { apply (received_answers Es (pump_tun_to_stream fuel ss c mtu label target adaptive) _ []).
    - intros h cap p Hp. destruct (Htun h cap p Hp). split; [lia|done].
    - done. }
  assert (exists ps lost, tun_received s.2 = ps ++ lost /\
    stream_written ss s.2 = sent_frames ps /\
    (lost = [] \/ exists e p, s.1 = Fail e /\ lost = [p])) as (ps & lost & Eps & Ew & Hlost).
  { destruct (pump_tun_to_stream_spec Es ss c fuel mtu label target adaptive [])
      as [(t & Et & Ht)|(e & p & He & t & ps & Et & H2 & H3)]; fold s in Et; rewrite Et.
    - exists (tun_received t), []. rewrite app_nil_r. split; [done|]. split; [done|by left].
    - exists ps, [p]. split; [done|]. split; [done|]. right. by exists e, p. }
  clearbody s. rewrite Eps in HP. apply Forall_app in HP as [HP _].
  destruct (sent_frames_deframe (mtu + 64) ps fuel' HP Hm) as [Hd Hb]; [rewrite <-Ew; lia|].
  rewrite Ew in HE, Hfuel.
  destruct (stream_to_tun_loop Er sr _ label' fuel' (mtu + 64) HE Hb Hsend
    ltac:(lia) ltac:(lia) fuel' [] (repeat 0 (Z.to_nat (mtu + 64))) (sent_frames ps))
    as (t & Et & Ht & Hend); [rewrite repeat_length; lia|done|lia|].
  rewrite Hd in Ht, Hend. cbn [fst snd stream_end] in Ht, Hend. rewrite filter_idem in Ht.
  split; [exact Hend|]. exists (List.filter nonempty lost).
  rewrite Eps, List.filter_app. split.
  - f_equal. symmetry. transitivity (tun_sent t); [|exact Ht]. by f_equal.
  - destruct Hlost as [->|(e & p & He & ->)]; [by left|]. simpl.
    destruct (nonempty p); [right; by exists e, p|by left].
Qed.

(** The peer of [three_packets]: what it wrote, in chunks of two bytes. *)
Definition three_frames : bytes := [0; 2; 1; 2; 0; 5; 3; 4; 5; 6; 7; 0; 1; 8].

Definition peer_of_three : env := fun X h o =>
  match o in Op X return X -> X with
  | TunSend p => fun _ => Ok (zlen p)
  | _ => fun x => x
  end (feeding three_frames 2 X h o).

Lemma three_packets_tun : tun_delivers three_packets 20.
Proof.
  intros h cap p Hp. cbn in Hp.
  destruct (length (tun_received h)) as [|[|[|]]]; simplify_eq;
    (split; [done|repeat constructor; done]).
Qed.

Lemma peer_of_three_delivers : stream_delivers peer_of_three 5 three_frames.
Proof. intros h cap. exact (feeding_delivers three_frames 2 5 ltac:(lia) h cap). Qed.

Lemma stream_tunnel_delivers_witness :
  let s := run three_packets [] (pump_tun_to_stream 9 3 1 20 (lit "client") 0 false) in
  let r := run peer_of_three [] (pump_stream_to_tun 99 5 (20 + 64) (lit "server")) in
  r.1 = Val tt /\ exists lost,
    List.filter nonempty (tun_received s.2) = tun_sent r.2 ++ lost /\
    (lost = [] \/ exists e p, s.1 = Fail e /\ lost = [p]).
Proof.
  apply (stream_tunnel_delivers three_packets peer_of_three 1 3 5 20 (lit "client")
    (lit "server") 0 false 9 99).
  - apply three_packets_tun.
  - done.
  - done.
  - done.
  - exact peer_of_three_delivers.
  - vm_compute. reflexivity.
  - vm_compute. reflexivity.
Defined.

(** C12: [pump_stream_to_tun] on any stream of bytes, well formed or not,
    delivered in chunks of any size: it terminates, it has written exactly the
    non-empty packets the reference parser finds, in order, and it returns
    [Ok] when the stream ends between frames and the parser's error
    otherwise. *)
Theorem stream_to_tun_refines (E : env) s content label cap fuel :
  stream_delivers E s content -> Forall is_byte content ->
  (forall h p, E _ h (TunSend p) = Ok (zlen p)) ->
  0 <= cap -> 2 < Z.of_nat fuel -> cap < Z.of_nat fuel -> zlen content < Z.of_nat fuel ->
  let r := run E [] (pump_stream_to_tun fuel s cap label) in
  tun_sent r.2 = List.filter nonempty (deframe fuel cap content).1 /\
  stream_end label r.1 (deframe fuel cap content).2.
Proof.
  intros HE Hb Hsend H0 H2 Hc Hl r.
  destruct (stream_to_tun_loop E s content label fuel cap HE Hb Hsend H2 Hc fuel []
    (repeat 0 (Z.to_nat cap)) content) as (t & Et & Ht & Hend);
    [rewrite repeat_length; lia|done|lia|].
  split; [|exact Hend]. transitivity (tun_sent t); [by f_equal|done].
Qed.

Lemma stream_to_tun_refines_witness :
  let r := run peer_of_three [] (pump_stream_to_tun 99 5 4 (lit "server")) in
  tun_sent r.2 = List.filter nonempty (deframe 99 4 three_frames).1 /\
  stream_end (lit "server") r.1 (deframe 99 4 three_frames).2.
Proof.
  apply (stream_to_tun_refines peer_of_three 5 three_frames (lit "server") 4 99); try done.
  - exact peer_of_three_delivers.
  - repeat constructor; done.
Defined.

(** The second frame is too large for 4 bytes: one packet, then the error. *)
Example too_large_stops :
  tun_sent (run peer_of_three [] (pump_stream_to_tun 99 5 4 (lit "server"))).2 = [[1; 2]].
Proof. vm_compute. reflexivity. Qed.

(** C20: The two senders never panic: with a monotonic clock below [TIME_MAX], a
    TUN device that respects its MTU and any configured target, the float and
    time arithmetic of the pacer stays in range however long they run. *)
Theorem senders_never_panic (E : env) c s fuel mtu label target backlog adaptive h :
  clock_ok E -> tun_delivers E mtu -> 1 <= mtu <= U16_MAX -> is_u64 target ->
  let d := run E h (pump_tun_to_quic fuel c mtu label target backlog adaptive) in
  let r := run E h (pump_tun_to_stream fuel s c mtu label target adaptive) in
  panic_free d.1 d.2 /\ panic_free r.1 r.2.
Proof.
  intros Hclock Htun Hmtu Ht d r. split.
  - change (wp E h (pump_tun_to_quic fuel c mtu label target backlog adaptive) panic_free).
    unfold pump_tun_to_quic. apply wp_bind. eapply wp_mono; [by apply pacer_new_timed|].
    intros _ h1 (p & -> & Hp). apply wp_bind. eapply wp_mono; [apply backlog_new_spec|].
    intros _ h2 (b & -> & W & Hm & _). apply waited_time in W.
    apply (wp_loop _ _ _ _ _ (fun st h' => timed_pacer h' st.1 /\ measured E c st.2)).
    + split; [by eapply timed_pacer_mono|done].
    + intros st h3 [Hst Hm']. eapply wp_mono; [apply tun_to_quic_body_timed; done || lia|].
      intros r' h4 [Hpan Hr]. by destruct r' as [[|]| | |].
    + done.
  - change (wp E h (pump_tun_to_stream fuel s c mtu label target adaptive) panic_free).
    unfold pump_tun_to_stream. apply wp_bind. eapply wp_mono; [by apply pacer_new_timed|].
    intros _ h1 (p & -> & Hp).
    apply (wp_loop _ _ _ _ _ (fun st h' => timed_pacer h' st.1)).
    + done.
    + intros st h3 Hst. eapply wp_mono; [apply tun_to_stream_body_timed; done || lia|].
      intros r' h4 [Hpan Hr]. by destruct r' as [[|]| | |].
    + done.
Qed.

Lemma three_packets_clock : clock_ok three_packets.
Proof. exact ticking_clock. Qed.

Lemma senders_never_panic_witness :
  let d := run three_packets [] (pump_tun_to_quic 9 1 20 (lit "client") 36 64 true) in
  let r := run three_packets [] (pump_tun_to_stream 9 3 1 20 (lit "client") 36 true) in
  panic_free d.1 d.2 /\ panic_free r.1 r.2.
Proof.
  apply (senders_never_panic three_packets 1 3 9 20 (lit "client") 36 64 true []).
  - apply three_packets_clock.
  - apply three_packets_tun.
  - unfold U16_MAX. lia.
  - unfold is_u64, U64_MAX. lia.
Defined.

(** [ensure_datagram_capacity] fails exactly when the connection reports a
    datagram capacity below the tunnel's MTU, and [create_udp_socket] returns
    the bound socket only after every requested buffer size was set: a size of
    0 leaves the system's default and makes no call. *)
Lemma capacity_and_socket (E : env) c mtu label addr recv send h :
  ((run E h (ensure_datagram_capacity c mtu label)).1 = Val tt <->
   match E _ h (MaxDatagramSize c) with Some max => mtu <= max | None => True end) /\
  forall socket, (run E h (create_udp_socket addr recv send)).1 = Val socket ->
    exists opened v6 sized_recv sized_send bound,
      opened = Ev (SocketNew (is_ipv6 addr)) (Ok socket) /\
      v6 = (if is_ipv6 addr
            then [Ev (SetOnlyV6 socket false) (E _ (h ++ [opened]) (SetOnlyV6 socket false))]
            else []) /\
      sized_recv = (if 0 <? recv then [Ev (SetRecvBufferSize socket recv) (Ok tt)] else []) /\
      sized_send = (if 0 <? send then [Ev (SetSendBufferSize socket send) (Ok tt)] else []) /\
      bound = Ev (Bind socket (addr_text addr)) (Ok tt) /\
      (run E h (create_udp_socket addr recv send)).2
      = h ++ [opened] ++ v6 ++ sized_recv ++ sized_send ++ [bound].
Proof.
  split.
  - unfold ensure_datagram_capacity. cbn. destruct (E _ h (MaxDatagramSize c)) as [m|]; [|done].
    destruct (Z.ltb_spec m mtu); cbn; (split; [intros|intros]); done || lia.
  - intros socket Hv. unfold create_udp_socket in *.
    revert Hv. cbn -[app Z.ltb]. destruct (E _ h (SocketNew _)) as [sk|] eqn:E1; [|done].
    cbn -[app Z.ltb]. destruct (is_ipv6 addr); cbn -[app Z.ltb];
      destruct (0 <? recv); cbn -[app Z.ltb];
      try (destruct (E _ _ (SetRecvBufferSize _ _)) as [[]|] eqn:E2; [|done]; cbn -[app Z.ltb]);
      (destruct (0 <? send); cbn -[app Z.ltb];
       try (destruct (E _ _ (SetSendBufferSize _ _)) as [[]|] eqn:E3; [|done]; cbn -[app Z.ltb]));
      (destruct (E _ _ (Bind _ _)) as [[]|] eqn:E4; [|done]); cbn -[app Z.ltb]; intros [= ->];
      rewrite <- ?app_assoc; (do 5 eexists; split_and!; [reflexivity..|]); done.
Qed.
