(* ===== verification/Summary.v ===== *)
(** * The benchmark summary

    The line of text the server sends at the end of a benchmark
    ([send_bench_summary] of [litevpn-server/src/main.rs], with
    [connection_stats_summary] of [litevpn-core/src/quic.rs]) and the client's
    reader of it ([litevpn-client/src/main.rs]). *)

From S2P Require Import Prelude RustStr World Float64.

Definition BENCH_SUMMARY_MAGIC : bytes := lit "LVPNBENCH ".

(** [Duration::as_millis]. *)
Definition as_millis (ns : Z) : Z := ns / 1000000.

(** ** The server *)

Definition stats_text (st : stats) : str :=
  lit "udp_tx_datagrams=" ++ to_dec (udp_tx_datagrams st)
  ++ lit " udp_tx_bytes=" ++ to_dec (udp_tx_bytes st)
  ++ lit " udp_rx_datagrams=" ++ to_dec (udp_rx_datagrams st)
  ++ lit " udp_rx_bytes=" ++ to_dec (udp_rx_bytes st)
  ++ lit " lost_packets=" ++ to_dec (lost_packets st)
  ++ lit " lost_bytes=" ++ to_dec (lost_bytes st)
  ++ lit " congestion_events=" ++ to_dec (congestion_events st)
  ++ lit " cwnd=" ++ to_dec (cwnd st)
  ++ lit " rtt_ms=" ++ to_dec (as_millis (rtt_ns st))
  ++ lit " current_mtu=" ++ to_dec (current_mtu st)
  ++ lit " frame_tx_datagram=" ++ to_dec (frame_tx_datagram st)
  ++ lit " frame_rx_datagram=" ++ to_dec (frame_rx_datagram st).

Definition connection_stats_summary (connection : conn) : M str :=
  stats <- perform (ConnStats connection);
  ret (stats_text stats).

(** [target_mbps.map(|value| value.to_string()).unwrap_or_else(..)]. *)
Definition target_text (target_mbps : option Z) : str :=
  match target_mbps with
  | Some value => to_dec value
  | None => lit "unlimited"
  end.

(** The [format!] of the summary, around the statistics. *)
Definition summary_text (direction : str) (elapsed measured_elapsed bytes packets payload_bytes : Z)
    (target_mbps : option Z) (stats : str) : str :=
  BENCH_SUMMARY_MAGIC ++ lit "direction=" ++ direction
  ++ lit " bytes=" ++ to_dec bytes
  ++ lit " packets=" ++ to_dec packets
  ++ lit " payload_bytes=" ++ to_dec payload_bytes
  ++ lit " target_mbps=" ++ target_text target_mbps
  ++ lit " elapsed_ms=" ++ to_dec (as_millis elapsed)
  ++ lit " measured_elapsed_ms=" ++ to_dec (as_millis measured_elapsed)
  ++ lit " " ++ stats ++ [LF].

Definition send_bench_summary (connection : conn) (direction : str)
    (elapsed measured_elapsed bytes packets payload_bytes : Z) (target_mbps : option Z) : M unit :=
  stats <- connection_stats_summary connection;
  let summary :=
    summary_text direction elapsed measured_elapsed bytes packets payload_bytes target_mbps stats in
  '(send, _recv) <- call_context "failed to open bench summary stream" (OpenBi connection);
  call_context "failed to write bench summary" (WriteAll send (as_bytes summary)) ;;
  call_context "failed to finish bench summary" (Finish send) ;;
  select2 (perform (Closed connection) ;; ret tt) (perform (Sleep (millis 300)) ;; ret tt).

(** ** The client *)

Definition parse_bench_summary (packet : bytes) : res (option str) :=
  match strip_prefix BENCH_SUMMARY_MAGIC packet with
  | None => Ok None
  | Some summary =>
    summary <-? context_ext "bench summary is not utf-8"
      (match from_utf8 summary with Some s => Ok s | None => Err (lit "invalid utf-8") end);
    Ok (Some (trim summary))
  end.

Definition read_bench_summary_stream (connection : conn) : M str :=
  '(_send, recv) <- call_context "failed to accept bench summary stream" (AcceptBi connection);
  packet <- call_context "failed to read bench summary" (ReadToEnd recv 1024);
  summary <- lift (parse_bench_summary packet);
  match summary with
  | Some summary => ret summary
  | None => lift (bail "invalid bench summary stream")
  end.

(** [Iterator::find_map]. *)
Fixpoint find_map {A B} (f : A -> option B) (l : list A) : option B :=
  match l with
  | [] => None
  | a :: l' => match f a with Some b => Some b | None => find_map f l' end
  end.

Definition parse_summary_u64 (summary : str) (key : string) : option Z :=
  let prefix := lit key ++ lit "=" in
  match find_map (strip_prefix prefix) (split_whitespace summary) with
  | Some value => match parse_u64 value with Ok n => Some n | Err _ => None end
  | None => None
  end.

Record ServerBenchMeasurement := mk_server_measurement {
  server_mbps : f64;
  server_bytes : Z;
  server_packets : Z;
  server_lost_packets : Z;
  server_congestion_events : Z;
  server_elapsed_ms : Z;
}.

(** [bytes as f64 * 8.0 / seconds / 1_000_000.0]. *)
Definition mbps_over (bytes : Z) (seconds : f64) : f64 :=
  f64_div (f64_div (f64_mul (f64_of_u64 bytes) (f64_of_u64 8)) seconds) (f64_of_u64 1000000).

Definition parse_server_bench_measurement (summary : str) : option ServerBenchMeasurement :=
  match parse_summary_u64 summary "bytes" with
  | None => None
  | Some bytes =>
  match parse_summary_u64 summary "packets" with
  | None => None
  | Some packets =>
  match (match parse_summary_u64 summary "measured_elapsed_ms" with
         | Some n => Some n
         | None => parse_summary_u64 summary "elapsed_ms"
         end) with
  | None => None
  | Some elapsed_ms =>
    let lost_packets := default 0 (parse_summary_u64 summary "lost_packets") in
    let congestion_events := default 0 (parse_summary_u64 summary "congestion_events") in
    let seconds :=
      f64_max (f64_div (f64_of_u64 elapsed_ms) (f64_of_u64 1000)) (f64_lit 1 1000) in
    Some (mk_server_measurement (mbps_over bytes seconds) bytes packets lost_packets
            congestion_events elapsed_ms)
  end end end.

Record BenchMeasurement := mk_measurement {
  mbps : f64;
  m_bytes : Z;
  m_packets : Z;
  m_elapsed : Z;
  m_server : option ServerBenchMeasurement;
}.

Definition bench_measurement (elapsed bytes packets : Z) (server : option ServerBenchMeasurement)
    : BenchMeasurement :=
  let seconds := f64_max (as_secs_f64 elapsed) (f64_lit 1 1000) in
  mk_measurement (mbps_over bytes seconds) bytes packets elapsed server.

(** ** What the two sides call *)

Definition summary_op : forall X, Op X -> bool := fun X o =>
  match o with OpenBi _ | WriteAll _ _ | Finish _ => true | _ => is_wait_op X o end.
Definition listen_op : forall X, Op X -> bool := fun X o =>
  match o with AcceptBi _ | ReadToEnd _ _ => true | _ => false end.

Lemma connection_stats_summary_waiting c : waiting (connection_stats_summary c).
Proof. unfold connection_stats_summary. ops. Qed.
#[export] Hint Resolve connection_stats_summary_waiting : calls.
Lemma send_bench_summary_calls c d e m b p n t : all_ops summary_op (send_bench_summary c d e m b p n t).
Proof. unfold send_bench_summary. ops. Qed.
Lemma read_bench_summary_stream_calls c : all_ops listen_op (read_bench_summary_stream c).
Proof. unfold read_bench_summary_stream. ops. Qed.
#[export] Hint Resolve send_bench_summary_calls read_bench_summary_stream_calls : calls.

(** ** The unit tests of the source *)

Example parses_server_bench_measurement :
  let summary := lit "direction=download bytes=28548000 packets=21960 payload_bytes=1300 target_mbps=38 elapsed_ms=6001 measured_elapsed_ms=6000 udp_tx_datagrams=21963 lost_packets=54 congestion_events=3" in
  match parse_server_bench_measurement summary with
  | Some m => server_bytes m = 28548000 /\ server_packets m = 21960 /\
      server_lost_packets m = 54 /\ server_congestion_events m = 3 /\ server_elapsed_ms m = 6000 /\
      f64_lt (f64_abs (f64_sub (server_mbps m) (f64_lit 38064 1000))) (f64_lit 1 1000) = true
  | None => False
  end.
Proof. vm_compute. tauto. Qed.

Example falls_back_to_server_elapsed_ms :
  let summary := lit "direction=download bytes=1000 packets=1 elapsed_ms=1000 lost_packets=0" in
  match parse_server_bench_measurement summary with
  | Some m => server_elapsed_ms m = 1000 /\
      f64_lt (f64_abs (f64_sub (server_mbps m) (f64_lit 8 1000))) (f64_lit 1 1000) = true
  | None => False
  end.
Proof. vm_compute. tauto. Qed.

Example rejects_incomplete_server_bench_measurement :
  parse_server_bench_measurement (lit "bytes=1 packets=1") = None.
Proof. reflexivity. Qed.

(** ** The line as words *)

Definition field (key : string) (value : str) : str := lit key ++ lit "=" ++ value.

Definition stats_fields (st : stats) : list str :=
  [ field "udp_tx_datagrams" (to_dec (udp_tx_datagrams st));
    field "udp_tx_bytes" (to_dec (udp_tx_bytes st));
    field "udp_rx_datagrams" (to_dec (udp_rx_datagrams st));
    field "udp_rx_bytes" (to_dec (udp_rx_bytes st));
    field "lost_packets" (to_dec (lost_packets st));
    field "lost_bytes" (to_dec (lost_bytes st));
    field "congestion_events" (to_dec (congestion_events st));
    field "cwnd" (to_dec (cwnd st));
    field "rtt_ms" (to_dec (as_millis (rtt_ns st)));
    field "current_mtu" (to_dec (current_mtu st));
    field "frame_tx_datagram" (to_dec (frame_tx_datagram st));
    field "frame_rx_datagram" (to_dec (frame_rx_datagram st)) ].

Definition summary_fields (direction : str)
    (elapsed measured bytes packets payload : Z) (target : option Z) (st : stats) : list str :=
  [ field "direction" direction; field "bytes" (to_dec bytes); field "packets" (to_dec packets);
    field "payload_bytes" (to_dec payload); field "target_mbps" (target_text target);
    field "elapsed_ms" (to_dec (as_millis elapsed));
    field "measured_elapsed_ms" (to_dec (as_millis measured)) ] ++ stats_fields st.

Lemma summary_text_fields d e m b p n t st :
  summary_text d e m b p n t (stats_text st)
  = BENCH_SUMMARY_MAGIC ++ join_spaces (summary_fields d e m b p n t st) ++ [LF].
Proof.
  unfold summary_text, stats_text, summary_fields, stats_fields, field. f_equal.
  cbn [app join_spaces]. rewrite <-!app_assoc. reflexivity.
Qed.

(** [u64] statistics (the round trip time is a [Duration]). *)
Definition stats_ok (st : stats) : Prop :=
  is_u64 (udp_tx_datagrams st) /\ is_u64 (udp_tx_bytes st) /\ is_u64 (udp_rx_datagrams st) /\
  is_u64 (udp_rx_bytes st) /\ is_u64 (lost_packets st) /\ is_u64 (lost_bytes st) /\
  is_u64 (congestion_events st) /\ is_u64 (cwnd st) /\ is_u64 (as_millis (rtt_ns st)) /\
  is_u64 (current_mtu st) /\ is_u64 (frame_tx_datagram st) /\ is_u64 (frame_rx_datagram st).

(** A value of at most 22 characters that is a word of ASCII text. *)
Definition value_ok (v : str) : Prop :=
  Forall (fun c => is_whitespace c = false) v /\ Forall is_ascii v /\ (length v <= 22)%nat.

Lemma to_dec_value n : is_u64 n -> value_ok (to_dec n).
Proof.
  intros Hn. unfold is_u64 in Hn. split; [apply to_dec_word; lia|].
  split; [apply to_dec_ascii; lia|]. pose proof (to_dec_length_u64 n Hn). lia.
Qed.

Lemma target_value t : match t with Some n => is_u64 n | None => True end ->
  value_ok (target_text t).
Proof.
  destruct t; [apply to_dec_value|]. intros _.
  split; [|split; [|simpl; lia]]; repeat constructor; done.
Qed.

Lemma field_ok key v :
  forallb (fun c => negb (is_whitespace c) && (0 <=? c) && (c <? 128)) (lit key) = true ->
  value_ok v -> is_word (field key v) /\ Forall is_ascii (field key v) /\
    (length (field key v) <= length (lit key) + 23)%nat.
Proof.
  intros Hk (Hv & Ha & Hl). rewrite forallb_forall in Hk. unfold field.
  assert (Forall (fun c => is_whitespace c = false /\ is_ascii c) (lit key)) as HF.
  { apply Forall_forall. intros c Hc%list_elem_of_In. apply Hk in Hc. unfold is_ascii.
    destruct (is_whitespace c); [done|]. cbn [negb andb] in Hc. split; [done|]. lia. }
  split; [split|split].
  - by destruct (lit key).
  - apply Forall_app. split; [eapply Forall_impl; [exact HF|by intros ? []]|].
    by apply Forall_cons.
  - apply Forall_app. split; [eapply Forall_impl; [exact HF|by intros ? []]|].
    by apply Forall_cons.
  - rewrite !length_app. simpl. lia.
Qed.

(** The arguments of a summary: the direction is one of the six words. *)
Definition summary_args_ok (d : str) (e m b p n : Z) (t : option Z) (st : stats) : Prop :=
  value_ok d /\ is_u64 (as_millis e) /\ is_u64 (as_millis m) /\ is_u64 b /\ is_u64 p /\
  is_u64 n /\ match t with Some t => is_u64 t | None => True end /\ stats_ok st.

Definition field_word (w : str) : Prop := is_word w /\ Forall is_ascii w /\ (length w <= 42)%nat.

Lemma field_word_intro key v :
  forallb (fun c => negb (is_whitespace c) && (0 <=? c) && (c <? 128)) (lit key)
    && Nat.leb (length (lit key)) 19 = true ->
  value_ok v -> field_word (field key v).
Proof.
  intros [Hk Hl]%andb_prop Hv. apply Nat.leb_le in Hl.
  destruct (field_ok key v Hk Hv) as (? & ? & ?). split; [done|]. split; [done|lia].
Qed.

Lemma summary_fields_ok d e m b p n t st :
  summary_args_ok d e m b p n t st -> Forall field_word (summary_fields d e m b p n t st).
Proof.
  intros (Hd & He & Hm & Hb & Hp & Hn & Ht & Hst).
  unfold stats_ok in Hst. destruct_and! Hst.
  unfold summary_fields, stats_fields. cbn [app].
  repeat (apply Forall_cons; split;
    [apply field_word_intro; [reflexivity|first [done|by apply to_dec_value|by apply target_value]]|]).
  constructor.
Qed.

Lemma join_spaces_length (k : nat) ws : Forall (fun w => (length w <= k)%nat) ws ->
  (length (join_spaces ws) <= (k + 1) * length ws)%nat.
Proof.
  induction 1 as [|w ws Hw HF IH]; [simpl; lia|].
  destruct ws as [|w' ws]; [simpl; lia|].
  change (join_spaces (w :: w' :: ws)) with (w ++ 32 :: join_spaces (w' :: ws)).
  rewrite length_app. cbn [length] in *. lia.
Qed.

Lemma join_spaces_ascii ws : Forall (Forall is_ascii) ws -> Forall is_ascii (join_spaces ws).
Proof.
  induction 1 as [|w ws Hw HF IH]; [constructor|]. destruct ws as [|w' ws]; [done|].
  change (join_spaces (w :: w' :: ws)) with (w ++ 32 :: join_spaces (w' :: ws)).
  apply Forall_app. split; [done|]. by apply Forall_cons.
Qed.

(** The text between the magic and the end of the line. *)
Definition summary_line d e m b p n t st : str := join_spaces (summary_fields d e m b p n t st).

Lemma summary_line_ok d e m b p n t st :
  summary_args_ok d e m b p n t st ->
  Forall is_word (summary_fields d e m b p n t st) /\
  Forall is_ascii (summary_line d e m b p n t st) /\
  (length (summary_line d e m b p n t st) <= 817)%nat.
Proof.
  intros Hok. pose proof (summary_fields_ok _ _ _ _ _ _ _ _ Hok) as HF. split_and!.
  - eapply Forall_impl; [exact HF|by intros ? [? _]].
  - apply join_spaces_ascii. eapply Forall_impl; [exact HF|by intros ? (_ & ? & _)].
  - apply (join_spaces_length 42). eapply Forall_impl; [exact HF|by intros ? (_ & _ & ?)].
Qed.

Lemma summary_ascii d e m b p n t st : summary_args_ok d e m b p n t st ->
  as_bytes (summary_text d e m b p n t (stats_text st))
  = BENCH_SUMMARY_MAGIC ++ summary_line d e m b p n t st ++ [LF].
Proof.
  intros Hok. rewrite summary_text_fields. apply as_bytes_ascii.
  apply Forall_app. split; [by repeat constructor|]. apply Forall_app.
  split; [by apply summary_line_ok|by repeat constructor].
Qed.

Lemma summary_bytes_length d e m b p n t st : summary_args_ok d e m b p n t st ->
  zlen (as_bytes (summary_text d e m b p n t (stats_text st))) <= 1024.
Proof.
  intros Hok. destruct (summary_line_ok _ _ _ _ _ _ _ _ Hok) as (_ & _ & Hl).
  rewrite summary_ascii, !length_app by done.
  change (length BENCH_SUMMARY_MAGIC) with 10%nat. change (length [LF]) with 1%nat. lia.
Qed.

(** What the client's parser makes of the bytes of a summary. *)
Lemma parse_summary_bytes d e m b p n t st : summary_args_ok d e m b p n t st ->
  parse_bench_summary (as_bytes (summary_text d e m b p n t (stats_text st)))
  = Ok (Some (summary_line d e m b p n t st)).
Proof.
  intros Hok. destruct (summary_line_ok _ _ _ _ _ _ _ _ Hok) as (Hw & Ha & _).
  rewrite summary_ascii by done. unfold parse_bench_summary. rewrite strip_prefix_app.
  assert (Forall is_ascii (summary_line d e m b p n t st ++ [LF])) as Ha'
    by (apply Forall_app; split; [done|by repeat constructor]).
  rewrite <-(as_bytes_ascii _ Ha'), from_utf8_as_bytes by by apply ascii_valid.
  cbn [context_ext res_bind]. do 2 f_equal.
  apply join_spaces_trim; [done|done|by repeat constructor].
Qed.

Lemma parse_line_field d e m b p n t st key value :
  summary_args_ok d e m b p n t st ->
  find_map (strip_prefix (lit key ++ lit "=")) (summary_fields d e m b p n t st)
    = Some (to_dec value) ->
  is_u64 value ->
  parse_summary_u64 (summary_line d e m b p n t st) key = Some value.
Proof.
  intros Hok Hf Hv. destruct (summary_line_ok _ _ _ _ _ _ _ _ Hok) as (Hw & _ & _).
  unfold parse_summary_u64, summary_line. cbv zeta. rewrite split_join_spaces by done.
  rewrite Hf. unfold parse_u64. by rewrite parse_uint_to_dec.
Qed.

Lemma parse_summary_fields d e m b p n t st :
  summary_args_ok d e m b p n t st ->
  let line := summary_line d e m b p n t st in
  parse_summary_u64 line "bytes" = Some b /\ parse_summary_u64 line "packets" = Some p /\
  parse_summary_u64 line "measured_elapsed_ms" = Some (as_millis m) /\
  parse_summary_u64 line "elapsed_ms" = Some (as_millis e) /\
  parse_summary_u64 line "lost_packets" = Some (lost_packets st) /\
  parse_summary_u64 line "congestion_events" = Some (congestion_events st).
Proof.
  intros Hok line. pose proof Hok as (_ & He & Hm & Hb & Hp & _ & _ & Hst).
  unfold stats_ok in Hst. destruct_and! Hst.
  split_and!; (apply parse_line_field; [done| |done]); reflexivity.
Qed.

(** ** Properties *)

(** C21: Round trip of the benchmark summary. Whatever the counts and
    statistics (all within [u64]), the bytes the server builds fit the client's
    read limit of 1024, parse to the line without magic and line end, and the
    client's measurement has exactly the server's bytes, packets, lost packets,
    congestion events and measured (not total) time. *)
Theorem summary_roundtrip d e m b p n t st :
  summary_args_ok d e m b p n t st ->
  let packet := as_bytes (summary_text d e m b p n t (stats_text st)) in
  zlen packet <= 1024 /\
  exists line, parse_bench_summary packet = Ok (Some line) /\
    match parse_server_bench_measurement line with
    | Some r => server_bytes r = b /\ server_packets r = p /\
        server_lost_packets r = lost_packets st /\
        server_congestion_events r = congestion_events st /\
        server_elapsed_ms r = as_millis m
    | None => False
    end.
Proof.
  intros Hok packet. split; [by apply summary_bytes_length|].
  exists (summary_line d e m b p n t st). split; [by apply parse_summary_bytes|].
  destruct (parse_summary_fields _ _ _ _ _ _ _ _ Hok) as (E1 & E2 & E3 & _ & E5 & E6).
  unfold parse_server_bench_measurement. by rewrite E1, E2, E3, E5, E6.
Qed.

Definition example_stats : stats := mk_stats 10 12000 4 400 2 2600 1 14720 25000000 1452 8 0.

Lemma example_args_ok :
  summary_args_ok (lit "download") (secs 3) (secs 3) 10400 8 1300 (Some 40) example_stats.
Proof.
  split; [split; [|split; [|simpl; lia]]; repeat constructor; done|].
  unfold stats_ok, is_u64, U64_MAX. vm_compute. intuition discriminate.
Qed.

Lemma summary_roundtrip_witness :
  let packet := as_bytes (summary_text (lit "download") (secs 3) (secs 3) 10400 8 1300 (Some 40)
                            (stats_text example_stats)) in
  zlen packet <= 1024 /\
  exists line, parse_bench_summary packet = Ok (Some line) /\
    match parse_server_bench_measurement line with
    | Some r => server_bytes r = 10400 /\ server_packets r = 8 /\
        server_lost_packets r = lost_packets example_stats /\
        server_congestion_events r = congestion_events example_stats /\
        server_elapsed_ms r = as_millis (secs 3)
    | None => False
    end.
Proof.
  apply (summary_roundtrip (lit "download") (secs 3) (secs 3) 10400 8 1300 (Some 40)
    example_stats example_args_ok).
Defined.

(** The connection as the server sees it while it sends its summary. *)
Record summary_sender (E : env) (c : conn) (send recv : sid) (st : stats) : Prop := {
  sender_stats : forall h, E _ h (ConnStats c) = st;
  sender_open : forall h, E _ h (OpenBi c) = Ok (send, recv);
  sender_write : forall h d, E _ h (WriteAll send d) = Ok tt;
  sender_finish : forall h, E _ h (Finish send) = Ok tt;
}.

(** As the client sees it: the stream it accepts carries [content]. *)
Record summary_receiver (E : env) (c : conn) (send recv : sid) (content : bytes) : Prop := {
  receiver_accept : forall h, E _ h (AcceptBi c) = Ok (send, recv);
  receiver_read : forall h limit, zlen content <= limit ->
    E _ h (ReadToEnd recv limit) = Ok content;
}.

Lemma send_summary_run E h c send recv st d e m b p n t :
  summary_sender E c send recv st ->
  wp E h (send_bench_summary c d e m b p n t) (fun r h' => r = Val tt /\
    stream_written send h' =
      stream_written send h ++ as_bytes (summary_text d e m b p n t (stats_text st))).
Proof.
  intros [Hst Hopen Hwrite Hfin]. unfold send_bench_summary, connection_stats_summary.
  apply wp_bind, wp_bind, wp_vis, wp_ret, wp_ret. rewrite Hst. cbv zeta.
  apply wp_bind, wp_vis. rewrite Hopen. apply wp_ret.
  apply wp_bind, wp_vis. rewrite Hwrite. apply wp_ret.
  apply wp_bind, wp_vis. rewrite Hfin. apply wp_ret.
  unfold wp. cbn -[app summary_text as_bytes stream_written millis]. case_poll;
    cbn -[app summary_text as_bytes stream_written millis];
    (split; [done|]); rewrite !stream_written_app; unfold stream_written; rewrite !observe_one;
    rewrite Z.eqb_refl, !app_nil_r; done.
Qed.

(** C16: The summary reaches the client: when the calls on the connection
    succeed and the client's stream carries what the server wrote to its own,
    [send_bench_summary] returns [Ok] and [read_bench_summary_stream] returns
    the summary's line, from which the client's measurement is read. *)
Theorem summary_exchange Es Ec hs hc cs cc ss rs sc rc st d e m b p n t :
  summary_args_ok d e m b p n t st ->
  summary_sender Es cs ss rs st -> stream_written ss hs = [] ->
  let server := run Es hs (send_bench_summary cs d e m b p n t) in
  summary_receiver Ec cc sc rc (stream_written ss server.2) ->
  server.1 = Val tt /\
  exists line, (run Ec hc (read_bench_summary_stream cc)).1 = Val line /\
    parse_summary_u64 line "bytes" = Some b /\ parse_summary_u64 line "packets" = Some p /\
    parse_summary_u64 line "measured_elapsed_ms" = Some (as_millis m).
Proof.
  intros Hok Hs H0 server Hr.
  destruct (send_summary_run Es hs cs ss rs st d e m b p n t Hs) as [Hv Hw].
  fold server in Hv, Hw. rewrite H0 in Hw. cbn [app] in Hw. rewrite Hw in Hr. clearbody server.
  split; [done|]. exists (summary_line d e m b p n t st).
  destruct (parse_summary_fields _ _ _ _ _ _ _ _ Hok) as (E1 & E2 & E3 & _).
  split; [|done]. destruct Hr as [Hacc Hread].
  pose proof (summary_bytes_length _ _ _ _ _ _ _ _ Hok) as Hl.
  pose proof (parse_summary_bytes _ _ _ _ _ _ _ _ Hok) as Hp.
  set (packet := as_bytes _) in *. clearbody packet.
  unfold read_bench_summary_stream. cbn -[parse_bench_summary]. rewrite Hacc.
  cbn -[parse_bench_summary]. rewrite Hread by done.
  cbn -[parse_bench_summary]. by rewrite Hp.
Qed.

Definition example_sender : env := fun X h o =>
  match o in Op X return X -> X with
  | ConnStats _ => fun _ => example_stats
  | OpenBi _ => fun _ => Ok (4, 5)
  | WriteAll _ _ => fun _ => Ok tt
  | Finish _ => fun _ => Ok tt
  | _ => fun x => x
  end (quiet X h o).

Definition example_receiver (content : bytes) : env := fun X h o =>
  match o in Op X return X -> X with
  | AcceptBi _ => fun _ => Ok (6, 7)
  | ReadToEnd _ limit => fun _ => if zlen content <=? limit then Ok content else Err (lit "too long")
  | _ => fun x => x
  end (quiet X h o).

Lemma example_receiver_ok content : summary_receiver (example_receiver content) 2 6 7 content.
Proof. split; [done|]. intros h limit Hl. cbn. apply Z.leb_le in Hl. by rewrite Hl. Qed.

Lemma summary_exchange_witness :
  let server := run example_sender []
    (send_bench_summary 1 (lit "download") (secs 3) (secs 3) 10400 8 1300 (Some 40)) in
  server.1 = Val tt /\
  exists line,
    (run (example_receiver (stream_written 4 server.2)) [] (read_bench_summary_stream 2)).1
      = Val line /\
    parse_summary_u64 line "bytes" = Some 10400 /\
    parse_summary_u64 line "packets" = Some 8 /\
    parse_summary_u64 line "measured_elapsed_ms" = Some (as_millis (secs 3)).
Proof.
  apply (summary_exchange example_sender _ [] [] 1 2 4 5 6 7 example_stats (lit "download")
    (secs 3) (secs 3) 10400 8 1300 (Some 40) example_args_ok).
  - by split.
  - done.
  - apply example_receiver_ok.
Defined.
