(* ===== verification/Report.v ===== *)
(** * What a benchmark prints: [litevpn-client/src/main.rs]

    The line of a local measurement ([print_local_bench]) and the figures over
    several runs ([print_bench_aggregate]), with the text of their numbers. *)

From S2P Require Import Prelude RustStr World Float64 Summary.

(** ** Numbers as text

    [{x:.2}]: the exact value of the float, rounded to hundredths, ties to
    even. *)
Definition hundredths (m e : Z) : Z := round_scaled 100 m e.
Definition two_digits (n : Z) : str := [48 + n / 10 mod 10; 48 + n mod 10].
Definition sign_text (s : bool) : str := if s then lit "-" else [].

Definition fixed2 (x : f64) : str :=
  match x with
  | S754_nan => lit "NaN"
  | S754_infinity s => sign_text s ++ lit "inf"
  | S754_zero s => sign_text s ++ lit "0.00"
  | S754_finite s m e =>
    let n := hundredths (Zpos m) e in
    sign_text s ++ to_dec (n / 100) ++ lit "." ++ two_digits n
  end.

Example fixed2_examples :
  map fixed2 [f64_lit 38064 1000; f64_lit 1 8; f64_lit 3 8; f64_lit 1 1000; f64_of_u64 1000000]
  = map lit ["38.06"; "0.12"; "0.38"; "0.00"; "1000000.00"]%string.
Proof. vm_compute. reflexivity. Qed.

(** ** Iterators

    [Iterator::sum] of floats starts at -0.0; the sums of integers wrap in a
    release build. *)
Definition sum_f64 (l : list f64) : f64 := fold_left f64_add l (S754_zero true).
Definition sum_u64 (l : list Z) : Z := fold_left wrapping_add_u64 l 0.
Definition sum_u128 (l : list Z) : Z := fold_left (fun a b => (a + b) mod (U128_MAX + 1)) l 0.
(** [fold(f64::INFINITY, f64::min)], [fold(f64::NEG_INFINITY, f64::max)]. *)
Definition min_f64 (l : list f64) : f64 := fold_left f64_min l (S754_infinity false).
Definition max_f64 (l : list f64) : f64 := fold_left f64_max l (S754_infinity true).
(** [total / runs as f64]. *)
Definition average (runs : Z) (l : list f64) : f64 := f64_div (sum_f64 l) (f64_of_u64 runs).

(** ** Printing *)

Definition local_bench_text (label : str) (elapsed bytes packets payload_bytes : Z)
    (target_mbps : option Z) : str :=
  let seconds := f64_max (as_secs_f64 elapsed) (f64_lit 1 1000) in
  label ++ lit ": " ++ fixed2 (mbps_over bytes seconds)
  ++ lit " Mbps, target_mbps=" ++ target_text target_mbps
  ++ lit ", bytes=" ++ to_dec bytes ++ lit ", packets=" ++ to_dec packets
  ++ lit ", payload_bytes=" ++ to_dec payload_bytes
  ++ lit ", elapsed_ms=" ++ to_dec (as_millis elapsed).

Definition print_local_bench (label : str) (elapsed bytes packets payload_bytes : Z)
    (target_mbps : option Z) : M unit :=
  println (local_bench_text label elapsed bytes packets payload_bytes target_mbps).

(** The figures of a line, as text. *)
Definition rates_text (runs : Z) (avg lo hi : f64) : str :=
  lit "runs=" ++ to_dec runs ++ lit ", avg_mbps=" ++ fixed2 avg
  ++ lit ", min_mbps=" ++ fixed2 lo ++ lit ", max_mbps=" ++ fixed2 hi.

Definition local_text (runs : Z) (avg lo hi : f64) (bytes packets elapsed_ms : Z) : str :=
  lit "bench aggregate local: " ++ rates_text runs avg lo hi
  ++ lit ", total_bytes=" ++ to_dec bytes ++ lit ", total_packets=" ++ to_dec packets
  ++ lit ", total_elapsed_ms=" ++ to_dec elapsed_ms.

Definition server_text (runs : Z) (avg lo hi : f64)
    (bytes packets lost_packets congestion_events elapsed_ms : Z) : str :=
  lit "bench aggregate server: " ++ rates_text runs avg lo hi
  ++ lit ", total_bytes=" ++ to_dec bytes ++ lit ", total_packets=" ++ to_dec packets
  ++ lit ", lost_packets=" ++ to_dec lost_packets
  ++ lit ", congestion_events=" ++ to_dec congestion_events
  ++ lit ", total_elapsed_ms=" ++ to_dec elapsed_ms.

Definition local_aggregate (ms : list BenchMeasurement) : str :=
  let rates := map mbps ms in
  local_text (zlen ms) (average (zlen ms) rates) (min_f64 rates) (max_f64 rates)
    (sum_u64 (map m_bytes ms)) (sum_u64 (map m_packets ms))
    (sum_u128 (map (fun m => as_millis (m_elapsed m)) ms)).

Definition server_aggregate (runs : Z) (ms : list ServerBenchMeasurement) : str :=
  let rates := map server_mbps ms in
  server_text runs (average runs rates) (min_f64 rates) (max_f64 rates)
    (sum_u64 (map server_bytes ms)) (sum_u64 (map server_packets ms))
    (sum_u64 (map server_lost_packets ms)) (sum_u64 (map server_congestion_events ms))
    (sum_u64 (map server_elapsed_ms ms)).

Definition print_bench_aggregate (measurements : list BenchMeasurement) : M unit :=
  if zlen measurements <=? 1 then ret tt else
  println (local_aggregate measurements) ;;
  let server_measurements := omap m_server measurements in
  if negb (zlen server_measurements =? zlen measurements) then ret tt else
  println (server_aggregate (zlen measurements) server_measurements).

(** ** The text of a number is the nearest one *)

(** [t] is the number of hundredths nearest to [x], with two decimals. *)
Definition nearest_text (x : f64) (t : str) : Prop :=
  exists n, 0 <= n /\ t = to_dec (n / 100) ++ lit "." ++ two_digits n /\
    2 * Z.abs (n * 2 ^ scale - 100 * fval x) <= 2 ^ scale.

Lemma fixed2_nearest lo hi x :
  -348 <= lo <= hi -> hi <= 452 -> zero_or_pow lo hi x -> nearest_text x (fixed2 x).
Proof.
  intros Hl Hh [->|Hx]; [by exists 0|].
  assert (is_tame x) as Ht by (by eapply in_pow_tame).
  destruct x as [| | |[] m e]; try done. destruct Ht as [Hm He].
  exists (hundredths (Z.pos m) e).
  pose proof (pow2_pos scale ltac:(done)) as Hs.
  pose proof (round_scaled_spec 100 m e ltac:(lia)) as Herr. rewrite (Z.mul_comm _ 100) in Herr.
  split; [|done].
  pose proof (fval_pos _ (tame_norm (S754_finite false m e) (conj Hm He))) as Hpos.
  unfold hundredths in *. assert (-1 < round_scaled 100 (Z.pos m) e); [|lia].
  apply (Z.mul_lt_mono_pos_r (2 ^ scale)); [done|]. lia.
Qed.

(** ** Totals *)

Definition total (l : list Z) : Z := foldr Z.add 0 l.

Lemma sum_u64_total l : sum_u64 l = wrap (total l).
Proof.
  unfold sum_u64. change 0 with (wrap 0) at 1.
  enough (forall a, fold_left wrapping_add_u64 l (wrap a) = wrap (a + total l)) as H
    by apply (H 0).
  induction l as [|b l IH]; intros a; cbn [fold_left total foldr]; [by rewrite Z.add_0_r|].
  rewrite wrap_add, IH. unfold total. f_equal. lia.
Qed.

Lemma sum_u128_total l : sum_u128 l = total l mod (U128_MAX + 1).
Proof.
  unfold sum_u128. change 0 with (0 mod (U128_MAX + 1)) at 1.
  set (f := fun a b => _).
  enough (forall a, fold_left f l (a mod (U128_MAX + 1)) = (a + total l) mod (U128_MAX + 1)) as H
    by apply (H 0).
  induction l as [|b l IH]; intros a; cbn [fold_left total foldr]; [by rewrite Z.add_0_r|].
  unfold f at 2. rewrite Zplus_mod_idemp_l, IH. unfold total. f_equal. lia.
Qed.

(** ** The figures of a list of rates *)

(** A fold of a choice between two numbers, in some order. *)
Lemma fold_choice lo hi (f : f64 -> f64 -> f64) (before : Z -> Z -> Prop) (Hrefl : forall a, before a a)
    (Htrans : forall a b c, before a b -> before b c -> before a c) :
  (forall x y, zero_or_pow lo hi x -> zero_or_pow lo hi y ->
     (f x y = x \/ f x y = y) /\ before (fval (f x y)) (fval x) /\ before (fval (f x y)) (fval y)) ->
  forall r x, zero_or_pow lo hi x -> Forall (zero_or_pow lo hi) r ->
  fold_left f r x ∈ x :: r /\ Forall (fun y => before (fval (fold_left f r x)) (fval y)) (x :: r).
Proof.
  intros Hf. induction r as [|y r IH]; intros x Hx Hr; cbn [fold_left].
  - split; [elems|]. by apply Forall_singleton.
  - apply Forall_cons in Hr as [Hy Hr]. destruct (Hf x y Hx Hy) as (Hc & Bx & By).
    assert (zero_or_pow lo hi (f x y)) as Hz by (by destruct Hc as [E|E]; rewrite E).
    destruct (IH (f x y) Hz Hr) as [Hin Hall]. apply Forall_cons in Hall as [H1 H2].
    split; [|constructor; [by eapply Htrans|constructor; [by eapply Htrans|done]]].
    apply elem_of_cons in Hin as [E|Hin]; [rewrite E; destruct Hc as [E'|E']; rewrite E'|]; elems.
Qed.

Lemma small_count n : 1 <= n <= 100 ->
  in_pow 0 7 (f64_of_u64 n) /\ fval (f64_of_u64 n) = n * 2 ^ scale.
Proof.
  intros Hn. split; [apply of_u64_in_pow; unfold U64_MAX; lia|].
  pose proof (f64_of_u64_exact n ltac:(lia)). tauto.
Qed.

Section Rates.
Context (lo hi : Z) (Hlo : -160 <= lo <= hi) (Hhi : hi <= 100).

Definition values : list f64 -> list Z := map fval.

Lemma total_nonneg r : Forall (zero_or_pow lo hi) r -> 0 <= total (values r).
Proof.
  induction 1 as [|x r Hx _ IH]; [done|]. cbn. pose proof (fval_nonneg _ _ _ Hx).
  unfold total in IH. lia.
Qed.

(** [k] rounded additions of numbers that are not negative. *)
Lemma sum_rounds r : Forall (zero_or_pow lo hi) r -> forall k s exact,
  0 <= k -> k + zlen r <= 100 -> zero_or_pow lo (hi + k) s ->
  2 ^ 52 * Z.abs (fval s - exact) <= k * exact -> 0 <= exact ->
  let s' := fold_left f64_add r s in
  zero_or_pow lo (hi + (k + zlen r)) s' /\
  2 ^ 52 * Z.abs (fval s' - (exact + total (values r))) <= (k + zlen r) * (exact + total (values r)).
Proof.
  induction 1 as [|x r Hx Hr IH]; intros k s exact Hk0 Hk Hs He Hpos;
    cbn [fold_left values map total foldr length] in *.
  - by rewrite !Z.add_0_r.
  - rewrite Nat2Z.inj_succ in *.
    destruct (add_zp_abs s x lo (hi + k)) as [Hz Ha]; [lia|lia|done|eapply zp_weaken; [..|done]; lia|].
    pose proof (fval_nonneg _ _ _ Hx) as Hx0. pose proof (fval_nonneg _ _ _ Hs) as Hs0.
    destruct (IH (k + 1) (f64_add s x) (exact + fval x)) as [Hz' He'].
    + lia.
    + lia.
    + by replace (hi + (k + 1)) with (hi + k + 1) by lia.
    + assert (k * exact <= 100 * exact) by (apply Z.mul_le_mono_nonneg_r; lia).
      set (v := fval (f64_add s x)) in *.
      assert (0 <= k * fval x) by (apply Z.mul_nonneg_nonneg; lia).
      clearbody v. lia.
    + lia.
    + unfold total, values in *. replace (k + Z.succ (zlen r)) with (k + 1 + zlen r) by lia.
      replace (exact + (fval x + foldr Z.add 0 (map fval r)))
        with (exact + fval x + foldr Z.add 0 (map fval r)) by lia.
      split; [exact Hz'|exact He'].
Qed.

End Rates.

(** [avg], [least] and [greatest] are the figures of [rates]: two of them are
    among the rates, and the average is within [n * 2^-52] of the exact mean
    of [n] rates. *)
Record figures (rates : list f64) (avg least greatest : f64) : Prop := {
  least_in : least ∈ rates;
  greatest_in : greatest ∈ rates;
  bounded : Forall (fun r => fval least <= fval r <= fval greatest) rates;
  mean : 2 ^ 52 * Z.abs (zlen rates * fval avg - total (values rates))
         <= zlen rates * total (values rates);
  readable : Forall (fun r => nearest_text r (fixed2 r)) [avg; least; greatest];
}.

Lemma zp_first lo hi x : zero_or_pow lo hi x ->
  f64_add (S754_zero true) x = x /\ f64_min (S754_infinity false) x = x /\
  f64_max (S754_infinity true) x = x.
Proof. intros [->|[Hx _]]; [done|]. by destruct x as [| | |[] m e]. Qed.

Lemma list_figures lo hi l :
  -160 <= lo <= hi -> hi <= 100 -> (1 <= length l <= 100)%nat -> Forall (zero_or_pow lo hi) l ->
  figures l (average (zlen l) l) (min_f64 l) (max_f64 l).
Proof.
  intros Hlo Hhi Hlen Hl. destruct (small_count (zlen l)) as [Hn En]; [lia|].
  destruct l as [|x r]; [cbn in Hlen; lia|].
  destruct (proj1 (Forall_cons _ _ _) Hl) as [Hx Hr].
  destruct (zp_first _ _ _ Hx) as (Eadd & Emin & Emax).
  destruct (sum_rounds lo hi Hlo Hhi r Hr 0 x (fval x)) as [Hs He];
    [lia|cbn in Hlen; lia|by rewrite Z.add_0_r|lia|by eapply fval_nonneg|].
  destruct (fold_choice lo hi f64_min Z.le Z.le_refl Z.le_trans) with (r := r) (x := x)
    as [Hmin Bmin]; [|done..|].
  { intros a b Ha Hb. rewrite (f64_min_zp a b lo hi) by done. bcase; split_and!; auto with lia. }
  destruct (fold_choice lo hi f64_max (fun a b => b <= a)) with (r := r) (x := x)
    as [Hmax Bmax]; [intros; lia|intros; lia| |done..|].
  { intros a b Ha Hb. rewrite (f64_max_zp a b lo hi) by done. bcase; split_and!; auto with lia. }
  unfold average, min_f64, max_f64, sum_f64. cbn [fold_left]. rewrite Eadd, Emin, Emax.
  cbn [length] in Hlen. set (s := fold_left f64_add r x) in *.
  destruct (div_zp_abs s (f64_of_u64 (zlen (x :: r))) lo 220 0 7) as [Hz Hd];
    [lia|lia|lia|lia|eapply zp_weaken; [..|done]; lia|done|].
  rewrite En in Hd. change (fval x + total (values r)) with (total (values (x :: r))) in He.
  set (avg := f64_div _ _) in *.
  split.
  - exact Hmin.
  - exact Hmax.
  - apply Forall_forall. intros y Hy. rewrite Forall_forall in Bmin, Bmax.
    specialize (Bmin y Hy). specialize (Bmax y Hy). done.
  - pose proof (total_nonneg lo hi (x :: r) Hl) as Ht.
    pose proof (pow2_pos scale ltac:(done)) as Hw.
    assert (2 ^ 53 * Z.abs (zlen (x :: r) * fval avg - fval s) <= fval s) as Ha.
    { apply (Z.mul_le_mono_pos_r _ _ (2 ^ scale)); [done|].
      replace (zlen (x :: r) * 2 ^ scale * fval avg - fval s * 2 ^ scale)
        with ((zlen (x :: r) * fval avg - fval s) * 2 ^ scale) in Hd by lia.
      rewrite Z.abs_mul, (Z.abs_eq (2 ^ scale)) in Hd by lia. lia. }
    cbn [length] in *. rewrite Nat2Z.inj_succ in *. set (n := zlen r) in *.
    set (T := total _) in *. set (v := fval s) in *.
    assert (n * T <= 99 * T) by (apply Z.mul_le_mono_nonneg_r; lia).
    set (a := fval avg) in *. rewrite Z.mul_succ_l in *. clearbody a v T. lia.
  - rewrite Forall_forall in Hl. repeat constructor.
    + by eapply (fixed2_nearest (lo - 7) 220); [..|exact Hz]; lia.
    + eapply (fixed2_nearest lo hi); [lia..|]. by apply Hl.
    + eapply (fixed2_nearest lo hi); [lia..|]. by apply Hl.
Qed.

(** ** Rates that were measured *)

Lemma mbps_over_zp b s :
  is_u64 b -> in_pow (-10) 65 s -> zero_or_pow (-82) 58 (mbps_over b s).
Proof.
  intros Hb Hs. unfold mbps_over.
  destruct (mul_zp (f64_of_u64 b) (f64_of_u64 8) 0 64 3 3) as [H1 _];
    [lia..|by apply of_u64_zp|by vm_compute|].
  destruct (div_zp (f64_mul (f64_of_u64 b) (f64_of_u64 8)) s 3 67 (-10) 65) as [H2 _];
    [lia..| |done|]; [eapply zp_weaken; [..|exact H1]; lia|].
  set (q := f64_div _ s) in *.
  destruct (div_zp q (f64_of_u64 1000000) (-62) 77 19 20) as [H3 _];
    [lia..| |by vm_compute|]; [eapply zp_weaken; [..|exact H2]; lia|].
  eapply zp_weaken; [..|exact H3]; lia.
Qed.

(** [seconds.max(0.001)]. *)
Lemma at_least_a_millisecond s :
  zero_or_pow (-30) 65 s -> in_pow (-10) 65 (f64_max s (f64_lit 1 1000)).
Proof.
  intros Hs. assert (in_pow (-10) (-9) (f64_lit 1 1000)) as Hm by (by vm_compute).
  revert Hm. generalize (f64_lit 1 1000). intros ms Hm.
  assert (zero_or_pow (-30) 65 ms) as Hz
    by (eapply (zp_weaken (-10) (-9)); [lia..|by right]).
  rewrite (f64_max_zp s ms (-30) 65) by done. destruct Hm as (Hn & H1 & H2).
  destruct (Z.ltb_spec (fval s) (fval ms)) as [Hlt|Hge].
  - split; [done|]. split; [done|]. apply Z.le_trans with (1 := H2).
    apply Z.pow_le_mono_r; unfold scale; lia.
  - destruct Hs as [->|[Hns [_ Hmax]]].
    + pose proof (pow2_pos (-10 + scale) ltac:(done)).
      change (fval (S754_zero false)) with 0 in Hge. lia.
    + split; [done|]. split; [lia|exact Hmax].
Qed.

(** A measurement as the benchmarks make them: counters in [u64], a duration
    the clock can give, the server's part read from some summary. *)
Definition measured (m : BenchMeasurement) : Prop :=
  exists elapsed bytes packets summary,
    0 <= elapsed <= U64_MAX * 1000000000 /\ is_u64 bytes /\ is_u64 packets /\
    m = bench_measurement elapsed bytes packets (parse_server_bench_measurement summary).

Lemma measured_rate m : measured m -> zero_or_pow (-82) 58 (mbps m).
Proof.
  intros (elapsed & bytes & packets & summary & He & Hb & _ & ->).
  apply mbps_over_zp; [done|]. apply at_least_a_millisecond. by apply as_secs_f64_ub.
Qed.

Lemma parse_summary_u64_range s key n : parse_summary_u64 s key = Some n -> is_u64 n.
Proof.
  unfold parse_summary_u64. destruct (find_map _ _) as [v|]; [|done].
  destruct (parse_u64 v) as [k|] eqn:Hk; [|done]. intros [= <-].
  by apply parse_uint_range in Hk.
Qed.

Lemma server_rate summary m :
  parse_server_bench_measurement summary = Some m -> zero_or_pow (-82) 58 (server_mbps m).
Proof.
  unfold parse_server_bench_measurement.
  destruct (parse_summary_u64 summary "bytes") as [b|] eqn:Hb; [|done].
  destruct (parse_summary_u64 summary "packets") as [p|]; [|done].
  assert (forall o, (forall n, o = Some n -> is_u64 n) ->
    match o with
    | Some elapsed_ms =>
      Some (mk_server_measurement (mbps_over b (f64_max (f64_div (f64_of_u64 elapsed_ms)
        (f64_of_u64 1000)) (f64_lit 1 1000))) b p (default 0 (parse_summary_u64 summary "lost_packets"))
        (default 0 (parse_summary_u64 summary "congestion_events")) elapsed_ms)
    | None => None
    end = Some m -> zero_or_pow (-82) 58 (server_mbps m)) as H.
  { intros [e|] He; [|done]. intros [= <-]. cbn [server_mbps].
    apply mbps_over_zp; [by eapply parse_summary_u64_range|]. apply at_least_a_millisecond.
    destruct (div_zp (f64_of_u64 e) (f64_of_u64 1000) 0 64 9 10) as [Hz _];
      [lia..|by apply of_u64_zp, He|by vm_compute|].
    eapply zp_weaken; [..|exact Hz]; lia. }
  apply H. intros n.
  destruct (parse_summary_u64 summary "measured_elapsed_ms") eqn:H1;
    [intros [= <-]; by apply (parse_summary_u64_range _ _ _ H1)|apply parse_summary_u64_range].
Qed.

(** The lines a history holds. *)
Definition printed : history -> list str :=
  observe (fun X o =>
    match o in Op X return X -> list str with
    | Println line => fun r => match r with Ok _ => [line] | Err _ => [] end
    | _ => fun _ => []
    end).

Lemma printed_app h1 h2 : printed (h1 ++ h2) = printed h1 ++ printed h2.
Proof. apply observe_app. Qed.

Lemma omap_le {A B} (f : A -> option B) l : (length (omap f l) <= length l)%nat.
Proof. induction l as [|a l IH]; [done|]. cbn. destruct (f a); cbn; lia. Qed.

(** [filter_map] keeps every element exactly when [f] has a value at each. *)
Lemma omap_all {A B} (f : A -> option B) l :
  length (omap f l) = length l <-> map f l = map Some (omap f l).
Proof.
  split; [|intros H; apply (f_equal length) in H; by rewrite !length_map in H].
  induction l as [|a l IH]; [done|]. cbn. destruct (f a) as [b|] eqn:Hf; cbn; intros H.
  - f_equal. apply IH. lia.
  - pose proof (omap_le f l). lia.
Qed.

Lemma map_some_all {A B} (f : A -> option B) l :
  map f l = map Some (omap f l) <-> Forall (fun a => is_Some (f a)) l.
Proof.
  split.
  - intros H. apply Forall_forall. intros a Ha.
    apply list_elem_of_In in Ha. apply (in_map f) in Ha. rewrite H in Ha.
    apply in_map_iff in Ha as (b & <- & _). done.
  - induction 1 as [|a l [b Hb] _ IH]; [done|]. cbn. rewrite Hb. cbn. by rewrite IH.
Qed.

Lemma elapsed_total ms : Forall measured ms -> zlen ms <= 100 ->
  sum_u128 (map (fun m => as_millis (m_elapsed m)) ms) =
  total (map (fun m => as_millis (m_elapsed m)) ms).
Proof.
  intros Hms Hlen. rewrite sum_u128_total. apply Z.mod_small.
  assert (0 <= total (map (fun m => as_millis (m_elapsed m)) ms) <= zlen ms * (U64_MAX * 1000)) as H.
  { clear Hlen. induction Hms as [|m ms (e & b & p & s & He & _ & _ & ->) _ IH]; [done|].
    cbn [map total foldr length]. unfold total in IH. cbn [bench_measurement m_elapsed].
    assert (0 <= as_millis e <= U64_MAX * 1000) by (unfold as_millis, U64_MAX in *; zlia). lia. }
  unfold U64_MAX, U128_MAX in *. lia.
Qed.

Lemma server_figures ms :
  Forall measured ms -> (1 <= length ms <= 100)%nat -> map m_server ms = map Some (omap m_server ms) ->
  let rates := map server_mbps (omap m_server ms) in
  figures rates (average (zlen ms) rates) (min_f64 rates) (max_f64 rates).
Proof.
  intros Hms Hn Hall rates. pose proof (proj2 (omap_all _ _) Hall) as El.
  assert (length ms = length rates) as -> by (unfold rates; by rewrite length_map).
  apply (list_figures (-82) 58); [lia..| |].
  - unfold rates. by rewrite length_map, El.
  - apply Forall_map, Forall_forall. intros s Hs.
    apply list_elem_of_omap in Hs as (m & Hm & Em). rewrite Forall_forall in Hms.
    destruct (Hms m Hm) as (e & b & p & summary & _ & _ & _ & ->). exact (server_rate summary s Em).
Qed.

Lemma print_bench_aggregate_ends E h ms :
  let r := (run E h (print_bench_aggregate ms)).1 in r = Val tt \/ exists w, r = Panic w.
Proof.
  unfold print_bench_aggregate. destruct (_ <=? _); [by left|].
  cbn -[local_aggregate server_aggregate omap].
  destruct (E _ h (Println _)) as [[]|e]; cbn -[local_aggregate server_aggregate omap]; [|eauto].
  destruct (negb _); cbn -[local_aggregate server_aggregate omap]; [by left|].
  destruct (E _ _ (Println _)) as [[]|e]; cbn; [by left|eauto].
Qed.

(** ** Properties *)

(** C27: What is printed after several runs. For two to a hundred measured
    runs, [print_bench_aggregate] prints the local line, and the server's
    line when every run has the server's figures, and ends (or panics on a
    closed standard output). In both lines the smallest and the largest rate
    are rates of runs, the average is within [n * 2^-52] of the exact mean of
    the [n] rates, and each is printed rounded to the nearest hundredth; bytes
    and packets are totals modulo 2^64, the local time is the exact total. *)
Theorem aggregate_printed E h ms :
  Forall measured ms -> 2 <= zlen ms <= 100 ->
  let r := run E h (print_bench_aggregate ms) in
  exists t, r.2 = h ++ t /\
  match r.1 with
  | Val _ =>
    exists local rest, printed t = local :: rest /\
    (exists avg least greatest,
       figures (map mbps ms) avg least greatest /\
       local = local_text (zlen ms) avg least greatest
         (wrap (total (map m_bytes ms))) (wrap (total (map m_packets ms)))
         (total (map (fun m => as_millis (m_elapsed m)) ms))) /\
    if decide (Forall (fun m => is_Some (m_server m)) ms) then
      exists servers avg least greatest,
        map m_server ms = map Some servers /\
        figures (map server_mbps servers) avg least greatest /\
        rest = [server_text (zlen ms) avg least greatest
          (wrap (total (map server_bytes servers))) (wrap (total (map server_packets servers)))
          (wrap (total (map server_lost_packets servers)))
          (wrap (total (map server_congestion_events servers)))
          (wrap (total (map server_elapsed_ms servers)))]
    else rest = []
  | Panic _ => exists line e, Ev (Println line) (Err e) ∈ t
  | _ => False
  end.
Proof.
  intros Hms Hlen r.
  assert (1 <= length ms <= 100)%nat as Hn by lia.
  assert (figures (map mbps ms) (average (zlen ms) (map mbps ms)) (min_f64 (map mbps ms))
    (max_f64 (map mbps ms))) as Hlocal.
  { rewrite <- (length_map mbps ms) at 1.
    apply (list_figures (-82) 58); [lia..|by rewrite length_map|].
    apply Forall_map. eapply Forall_impl; [exact Hms|]. apply measured_rate. }
  assert (local_aggregate ms = local_text (zlen ms) (average (zlen ms) (map mbps ms)) (min_f64 (map mbps ms))
    (max_f64 (map mbps ms)) (wrap (total (map m_bytes ms))) (wrap (total (map m_packets ms)))
    (total (map (fun m => as_millis (m_elapsed m)) ms))) as Etext.
  { unfold local_aggregate. by rewrite !sum_u64_total, elapsed_total by (done || lia). }
  subst r. unfold print_bench_aggregate.
  destruct (Z.leb_spec (zlen ms) 1); [lia|]. cbn -[local_aggregate server_aggregate omap].
  destruct (E _ h (Println (local_aggregate ms))) as [[]|e] eqn:E1;
    cbn -[local_aggregate server_aggregate omap].
  2:{ eexists. split; [reflexivity|]. do 2 eexists. by apply list_elem_of_singleton. }
  destruct (Z.eqb_spec (zlen (omap m_server ms)) (zlen ms)) as [Hs|Hs];
    cbn -[local_aggregate server_aggregate omap].
  - assert (map m_server ms = map Some (omap m_server ms)) as Hall by (apply omap_all; lia).
    pose proof (server_figures ms Hms Hn Hall) as Hserver.
    destruct (E _ _ (Println (server_aggregate _ _))) as [[]|e] eqn:E2;
      cbn -[local_aggregate server_aggregate omap]; rewrite <- app_assoc;
      (eexists; split; [reflexivity|]).
    2:{ do 2 eexists. apply list_elem_of_further. by apply list_elem_of_singleton. }
    do 2 eexists. split; [reflexivity|]. split; [by do 3 eexists|].
    rewrite decide_True by (by apply map_some_all). do 4 eexists. split; [exact Hall|].
    split; [exact Hserver|]. unfold server_aggregate. by rewrite !sum_u64_total.
  - eexists. split; [reflexivity|]. do 2 eexists. split; [reflexivity|].
    split; [by do 3 eexists|]. rewrite decide_False; [done|].
    rewrite <- map_some_all, <- omap_all. lia.
Qed.

Lemma aggregate_printed_witness :
  let m := bench_measurement 1000000000 1000000 800
             (parse_server_bench_measurement (lit "bytes=1000000 packets=800 elapsed_ms=1001")) in
  exists t, (run quiet [] (print_bench_aggregate [m; m])).2 = [] ++ t /\ printed t <> [].
Proof.
  intros m. assert (measured m) as Hm.
  { exists 1000000000, 1000000, 800, (lit "bytes=1000000 packets=800 elapsed_ms=1001").
    unfold is_u64, U64_MAX. repeat split; lia. }
  destruct (aggregate_printed quiet [] [m; m]) as (t & Et & Ht).
  - by repeat (constructor; [exact Hm|]).
  - done.
  - exists t. split; [exact Et|]. destruct Ht as (l & rest & -> & _). done.
Defined.

(** The lines of that run. *)
Example two_runs_printed :
  let m := bench_measurement 1000000000 1000000 800
             (parse_server_bench_measurement (lit "bytes=1000000 packets=800 elapsed_ms=1001")) in
  printed (run quiet [] (print_bench_aggregate [m; m])).2 = map lit
    ["bench aggregate local: runs=2, avg_mbps=8.00, min_mbps=8.00, max_mbps=8.00, total_bytes=2000000, total_packets=1600, total_elapsed_ms=2000";
     "bench aggregate server: runs=2, avg_mbps=7.99, min_mbps=7.99, max_mbps=7.99, total_bytes=2000000, total_packets=1600, lost_packets=0, congestion_events=0, total_elapsed_ms=2002"]%string.
Proof. vm_compute. reflexivity. Qed.
