(* ===== verification/Server.v ===== *)
(** * The server: [litevpn-server/src/main.rs]

    The task that serves one connection: handshake, authentication, then either
    a benchmark or the tunnel, and the cleanup at its end. The state shared by
    the tasks is reached through calls ([NextClientId], [ReplaceActive],
    [ClearActive]); Registry.v says what they do and lets tasks interleave. *)

From S2P Require Import Prelude RustStr World Auth Config Crypto Frame Float64 Pacer Backlog Pumps.
From S2P Require Import Summary.

(** ** Benchmarks

    The counters are [u64] and wrap in a release build. *)

(** [started.elapsed()]. *)
Definition elapsed_since (started : Z) : M Z :=
  now <- perform Now;
  ret (saturating_sub now started).

Lemma elapsed_since_waiting started : waiting (elapsed_since started).
Proof. unfold elapsed_since. ops. Qed.
#[export] Hint Resolve elapsed_since_waiting : calls.

(** [timeout_at(deadline, connection.read_datagram())] and what is done with it. *)
Definition upload_bench_body (connection : conn) (deadline : Z) (st : Z * Z) : M (Z * Z + Z * Z) :=
  let '(packets, bytes) := st in
  r <- timeout (Until deadline) (call (ReadDatagram connection));
  match r with
  | Some (Ok packet) =>
    ret (inl (wrapping_add_u64 packets 1, wrapping_add_u64 bytes (zlen packet)))
  | Some (Err error) => fail error
  | None => ret (inr (packets, bytes))
  end.

Definition run_upload_bench (fuel : nat) (connection : conn) (duration_secs payload_bytes : Z)
    (target_mbps : option Z) : M unit :=
  started <- perform Now;
  deadline <- instant_add started (secs (wrapping_add_u64 duration_secs 1));
  '(packets, bytes) <- loop fuel (upload_bench_body connection deadline) (0, 0);
  elapsed <- elapsed_since started;
  send_bench_summary connection (lit "upload") elapsed (secs duration_secs) bytes packets
    payload_bytes target_mbps.

(** The [tokio::select!] of a datagram benchmark: the deadline, a datagram
    handed over, or the end of the connection. *)
Inductive bench_turn : Type :=
| DeadlineReached
| Handed (r : ext unit)
| ConnectionClosed (reason : str).

Definition select_bench_turn (connection : conn) (payload : bytes) (deadline : Z) : M bench_turn :=
  select2 (perform (SleepUntil deadline) ;; ret DeadlineReached)
    (select2 (r <- perform (SendDatagramWait connection payload); ret (Handed r))
       (reason <- perform (Closed connection); ret (ConnectionClosed reason))).

(** Counters, pacer and backlog of a sending benchmark. *)
Abbreviation sender_state := (Z * Z * EgressPacer * DatagramBacklog)%type.

Definition download_bench_body (fuel : nat) (connection : conn) (payload : bytes) (deadline : Z)
    (st : sender_state) : M (sender_state + Z * Z) :=
  let '(packets, bytes, pacer, datagram_backlog) := st in
  turn <- select_bench_turn connection payload deadline;
  match turn with
  | DeadlineReached => ret (inr (packets, bytes))
  | Handed (Err error) => fail (External error)
  | Handed (Ok _) =>
    '(within_limit, datagram_backlog) <- queued_until fuel connection deadline datagram_backlog;
    if negb within_limit then ret (inr (packets, bytes)) else
    let packets := wrapping_add_u64 packets 1 in
    let bytes := wrapping_add_u64 bytes (zlen payload) in
    pacer <- record_and_wait pacer (zlen payload) (Some connection);
    ret (inl (packets, bytes, pacer, datagram_backlog))
  | ConnectionClosed _ => ret (inr (packets, bytes))
  end.

Definition run_download_bench (fuel : nat) (connection : conn) (duration_secs payload_bytes : Z)
    (target_mbps : option Z) (datagram_backlog_packets : Z) (adaptive_egress : bool) : M unit :=
  max <- perform (MaxDatagramSize connection);
  let payload_bytes := Z.min (default payload_bytes max) payload_bytes in
  let payload := repeat 0 (Z.to_nat payload_bytes) in
  started <- perform Now;
  deadline <- instant_add started (secs duration_secs);
  pacer <- from_optional target_mbps payload_bytes adaptive_egress;
  datagram_backlog <- backlog_new connection datagram_backlog_packets;
  '(packets, bytes) <-
    loop fuel (download_bench_body fuel connection payload deadline) (0, 0, pacer, datagram_backlog);
  elapsed <- elapsed_since started;
  measured_elapsed <- elapsed_since started;
  send_bench_summary connection (lit "download") elapsed measured_elapsed bytes packets
    payload_bytes target_mbps.

(** One packet of a framed stream, or one read of an unframed one. *)
Definition stream_upload_body (fuel : nat) (stream : sid) (deadline : Z) (framed : bool)
    (st : Z * Z * bytes) : M (Z * Z * bytes + Z * Z) :=
  let '(packets, bytes, buf) := st in
  if framed then
    r <- timeout (Until deadline) (read_stream_packet fuel stream buf (lit "stream bench"));
    match r with
    | Some (Ok (Some n, buf)) =>
      if n =? 0 then ret (inl (packets, bytes, buf))
      else ret (inl (wrapping_add_u64 packets 1, wrapping_add_u64 bytes n, buf))
    | Some (Ok (None, _)) => ret (inr (packets, bytes))
    | Some (Err error) => fail error
    | None => ret (inr (packets, bytes))
    end
  else
    r <- timeout (Until deadline) (call (Read stream (zlen buf)));
    match r with
    | Some (Ok (Some d)) =>
      ret (inl (wrapping_add_u64 packets 1, wrapping_add_u64 bytes (zlen d), splice buf 0 d))
    | Some (Ok None) => ret (inr (packets, bytes))
    | Some (Err error) => fail error
    | None => ret (inr (packets, bytes))
    end.

Definition run_stream_upload_bench (fuel : nat) (connection : conn)
    (duration_secs payload_bytes : Z) (target_mbps : option Z) (framed : bool) : M unit :=
  stream <- call_context "failed to accept stream upload" (AcceptUni connection);
  started <- perform Now;
  deadline <- instant_add started (secs (wrapping_add_u64 duration_secs 1));
  '(packets, bytes) <-
    loop fuel (stream_upload_body fuel stream deadline framed) (0, 0, repeat 0 (Z.to_nat payload_bytes));
  let direction := if framed then lit "stream-packet-upload" else lit "stream-upload" in
  elapsed <- elapsed_since started;
  send_bench_summary connection direction elapsed (secs duration_secs) bytes packets
    payload_bytes target_mbps.

(** A turn of a stream download: [None] leaves the loop. *)
Definition stream_download_body (stream : sid) (connection : conn) (payload : bytes)
    (deadline : Z) (framed : bool) (st : Z * Z * EgressPacer * bytes)
    : M (Z * Z * EgressPacer * bytes + Z * Z) :=
  let '(packets, bytes, pacer, frame_header) := st in
  now <- perform Now;
  if deadline <=? now then ret (inr (packets, bytes)) else
  if framed then
    turn <- select2
      (h <- write_stream_packet stream frame_header payload (lit "stream bench"); ret (Some h))
      (perform (Closed connection) ;; ret None);
    match turn with
    | Some frame_header =>
      pacer <- record_and_wait pacer (zlen payload) (Some connection);
      ret (inl (wrapping_add_u64 packets 1, wrapping_add_u64 bytes (zlen payload),
                pacer, frame_header))
    | None => ret (inr (packets, bytes))
    end
  else
    r <- timeout (Until deadline) (call (Write stream payload));
    match r with
    | Some (Ok n) =>
      if n =? 0 then ret (inr (packets, bytes)) else
      pacer <- record_and_wait pacer n (Some connection);
      ret (inl (wrapping_add_u64 packets 1, wrapping_add_u64 bytes n, pacer, frame_header))
    | Some (Err error) => fail error
    | None => ret (inr (packets, bytes))
    end.

Definition run_stream_download_bench (fuel : nat) (connection : conn)
    (duration_secs payload_bytes : Z) (target_mbps : option Z) (adaptive_egress framed : bool)
    : M unit :=
  let payload := repeat 0 (Z.to_nat payload_bytes) in
  stream <- call_context "failed to open stream download" (OpenUni connection);
  started <- perform Now;
  deadline <- instant_add started (secs duration_secs);
  pacer <- from_optional target_mbps payload_bytes adaptive_egress;
  '(packets, bytes) <-
    loop fuel (stream_download_body stream connection payload deadline framed)
      (0, 0, pacer, [0; 0]);
  finish_stream_with_ack stream (lit "stream download") ;;
  let direction := if framed then lit "stream-packet-download" else lit "stream-download" in
  elapsed <- elapsed_since started;
  measured_elapsed <- elapsed_since started;
  send_bench_summary connection direction elapsed measured_elapsed bytes packets
    payload_bytes target_mbps.

Definition run_bench (fuel : nat) (connection : conn) (direction : BenchDirection)
    (duration_secs payload_bytes : Z) (target_mbps : option Z) (datagram_backlog_packets : Z)
    (adaptive_egress : bool) : M unit :=
  match direction with
  | Upload => run_upload_bench fuel connection duration_secs payload_bytes target_mbps
  | Download =>
    run_download_bench fuel connection duration_secs payload_bytes target_mbps
      datagram_backlog_packets adaptive_egress
  | StreamUpload =>
    run_stream_upload_bench fuel connection duration_secs payload_bytes target_mbps false
  | StreamDownload =>
    run_stream_download_bench fuel connection duration_secs payload_bytes target_mbps
      adaptive_egress false
  | StreamPacketUpload =>
    run_stream_upload_bench fuel connection duration_secs payload_bytes target_mbps true
  | StreamPacketDownload =>
    run_stream_download_bench fuel connection duration_secs payload_bytes target_mbps
      adaptive_egress true
  end.

(** ** Starting up

    [main] up to the accept loop: the token and the endpoint. [parsed] is the
    address that [config.listen.parse()] makes of the configuration's text. *)
Definition server_setup (os : target_os) (config : ServerConfig.t) (parsed : ext SocketAddr)
    : M (str * Z) :=
  lift (server_validate config) ;;
  token <- load_token (ServerConfig.auth_token_path config);
  device <- catch (create_tun os (server_tun_options config));
  lift (context_res "failed to create server tun device" device) ;;
  listen <- lift (context_ext "invalid listen address" parsed);
  quic_config <- server_config (ServerConfig.cert_path config) (ServerConfig.key_path config)
                   (ServerConfig.datagram_buffer_bytes config) (ServerConfig.mtu config)
                   (ServerConfig.congestion_controller config);
  socket <- create_udp_socket listen (ServerConfig.udp_recv_buffer_bytes config)
              (ServerConfig.udp_send_buffer_bytes config);
  endpoint <- call (EndpointNew (Some quic_config) socket);
  ret (token, endpoint).

(** ** One connection *)

Section Connection.
(** The arguments [main] passes to every task: the token and fields of the
    configuration. *)
Context (fuel : nat) (token : str) (mtu egress_target_mbps datagram_backlog_packets : Z)
  (adaptive_egress : bool) (vpn_transport : VpnTransportMode).

(** [handle_connection] up to the point where a VPN client is let in: [None]
    when the connection was for a benchmark, which has then been run. *)
Definition admit_client (incoming : Z) : M (option conn) :=
  connecting <- call (IncomingAccept incoming);
  connection <- call (Handshake connecting);
  r <- timeout (Within (secs 10)) (server_authenticate connection token);
  mode <- (match r with
           | None => fail (Context (lit "auth timed out") elapsed_error)
           | Some (Err error) => fail error
           | Some (Ok mode) => ret mode
           end);
  match mode with
  | Bench direction duration_secs payload_bytes target_mbps =>
    run_bench fuel connection direction duration_secs payload_bytes target_mbps
      datagram_backlog_packets adaptive_egress ;;
    ret None
  | Vpn =>
    (if bool_decide (vpn_transport = Datagram)
     then ensure_datagram_capacity connection mtu (lit "server") else ret tt) ;;
    ret (Some connection)
  end.

(** Taking the place of the previous client, which is closed. *)
Definition register_client (id : Z) (connection : conn) : M unit :=
  previous <- perform (ReplaceActive id connection);
  match previous with
  | Some (_, previous_connection) =>
    perform (Close previous_connection 0 (lit "replaced by new authenticated client"))
  | None => ret tt
  end.

(** The pumps of the tunnel, both directions at once. *)
Definition run_tunnel (connection : conn) : M unit :=
  match vpn_transport with
  | Datagram =>
    let up := pump_tun_to_quic fuel connection mtu (lit "server") egress_target_mbps
                datagram_backlog_packets adaptive_egress in
    let down := pump_quic_to_tun fuel connection (lit "server") in
    select2 up down
  | Stream =>
    send_stream <- call_context "failed to open server packet stream" (OpenUni connection);
    recv_stream <- call_context "failed to accept client packet stream" (AcceptUni connection);
    let up := pump_tun_to_stream fuel send_stream connection mtu (lit "server")
                egress_target_mbps adaptive_egress in
    let down := pump_stream_to_tun fuel recv_stream (mtu + 64) (lit "server") in
    select2 up down
  end.

Definition serve_client (id : Z) (connection : conn) : M unit :=
  register_client id connection ;;
  run_tunnel connection.

(** The result, and what [client_id] holds at the end. *)
Definition handle_connection (incoming : Z) : prog (outcome unit * option Z) :=
  pbind (admit_client incoming) (fun r =>
    match r with
    | Val None => Ret (Val tt, None)
    | Val (Some connection) =>
      Vis NextClientId (fun id =>
        pbind (serve_client id connection) (fun r => Ret (r, Some id)))
    | Fail error => Ret (Fail error, None)
    | Panic m => Ret (Panic m, None)
    | Running => Ret (Running, None)
    end).

(** The spawned task: whatever the result, the client's place is given up.
    A panic ends the process ([panic = "abort"]). *)
Definition client_task (incoming : Z) : prog (outcome unit) :=
  pbind (handle_connection incoming) (fun '(r, client_id) =>
    match r with
    | Panic m => Ret (Panic m)
    | Running => Ret Running
    | _ =>
      match client_id with
      | Some id => Vis (ClearActive id) (fun _ => Ret (Val tt))
      | None => Ret (Val tt)
      end
    end).
End Connection.

(** ** What runs before a client is let in *)

(** All calls but those on the TUN device, the shared registration, and the
    closing of a connection. *)
Definition outside_tunnel : forall X, Op X -> bool := fun X o =>
  match o with
  | TunRecv _ | TunSend _ | NextClientId | ReplaceActive _ _ | ClearActive _
  | Close _ _ _ => false
  | _ => true
  end.

Lemma run_bench_outside fuel c d dur pay tgt bl a :
  all_ops outside_tunnel (run_bench fuel c d dur pay tgt bl a).
Proof.
  unfold run_bench, run_upload_bench, upload_bench_body, run_download_bench, download_bench_body,
    select_bench_turn, run_stream_upload_bench, stream_upload_body, run_stream_download_bench,
    stream_download_body. ops.
Qed.

Lemma server_authenticate_outside c t : all_ops outside_tunnel (server_authenticate c t).
Proof. unfold server_authenticate. ops. Qed.

#[export] Hint Resolve run_bench_outside server_authenticate_outside : calls.

Lemma admit_client_outside fuel token mtu bl a tr i :
  all_ops outside_tunnel (admit_client fuel token mtu bl a tr i).
Proof. unfold admit_client, ensure_datagram_capacity. ops. Qed.
#[export] Hint Resolve admit_client_outside : calls.

(** The request accepted in a history that continues [h]. *)
Definition token_shown (token : str) (mode : AuthMode) (t : history) : Prop :=
  exists request, reads_to_end t = [request] /\ parse_request request = Ok (token, mode).

(** Authentication under the time limit: an accepted mode was asked for with
    the right token. *)
Lemma timed_authenticate_cases (E : env) h c token :
  wp E h (timeout (Within (secs 10)) (server_authenticate c token)) (fun r h' =>
    match r with
    | Val (Some (Ok mode)) => exists t, h' = h ++ t /\ token_shown token mode t
    | Val _ => True
    | _ => False
    end).
Proof.
  unfold wp, server_authenticate. cbn -[parse_request app].
  destruct (E bool _ (Expired _)); [done|]. cbn -[parse_request app].
  destruct (E _ _ (AcceptBi c)) as [[send recv]|e]; cbn -[parse_request app]; [|done].
  destruct (E bool _ (Expired _)); [done|]. cbn -[parse_request app].
  destruct (E _ _ (ReadToEnd _ _)) as [request|e]; cbn -[parse_request app]; [|done].
  destruct (parse_request request) as [[tok mode]|e] eqn:Hp; cbn -[app]; [|done].
  destruct (E bool _ (Expired _)); [done|]. cbn -[app].
  destruct (E _ _ (WriteAll _ _)) as [[]|e]; cbn -[app]; [|done].
  destruct (E bool _ (Expired _)); [done|]. cbn -[app].
  destruct (E _ _ (Finish _)) as [[]|e]; cbn -[app]; [|done].
  case_bool_decide; cbn -[app]; [|done].
  eexists. split; [by rewrite <-!app_assoc|].
  exists request. subst. split; [|done]. unfold reads_to_end. by hist_simpl.
Qed.

Abbreviation outside t :=
  (Forall (fun e => match e with Ev o _ => outside_tunnel _ o = true end) t).

(** A client that is let in has shown the token, and nothing touched the
    tunnel before. *)
Lemma admit_client_spec E h fuel token mtu bl a tr i :
  wp E h (admit_client fuel token mtu bl a tr i) (fun r h' => exists t, h' = h ++ t /\
    outside t /\ match r with Val (Some _) => token_shown token Vpn t | _ => True end).
Proof.
  assert (wp E h (admit_client fuel token mtu bl a tr i) (fun r h' =>
    match r with
    | Val (Some _) => exists t, h' = h ++ t /\ token_shown token Vpn t
    | _ => True
    end)) as Hshown.
  { unfold admit_client. apply wp_bind, wp_vis.
    destruct (E _ h (IncomingAccept i)) as [cg|]; [apply wp_ret|done].
    apply wp_bind, wp_vis. set (h1 := h ++ _).
    destruct (E _ h1 (Handshake cg)) as [c|]; [apply wp_ret|done]. set (h2 := h1 ++ _).
    apply wp_bind. eapply wp_mono; [apply timed_authenticate_cases|].
    intros [[[mode|]|]| | |] h3 H3; try done. destruct H3 as (t & -> & Ht).
    apply wp_bind, wp_ret. destruct mode as [|d dur pay tgt].
    - apply wp_bind. eapply wp_mono; [apply (waiting_waited E)|].
      { unfold ensure_datagram_capacity. ops. }
      intros r h4 (w & -> & Hw). destruct r; try done. apply wp_ret.
      unfold h2, h1. rewrite <-!app_assoc. eexists. split; [reflexivity|].
      destruct Ht as (rq & Hr & Hp). exists rq. split; [|done].
      unfold reads_to_end in *. rewrite !observe_app, !observe_one, Hr.
      rewrite (waits_observe _ w); [done| |done]. by intros X [] x Hx.
    - apply wp_bind. unfold wp. destruct (run E _ _) as [[] h4]; done. }
  destruct (all_ops_run outside_tunnel E _ h (admit_client_outside fuel token mtu bl a tr i))
    as (t & Et & Ht).
  exists t. split; [exact Et|]. split; [exact Ht|].
  unfold wp in Hshown. rewrite Et in Hshown.
  destruct (run E h _).1 as [[c|]| | |]; try done.
  destruct Hshown as (t' & Eq & Hs). by apply app_inv_head in Eq as ->.
Qed.

(** ** Benchmark accounting *)

(** The loop of the upload benchmark counts the datagrams it received. *)
Lemma upload_bench_loop E fuel c deadline h :
  wp E h (loop fuel (upload_bench_body c deadline) (0, 0)) (fun r h' => exists t, h' = h ++ t /\
    writes t = [] /\
    match r with
    | Val (packets, bytes) =>
      packets = wrap (zlen (datagrams_received c t)) /\
      bytes = wrap (sum_len (datagrams_received c t))
    | Panic _ => False
    | _ => True
    end).
Proof.
  apply (wp_loop _ _ _ _ _ (fun st h' => exists t, h' = h ++ t /\ writes t = [] /\
    st.1 = wrap (zlen (datagrams_received c t)) /\
    st.2 = wrap (sum_len (datagrams_received c t)))).
  - exists []. by rewrite app_nil_r.
  - intros [packets bytes] h1 (t & -> & Hw & Hp & Hb). cbn [fst snd] in *.
    unfold upload_bench_body, wp. cbn -[app].
    destruct (E bool _ (Expired _)); cbn -[app].
    { exists (t ++ [Ev (Expired (Until deadline)) true]). rewrite <-app_assoc. split; [done|].
      rewrite datagrams_received_app. unfold writes in *. rewrite observe_app, Hw.
      split; [done|]. change (datagrams_received c [Ev (Expired (Until deadline)) true]) with (@nil (list Z)).
      rewrite app_nil_r. by split. }
    destruct (E _ _ (ReadDatagram c)) as [d|e]; cbn -[app].
    + exists (t ++ [Ev (Expired (Until deadline)) false] ++ [Ev (ReadDatagram c) (Ok d)]).
      rewrite <-!app_assoc. split; [done|].
      unfold writes in *. rewrite !observe_app, Hw. split; [done|].
      rewrite !datagrams_received_app. cbn. rewrite Z.eqb_refl. cbn.
      rewrite length_app, sum_len_snoc, Hp, Hb, !wrap_add. cbn. split; do 2 f_equal; lia.
    + exists (t ++ [Ev (Expired (Until deadline)) false] ++ [Ev (ReadDatagram c) (Err e)]).
      rewrite <-!app_assoc. split; [done|].
      unfold writes in *. rewrite !observe_app, Hw. split; done.
  - intros st h1 (t & -> & Hw & _). by exists t.
Qed.

Lemma writes_app h1 h2 : writes (h1 ++ h2) = writes h1 ++ writes h2.
Proof. apply observe_app. Qed.

(** What [send_bench_summary] writes, whatever the connection answers. *)
Lemma send_summary_writes E h c d e m b p n t :
  wp E h (send_bench_summary c d e m b p n t) (fun r h' => exists w, h' = h ++ w /\
    datagrams_received c w = [] /\
    match r with
    | Val _ => exists st, writes w = [as_bytes (summary_text d e m b p n t (stats_text st))]
    | Fail _ => True
    | _ => False
    end).
Proof.
  unfold send_bench_summary, connection_stats_summary, wp.
  cbn -[app summary_text as_bytes millis]. set (st := E _ h (ConnStats c)).
  destruct (E _ _ (OpenBi c)) as [[send recv]|er]; cbn -[app summary_text as_bytes millis];
    [|eexists; rewrite <-!app_assoc; by split].
  destruct (E _ _ (WriteAll _ _)) as [[]|er]; cbn -[app summary_text as_bytes millis];
    [|eexists; rewrite <-!app_assoc; by split].
  destruct (E _ _ (Finish _)) as [[]|er]; cbn -[app summary_text as_bytes millis];
    [|eexists; rewrite <-!app_assoc; by split].
  case_poll; cbn -[app summary_text as_bytes millis];
    (eexists; rewrite <-!app_assoc; split; [reflexivity|]; split; [done|]; by exists st).
Qed.

(** The seconds a benchmark adds to the time at which it starts. *)
Definition deadline_secs (direction : BenchDirection) (duration : Z) : Z :=
  match direction with
  | Upload | StreamUpload | StreamPacketUpload => wrapping_add_u64 duration 1
  | Download | StreamDownload | StreamPacketDownload => duration
  end.

(** No [Instant] holds more seconds than an [i64]. *)
Lemma deadline_overflows E h d {A} (rest : Z -> Z -> M A) : clock_ok E -> I64_MAX < d ->
  (run E h (started <- perform Now; deadline <- instant_add started (secs d);
            rest started deadline)).1 = Panic (lit "overflow when adding duration to instant").
Proof.
  intros Hclock Hd. unfold instant_add. cbn -[app secs Z.leb Z.div].
  destruct (Hclock h) as (H0 & _). rewrite (proj2 (Z.leb_gt _ _)); [done|].
  unfold secs, NANOS_PER_SEC. rewrite Z.div_add by done.
  assert (0 <= E Z h Now / 1000000000) by (by apply Z.div_pos). lia.
Qed.

Lemma run_bench_overflows (E : env) h fuel c direction duration payload tgt backlog adaptive stream :
  (forall h, E _ h (AcceptUni c) = Ok stream) -> (forall h, E _ h (OpenUni c) = Ok stream) ->
  clock_ok E -> I64_MAX < deadline_secs direction duration ->
  (run E h (run_bench fuel c direction duration payload tgt backlog adaptive)).1
  = Panic (lit "overflow when adding duration to instant").
Proof.
  intros Huni Hopen Hclock Hd.
  assert (forall {A} m (o : Op (ext sid)) d (rest : sid -> Z -> Z -> M A),
    (forall h, E _ h o = Ok stream) -> I64_MAX < d ->
    (run E h (s <- call_context m o; started <- perform Now;
              deadline <- instant_add started (secs d); rest s started deadline)).1
    = Panic (lit "overflow when adding duration to instant")) as Hstream.
  { intros A m o d rest Ho H. unfold bind at 1. cbn -[app secs instant_add bind]. rewrite Ho.
    cbn -[app secs instant_add bind]. by apply deadline_overflows. }
  unfold run_bench. destruct direction; cbn [deadline_secs] in Hd.
  - by apply deadline_overflows.
  - unfold run_download_bench, bind at 1. cbn -[app secs instant_add bind]. by apply deadline_overflows.
  - by apply Hstream.
  - by apply Hstream.
  - by apply Hstream.
  - by apply Hstream.
Qed.

(** ** Properties *)

(** C1: Nothing reaches the tunnel without the token. In every environment,
    the task of a connection makes no call on the TUN device or on the shared
    registration, and closes no other client, unless, before the first such
    call, it read a request that parses to the configured token in VPN mode. *)
Theorem tunnel_needs_token E h fuel token mtu target backlog adaptive transport incoming :
  exists t,
    (run E h (client_task fuel token mtu target backlog adaptive transport incoming)).2 = h ++ t /\
    (outside t \/
     exists t1 t2, t = t1 ++ t2 /\ outside t1 /\ token_shown token Vpn t1).
Proof.
  enough (wp E h (client_task fuel token mtu target backlog adaptive transport incoming)
    (fun _ h' => exists t1, outside t1 /\
       (h' = h ++ t1 \/ token_shown token Vpn t1 /\ exists t2, h' = h ++ t1 ++ t2))) as H.
  { destruct H as (t1 & Hout & [Et|(Hs & t2 & Et)]).
    - exists t1. split; [exact Et|by left].
    - exists (t1 ++ t2). split; [exact Et|]. right. by exists t1, t2. }
  unfold client_task, handle_connection. apply wp_pbind, wp_pbind.
  eapply wp_mono; [apply admit_client_spec|].
  intros r h1 (t1 & -> & Hout & Hs).
  destruct r as [[c|]| | |]; [|by apply wp_ret; exists t1; split; [|left]..].
  apply wp_vis. set (h2 := (h ++ t1) ++ _). unfold wp.
  match goal with |- context [run E h2 ?p] => destruct (run_extends E p h2) as [t2 Et2] end.
  rewrite Et2.
  match goal with |- context [run E ?h3 ?p] => destruct (run_extends E p h3) as [t3 Et3] end.
  rewrite Et3. exists t1. split; [done|]. right. split; [done|].
  unfold h2. rewrite <-!app_assoc. by eexists.
Qed.

(** The upload benchmark reports what it received: when
    [run_upload_bench] returns, the one message it wrote is a summary whose
    packets and bytes are the number and the total length of the datagrams
    received on the connection (modulo 2^64), for the requested duration. *)
Lemma upload_bench_counts E h fuel c duration payload target :
  let r := run E h (run_upload_bench fuel c duration payload target) in
  r.1 = Val tt ->
  exists t elapsed st, r.2 = h ++ t /\
    writes t = [as_bytes (summary_text (lit "upload") elapsed (secs duration)
                  (wrap (sum_len (datagrams_received c t)))
                  (wrap (zlen (datagrams_received c t))) payload target (stats_text st))].
Proof.
  intros r Hv.
  assert (wp E h (run_upload_bench fuel c duration payload target) (fun r h' => r = Val tt ->
    exists t elapsed st, h' = h ++ t /\
      writes t = [as_bytes (summary_text (lit "upload") elapsed (secs duration)
                    (wrap (sum_len (datagrams_received c t)))
                    (wrap (zlen (datagrams_received c t))) payload target (stats_text st))])) as H;
    [|exact (H Hv)].
  clear r Hv. unfold run_upload_bench. apply wp_bind, wp_vis, wp_ret. set (h1 := h ++ _).
  apply wp_bind. unfold instant_add. destruct (_ <=? _); apply wp_ret; [|intros [=]].
  apply wp_bind. eapply wp_mono; [apply upload_bench_loop|].
  intros r h2 (t & -> & Hw & Hr). destruct r as [[packets bytes]| | |]; try done.
  destruct Hr as [-> ->]. unfold elapsed_since.
  apply wp_bind, wp_bind, wp_vis, wp_ret, wp_ret. set (h3 := (h1 ++ t) ++ _).
  eapply wp_mono; [apply send_summary_writes|].
  intros r h4 (w & -> & Hd & Hr) ->. destruct Hr as [st Hr].
  eexists _, _, st. unfold h3, h1. rewrite <-!app_assoc. split; [reflexivity|].
  rewrite !writes_app, Hw, Hr, !datagrams_received_app, Hd. cbn [app]. rewrite !app_nil_r.
  reflexivity.
Qed.

(** Two datagrams, then the wait expires. *)
Definition two_datagrams : env := fun X h o =>
  match o in Op X return X -> X with
  | Now => fun _ => Z.max 0 (time_floor h)
  | Expired _ => fun _ => (2 <=? zlen (datagrams_received 1 h))
  | ReadDatagram _ => fun _ => Ok [1; 2; 3]
  | _ => fun x => x
  end (example_sender X h o).

Lemma upload_bench_counts_witness :
  let r := run two_datagrams [] (run_upload_bench 9 1 3 1300 (Some 40)) in
  exists t elapsed st, r.2 = [] ++ t /\
    writes t = [as_bytes (summary_text (lit "upload") elapsed (secs 3)
                  (wrap (sum_len (datagrams_received 1 t)))
                  (wrap (zlen (datagrams_received 1 t))) 1300 (Some 40) (stats_text st))].
Proof.
  apply (upload_bench_counts two_datagrams [] 9 1 3 1300 (Some 40)).
  vm_compute. reflexivity.
Defined.

(** C32: Durations are not bounded. A client that has the token can ask for a
    benchmark of any direction and any [u64] number of seconds. When the
    seconds to the deadline ([deadline_secs]: one more than asked for an
    upload, modulo 2^64) are 2^63 or more, which is a duration of 2^63 or more
    for a download and one from 2^63 - 1 to 2^64 - 2 for an upload, the
    deadline overflows and the task panics, which ends the server process. *)
Theorem oversized_duration_panics (E : env) h fuel token mtu target backlog adaptive transport
    incoming connecting c send recv stream direction duration payload tgt :
  (forall h, E _ h (IncomingAccept incoming) = Ok connecting) ->
  (forall h, E _ h (Handshake connecting) = Ok c) ->
  (forall h, E _ h (AcceptUni c) = Ok stream) -> (forall h, E _ h (OpenUni c) = Ok stream) ->
  (forall h l, E bool h (Expired l) = false) -> clock_ok E ->
  let mode := Bench direction duration payload tgt in
  token_ok token mode -> mode_requestable mode ->
  server_link E c send recv (auth_request token mode) ->
  zlen (auth_request token mode) <= MAX_AUTH_BYTES ->
  I64_MAX < deadline_secs direction duration ->
  (run E h (client_task fuel token mtu target backlog adaptive transport incoming)).1
  = Panic (lit "overflow when adding duration to instant").
Proof.
  intros Hinc Hhs Huni Hopen Hexp Hclock mode Htok Hmode [Hacc Hread Hwrite Hfin] Hlen Hdur.
  assert (exists tgt', parse_request (auth_request token mode)
            = Ok (token, Bench direction duration payload tgt')) as [tgt' Hparse].
  { rewrite parse_auth_request by done. subst mode. destruct tgt as [[]|]; by eexists. }
  set (request := auth_request token mode) in *. clearbody request. clear Hmode Htok.
  unfold client_task, handle_connection, admit_client, server_authenticate.
  cbn -[parse_request app run_bench]. rewrite Hinc.
  cbn -[parse_request app run_bench]. rewrite Hhs.
  cbn -[parse_request app run_bench]. rewrite Hexp.
  cbn -[parse_request app run_bench]. rewrite Hacc.
  cbn -[parse_request app run_bench]. rewrite Hexp.
  cbn -[parse_request app run_bench]. rewrite Hread by done.
  cbn -[parse_request app run_bench]. rewrite Hparse.
  cbn -[app run_bench]. rewrite Hexp.
  cbn -[app run_bench]. rewrite Hwrite.
  cbn -[app run_bench]. rewrite Hexp.
  cbn -[app run_bench]. rewrite Hfin.
  cbn -[app run_bench]. rewrite bool_decide_true by done. cbn -[app run_bench].
  unfold bind. rewrite !run_pbind.
  match goal with |- context [run E ?h1 (run_bench _ _ _ _ _ _ _ _)] =>
    pose proof (run_bench_overflows E h1 fuel c direction duration payload tgt' backlog adaptive
      stream Huni Hopen Hclock Hdur) as Hrun; destruct (run E h1 (run_bench _ _ _ _ _ _ _ _)) as [r h'] end.
  cbn [fst snd] in *. by subst r.
Qed.

(** A client whose request arrives whole, on a clock that stands still. *)
Definition one_client (request : bytes) : env := fun X h o =>
  match o in Op X return X -> X with
  | Now => fun _ => Z.max 0 (time_floor h)
  | IncomingAccept _ => fun _ => Ok 7
  | Handshake _ => fun _ => Ok 8
  | AcceptUni _ => fun _ => Ok 9
  | OpenUni _ => fun _ => Ok 9
  | _ => fun x => x
  end (example_server request X h o).

Lemma one_client_link request : server_link (one_client request) 8 3 4 request.
Proof. by split. Qed.

(** Both kinds of deadline: a stream download of 2^63 seconds and an upload of
    2^63 - 1. *)
Lemma oversized_duration_panics_witness :
  (run (one_client (auth_request (lit "k") (Bench StreamDownload (I64_MAX + 1) 1300 None))) []
     (client_task 9 (lit "k") 1300 36 64 true Datagram 0)).1
  = Panic (lit "overflow when adding duration to instant") /\
  (run (one_client (auth_request (lit "k") (Bench Upload I64_MAX 1300 None))) []
     (client_task 9 (lit "k") 1300 36 64 true Datagram 0)).1
  = Panic (lit "overflow when adding duration to instant").
Proof.
  split; [apply (oversized_duration_panics
      (one_client (auth_request (lit "k") (Bench StreamDownload (I64_MAX + 1) 1300 None))) [] 9 (lit "k")
      1300 36 64 true Datagram 0 7 8 3 4 9 StreamDownload (I64_MAX + 1) 1300 None)
    |apply (oversized_duration_panics
      (one_client (auth_request (lit "k") (Bench Upload I64_MAX 1300 None))) [] 9 (lit "k")
      1300 36 64 true Datagram 0 7 8 3 4 9 Upload I64_MAX 1300 None)].
  all: try done.
  all: try exact ticking_clock.
  all: try apply one_client_link.
  all: try (split; [by repeat constructor|]; split; [by apply (bool_decide_unpack _)|done]).
  all: unfold mode_requestable, normalize_mode, mode_ok, U64_MAX, I64_MAX; lia.
Defined.

(** The next upload duration after those of the theorem, 2^64 - 1 seconds, wraps
    to a deadline that has passed at once. *)
Example largest_upload_wraps :
  deadline_secs Upload (2 ^ 64 - 1) = 0 /\ deadline_secs Upload (2 ^ 64 - 2) = 2 ^ 64 - 1.
Proof. done. Qed.

(** C39: For durations below 2^61 seconds the upload benchmark never panics. *)
Theorem upload_bench_no_panic E h fuel c duration payload target m :
  clock_ok E -> time_floor h <= TIME_MAX -> 0 <= duration < 2 ^ 61 ->
  (run E h (run_upload_bench fuel c duration payload target)).1 <> Panic m.
Proof.
  intros Hclock Hh Hd Hp.
  enough (wp E h (run_upload_bench fuel c duration payload target) (fun r _ => r <> Panic m)) as H
    by exact (H Hp).
  clear Hp. unfold run_upload_bench. apply wp_bind, wp_vis, wp_ret.
  destruct (Hclock h) as (H0 & _ & H1). specialize (H1 Hh). set (h1 := h ++ _).
  apply wp_bind. unfold instant_add.
  assert (wrapping_add_u64 duration 1 = duration + 1) as ->
    by (unfold wrapping_add_u64, U64_MAX; rewrite Z.mod_small; lia).
  rewrite (proj2 (Z.leb_le _ _)).
  2:{ unfold secs, NANOS_PER_SEC. rewrite Z.div_add by done.
      assert (E Z h Now / 1000000000 <= 2 ^ 62) by
        (apply Z.div_le_upper_bound; unfold TIME_MAX in *; lia).
      unfold I64_MAX. lia. }
  apply wp_ret, wp_bind. eapply wp_mono; [apply upload_bench_loop|].
  intros r h2 (t & _ & _ & Hr). destruct r as [[packets bytes]| | |]; try done.
  unfold elapsed_since. apply wp_bind, wp_bind, wp_vis, wp_ret, wp_ret.
  eapply wp_mono; [apply send_summary_writes|].
  intros r h4 (w & _ & _ & Hr'). by destruct r.
Qed.

Lemma upload_bench_no_panic_witness :
  (run two_datagrams [] (run_upload_bench 9 1 3 1300 (Some 40))).1 <> Panic [].
Proof.
  apply (upload_bench_no_panic two_datagrams [] 9 1 3 1300 (Some 40) []).
  - exact ticking_clock.
  - done.
  - lia.
Defined.
