(* ===== verification/Registry.v ===== *)
(** * The active client: tasks of [litevpn-server/src/main.rs] together

    The server spawns a task per connection. The tasks share two things:
    [next_client_id], an atomic counter, and [active], the one VPN client that
    has the tunnel, under a lock. Here any number of [client_task]s run at the
    same time, one call at a time in any order; calls on the shared state are
    answered from it, all others by anything at all. *)

From S2P Require Import Prelude RustStr World Auth Config Frame Float64 Pacer Backlog Pumps.
From S2P Require Import Summary Server.

(** ** The shared state *)

(** [ActiveClient]. *)
Record ActiveClient := mk_client { client_id : Z; client_connection : conn }.

Record shared := mk_shared { active : option ActiveClient; next_client_id : Z }.

Definition shared_init : shared := mk_shared None 1.

(** [*active = None] when the client there is the task's own. *)
Definition clear_active (id : Z) (active : option ActiveClient) : option ActiveClient :=
  let should_clear :=
    match active with Some client => client_id client =? id | None => false end in
  if should_clear then None else active.

(** The answer of a call on the shared state and the state after it; [None]
    for the other calls. [fetch_add] wraps. *)
Definition shared_op (s : shared) {X} (o : Op X) : option (X * shared) :=
  match o in Op X return option (X * shared) with
  | NextClientId =>
    Some (next_client_id s, mk_shared (active s) (wrapping_add_u64 (next_client_id s) 1))
  | ReplaceActive id c =>
    Some ((fun client => (client_id client, client_connection client)) <$> active s,
          mk_shared (Some (mk_client id c)) (next_client_id s))
  | ClearActive id => Some (tt, mk_shared (clear_active id (active s)) (next_client_id s))
  | _ => None
  end.

(** ** The tasks *)

Record state := mk_state { memory : shared; tasks : gmap nat (prog (outcome unit)) }.

Inductive label : Type :=
| Spawn (t : nat) (incoming : Z)
| Called (t : nat) (e : event).

Definition init : state := mk_state shared_init ∅.

(** The events of a log that concern the registration: who took the client's
    place, who gave it up, and the connections closed. *)
Definition observe_label {B} (f : nat -> forall X, Op X -> X -> list B) (ls : list label) : list B :=
  flat_map (fun l => match l with Called t (Ev o x) => f t _ o x | Spawn _ _ => [] end) ls.

Definition registered : list label -> list (nat * Z * conn) :=
  observe_label (fun t X o x =>
    match o with ReplaceActive id c => [(t, id, c)] | _ => [] end).

Definition gave_up : list label -> list (nat * Z) :=
  observe_label (fun t X o x => match o with ClearActive id => [(t, id)] | _ => [] end).

Definition closed : list label -> list conn :=
  observe_label (fun t X o x => match o with Close c _ _ => [c] | _ => [] end).

Section System.
(** The task spawned for an incoming connection. *)
Context (task : Z -> prog (outcome unit)).

Inductive step : state -> label -> state -> Prop :=
| step_spawn m ts t incoming :
    ts !! t = None ->
    step (mk_state m ts) (Spawn t incoming) (mk_state m (<[t := task incoming]> ts))
| step_shared m ts t X (o : Op X) k x m' :
    ts !! t = Some (Vis o k) -> shared_op m o = Some (x, m') ->
    step (mk_state m ts) (Called t (Ev o x)) (mk_state m' (<[t := k x]> ts))
| step_other m ts t X (o : Op X) k x :
    ts !! t = Some (Vis o k) -> shared_op m o = None ->
    step (mk_state m ts) (Called t (Ev o x)) (mk_state m (<[t := k x]> ts)).
End System.

(** ** The protocol a task follows

    Where a task stands: before registration, with an id, holding the place
    with a displaced connection still to close, serving, done. *)
Inductive phase : Type :=
| Fresh
| Numbered (id : Z)
| Displacing (id : Z) (c : conn) (previous : conn)
| Serving (id : Z) (c : conn)
| GaveUp (id : Z).

Definition next_phase (ph : phase) {X} (o : Op X) (x : X) : option phase :=
  match ph with
  | Fresh =>
    match o in Op X return X -> option phase with
    | NextClientId => fun id => Some (Numbered id)
    | ReplaceActive _ _ => fun _ => None
    | ClearActive _ => fun _ => None
    | Close _ _ _ => fun _ => None
    | _ => fun _ => Some Fresh
    end x
  | Numbered id =>
    match o in Op X return X -> option phase with
    | ReplaceActive id' c => fun previous =>
      if id' =? id then
        Some (match previous with Some (_, pc) => Displacing id c pc | None => Serving id c end)
      else None
    | _ => fun _ => None
    end x
  | Displacing id c pc =>
    match o with
    | Close c' _ _ => if c' =? pc then Some (Serving id c) else None
    | _ => None
    end
  | Serving id c =>
    match o with
    | NextClientId | ReplaceActive _ _ | Close _ _ _ => None
    | ClearActive id' => if id' =? id then Some (GaveUp id) else None
    | _ => Some (Serving id c)
    end
  | GaveUp _ => None
  end.

(** Where a task may end; a panic ends the process. *)
Definition final (ph : phase) (r : outcome unit) : Prop :=
  match ph, r with
  | Fresh, _ | GaveUp _, _ => True
  | Serving _ _, Panic _ | Serving _ _, Running => True
  | _, _ => False
  end.

Fixpoint conforms (ph : phase) (p : prog (outcome unit)) : Prop :=
  match p with
  | Ret r => final ph r
  | Vis o k => forall x,
      match next_phase ph o x with
      | Some ph' => conforms ph' (k x)
      | None => False
      end
  end.

(** ** [client_task] follows it *)

(** The calls that leave the phase alone. *)
Definition unshared : forall X, Op X -> bool := fun X o =>
  match o with
  | NextClientId | ReplaceActive _ _ | ClearActive _ | Close _ _ _ => false
  | _ => true
  end.

Lemma run_tunnel_unshared fuel mtu target bl a tr c :
  all_ops unshared (run_tunnel fuel mtu target bl a tr c).
Proof.
  unfold run_tunnel, pump_tun_to_quic, pump_quic_to_tun, pump_tun_to_stream, pump_stream_to_tun,
    tun_to_quic_body, quic_to_tun_body, tun_to_stream_body, stream_to_tun_body, recv_or_closed.
  ops.
Qed.

(** A part of a task that stays in its phase. *)
Definition steady (ph : phase) : Prop :=
  match ph with Fresh | Serving _ _ => True | _ => False end.

Lemma next_phase_steady ph X (o : Op X) x :
  steady ph -> unshared X o = true -> next_phase ph o x = Some ph.
Proof. by destruct ph, o. Qed.

Lemma conforms_pbind {A} ph (p : prog A) f :
  steady ph -> all_ops unshared p -> (forall a, conforms ph (f a)) -> conforms ph (pbind p f).
Proof.
  intros Hst. induction p as [a|X o k IH]; intros Hp Hf; [apply Hf|].
  destruct Hp as [Ho Hk]. cbn. intros x. rewrite next_phase_steady by done. by apply IH.
Qed.

Lemma conforms_pbind2 {A B} ph (p : prog A) (f : A -> prog B) g :
  steady ph -> all_ops unshared p -> (forall a, conforms ph (pbind (f a) g)) ->
  conforms ph (pbind (pbind p f) g).
Proof.
  intros Hst. induction p as [a|X o k IH]; intros Hp Hf; [apply Hf|].
  destruct Hp as [Ho Hk]. cbn. intros x. rewrite next_phase_steady by done. by apply IH.
Qed.

Lemma client_task_conforms fuel token mtu target bl a tr incoming :
  conforms Fresh (client_task fuel token mtu target bl a tr incoming).
Proof.
  unfold client_task, handle_connection. apply conforms_pbind2; [done| |].
  { auto with vpn. }
  intros [[c|]| | |]; try done. cbn -[run_tunnel]. intros id x.
  rewrite Z.eqb_refl.
  assert (conforms (Serving id c)
    (pbind (pbind (run_tunnel fuel mtu target bl a tr c) (fun r => Ret (r, Some id)))
       (fun '(r, client_id) =>
          match r with
          | Panic m => Ret (Panic m)
          | Running => Ret Running
          | _ =>
            match client_id with
            | Some id => Vis (ClearActive id) (fun _ => Ret (Val tt))
            | None => Ret (Val tt)
            end
          end))) as H.
  { apply conforms_pbind2; [done|apply run_tunnel_unshared|].
    intros []; cbn; try done; intros _; by rewrite Z.eqb_refl. }
  destruct x as [[pid pc]|]; cbn -[run_tunnel]; [|exact H].
  intros _. rewrite Z.eqb_refl. exact H.
Qed.

(** ** The invariant *)

Definition phase_id (ph : phase) : option Z :=
  match ph with
  | Fresh => None
  | Numbered id | Displacing id _ _ | Serving id _ | GaveUp id => Some id
  end.

(** A task that has taken the client's place, and for which connection. *)
Definition holds (ph : phase) (id : Z) (c : conn) : Prop :=
  ph = Serving id c \/ exists pc, ph = Displacing id c pc.

(** A phase per task ([phases]), in step with the log and the shared state. *)
Record inv (ls : list label) (st : state) (phases : gmap nat phase) : Prop := {
  inv_conforms : forall t p, tasks st !! t = Some p ->
    exists ph, phases !! t = Some ph /\ conforms ph p;
  inv_task : forall t ph, phases !! t = Some ph -> is_Some (tasks st !! t);
  inv_next : 1 <= next_client_id (memory st) <= 1 + zlen ls;
  inv_ids : forall t ph id, phases !! t = Some ph -> phase_id ph = Some id ->
    1 <= id < next_client_id (memory st);
  inv_unique : forall t t' ph ph' id, phases !! t = Some ph -> phases !! t' = Some ph' ->
    phase_id ph = Some id -> phase_id ph' = Some id -> t = t';
  inv_active : forall client, active (memory st) = Some client ->
    exists t ph, phases !! t = Some ph /\ holds ph (client_id client) (client_connection client);
  inv_holds : forall t ph id c, phases !! t = Some ph -> holds ph id c ->
    active (memory st) = Some (mk_client id c) \/ c ∈ closed ls \/
    exists t' id' c', phases !! t' = Some (Displacing id' c' c);
  inv_registered : forall t id c, (t, id, c) ∈ registered ls ->
    exists ph, phases !! t = Some ph /\ (holds ph id c \/ ph = GaveUp id);
  inv_holder : forall t ph id c, phases !! t = Some ph -> holds ph id c ->
    (t, id, c) ∈ registered ls;
  inv_gave_up : forall t id, (t, id) ∈ gave_up ls -> phases !! t = Some (GaveUp id);
  inv_gave_up_log : forall t id, phases !! t = Some (GaveUp id) -> (t, id) ∈ gave_up ls;
}.

Lemma inv_init : inv [] init ∅.
Proof.
  split; cbn; try done; try lia; intros;
    try (rewrite lookup_empty in *; discriminate); set_solver.
Qed.

Lemma observe_label_app {B} (f : nat -> forall X, Op X -> X -> list B) l1 l2 :
  observe_label f (l1 ++ l2) = observe_label f l1 ++ observe_label f l2.
Proof. apply flat_map_app. Qed.

Lemma registered_snoc ls l : registered (ls ++ [l]) = registered ls ++ registered [l].
Proof. apply observe_label_app. Qed.
Lemma gave_up_snoc ls l : gave_up (ls ++ [l]) = gave_up ls ++ gave_up [l].
Proof. apply observe_label_app. Qed.
Lemma closed_snoc ls l : closed (ls ++ [l]) = closed ls ++ closed [l].
Proof. apply observe_label_app. Qed.

Lemma zlen_snoc {A} (l : list A) a : zlen (l ++ [a]) = zlen l + 1.
Proof. rewrite length_app. simpl. lia. Qed.

Ltac insert_cases :=
  repeat match goal with
  | H : <[_ := _]> _ !! _ = Some _ |- _ =>
    apply lookup_insert_Some in H as [[? ?]|[? ?]]; simplify_eq
  end.

(** Holding tells the id and the connection. *)
Lemma holds_inj ph id c id' c' : holds ph id c -> holds ph id' c' -> id = id' /\ c = c'.
Proof. by intros [->|(? & ->)] [[= -> ->]|(? & [= -> -> ?])]. Qed.

Lemma holds_id ph id c : holds ph id c -> phase_id ph = Some id.
Proof. by intros [->|(? & ->)]. Qed.

(** A task keeps its id: ids stay unique. *)
Lemma unique_insert (phases : gmap nat phase) t ph ph' :
  phases !! t = Some ph -> phase_id ph' = phase_id ph ->
  (forall t1 t2 ph1 ph2 id, phases !! t1 = Some ph1 -> phases !! t2 = Some ph2 ->
     phase_id ph1 = Some id -> phase_id ph2 = Some id -> t1 = t2) ->
  forall t1 t2 ph1 ph2 id,
    <[t := ph']> phases !! t1 = Some ph1 -> <[t := ph']> phases !! t2 = Some ph2 ->
    phase_id ph1 = Some id -> phase_id ph2 = Some id -> t1 = t2.
Proof.
  intros Hph Hid Hu.
  assert (forall id t0 ph0, <[t := ph']> phases !! t0 = Some ph0 -> phase_id ph0 = Some id ->
    exists ph1, phases !! t0 = Some ph1 /\ phase_id ph1 = Some id) as Hback.
  { intros id t0 ph0 H0 E0. insert_cases; [exists ph; split; [done|congruence]|eauto]. }
  intros t1 t2 ph1 ph2 id H1 H2 E1 E2.
  destruct (Hback _ _ _ H1 E1) as (? & ? & ?), (Hback _ _ _ H2 E2) as (? & ? & ?). eauto.
Qed.

Section Preservation.
Context (ls : list label) (m : shared) (ts : gmap nat (prog (outcome unit)))
  (phases : gmap nat phase) (t : nat).
Hypothesis Hinv : inv ls (mk_state m ts) phases.

(** The log of an event that concerns the registration in no way. *)
Definition silent (l : label) : Prop :=
  registered [l] = [] /\ gave_up [l] = [] /\ closed [l] = [].

Lemma silent_log l : silent l ->
  registered (ls ++ [l]) = registered ls /\ gave_up (ls ++ [l]) = gave_up ls /\
  closed (ls ++ [l]) = closed ls.
Proof.
  intros (E1 & E2 & E3).
  by rewrite registered_snoc, gave_up_snoc, closed_snoc, E1, E2, E3, !app_nil_r.
Qed.

(** What the insertion of a task's new phase needs not look at. *)
Lemma conforms_insert ph p : conforms ph p -> forall t' q, <[t := p]> ts !! t' = Some q ->
  exists ph', <[t := ph]> phases !! t' = Some ph' /\ conforms ph' q.
Proof.
  intros Hp t' q Hq. insert_cases; [exists ph; by rewrite lookup_insert_eq|].
  rewrite lookup_insert_ne by done. by apply (inv_conforms _ _ _ Hinv).
Qed.

Lemma task_insert ph p : forall t' x, <[t := ph]> phases !! t' = Some x ->
  is_Some (<[t := p]> ts !! t').
Proof.
  intros t' x Hq. destruct (decide (t = t')) as [<-|]; [by rewrite lookup_insert_eq|].
  rewrite lookup_insert_ne in Hq by done. rewrite lookup_insert_ne by done.
  by apply (inv_task _ _ _ Hinv t' x).
Qed.

Lemma ids_insert ph ph' : phases !! t = Some ph -> phase_id ph' = phase_id ph ->
  forall t' x id, <[t := ph']> phases !! t' = Some x -> phase_id x = Some id ->
  1 <= id < next_client_id m.
Proof.
  intros Hph Heq t' x id Hq Hid.
  apply lookup_insert_Some in Hq as [[<- <-]|[_ Hq]]; [rewrite Heq in Hid|];
    by eapply (inv_ids _ _ _ Hinv).
Qed.

Lemma gave_up_insert ph : (forall id, phases !! t <> Some (GaveUp id)) ->
  forall t' id, (t', id) ∈ gave_up ls -> <[t := ph]> phases !! t' = Some (GaveUp id).
Proof.
  intros Hph t' id Hg. apply (inv_gave_up _ _ _ Hinv) in Hg.
  rewrite lookup_insert_ne; [done|]. intros <-. by apply Hph in Hg.
Qed.

(** A claim on the place that a newcomer holds against stays one. *)
Lemma displaced_insert ph c : (forall id c', phases !! t <> Some (Displacing id c' c)) ->
  (exists t' id' c', phases !! t' = Some (Displacing id' c' c)) ->
  exists t' id' c', <[t := ph]> phases !! t' = Some (Displacing id' c' c).
Proof.
  intros Hph (t2 & id2 & c2 & Hd). exists t2, id2, c2. rewrite lookup_insert_ne; [done|].
  intros <-. by apply Hph in Hd.
Qed.

Lemma inv_spawn incoming p :
  ts !! t = None -> conforms Fresh p ->
  inv (ls ++ [Spawn t incoming]) (mk_state m (<[t := p]> ts)) (<[t := Fresh]> phases).
Proof.
  intros Hnone Hp. destruct Hinv as [I1 I2 I3 I4 I5 I6 I7 I8 I9 I10 I11]. cbn in *.
  assert (phases !! t = None) as Hph.
  { destruct (phases !! t) as [ph|] eqn:E; [|done]. apply I2 in E. rewrite Hnone in E. by destruct E. }
  destruct (silent_log (Spawn t incoming)) as (Er & Eg & Ec); [done|].
  split; cbn; rewrite ?Er, ?Eg, ?Ec, ?zlen_snoc.
  - by apply conforms_insert.
  - apply task_insert.
  - lia.
  - intros t' ph id Hq Hid. insert_cases; eauto.
  - intros t1 t2 ph1 ph2 id H1 H2 E1 E2. insert_cases; eauto.
  - intros client Ha. destruct (I6 _ Ha) as (t' & ph & Hq & Hh). exists t', ph.
    rewrite lookup_insert_ne by congruence. done.
  - intros t' ph id c Hq Hh. insert_cases; [by destruct Hh as [|(? & ?)]|].
    destruct (I7 t' ph id c) as [|[|Hd]]; [done..|by left|by right; left|].
    right; right. apply displaced_insert; [by rewrite Hph|done].
  - intros t' id c Hq. destruct (I8 _ _ _ Hq) as (ph & Hx & ?). exists ph.
    rewrite lookup_insert_ne by congruence. done.
  - intros t' ph id c Hq Hh. insert_cases; [by destruct Hh as [|(? & ?)]|]. eauto.
  - apply gave_up_insert. by rewrite Hph.
  - intros t' id Hg. insert_cases. by apply I11.
Qed.

(** A call that leaves the task in its phase and the shared state alone. *)
Lemma inv_same ph p l :
  phases !! t = Some ph -> conforms ph p -> silent l ->
  inv (ls ++ [l]) (mk_state m (<[t := p]> ts)) phases.
Proof.
  intros Hph Hp Hl. destruct Hinv as [I1 I2 I3 I4 I5 I6 I7 I8 I9 I10 I11]. cbn in *.
  destruct (silent_log l Hl) as (Er & Eg & Ec).
  split; cbn; rewrite ?Er, ?Eg, ?Ec, ?zlen_snoc; try done.
  - intros t' q Hq. insert_cases; eauto.
  - intros t' x Hq. destruct (decide (t = t')) as [->|];
      [by rewrite lookup_insert_eq|rewrite lookup_insert_ne by done; eauto].
  - lia.
Qed.

(** Closing the displaced connection. *)
Lemma inv_close id c pc p code reason :
  phases !! t = Some (Displacing id c pc) -> conforms (Serving id c) p ->
  inv (ls ++ [Called t (Ev (Close pc code reason) tt)]) (mk_state m (<[t := p]> ts))
    (<[t := Serving id c]> phases).
Proof.
  intros Hph Hp. destruct Hinv as [I1 I2 I3 I4 I5 I6 I7 I8 I9 I10 I11]. cbn in *.
  set (l := Called _ _).
  assert (registered (ls ++ [l]) = registered ls) as Er
    by (rewrite registered_snoc; apply app_nil_r).
  assert (gave_up (ls ++ [l]) = gave_up ls) as Eg by (rewrite gave_up_snoc; apply app_nil_r).
  assert (closed (ls ++ [l]) = closed ls ++ [pc]) as Ec by apply closed_snoc.
  assert (holds (Displacing id c pc) id c) as Hold by (right; by eexists).
  split; cbn; rewrite ?Er, ?Eg, ?Ec, ?zlen_snoc.
  - by apply conforms_insert.
  - apply task_insert.
  - lia.
  - by apply (ids_insert (Displacing id c pc)).
  - by apply (unique_insert phases t (Displacing id c pc) (Serving id c)).
  - intros client Ha. destruct (I6 _ Ha) as (t' & ph & Hq & Hh).
    destruct (decide (t = t')) as [<-|].
    + rewrite Hph in Hq. injection Hq as <-. exists t, (Serving id c).
      rewrite lookup_insert_eq. split; [done|].
      destruct (holds_inj _ _ _ _ _ Hold Hh) as [<- <-]. by left.
    + exists t', ph. by rewrite lookup_insert_ne.
  - intros t' ph id' c0 Hq Hh.
    assert (exists ph0, phases !! t' = Some ph0 /\ holds ph0 id' c0) as (ph0 & Hq0 & Hh0).
    { insert_cases; [|by exists ph]. exists (Displacing id c pc). split; [done|].
      destruct Hh as [[= -> ->]|(? & ?)]; [|done]. by right; exists pc. }
    destruct (I7 t' ph0 id' c0 Hq0 Hh0) as [|[|(t2 & id2 & c2 & Hd)]];
      [by left|right; left; set_solver|].
    destruct (decide (t = t2)) as [<-|]; [|right; right; exists t2, id2, c2; by rewrite lookup_insert_ne].
    rewrite Hph in Hd. injection Hd as -> -> ->. right; left. set_solver.
  - intros t' id' c0 Hq. destruct (I8 _ _ _ Hq) as (ph & Hx & Hh).
    destruct (decide (t = t')) as [<-|]; [|exists ph; by rewrite lookup_insert_ne].
    exists (Serving id c). rewrite lookup_insert_eq. split; [done|].
    rewrite Hph in Hx. injection Hx as <-. destruct Hh as [Hh|]; [|done].
    destruct (holds_inj _ _ _ _ _ Hold Hh) as [<- <-]. by left; left.
  - intros t' ph id' c0 Hq Hh. insert_cases; [|eauto].
    destruct Hh as [[= -> ->]|(? & ?)]; [|done]. eauto.
  - apply gave_up_insert. by rewrite Hph.
  - intros t' id' Hg. insert_cases. by apply I11.
Qed.

(** Taking a number. *)
Lemma inv_number p :
  zlen ls + 1 < U64_MAX -> phases !! t = Some Fresh ->
  conforms (Numbered (next_client_id m)) p ->
  inv (ls ++ [Called t (Ev NextClientId (next_client_id m))])
    (mk_state (mk_shared (active m) (wrapping_add_u64 (next_client_id m) 1)) (<[t := p]> ts))
    (<[t := Numbered (next_client_id m)]> phases).
Proof.
  intros Hlen Hph Hp. destruct Hinv as [I1 I2 I3 I4 I5 I6 I7 I8 I9 I10 I11]. cbn in *.
  destruct (silent_log (Called t (Ev NextClientId (next_client_id m)))) as (Er & Eg & Ec); [done|].
  assert (wrapping_add_u64 (next_client_id m) 1 = next_client_id m + 1) as En
    by (unfold wrapping_add_u64; rewrite Z.mod_small; lia).
  assert (forall id c, ~ holds Fresh id c) as Hfresh by (intros ? ? [|(? & ?)]; done).
  assert (forall id id' c, ~ holds (Numbered id) id' c) as Hnum by (intros ? ? ? [|(? & ?)]; done).
  split; cbn; rewrite ?Er, ?Eg, ?Ec, ?zlen_snoc, ?En.
  - by apply conforms_insert.
  - apply task_insert.
  - lia.
  - intros t' ph id Hq Hid. insert_cases; [cbn in Hid; simplify_eq; lia|].
    enough (1 <= id < next_client_id m) by lia. eauto.
  - intros t1 t2 ph1 ph2 id H1 H2 E1 E2.
    assert (forall t' ph', phases !! t' = Some ph' -> phase_id ph' <> Some (next_client_id m)) as Hnew.
    { intros t' ph' Hq Hid. pose proof (I4 _ _ _ Hq Hid). lia. }
    apply lookup_insert_Some in H1 as [[<- <-]|[? H1]];
      apply lookup_insert_Some in H2 as [[<- <-]|[? H2]]; cbn in E1, E2; simplify_eq;
      [done|by apply Hnew in H2|by apply Hnew in H1|eauto].
  - intros client Ha. destruct (I6 _ Ha) as (t' & ph & Hq & Hh).
    assert (t <> t') by (intros <-; rewrite Hph in Hq; simplify_eq; by eapply Hfresh).
    exists t', ph. by rewrite lookup_insert_ne.
  - intros t' ph id c Hq Hh. insert_cases; [by apply Hnum in Hh|].
    destruct (I7 t' ph id c) as [|[|Hd]]; [done..|by left|by right; left|].
    right; right. apply displaced_insert; [by rewrite Hph|done].
  - intros t' id c Hq. destruct (I8 _ _ _ Hq) as (ph & Hx & Hh). exists ph.
    rewrite lookup_insert_ne; [done|]. intros <-. rewrite Hph in Hx. simplify_eq.
    destruct Hh as [Hh|]; [by apply Hfresh in Hh|done].
  - intros t' ph id c Hq Hh. insert_cases; [by apply Hnum in Hh|]. eauto.
  - apply gave_up_insert. by rewrite Hph.
  - intros t' id Hg. insert_cases. by apply I11.
Qed.

(** Taking the client's place. *)
Lemma inv_replace id c p :
  let previous := (fun client => (client_id client, client_connection client)) <$> active m in
  let ph := match previous with Some (_, pc) => Displacing id c pc | None => Serving id c end in
  phases !! t = Some (Numbered id) -> conforms ph p ->
  inv (ls ++ [Called t (Ev (ReplaceActive id c) previous)])
    (mk_state (mk_shared (Some (mk_client id c)) (next_client_id m)) (<[t := p]> ts))
    (<[t := ph]> phases).
Proof.
  intros previous ph Hph Hp. destruct Hinv as [I1 I2 I3 I4 I5 I6 I7 I8 I9 I10 I11]. cbn in *.
  set (l := Called _ _).
  assert (registered (ls ++ [l]) = registered ls ++ [(t, id, c)]) as Er by apply registered_snoc.
  assert (gave_up (ls ++ [l]) = gave_up ls) as Eg by (rewrite gave_up_snoc; apply app_nil_r).
  assert (closed (ls ++ [l]) = closed ls) as Ec by (rewrite closed_snoc; apply app_nil_r).
  assert (holds ph id c) as Hold.
  { unfold ph. destruct previous as [[? pc]|]; [right; by exists pc|by left]. }
  assert (phase_id ph = Some id) as Hpid by by eapply holds_id.
  assert (forall id id' c, ~ holds (Numbered id) id' c) as Hnum by (intros ? ? ? [|(? & ?)]; done).
  split; cbn; rewrite ?Er, ?Eg, ?Ec, ?zlen_snoc.
  - by apply conforms_insert.
  - apply task_insert.
  - lia.
  - by apply (ids_insert (Numbered id)).
  - by apply (unique_insert phases t (Numbered id) ph).
  - intros client [= <-]. exists t, ph. by rewrite lookup_insert_eq.
  - intros t' x id' c' Hq Hh. apply lookup_insert_Some in Hq as [[<- <-]|[? Hq]].
    { destruct (holds_inj _ _ _ _ _ Hold Hh) as [<- <-]. by left. }
    destruct (I7 _ _ _ _ Hq Hh) as [Ha|[|Hd]]; [|by right; left|].
    + right; right. exists t, id, c. rewrite lookup_insert_eq.
      unfold ph, previous. by rewrite Ha.
    + right; right. apply displaced_insert; [by rewrite Hph|done].
  - intros t' id' c' Hq. apply elem_of_app in Hq as [Hq|Hq].
    + destruct (I8 _ _ _ Hq) as (x & Hx & Hh). exists x. rewrite lookup_insert_ne; [done|].
      intros <-. rewrite Hph in Hx. simplify_eq.
      destruct Hh as [Hh|]; [by apply Hnum in Hh|done].
    + apply list_elem_of_singleton in Hq. simplify_eq. exists ph.
      rewrite lookup_insert_eq. split; [done|by left].
  - intros t' x id' c' Hq Hh. apply elem_of_app.
    apply lookup_insert_Some in Hq as [[<- <-]|[? Hq]]; [|left; eauto].
    destruct (holds_inj _ _ _ _ _ Hold Hh) as [<- <-]. right. by apply list_elem_of_singleton.
  - apply gave_up_insert. by rewrite Hph.
  - intros t' id' Hg. apply lookup_insert_Some in Hg as [[<- Hg]|[? Hg]]; [|by apply I11].
    rewrite Hg in Hold. by destruct Hold as [|(? & ?)].
Qed.

(** Giving it up. *)
Lemma inv_clear id c p :
  phases !! t = Some (Serving id c) -> conforms (GaveUp id) p ->
  inv (ls ++ [Called t (Ev (ClearActive id) tt)])
    (mk_state (mk_shared (clear_active id (active m)) (next_client_id m)) (<[t := p]> ts))
    (<[t := GaveUp id]> phases).
Proof.
  intros Hph Hp. destruct Hinv as [I1 I2 I3 I4 I5 I6 I7 I8 I9 I10 I11]. cbn in *.
  set (l := Called _ _).
  assert (registered (ls ++ [l]) = registered ls) as Er
    by (rewrite registered_snoc; apply app_nil_r).
  assert (gave_up (ls ++ [l]) = gave_up ls ++ [(t, id)]) as Eg by apply gave_up_snoc.
  assert (closed (ls ++ [l]) = closed ls) as Ec by (rewrite closed_snoc; apply app_nil_r).
  assert (forall id id' c, ~ holds (GaveUp id) id' c) as Hgu by (intros ? ? ? [|(? & ?)]; done).
  assert (holds (Serving id c) id c) as Hold by by left.
  split; cbn; rewrite ?Er, ?Eg, ?Ec, ?zlen_snoc.
  - by apply conforms_insert.
  - apply task_insert.
  - lia.
  - by apply (ids_insert (Serving id c)).
  - by apply (unique_insert phases t (Serving id c) (GaveUp id)).
  - intros client Ha. unfold clear_active in Ha.
    destruct (active m) as [cl|] eqn:Em; [|done].
    destruct (Z.eqb_spec (client_id cl) id) as [|Hne]; [done|]. injection Ha as <-.
    destruct (I6 cl eq_refl) as (t' & x & Hq & Hh). exists t', x.
    rewrite lookup_insert_ne; [done|]. intros <-. rewrite Hph in Hq. simplify_eq.
    destruct (holds_inj _ _ _ _ _ Hold Hh). congruence.
  - intros t' x id' c' Hq Hh. apply lookup_insert_Some in Hq as [[<- <-]|[Hne Hq]];
      [by apply Hgu in Hh|].
    destruct (I7 _ _ _ _ Hq Hh) as [Ha|[|Hd]]; [|by right; left|].
    + left. rewrite Ha. unfold clear_active. cbn.
      destruct (Z.eqb_spec id' id) as [->|]; [|done].
      exfalso. apply Hne. symmetry. eapply I5; [exact Hq|exact Hph|by eapply holds_id|done].
    + right; right. apply displaced_insert; [by rewrite Hph|done].
  - intros t' id' c' Hq. destruct (I8 _ _ _ Hq) as (x & Hx & Hh).
    destruct (decide (t = t')) as [<-|]; [|exists x; by rewrite lookup_insert_ne].
    exists (GaveUp id). rewrite lookup_insert_eq. split; [done|]. right.
    rewrite Hph in Hx. simplify_eq. destruct Hh as [Hh|]; [|done].
    by destruct (holds_inj _ _ _ _ _ Hold Hh) as [<- _].
  - intros t' x id' c' Hq Hh. apply lookup_insert_Some in Hq as [[<- <-]|[? Hq]];
      [by apply Hgu in Hh|eauto].
  - intros t' id' Hg. apply elem_of_app in Hg as [Hg|Hg].
    + apply I10 in Hg. rewrite lookup_insert_ne by congruence. done.
    + apply list_elem_of_singleton in Hg. simplify_eq. by rewrite lookup_insert_eq.
  - intros t' id' Hg. apply elem_of_app.
    apply lookup_insert_Some in Hg as [[<- [= <-]]|[? Hg]]; [|left; by apply I11].
    right. by apply list_elem_of_singleton.
Qed.
End Preservation.

(** The calls answered from outside leave the phase alone, except that a
    displaced connection gets closed. *)
Lemma other_op_phase m X (o : Op X) x ph ph' t :
  shared_op m o = None -> next_phase ph o x = Some ph' ->
  (ph' = ph /\ silent (Called t (Ev o x))) \/
  (exists id c pc code reason, ph = Displacing id c pc /\ ph' = Serving id c /\
     Called t (Ev o x) = Called t (Ev (Close pc code reason) tt)).
Proof.
  intros Hs Hn. destruct ph as [|id|id c pc|id c|id]; destruct o; try done;
    try (left; cbn in Hn; simplify_eq; done).
  cbn in Hn. destruct (Z.eqb_spec c0 pc) as [->|]; [|done]. simplify_eq.
  right. destruct x. by eexists _, _, _, _, _.
Qed.

Lemma inv_step task ls st l st' phases :
  (forall i, conforms Fresh (task i)) -> zlen ls + 1 < U64_MAX ->
  inv ls st phases -> step task st l st' -> exists phases', inv (ls ++ [l]) st' phases'.
Proof.
  intros Htask Hlen Hinv Hstep. destruct Hstep as [m ts t i Hn|m ts t X o k x m' Ht Hs|m ts t X o k x Ht Hs].
  - eexists. by apply inv_spawn.
  - destruct (inv_conforms _ _ _ Hinv t _ Ht) as (ph & Hph & Hc).
    cbn in Hc. specialize (Hc x). destruct o; try done; cbn in Hs; simplify_eq.
    + destruct ph; try done. cbn in Hc. eexists. by apply inv_number.
    + destruct ph as [|id'| | |]; try done. cbn in Hc.
      destruct (Z.eqb_spec id id') as [<-|]; [|done]. eexists. by apply inv_replace.
    + destruct ph as [| | |id' c|]; try done. cbn in Hc.
      destruct (Z.eqb_spec id id') as [<-|]; [|done]. eexists. by eapply inv_clear.
  - destruct (inv_conforms _ _ _ Hinv t _ Ht) as (ph & Hph & Hc).
    cbn in Hc. specialize (Hc x). destruct (next_phase ph o x) as [ph'|] eqn:En; [|done].
    destruct (other_op_phase m X o x ph ph' t Hs En)
      as [[-> Hl]|(id & c & pc & code & reason & -> & -> & ->)].
    + exists phases. by eapply inv_same.
    + eexists. by apply inv_close.
Qed.

Lemma reachable_inv task ls st :
  (forall i, conforms Fresh (task i)) -> zlen ls < U64_MAX ->
  steps (step task) init ls st -> exists phases, inv ls st phases.
Proof.
  intros Htask Hlen Hsteps. revert Hlen.
  enough (forall s, steps (step task) s ls st -> s = init -> zlen ls < U64_MAX ->
    exists phases, inv ls st phases) as H by by apply (H init).
  clear Hsteps. intros s Hsteps. induction Hsteps as [s|s ls s1 l s2 Hsteps IH Hstep].
  - intros -> _. exists ∅. apply inv_init.
  - intros Es Hlen. rewrite zlen_snoc in Hlen.
    destruct (IH Es) as [phases Hinv]; [lia|].
    eapply inv_step; [done| |done|done]. lia.
Qed.

(** A task that displaced a connection closes it with its next call. *)
Lemma displacing_closes id c pc p :
  conforms (Displacing id c pc) p -> exists code reason k, p = Vis (Close pc code reason) k.
Proof.
  destruct p as [r|X o k]; [by destruct r|]. cbn. intros H. specialize (H (quiet X [] o)).
  destruct o; try done. cbn in H. destruct (Z.eqb_spec c0 pc) as [->|]; [|done]. by eexists _, _, _.
Qed.

Lemma holder_running ph id c p : conforms ph p -> holds ph id c ->
  match p with Ret (Val _) | Ret (Fail _) => False | _ => True end.
Proof. intros Hc [->|(pc & ->)]; by destruct p as [[]|]. Qed.

(** ** A scheduler, for examples

    [exec E t st]: task [t] makes its next call, answered by [E] when it is not
    on the shared state. *)
Definition exec (E : env) (t : nat) (st : state) : option (label * state) :=
  match tasks st !! t with
  | Some (Vis o k) =>
    match shared_op (memory st) o with
    | Some (x, m') => Some (Called t (Ev o x), mk_state m' (<[t := k x]> (tasks st)))
    | None =>
      let x := E _ [] o in
      Some (Called t (Ev o x), mk_state (memory st) (<[t := k x]> (tasks st)))
    end
  | _ => None
  end.

Fixpoint schedule (E : env) (ts : list nat) (ls : list label) (st : state) : list label * state :=
  match ts with
  | [] => (ls, st)
  | t :: ts =>
    match exec E t st with
    | Some (l, st') => schedule E ts (ls ++ [l]) st'
    | None => (ls, st)
    end
  end.

Lemma exec_step task E t st l st' : exec E t st = Some (l, st') -> step task st l st'.
Proof.
  unfold exec. destruct st as [m ts]. cbn. intros H.
  destruct (ts !! t) as [[r|X o k]|] eqn:Et; try done.
  destruct (shared_op m o) as [[x m']|] eqn:Es; simplify_eq; by econstructor.
Qed.

Lemma schedule_steps task E ts : forall s0 ls st,
  steps (step task) s0 ls st ->
  steps (step task) s0 (schedule E ts ls st).1 (schedule E ts ls st).2.
Proof.
  induction ts as [|t ts IH]; intros s0 ls st H; [done|]. cbn.
  destruct (exec E t st) as [[l st']|] eqn:Ee; [|done].
  apply IH. econstructor; [done|by eapply exec_step].
Qed.

Section Properties.
Context (fuel : nat) (token : str) (mtu target backlog : Z) (adaptive : bool)
  (transport : VpnTransportMode).

Definition server_step : state -> label -> state -> Prop :=
  step (client_task fuel token mtu target backlog adaptive transport).

Lemma server_inv ls st :
  zlen ls < U64_MAX -> steps server_step init ls st -> exists phases, inv ls st phases.
Proof. intros. eapply reachable_inv; [intros; apply client_task_conforms|done|done]. Qed.

(** C5: The tunnel has one client. In every interleaving of the server's
    tasks, a VPN client that took the place and whose task has not given it
    up is the active client, or its connection has been closed, or the task
    that displaced it is about to make the call that closes it. *)
Theorem displaced_clients_are_closed ls st t id c :
  zlen ls < U64_MAX -> steps server_step init ls st ->
  (t, id, c) ∈ registered ls -> (t, id) ∉ gave_up ls ->
  active (memory st) = Some (mk_client id c) \/ c ∈ closed ls \/
  exists t' code reason k, tasks st !! t' = Some (Vis (Close c code reason) k).
Proof.
  intros Hlen Hsteps Hreg Hgu. destruct (server_inv _ _ Hlen Hsteps) as [phases Hinv].
  destruct (inv_registered _ _ _ Hinv _ _ _ Hreg) as (ph & Hph & [Hh| ->]).
  2:{ by apply (inv_gave_up_log _ _ _ Hinv) in Hph. }
  destruct (inv_holds _ _ _ Hinv _ _ _ _ Hph Hh) as [|[|(t' & id' & c' & Hd)]];
    [by left|by right; left|]. right; right.
  destruct (inv_task _ _ _ Hinv _ _ Hd) as [p Hp].
  destruct (inv_conforms _ _ _ Hinv _ _ Hp) as (ph' & Hph' & Hc).
  rewrite Hd in Hph'. simplify_eq.
  apply displacing_closes in Hc as (code & reason & k & ->). by exists t', code, reason, k.
Qed.

(** C17: The place is never left to the dead: the active client was
    registered by a task that has not given the place up and has not
    finished (unless a panic ended the process). *)
Theorem active_client_is_served ls st client :
  zlen ls < U64_MAX -> steps server_step init ls st ->
  active (memory st) = Some client ->
  exists t p, (t, client_id client, client_connection client) ∈ registered ls /\
    (t, client_id client) ∉ gave_up ls /\ tasks st !! t = Some p /\
    match p with Ret (Val _) | Ret (Fail _) => False | _ => True end.
Proof.
  intros Hlen Hsteps Ha. destruct (server_inv _ _ Hlen Hsteps) as [phases Hinv].
  destruct (inv_active _ _ _ Hinv _ Ha) as (t & ph & Hph & Hh).
  destruct (inv_task _ _ _ Hinv _ _ Hph) as [p Hp]. exists t, p.
  split; [by eapply inv_holder|]. split; [|split; [done|]].
  - intros Hg. apply (inv_gave_up _ _ _ Hinv) in Hg. rewrite Hph in Hg. simplify_eq.
    by destruct Hh as [|(? & ?)].
  - destruct (inv_conforms _ _ _ Hinv _ _ Hp) as (ph' & Hph' & Hc).
    rewrite Hph in Hph'. simplify_eq. by eapply holder_running.
Qed.

(** C29: Cleanup spares other clients: when a task gives up the place under
    its id, the shared state keeps the active client unless that client is
    the one this very task registered. *)
Theorem cleanup_spares_others ls st l st' t id :
  zlen ls < U64_MAX -> steps server_step init ls st ->
  server_step st l st' -> gave_up [l] = [(t, id)] ->
  active (memory st') = active (memory st) \/
  exists c, active (memory st) = Some (mk_client id c) /\ (t, id, c) ∈ registered ls /\
    active (memory st') = None.
Proof.
  intros Hlen Hsteps Hstep Hl. destruct (server_inv _ _ Hlen Hsteps) as [phases Hinv].
  destruct Hstep as [m ts t' i Hn|m ts t' X o k x m' Ht Hs|m ts t' X o k x Ht Hs];
    [done| |destruct o; done].
  destruct o; try done. cbn in Hl, Hs. simplify_eq. cbn [memory active].
  unfold clear_active. destruct (active m) as [[id' c]|] eqn:Em; [|by left]. cbn.
  destruct (Z.eqb_spec id' id) as [->|]; [|by left]. right. exists c.
  split; [done|]. split; [|done].
  destruct (inv_active _ _ _ Hinv _ Em) as (t1 & ph1 & Hph1 & Hh1).
  destruct (inv_conforms _ _ _ Hinv _ _ Ht) as (ph & Hph & Hc).
  cbn in Hc. specialize (Hc tt). destruct ph as [| | |id2 c2|]; try done. cbn in Hc.
  destruct (Z.eqb_spec id id2) as [<-|]; [|done].
  assert (t1 = t) as -> by (eapply (inv_unique _ _ _ Hinv); [done|done|by eapply holds_id|done]).
  exact (inv_holder _ _ _ Hinv _ _ _ _ Hph1 Hh1).
Qed.

(** Client ids are never shared: two registrations under one id are the
    same one, as long as fewer than 2^64 calls have been made. *)
Lemma client_ids_unique ls st t1 t2 id c1 c2 :
  zlen ls < U64_MAX -> steps server_step init ls st ->
  (t1, id, c1) ∈ registered ls -> (t2, id, c2) ∈ registered ls -> t1 = t2.
Proof.
  intros Hlen Hsteps H1 H2. destruct (server_inv _ _ Hlen Hsteps) as [phases Hinv].
  destruct (inv_registered _ _ _ Hinv _ _ _ H1) as (ph1 & Hp1 & Hh1).
  destruct (inv_registered _ _ _ Hinv _ _ _ H2) as (ph2 & Hp2 & Hh2).
  eapply (inv_unique _ _ _ Hinv); [done|done|..].
  - destruct Hh1 as [Hh| ->]; [by eapply holds_id|done].
  - destruct Hh2 as [Hh| ->]; [by eapply holds_id|done].
Qed.
End Properties.

(** ** Two clients

    Both show the token; the second takes the place of the first and has not
    yet closed it. *)
Definition two_clients : env := fun X h o =>
  match o in Op X return X -> X with
  | IncomingAccept i => fun _ => Ok i
  | Handshake g => fun _ => Ok g
  | _ => fun x => x
  end (example_server (auth_request (lit "k") Vpn) X h o).

Definition example_step : state -> label -> state -> Prop :=
  server_step 2 (lit "k") 1300 0 0 false Datagram.

Definition two_spawned : state :=
  let task := client_task 2 (lit "k") 1300 0 0 false Datagram in
  mk_state shared_init (<[2%nat := task 102]> (<[1%nat := task 101]> ∅)).

Definition both_in : list label * state :=
  schedule two_clients (repeat 1%nat 13 ++ repeat 2%nat 13) [Spawn 1 101; Spawn 2 102] two_spawned.

Lemma both_in_steps : steps example_step init both_in.1 both_in.2.
Proof.
  apply schedule_steps.
  apply (steps_snoc _ _ [Spawn 1 101] (mk_state shared_init
    (<[1%nat := client_task 2 (lit "k") 1300 0 0 false Datagram 101]> ∅))).
  - apply (steps_snoc _ _ [] init); [constructor|].
    by apply (step_spawn _ shared_init ∅ 1 101).
  - by apply (step_spawn _ shared_init).
Qed.

Lemma displaced_clients_are_closed_witness :
  active (memory both_in.2) = Some (mk_client 1 101) \/ 101 ∈ closed both_in.1 \/
  exists t' code reason k, tasks both_in.2 !! t' = Some (Vis (Close 101 code reason) k).
Proof.
  apply (displaced_clients_are_closed 2 (lit "k") 1300 0 0 false Datagram both_in.1 both_in.2 1 1 101).
  - by vm_compute.
  - apply both_in_steps.
  - apply (bool_decide_unpack _). by vm_compute.
  - apply (bool_decide_unpack _). by vm_compute.
Defined.

Lemma active_client_is_served_witness :
  exists t p, (t, 2, 102) ∈ registered both_in.1 /\ (t, 2) ∉ gave_up both_in.1 /\
    tasks both_in.2 !! t = Some p /\
    match p with Ret (Val _) | Ret (Fail _) => False | _ => True end.
Proof.
  apply (active_client_is_served 2 (lit "k") 1300 0 0 false Datagram both_in.1 both_in.2
    (mk_client 2 102)).
  - by vm_compute.
  - apply both_in_steps.
  - by vm_compute.
Defined.

Lemma client_ids_unique_witness : 2%nat = 2%nat.
Proof.
  apply (client_ids_unique 2 (lit "k") 1300 0 0 false Datagram both_in.1 both_in.2 2 2 2 102 102).
  - by vm_compute.
  - apply both_in_steps.
  - apply (bool_decide_unpack _). by vm_compute.
  - apply (bool_decide_unpack _). by vm_compute.
Defined.

(** The first client's pumps end, and its task is about to clean up after the
    second has taken over. *)
Definition first_leaving : list label * state :=
  schedule two_clients (repeat 1%nat 8) both_in.1 both_in.2.

Definition first_gone : option (label * state) := exec two_clients 1%nat first_leaving.2.

Lemma cleanup_spares_others_witness :
  match first_gone with
  | Some (l, st') =>
    active (memory st') = active (memory first_leaving.2) \/
    exists c, active (memory first_leaving.2) = Some (mk_client 1 c) /\
      (1%nat, 1, c) ∈ registered first_leaving.1 /\ active (memory st') = None
  | None => False
  end.
Proof.
  pose proof (exec_step (client_task 2 (lit "k") 1300 0 0 false Datagram) two_clients 1
    first_leaving.2) as Hstep.
  assert (match first_gone with Some (l, _) => gave_up [l] = [(1%nat, 1)] | None => False end)
    as Hl by (vm_compute; reflexivity).
  unfold first_gone in *. destruct (exec two_clients 1 first_leaving.2) as [[l st']|]; [|done].
  apply (cleanup_spares_others 2 (lit "k") 1300 0 0 false Datagram first_leaving.1
    first_leaving.2 l st' 1 1).
  - by vm_compute.
  - apply schedule_steps, both_in_steps.
  - by apply Hstep.
  - exact Hl.
Defined.
