(* ===== verification/Routes.v ===== *)
(** * macOS routes: [litevpn-client/src/macos_routes.rs]

    While the tunnel is up the client sends all traffic through it with two
    half-default routes and a host route to the server. [RouteGuard] installs
    them with the [route] command and removes them again. *)

From S2P Require Import Prelude RustStr World Config.

(** ** Addresses as text *)

(** [Ipv4Addr::to_string]. *)
Definition ipv4_text (ip : Ipv4Addr) : str :=
  to_dec (octet0 ip) ++ lit "." ++ to_dec (octet1 ip) ++ lit "." ++ to_dec (octet2 ip)
  ++ lit "." ++ to_dec (octet3 ip).

(** [Ipv4Addr::from_str]: four decimal octets of at most three digits and
    without leading zeros. *)
Definition parse_octet (s : str) : option Z :=
  if (Nat.ltb 3 (length s)) || negb (forallb is_digit s) then None
  else match s with
       | [] => None
       | [_] => match parse_uint U8_MAX s with Ok n => Some n | Err _ => None end
       | c :: _ => if c =? 48 then None
                   else match parse_uint U8_MAX s with Ok n => Some n | Err _ => None end
       end.

Definition parse_ipv4 (s : str) : option Ipv4Addr :=
  match split_by (fun c => c =? 46) s with
  | [a; b; c; d] =>
    match parse_octet a, parse_octet b, parse_octet c, parse_octet d with
    | Some a, Some b, Some c, Some d => Some (ipv4_new a b c d)
    | _, _, _, _ => None
    end
  | _ => None
  end.

(** [server_addr.ip()]: an IPv4 address, or an IPv6 one ([None]). *)
Abbreviation ip_addr := (option Ipv4Addr) (only parsing).

(** ** Commands *)

Definition ROUTE : str := lit "route".

Definition delete_route (args : list str) : M bool :=
  output <- perform (Command ROUTE args);
  ret (match output with
       | Err _ => false
       | Ok output =>
         if out_success output then true
         else contains (lit "not in table") (out_stderr output)
       end).

Definition run_route (args : list str) : M unit :=
  output <- call_with_context (lit "failed to run route " ++ join_spaces args) (Command ROUTE args);
  if out_success output then ret tt else
  if contains (lit "File exists") (out_stderr output) then ret tt else
  fail (Msg (lit "route " ++ join_spaces args ++ lit " failed: " ++ trim (out_stderr output))).

Definition delete_net (net : string) : list str := [lit "-n"; lit "delete"; lit "-net"; lit net].
Definition delete_host (ip : Ipv4Addr) : list str :=
  [lit "-n"; lit "delete"; lit "-host"; ipv4_text ip].
Definition add_net (net : string) (gateway : Ipv4Addr) : list str :=
  [lit "-n"; lit "add"; lit "-net"; lit net; ipv4_text gateway].
Definition add_host (ip gateway : Ipv4Addr) : list str :=
  [lit "-n"; lit "add"; lit "-host"; ipv4_text ip; ipv4_text gateway].

(** [ok &= ..]: every deletion is tried. *)
Definition cleanup_routes (server_ip : Ipv4Addr) : M bool :=
  ok1 <- delete_route (delete_net "0.0.0.0/1");
  ok2 <- delete_route (delete_net "128.0.0.0/1");
  ok3 <- delete_route (delete_host server_ip);
  ret (true && ok1 && ok2 && ok3).

Definition is_litevpn_route_destination (destination : str) (server_ip : Ipv4Addr) : bool :=
  let server_ip := ipv4_text server_ip in
  bool_decide (destination ∈ [lit "0/1"; lit "0.0.0.0/1"; lit "128.0/1"; lit "128.0.0.0/1"])
  || bool_decide (destination = server_ip)
  || bool_decide (destination = server_ip ++ lit "/32").

Definition stale_routes_present (server_ip : Ipv4Addr) : M bool :=
  output <- call_context "failed to run netstat -rn -f inet"
    (Command (lit "netstat") [lit "-rn"; lit "-f"; lit "inet"]);
  if negb (out_success output) then lift (bail "netstat -rn -f inet failed") else
  ret (existsb (fun line =>
         match split_whitespace line with
         | [] => false
         | destination :: _ => is_litevpn_route_destination destination server_ip
         end) (lines (out_stdout output))).

(** The [for] loop over the lines of [route -n get default]. *)
Fixpoint find_gateway (ls : list str) : res Ipv4Addr :=
  match ls with
  | [] => bail "default gateway not found"
  | line :: ls =>
    let line := trim line in
    match strip_prefix (lit "gateway:") line with
    | Some value =>
      match parse_ipv4 (trim value) with
      | Some ip => Ok ip
      | None => Err (Context (lit "failed to parse gateway")
                       (External (lit "invalid IPv4 address syntax")))
      end
    | None => find_gateway ls
    end
  end.

Definition default_gateway : M Ipv4Addr :=
  output <- call_context "failed to run route -n get default"
    (Command ROUTE [lit "-n"; lit "get"; lit "default"]);
  if negb (out_success output) then lift (bail "route -n get default failed") else
  lift (find_gateway (lines (out_stdout output))).

(** ** [RouteGuard] *)

Record RouteGuard := mk_guard { server_ip : Ipv4Addr; gateway : Ipv4Addr; installed : bool }.

Definition need_ipv4 (ip : ip_addr) : res Ipv4Addr :=
  match ip with
  | Some ip => Ok ip
  | None => bail "automatic macOS routes require an IPv4 server"
  end.

Definition cleanup_stale (server_addr : ip_addr) : M unit :=
  server_ip <- lift (need_ipv4 server_addr);
  stale <- stale_routes_present server_ip;
  if negb stale then ret tt else
  ok <- cleanup_routes server_ip;
  if negb ok then
    lift (bail "failed to remove one or more stale macOS routes; rerun with sudo or use --no-routes")
  else ret tt.

Definition install (server_addr : ip_addr) (vpn_gateway : Ipv4Addr) : M RouteGuard :=
  server_ip <- lift (need_ipv4 server_addr);
  gateway <- default_gateway;
  cleanup_routes server_ip ;;
  install_result <- catch
    (run_route (add_host server_ip gateway) ;;
     run_route (add_net "0.0.0.0/1" vpn_gateway) ;;
     run_route (add_net "128.0.0.0/1" vpn_gateway));
  match install_result with
  | Err error => cleanup_routes server_ip ;; fail error
  | Ok _ => ret (mk_guard server_ip gateway true)
  end.

(** [cleanup], which is also what dropping the guard does. *)
Definition guard_cleanup (g : RouteGuard) : M RouteGuard :=
  if negb (installed g) then ret g else
  cleanup_routes (server_ip g) ;;
  ret (mk_guard (server_ip g) (gateway g) false).

(** ** The unit test of the source *)

Example detects_litevpn_route_destinations :
  let server_ip := ipv4_new 161 33 36 181 in
  let detects d := is_litevpn_route_destination (lit d) server_ip in
  detects "0/1" && detects "0.0.0.0/1" && detects "128.0/1" && detects "128.0.0.0/1"
  && detects "161.33.36.181" && detects "161.33.36.181/32"
  && negb (detects "default") && negb (detects "192.168.35.1") = true.
Proof. vm_compute. reflexivity. Qed.

(** ** Addresses round trip *)

Definition is_octet (n : Z) : Prop := 0 <= n <= U8_MAX.
Definition is_ipv4 (ip : Ipv4Addr) : Prop :=
  is_octet (octet0 ip) /\ is_octet (octet1 ip) /\ is_octet (octet2 ip) /\ is_octet (octet3 ip).

(** Octets are few enough to look at all of them. *)
Lemma octet_text n : is_octet n ->
  parse_octet (to_dec n) = Some n /\ forallb is_digit (to_dec n) = true.
Proof.
  intros Hn.
  assert (forallb (fun n => bool_decide (parse_octet (to_dec n) = Some n)
                            && forallb is_digit (to_dec n)) (seqZ 0 256) = true) as Hall
    by (vm_compute; reflexivity).
  rewrite forallb_forall in Hall. specialize (Hall n).
  rewrite <-list_elem_of_In, elem_of_seqZ in Hall.
  destruct (andb_prop _ _ (Hall ltac:(unfold is_octet, U8_MAX in Hn; lia))) as [H1 H2].
  by apply bool_decide_eq_true in H1.
Qed.

Lemma split_by_dot a r : forallb is_digit a = true ->
  split_by (fun c => c =? 46) (a ++ 46 :: r) = a :: split_by (fun c => c =? 46) r.
Proof.
  intros Ha. rewrite split_by_word.
  - simpl. by rewrite app_nil_r.
  - rewrite forallb_forall in Ha. apply Forall_forall. intros c Hc%list_elem_of_In.
    apply Ha, between_spec in Hc. lia.
Qed.

Lemma split_by_last a : forallb is_digit a = true -> split_by (fun c => c =? 46) a = [a].
Proof.
  intros Ha. rewrite <-(app_nil_r a) at 1. rewrite split_by_word.
  - simpl. by rewrite app_nil_r.
  - rewrite forallb_forall in Ha. apply Forall_forall. intros c Hc%list_elem_of_In.
    apply Ha, between_spec in Hc. lia.
Qed.

Lemma parse_ipv4_text ip : is_ipv4 ip -> parse_ipv4 (ipv4_text ip) = Some ip.
Proof.
  intros (H0 & H1 & H2 & H3). destruct ip as [a b c d]. cbn [octet0 octet1 octet2 octet3] in *.
  destruct (octet_text a H0) as [Pa Da], (octet_text b H1) as [Pb Db],
    (octet_text c H2) as [Pc Dc], (octet_text d H3) as [Pd Dd].
  unfold parse_ipv4, ipv4_text. cbn [octet0 octet1 octet2 octet3].
  change (lit ".") with [46]. cbn [app].
  rewrite !split_by_dot, split_by_last by done. by rewrite Pa, Pb, Pc, Pd.
Qed.

(** ** The routing table

    What the commands run so far have made of it: a successful [add] puts a
    destination in, a successful [delete] takes it out. *)
Abbreviation route := (str * str)%type.

Definition route_effect (args : list str) (table : gset (list Z * list Z)) :
    gset (list Z * list Z) :=
  match args with
  | [_; verb; kind; destination; _] =>
    if bool_decide (verb = lit "add") then {[ (kind, destination) ]} ∪ table else table
  | [_; verb; kind; destination] =>
    if bool_decide (verb = lit "delete") then table ∖ {[ (kind, destination) ]} else table
  | _ => table
  end.

Definition table_step (table : gset (list Z * list Z)) (e : event) : gset (list Z * list Z) :=
  match e with
  | Ev o x =>
    (match o in Op X return X -> gset (list Z * list Z) with
     | Command program args => fun r =>
       match r with
       | Ok output =>
         if bool_decide (program = ROUTE) && out_success output then route_effect args table
         else table
       | Err _ => table
       end
     | _ => fun _ => table
     end) x
  end.

(** A destination is in the table whatever its gateway, as for the code, whose
    deletions name the destination only: a route that another program added
    for one of the client's destinations counts as the client's own. *)
Definition route_table (h : history) : gset (list Z * list Z) := fold_left table_step h ∅.

Lemma route_table_snoc h e : route_table (h ++ [e]) = table_step (route_table h) e.
Proof. unfold route_table. by rewrite fold_left_app. Qed.

(** The [route] command as documented: it can be run; a deletion succeeds, or
    says that the destination is not in the table; an addition that says the
    entry exists is right. (A deletion that fails for another reason, as
    without the rights for it, is an error of [delete_route] that [install]
    and the cleanup ignore; it is outside the theorems that assume this.) *)
Record route_tool (E : env) : Prop := {
  tool_delete : forall h kind destination,
    match E _ h (Command ROUTE [lit "-n"; lit "delete"; kind; destination]) with
    | Ok output => out_success output = true \/
        (contains (lit "not in table") (out_stderr output) = true /\
         (kind, destination) ∉ route_table h)
    | Err _ => False
    end;
  tool_add : forall h kind destination gateway output,
    E _ h (Command ROUTE [lit "-n"; lit "add"; kind; destination; gateway]) = Ok output ->
    out_success output = false -> contains (lit "File exists") (out_stderr output) = true ->
    (kind, destination) ∈ route_table h;
}.

(** The three destinations of a guard. *)
Definition our_routes (ip : Ipv4Addr) : gset (list Z * list Z) :=
  {[ (lit "-net", lit "0.0.0.0/1"); (lit "-net", lit "128.0.0.0/1"); (lit "-host", ipv4_text ip) ]}.

Lemma delete_route_spec E h kind destination :
  route_tool E ->
  wp E h (delete_route [lit "-n"; lit "delete"; kind; destination]) (fun r h' =>
    r = Val true /\ route_table h' = route_table h ∖ {[ (kind, destination) ]}).
Proof.
  intros [Hdel _]. specialize (Hdel h kind destination).
  unfold delete_route. apply wp_bind, wp_vis, wp_ret, wp_ret.
  rewrite route_table_snoc. cbn -[ROUTE contains lit].
  destruct (E _ h _) as [out|]; [|done].
  destruct (out_success out) eqn:Es; cbn -[contains lit].
  - split; [done|]. by rewrite bool_decide_true.
  - destruct Hdel as [|[-> Hnot]]; [done|]. split; [done|]. set_solver.
Qed.

Lemma cleanup_routes_spec E h ip :
  route_tool E ->
  wp E h (cleanup_routes ip) (fun r h' =>
    r = Val true /\ route_table h' = route_table h ∖ our_routes ip).
Proof.
  intros HE. unfold cleanup_routes.
  apply wp_bind. eapply wp_mono; [by apply delete_route_spec|]. intros r h1 [-> E1].
  apply wp_bind. eapply wp_mono; [by apply delete_route_spec|]. intros r h2 [-> E2].
  apply wp_bind. eapply wp_mono; [by apply delete_route_spec|]. intros r h3 [-> E3].
  apply wp_ret. split; [done|]. rewrite E3, E2, E1. unfold our_routes. set_solver.
Qed.

Lemma run_route_spec E h kind destination gw :
  route_tool E ->
  wp E h (run_route [lit "-n"; lit "add"; kind; destination; gw]) (fun r h' =>
    match r with
    | Val _ => route_table h' = {[ (kind, destination) ]} ∪ route_table h
    | Fail _ => route_table h' = route_table h
    | _ => False
    end).
Proof.
  intros [_ Hadd]. specialize (Hadd h kind destination gw).
  unfold run_route. apply wp_bind, wp_vis.
  destruct (E _ h _) as [out|] eqn:Er.
  2:{ apply wp_ret. rewrite route_table_snoc. done. }
  apply wp_ret. destruct (out_success out) eqn:Es.
  - apply wp_ret. rewrite route_table_snoc. cbn -[ROUTE lit]. by rewrite Es, bool_decide_true.
  - specialize (Hadd out eq_refl Es).
    destruct (contains (lit "File exists") (out_stderr out)); apply wp_ret;
      rewrite route_table_snoc; cbn -[ROUTE lit]; rewrite Es, andb_false_r; [set_solver|done].
Qed.

Lemma default_gateway_spec E h :
  wp E h default_gateway (fun r h' => route_table h' = route_table h /\
    match r with Val _ | Fail _ => True | _ => False end).
Proof.
  unfold default_gateway. apply wp_bind, wp_vis.
  assert (forall r, route_table (h ++ [Ev (Command ROUTE [lit "-n"; lit "get"; lit "default"]) r])
    = route_table h) as Ht.
  { intros r. rewrite route_table_snoc. cbn. destruct r; [|done]. by destruct (out_success a). }
  destruct (E _ h _) as [out|]; [|by apply wp_ret].
  apply wp_ret. destruct (negb (out_success out)); [by apply wp_ret|].
  unfold lift. destruct (find_gateway _); by apply wp_ret.
Qed.

(** The three additions: all present, or an error with nothing but ours added. *)
Lemma install_routes_spec E h ip gw vpn :
  route_tool E ->
  wp E h (run_route (add_host ip gw) ;;
          run_route (add_net "0.0.0.0/1" vpn) ;;
          run_route (add_net "128.0.0.0/1" vpn)) (fun r h' =>
    match r with
    | Val _ => route_table h' = our_routes ip ∪ route_table h
    | Fail _ => route_table h' ∖ our_routes ip = route_table h ∖ our_routes ip
    | _ => False
    end).
Proof.
  intros HE. apply wp_bind. eapply wp_mono; [by apply run_route_spec|].
  intros [] h1 E1; try done; [|by rewrite E1].
  apply wp_bind. eapply wp_mono; [by apply run_route_spec|].
  intros [] h2 E2; try done; [|rewrite E2, E1; unfold our_routes; set_solver].
  eapply wp_mono; [by apply run_route_spec|].
  intros [] h3 E3; try done; rewrite E3, E2, E1; unfold our_routes; set_solver.
Qed.

Lemma wp_catch {A} E (m : M A) h (Q : outcome (res A) -> history -> Prop) :
  wp E h m (fun r h' =>
    match r with
    | Val a => Q (Val (Ok a)) h'
    | Fail e => Q (Val (Err e)) h'
    | Panic w => Q (Panic w) h'
    | Running => Q Running h'
    end) -> wp E h (catch m) Q.
Proof.
  intros H. apply wp_pbind. eapply wp_mono; [exact H|]. by intros [] h' HQ.
Qed.

Lemma install_spec E h addr vpn :
  route_tool E ->
  wp E h (install addr vpn) (fun r h' =>
    match r with
    | Val g => addr = Some (server_ip g) /\ installed g = true /\
        route_table h' = our_routes (server_ip g) ∪ route_table h
    | Fail _ => route_table h' = route_table h \/
        exists ip, addr = Some ip /\ route_table h' = route_table h ∖ our_routes ip
    | _ => False
    end).
Proof.
  intros HE. unfold install. destruct addr as [ip|]; [|apply wp_bind, wp_ret; by left].
  apply wp_bind, wp_ret. cbv beta.
  apply wp_bind. eapply wp_mono; [apply default_gateway_spec|].
  intros [gw| | |] h1 [E1 H1]; try done; [|by left].
  apply wp_bind. eapply wp_mono; [by apply cleanup_routes_spec|]. intros r h2 [-> E2].
  apply wp_bind, wp_catch. eapply wp_mono; [by apply install_routes_spec|].
  intros [[]|e| |] h3 E3; try done.
  - apply wp_ret. cbn. split; [done|]. split; [done|]. rewrite E3, E2, E1.
    apply set_eq. intros x. destruct (decide (x ∈ our_routes ip)); set_solver.
  - apply wp_bind. eapply wp_mono; [by apply cleanup_routes_spec|]. intros r h4 [-> E4].
    apply wp_ret. right. exists ip. split; [done|]. rewrite E4, E3, E2, E1. set_solver.
Qed.

Lemma guard_cleanup_spec E h g :
  route_tool E ->
  wp E h (guard_cleanup g) (fun r h' =>
    r = Val (mk_guard (server_ip g) (gateway g) false) /\
    route_table h' = if installed g then route_table h ∖ our_routes (server_ip g)
                     else route_table h).
Proof.
  intros HE. unfold guard_cleanup. destruct g as [ip gw []]; cbn [installed negb].
  - apply wp_bind. eapply wp_mono; [by apply cleanup_routes_spec|].
    intros r h1 [-> E1]. by apply wp_ret.
  - by apply wp_ret.
Qed.

(** ** Properties *)

(** Addresses round trip: the text the client passes to [route] for an
    IPv4 address parses back to it, as the gateway line of [route -n get
    default] is parsed. *)
Lemma ipv4_roundtrip ip :
  is_ipv4 ip ->
  parse_ipv4 (ipv4_text ip) = Some ip /\
  find_gateway [lit "    gateway: " ++ ipv4_text ip] = Ok ip.
Proof.
  intros Hip. split; [by apply parse_ipv4_text|].
  assert (is_word (ipv4_text ip)) as Hw.
  { destruct Hip as ([? ?] & [? ?] & [? ?] & [? ?]). unfold ipv4_text. split.
    - pose proof (to_dec_nonempty (octet0 ip)). by destruct (to_dec (octet0 ip)).
    - repeat (apply Forall_app; split); try (by apply to_dec_word); by repeat constructor. }
  assert (trim (lit "    gateway: " ++ ipv4_text ip) = lit "gateway: " ++ ipv4_text ip) as Ht.
  { rewrite <-(app_nil_r (lit "    gateway: " ++ ipv4_text ip)).
    change (lit "    gateway: ") with (lit "    " ++ lit "gateway: ").
    rewrite <-!app_assoc.
    change (trim (lit "    " ++ lit "gateway: " ++ ipv4_text ip ++ []))
      with (trim (lit "    " ++ (lit "gateway: " ++ ipv4_text ip) ++ [])).
    apply trim_exact; [by repeat constructor|constructor|done| |].
    - intros c Hc. change (head (lit "gateway: " ++ ipv4_text ip)) with (Some 103) in Hc.
      by simplify_eq.
    - intros c Hc. destruct Hw as [Hne Hw].
      destruct (last (ipv4_text ip)) as [d|] eqn:El; [|by apply last_None in El].
      rewrite last_app, El in Hc. simplify_eq. apply last_Some in El as [w E].
      rewrite E in Hw. apply Forall_app in Hw as [_ Hw]. by apply Forall_cons in Hw as [? _]. }
  cbn [find_gateway]. rewrite Ht.
  change (lit "gateway: ") with (lit "gateway:" ++ [32]). rewrite <-app_assoc, strip_prefix_app.
  assert (trim ([32] ++ ipv4_text ip) = ipv4_text ip) as ->.
  { rewrite <-(app_nil_r (ipv4_text ip)) at 1.
    apply trim_word; [done|by repeat constructor|constructor]. }
  by rewrite parse_ipv4_text.
Qed.

Lemma ipv4_roundtrip_witness :
  parse_ipv4 (ipv4_text (ipv4_new 10 66 0 1)) = Some (ipv4_new 10 66 0 1) /\
  find_gateway [lit "    gateway: " ++ ipv4_text (ipv4_new 10 66 0 1)] = Ok (ipv4_new 10 66 0 1).
Proof.
  apply (ipv4_roundtrip (ipv4_new 10 66 0 1)).
  unfold is_ipv4, is_octet, U8_MAX. cbn. lia.
Defined.

(** C28: Route installation is all or nothing. With the [route] command as
    documented, [install] either returns a guard with all three routes in the
    table, and nothing else changed, or fails with none of them added: the
    table is as before, or without stale entries of an earlier run. *)
Theorem install_all_or_nothing E h addr vpn :
  route_tool E ->
  wp E h (install addr vpn) (fun r h' =>
    match r with
    | Val g => addr = Some (server_ip g) /\ installed g = true /\
        route_table h' = our_routes (server_ip g) ∪ route_table h
    | Fail _ => route_table h' = route_table h \/
        exists ip, addr = Some ip /\ route_table h' = route_table h ∖ our_routes ip
    | _ => False
    end).
Proof. apply install_spec. Qed.

(** A machine whose [route] command does what it is asked, except for adding
    the second half-default route. *)
Definition half_broken_route : env := fun X h o =>
  match o in Op X return X -> X with
  | Command _ args => fun _ =>
    match args with
    | [_; verb; kind; destination; _] =>
      if bool_decide (destination = lit "128.0.0.0/1")
      then Ok (mk_output false [] (lit "route: bad address"))
      else Ok (mk_output true [] [])
    | [_; _; _] => Ok (mk_output true (lit "  gateway: 192.168.1.1") [])
    | _ => Ok (mk_output true [] [])
    end
  | _ => fun x => x
  end (quiet X h o).

Lemma half_broken_tool : route_tool half_broken_route.
Proof.
  split.
  - intros h kind destination. by left.
  - intros h kind destination gw output. cbn -[lit]. case_bool_decide; intros [= <-] Hs Hc; [|done].
    by vm_compute in Hc.
Qed.

Lemma install_all_or_nothing_witness :
  wp half_broken_route [] (install (Some (ipv4_new 161 33 36 181)) (ipv4_new 10 66 0 1)) (fun r h' =>
    match r with
    | Val g => Some (ipv4_new 161 33 36 181) = Some (server_ip g) /\ installed g = true /\
        route_table h' = our_routes (server_ip g) ∪ route_table []
    | Fail _ => route_table h' = route_table [] \/
        exists ip, Some (ipv4_new 161 33 36 181) = Some ip /\
          route_table h' = route_table [] ∖ our_routes ip
    | _ => False
    end).
Proof.
  apply (install_all_or_nothing half_broken_route [] (Some (ipv4_new 161 33 36 181))
    (ipv4_new 10 66 0 1) half_broken_tool).
Defined.

(** Cleanup always tries everything: in every environment, whatever the
    first commands answer, [cleanup_routes] runs the three deletions in order,
    never fails, and reports whether all of them worked. *)
Lemma cleanup_tries_all E h ip :
  let r := run E h (cleanup_routes ip) in
  (exists ok, r.1 = Val ok) /\
  commands_run r.2 = commands_run h ++
    [(ROUTE, delete_net "0.0.0.0/1"); (ROUTE, delete_net "128.0.0.0/1"); (ROUTE, delete_host ip)].
Proof.
  change (wp E h (cleanup_routes ip) (fun r h' => (exists ok, r = Val ok) /\
    commands_run h' = commands_run h ++
      [(ROUTE, delete_net "0.0.0.0/1"); (ROUTE, delete_net "128.0.0.0/1");
       (ROUTE, delete_host ip)])).
  assert (forall h args, wp E h (delete_route args) (fun r h' =>
    exists ok, r = Val ok /\ commands_run h' = commands_run h ++ [(ROUTE, args)])) as Hdel.
  { intros h0 args. apply wp_bind, wp_vis, wp_ret, wp_ret. eexists. split; [reflexivity|].
    unfold commands_run. by rewrite observe_app, observe_one. }
  unfold cleanup_routes.
  apply wp_bind. eapply wp_mono; [apply Hdel|]. intros r h1 (ok1 & -> & E1).
  apply wp_bind. eapply wp_mono; [apply Hdel|]. intros r h2 (ok2 & -> & E2).
  apply wp_bind. eapply wp_mono; [apply Hdel|]. intros r h3 (ok3 & -> & E3).
  apply wp_ret. split; [by eexists|]. by rewrite E3, E2, E1, <-!app_assoc.
Qed.
