(* ===== verification/Connect.v ===== *)
(** * Connecting: [connect_client], [connect_once] of [litevpn-client/src/main.rs]

    The client makes a socket of the server's address family, an endpoint on
    it, and waits for the handshake for a limited time; a failed attempt is
    repeated after a pause, up to a number of attempts. *)

From S2P Require Import Prelude RustStr World Auth Config Pumps Routes.

(** ** The checks of the command line *)

Definition connect_retries (value : Z) : res Z :=
  if value =? 0 then bail "connect retries must be greater than zero" else
  if 100 <? value then bail "connect retries must be <= 100" else
  Ok value.

Definition connect_retry_delay_ms (value : Z) : res Z :=
  if 60000 <? value then bail "connect retry delay ms must be <= 60000" else
  Ok value.

(** The unit test of the source. *)
Example validates_connect_retry_options :
  connect_retries 1 = Ok 1 /\ connect_retries 3 = Ok 3 /\
  is_ok (connect_retries 0) = false /\ is_ok (connect_retries 101) = false /\
  connect_retry_delay_ms 60000 = Ok 60000 /\ is_ok (connect_retry_delay_ms 60001) = false.
Proof. done. Qed.

(** ** One attempt *)

Definition ANY_IPV4 : SocketAddr := mk_addr (Some (ipv4_new 0 0 0 0)) (lit "0.0.0.0:0").
Definition ANY_IPV6 : SocketAddr := mk_addr None (lit "[::]:0").

(** The pair is an endpoint and a connection. The limit on the handshake
    is [connect_timeout_secs]. *)
Definition connect_once (config : ClientConfig.t) (server_addr : SocketAddr)
    (client_config : QuicClientConfig) (connect_timeout_secs : Z) : M (Z * conn) :=
  let bind_addr := if negb (is_ipv6 server_addr) then ANY_IPV4 else ANY_IPV6 in
  socket <- create_udp_socket bind_addr (ClientConfig.udp_recv_buffer_bytes config)
              (ClientConfig.udp_send_buffer_bytes config);
  endpoint <- call (EndpointNew None socket);
  perform (SetDefaultClientConfig endpoint client_config) ;;
  connecting <- call (StartConnect endpoint (addr_text server_addr)
                        (ClientConfig.server_name config));
  r <- timeout (Within (secs connect_timeout_secs)) (call (Handshake connecting));
  match r with
  | None => fail (Context (lit "connect timed out") elapsed_error)
  | Some (Err error) => fail (Context (lit "failed to connect to server") error)
  | Some (Ok connection) => ret (endpoint, connection)
  end.

(** ** The attempts

    [for attempt in 1..=connect_retries]: [remaining] attempts are still to be
    made, of which the next is number [attempt]. *)
Fixpoint connect_attempts (once : M (Z * conn)) (connect_retries connect_retry_delay_ms : Z)
    (attempt : Z) (remaining : nat) : M (Z * conn) :=
  match remaining with
  | O => panic "connect_retries is validated to be greater than zero"
  | S remaining =>
    r <- catch once;
    match r with
    | Ok result => ret result
    | Err error =>
      if connect_retries <=? attempt then fail error else
      (if 0 <? connect_retry_delay_ms then perform (Sleep (millis connect_retry_delay_ms))
       else ret tt) ;;
      connect_attempts once connect_retries connect_retry_delay_ms (attempt + 1) remaining
    end
  end.

Definition connect_client (config : ClientConfig.t) (server_addr : SocketAddr)
    (client_config : QuicClientConfig) (connect_timeout_secs connect_retries connect_retry_delay_ms : Z) : M (Z * conn) :=
  connect_attempts (connect_once config server_addr client_config connect_timeout_secs)
    connect_retries connect_retry_delay_ms 1 (Z.to_nat connect_retries).

(** ** What the attempts leave in a history *)

(** The sockets asked for, one per attempt; the pauses; the handshakes that
    succeeded. *)
Definition attempts : history -> list bool :=
  observe (fun X o =>
    match o in Op X return X -> list bool with
    | SocketNew ipv6 => fun _ => [ipv6]
    | _ => fun _ => []
    end).
Definition sleeps : history -> list Z :=
  observe (fun X o =>
    match o in Op X return X -> list Z with
    | Sleep d => fun _ => [d]
    | _ => fun _ => []
    end).
Definition connected : history -> list conn :=
  observe (fun X o =>
    match o in Op X return X -> list conn with
    | Handshake _ => fun r => match r with Ok c => [c] | Err _ => [] end
    | _ => fun _ => []
    end).

Lemma attempts_app h1 h2 : attempts (h1 ++ h2) = attempts h1 ++ attempts h2.
Proof. apply observe_app. Qed.
Lemma sleeps_app h1 h2 : sleeps (h1 ++ h2) = sleeps h1 ++ sleeps h2.
Proof. apply observe_app. Qed.
Lemma connected_app h1 h2 : connected (h1 ++ h2) = connected h1 ++ connected h2.
Proof. apply observe_app. Qed.
#[export] Hint Rewrite attempts_app sleeps_app connected_app : hist.

(** [h'] adds to [h] the given attempts, pauses and connections. *)
Definition dialled (h h' : history) (a : list bool) (s : list Z) (c : list conn) : Prop :=
  exists t, h' = h ++ t /\ attempts t = a /\ sleeps t = s /\ connected t = c.

Lemma dialled_trans h1 h2 h3 a1 a2 s1 s2 c1 c2 :
  dialled h1 h2 a1 s1 c1 -> dialled h2 h3 a2 s2 c2 ->
  dialled h1 h3 (a1 ++ a2) (s1 ++ s2) (c1 ++ c2).
Proof.
  intros (t1 & -> & <- & <- & <-) (t2 & -> & <- & <- & <-). exists (t1 ++ t2).
  by rewrite <-app_assoc, attempts_app, sleeps_app, connected_app.
Qed.

Lemma dialled_refl h : dialled h h [] [] [].
Proof. exists []. by rewrite app_nil_r. Qed.

(** The calls that are none of the three. *)
Definition no_dial : forall X, Op X -> bool := fun X o =>
  match o with
  | SocketNew _ | Sleep _ | Handshake _ => false
  | _ => true
  end.

Lemma no_dial_dialled E {A} (p : prog A) h :
  all_ops no_dial p -> wp E h p (fun _ h' => dialled h h' [] [] []).
Proof.
  intros Hp. destruct (all_ops_run no_dial E p h Hp) as (t & Et & Ht).
  exists t. split; [exact Et|]. clear Et.
  induction Ht as [|[X o x] t He _ IH]; [done|].
  destruct IH as (Ia & Is & Ic).
  change (Ev o x :: t) with ([Ev o x] ++ t).
  rewrite attempts_app, sleeps_app, connected_app, Ia, Is, Ic. by destruct o.
Qed.

(** A function that has come to an end, well or not. *)
Definition settled {A} (r : outcome A) : Prop :=
  match r with Val _ | Fail _ => True | _ => False end.

Lemma settled_bind E {A B} (m : M A) (f : A -> M B) h :
  wp E h m (fun r _ => settled r) -> (forall a h', wp E h' (f a) (fun r _ => settled r)) ->
  wp E h (bind m f) (fun r _ => settled r).
Proof.
  intros Hm Hf. apply wp_bind. eapply wp_mono; [exact Hm|].
  intros [a| | |] h' H; [apply Hf|done..].
Qed.

Lemma settled_call E {X} (o : Op (ext X)) h : wp E h (call o) (fun r _ => settled r).
Proof. apply wp_vis. by destruct (E _ h o). Qed.
Lemma settled_call_context E {X} m (o : Op (ext X)) h :
  wp E h (call_context m o) (fun r _ => settled r).
Proof. apply wp_vis. by destruct (E _ h o). Qed.
Lemma settled_call_with_context E {X} m (o : Op (ext X)) h :
  wp E h (call_with_context m o) (fun r _ => settled r).
Proof. apply wp_vis. by destruct (E _ h o). Qed.

(** Walk through a program that can only end. *)
Ltac settles :=
  repeat lazymatch goal with
  | |- wp _ _ (bind _ _) _ => apply settled_bind; [|intros ? ?]
  | |- wp _ _ (call _) _ => apply settled_call
  | |- wp _ _ (call_context _ _) _ => apply settled_call_context
  | |- wp _ _ (call_with_context _ _) _ => apply settled_call_with_context
  | |- wp _ _ (perform _) _ => apply wp_vis; exact I
  | |- wp _ _ (ret _) _ => exact I
  | |- wp _ _ (fail _) _ => exact I
  | |- wp _ _ (lift ?r) _ => destruct r; exact I
  | |- wp _ _ (if ?b then _ else _) _ => destruct b
  end.

Lemma create_udp_socket_dialled E h addr recv send :
  wp E h (create_udp_socket addr recv send) (fun r h' => settled r /\
    dialled h h' [is_ipv6 addr] [] []).
Proof.
  apply wp_and; [unfold create_udp_socket; settles|].
  unfold create_udp_socket. apply wp_bind, wp_vis. set (h1 := h ++ _).
  assert (dialled h h1 [is_ipv6 addr] [] []) as H1 by by eexists.
  destruct (E _ h (SocketNew (is_ipv6 addr))) as [socket|]; apply wp_ret; [|done].
  eapply wp_mono; [apply (no_dial_dialled E); ops|].
  intros r h' H2. exact (dialled_trans _ _ _ _ _ _ _ _ _ H1 H2).
Qed.

(** One attempt: one socket, no pause, and a connection exactly on success. *)
Lemma connect_once_dialled E h config addr qc limit :
  wp E h (connect_once config addr qc limit) (fun r h' => settled r /\
    dialled h h' [is_ipv6 addr] [] (match r with Val (_, c) => [c] | _ => [] end)).
Proof.
  unfold connect_once.
  assert (is_ipv6 (if negb (is_ipv6 addr) then ANY_IPV4 else ANY_IPV6) = is_ipv6 addr) as Ev6
    by (by destruct (is_ipv6 addr)).
  apply wp_bind. eapply wp_mono; [apply create_udp_socket_dialled|]. rewrite Ev6.
  intros [socket|e| |] h1 [Hs H1]; try done. clear Hs.
  apply wp_bind, wp_vis. set (h2 := h1 ++ _).
  assert (dialled h h2 [is_ipv6 addr] [] []) as H2
    by (eapply (dialled_trans _ _ _ [_] [] [] [] [] []); [exact H1|by eexists]).
  clearbody h2. destruct (E _ h1 (EndpointNew None socket)) as [ep|]; apply wp_ret; [|done].
  apply wp_bind, wp_vis, wp_ret, wp_bind, wp_vis.
  set (h3 := (h2 ++ [Ev (SetDefaultClientConfig _ _) _]) ++ _).
  assert (dialled h h3 [is_ipv6 addr] [] []) as H3
    by (eapply (dialled_trans _ _ _ [_] [] [] [] [] []); [exact H2|]; unfold h3; rewrite <- app_assoc; by eexists).
  clearbody h3. destruct (E _ _ (StartConnect _ _ _)) as [cg|]; apply wp_ret; [|done].
  unfold wp. cbn -[app]. destruct (E bool h3 (Expired _)); cbn -[app].
  - split; [done|]. eapply (dialled_trans _ _ _ [_] [] [] [] [] []); [exact H3|by eexists].
  - destruct (E _ _ (Handshake cg)) as [c|e]; cbn -[app]; (split; [done|]);
      rewrite <-app_assoc.
    + eapply (dialled_trans _ _ _ [_] [] [] [] [] [c]); [exact H3|by eexists].
    + eapply (dialled_trans _ _ _ [_] [] [] [] [] []); [exact H3|by eexists].
Qed.

(** The pauses between [n] attempts. *)
Definition pauses (delay_ms : Z) (n : nat) : list Z :=
  if 0 <? delay_ms then repeat (millis delay_ms) (n - 1) else [].

Lemma connect_attempts_dialled E once v6 retries delay :
  (forall h, wp E h once (fun r h' => settled r /\
     dialled h h' [v6] [] (match r with Val (_, c) => [c] | _ => [] end))) ->
  forall remaining attempt h, attempt + Z.of_nat remaining = retries + 1 -> (0 < remaining)%nat ->
  wp E h (connect_attempts once retries delay attempt remaining) (fun r h' => settled r /\
    exists n, (1 <= n <= remaining)%nat /\
      dialled h h' (repeat v6 n) (pauses delay n)
        (match r with Val (_, c) => [c] | _ => [] end) /\
      match r with Fail _ => n = remaining | _ => True end).
Proof.
  intros Honce. induction remaining as [|remaining IH]; intros attempt h Hn Hpos; [lia|].
  cbn [connect_attempts]. apply wp_bind, wp_catch.
  assert (pauses delay 1 = []) as Hp1 by (unfold pauses; by case_match).
  eapply wp_mono; [apply Honce|]. intros [[ep c]|e| |] h1 [Hs H1]; try done.
  { apply wp_ret. split; [done|]. exists 1%nat. split; [lia|]. by rewrite Hp1. }
  destruct (Z.leb_spec retries attempt) as [Hlast|Hmore].
  { apply wp_ret. split; [done|]. exists 1%nat. split; [lia|]. rewrite Hp1. split; [done|lia]. }
  apply wp_bind. eapply wp_mono with
    (Q := fun r h2 => r = Val tt /\
      dialled h1 h2 [] (if 0 <? delay then [millis delay] else []) []).
  { destruct (0 <? delay); [apply wp_vis, wp_ret|apply wp_ret].
    - split; [|by eexists]. by destruct (E unit h1 _).
    - split; [done|apply dialled_refl]. }
  intros r h2 [-> H2].
  eapply wp_mono; [apply IH; lia|].
  intros r h3 (Hr & n & Hle & H3 & Hfail). split; [done|]. exists (S n). split; [lia|].
  split; [|destruct r; [done|lia|done..]].
  pose proof (dialled_trans _ _ _ _ _ _ _ _ _ H1 (dialled_trans _ _ _ _ _ _ _ _ _ H2 H3)) as H.
  cbn [app] in H. cbn [repeat].
  assert (pauses delay (S n) = (if 0 <? delay then [millis delay] else []) ++ pauses delay n) as ->;
    [|exact H].
  unfold pauses. destruct (0 <? delay); [|done].
  replace (S n - 1)%nat with (S (n - 1)) by lia. done.
Qed.

Lemma connect_client_dialled E h config addr qc limit value retries delay :
  is_u64 value -> connect_retries value = Ok retries ->
  wp E h (connect_client config addr qc limit retries delay) (fun r h' => settled r /\
    exists n, (1 <= n <= Z.to_nat retries)%nat /\
      dialled h h' (repeat (is_ipv6 addr) n) (pauses delay n)
        (match r with Val (_, c) => [c] | _ => [] end) /\
      match r with Fail _ => n = Z.to_nat retries | _ => True end).
Proof.
  intros [Hv _] Hr. apply connect_attempts_dialled; [intros; apply connect_once_dialled| |];
    revert Hr; unfold connect_retries, bail; bcase; intros [= <-]; lia.
Qed.

(** ** Properties *)

(** C18: Connecting. With a number of retries that passed the client's check,
    [connect_client] returns in every environment, never panicking: it makes
    between one and [retries] attempts, each with one socket of the server's
    address family, with a pause of the configured delay between two attempts
    and at no other time; it succeeds with the first handshake that does, and
    fails only after exactly [retries] attempts. *)
Theorem connect_client_retries E h config addr qc limit value retries delay :
  is_u64 value -> connect_retries value = Ok retries ->
  let r := run E h (connect_client config addr qc limit retries delay) in
  exists n t, (1 <= n <= Z.to_nat retries)%nat /\ r.2 = h ++ t /\
    attempts t = repeat (is_ipv6 addr) n /\ sleeps t = pauses delay n /\
    match r.1 with
    | Val (_, c) => connected t = [c]
    | Fail _ => connected t = [] /\ n = Z.to_nat retries
    | _ => False
    end.
Proof.
  intros Hv Hr. pose proof (connect_client_dialled E h config addr qc limit value retries delay Hv Hr) as H.
  destruct H as (Hs & n & Hle & (t & Et & Ha & Hsl & Hc) & Hf). intros r.
  exists n, t. split; [done|]. split; [exact Et|]. split; [done|]. split; [done|].
  unfold r. destruct (run E h _).1 as [[ep c]| | |]; done.
Qed.

(** A server that answers from the third attempt on. *)
Definition third_time_lucky : env := fun X h o =>
  match o in Op X return X -> X with
  | SocketNew _ => fun _ => Ok 3
  | Bind _ _ => fun _ => Ok tt
  | EndpointNew _ _ => fun _ => Ok 4
  | StartConnect _ _ _ => fun _ => Ok 5
  | Handshake _ => fun _ => if zlen (attempts h) <? 3 then Err (lit "refused") else Ok 6
  | _ => fun x => x
  end (quiet X h o).

Lemma connect_client_retries_witness :
  let addr := mk_addr (Some (ipv4_new 161 33 36 181)) (lit "161.33.36.181:443") in
  let qc := mk_quic_client [[1]] [ALPN] [] in
  let r := run third_time_lucky [] (connect_client ClientConfig.default addr qc 10 5 500) in
  (exists n t, (1 <= n <= Z.to_nat 5)%nat /\ r.2 = [] ++ t /\
    attempts t = repeat (is_ipv6 addr) n /\ sleeps t = pauses 500 n /\
    match r.1 with
    | Val (_, c) => connected t = [c]
    | Fail _ => connected t = [] /\ n = Z.to_nat 5
    | _ => False
    end) /\ r.1 = Val (4, 6).
Proof.
  split; [|vm_compute; reflexivity].
  apply (connect_client_retries third_time_lucky [] ClientConfig.default
    (mk_addr (Some (ipv4_new 161 33 36 181)) (lit "161.33.36.181:443")) (mk_quic_client [[1]] [ALPN] []) 10 5 5 500);
    [unfold is_u64, U64_MAX; lia|done].
Defined.
