(* ===== verification/ServerMain.v ===== *)
(** * The server's [main]: [litevpn-server/src/main.rs]

    From the configuration file to the accept loop: what must be in place
    before the server takes its first connection, and that every connection
    it takes gets a task. What the tasks do is in Server.v and Registry.v. *)

From S2P Require Import Prelude RustStr World Auth Config Crypto Pumps Summary Routes Connect.
From S2P Require Import Server.

(** One turn of the [loop] in [main]. *)
Definition accept_body (endpoint : Z) (_ : unit) : M (unit + unit) :=
  incoming <- perform (Accept endpoint);
  match incoming with
  | None => ret (inl tt)
  | Some incoming => perform (SpawnTask incoming) ;; ret (inl tt)
  end.

Definition accept_loop (fuel : nat) (endpoint : Z) : M unit := loop fuel (accept_body endpoint) tt.

Section Main.
(** Library functions: the TOML parser at the configuration's type, and
    [SocketAddr::from_str]. *)
Context (from_str : str -> ext ServerConfig.t) (parse_addr : str -> ext SocketAddr).

Definition server_main (os : target_os) (fuel : nat) (config_path : str) : M unit :=
  config <- load_toml from_str config_path;
  '(_token, endpoint) <- server_setup os config (parse_addr (ServerConfig.listen config));
  accept_loop fuel endpoint.
End Main.

(** ** What a history says of it *)

(** The connections taken, each with the endpoint it came from. *)
Definition accepted : history -> list (Z * Z) :=
  observe (fun X o =>
    match o in Op X return X -> list (Z * Z) with
    | Accept endpoint => fun r => match r with Some i => [(endpoint, i)] | None => [] end
    | _ => fun _ => []
    end).
Definition spawned : history -> list Z :=
  observe (fun X o =>
    match o in Op X return X -> list Z with SpawnTask i => fun _ => [i] | _ => fun _ => [] end).

Lemma accepted_app h1 h2 : accepted (h1 ++ h2) = accepted h1 ++ accepted h2.
Proof. apply observe_app. Qed.
Lemma spawned_app h1 h2 : spawned (h1 ++ h2) = spawned h1 ++ spawned h2.
Proof. apply observe_app. Qed.

(** The calls that neither accept nor spawn. *)
Definition unready : forall X, Op X -> bool := fun X o =>
  match o with Accept _ | SpawnTask _ => false | _ => true end.

Lemma unready_quiet E {A} (p : prog A) h :
  all_ops unready p ->
  wp E h p (fun _ h' => exists t, h' = h ++ t /\ accepted t = [] /\ spawned t = []).
Proof.
  intros Hp. destruct (all_ops_run unready E p h Hp) as (t & Et & Ht).
  exists t. split; [exact Et|]. clear Et.
  induction Ht as [|[X o x] t He _ [IH1 IH2]]; [done|].
  change (Ev o x :: t) with ([Ev o x] ++ t). rewrite accepted_app, spawned_app, IH1, IH2.
  by destruct o.
Qed.

Lemma accept_loop_spec E fuel endpoint h :
  wp E h (accept_loop fuel endpoint) (fun r h' => r = Running /\ exists t, h' = h ++ t /\
    accepted t = map (pair endpoint) (spawned t)).
Proof.
  apply wp_loop with (I := fun _ h' => exists t, h' = h ++ t /\
    accepted t = map (pair endpoint) (spawned t)).
  - exists []. by rewrite app_nil_r.
  - intros [] h1 (t & -> & Ht). unfold accept_body. apply wp_bind, wp_vis, wp_ret. cbv beta.
    destruct (E _ (h ++ t) (Accept endpoint)) as [i|]; cbn [wp].
    + apply wp_bind, wp_vis, wp_ret, wp_ret. rewrite <-!app_assoc. eexists. split; [reflexivity|].
      by rewrite !accepted_app, !spawned_app, Ht, map_app.
    + apply wp_ret. rewrite <-app_assoc. eexists. split; [reflexivity|].
      by rewrite accepted_app, spawned_app, Ht, map_app.
  - intros [] h1 H1. by split.
Qed.

(** ** Start-up *)

(** What is in place before the first connection is taken, in the trace of the
    start-up: the configuration is the text of the file at [path], and is
    valid; the token file holds a token; the TUN device is built with the
    configuration's parameters; and [endpoint] was made of the certificates
    and the key in the files the configuration names, with the transport
    parameters it sets, on a socket bound to the address it names. *)
Record ready (from_str : str -> ext ServerConfig.t) (parse_addr : str -> ext SocketAddr)
    (os : target_os) (path : str) (endpoint : Z) (config : ServerConfig.t) (t : history) : Prop := {
  ready_config : exists raw t', t = Ev (ReadToString path) (Ok raw) :: t' /\
    from_str raw = Ok config /\ server_validate config = Ok tt;
  ready_token : exists raw, 32 <= str_len (trim raw) /\
    Ev (ReadToString (ServerConfig.auth_token_path config)) (Ok raw) ∈ t;
  ready_device : Ev (BuildAsync (tun_builder os (server_tun_options config))) (Ok tt) ∈ t;
  ready_endpoint : exists quic_config listen socket t1 tc t2, t = t1 ++ tc ++ t2 /\
    server_files (ServerConfig.cert_path config) (ServerConfig.key_path config)
      (server_certs quic_config) (server_key quic_config) tc /\
    server_alpn quic_config = [ALPN] /\
    server_transport quic_config = transport_config (ServerConfig.datagram_buffer_bytes config)
      (ServerConfig.mtu config) (ServerConfig.congestion_controller config) /\
    parse_addr (ServerConfig.listen config) = Ok listen /\
    Ev (Bind socket (addr_text listen)) (Ok tt) ∈ t2 /\
    Ev (EndpointNew (Some quic_config) socket) (Ok endpoint) ∈ t2;
}.

(** A run adds a trace with a property, and a value is reached only with a
    second one. *)
Definition adds (E : env) {A} (m : M A) (h : history) (Q : A -> history -> Prop) : Prop :=
  wp E h m (fun r h' => exists t, h' = h ++ t /\
    match r with Val a => Q a t | Fail _ => True | _ => False end).

Lemma adds_bind E {A B} (m : M A) (f : A -> M B) h (Q : A -> history -> Prop) R :
  adds E m h Q ->
  (forall a t, Q a t -> adds E (f a) (h ++ t) (fun b t' => R b (t ++ t'))) ->
  adds E (bind m f) h R.
Proof.
  unfold adds in *. intros Hm Hf. apply wp_bind. eapply wp_mono; [exact Hm|].
  intros [a|e| |] h1 (t & -> & H); try done; [|by exists t].
  eapply wp_mono; [by apply Hf|]. intros r h2 (t' & -> & H').
  exists (t ++ t'). by rewrite <-app_assoc.
Qed.

Lemma adds_call E {X} (o : Op (ext X)) h : adds E (call o) h (fun x t => Ev o (Ok x) ∈ t).
Proof.
  apply wp_vis. destruct (E _ h o) as [x|e]; eexists; (split; [reflexivity|]); [|done].
  set_solver.
Qed.
Lemma adds_lift E {A} (r : res A) h : adds E (lift r) h (fun a t => r = Ok a /\ t = []).
Proof. destruct r; exists []; by rewrite app_nil_r. Qed.

Lemma adds_load_token E h path :
  adds E (load_token path) h (fun token t => exists raw, token = trim raw /\
    32 <= str_len (trim raw) /\ Ev (ReadToString path) (Ok raw) ∈ t).
Proof.
  unfold adds, wp. rewrite load_token_run. cbn [fst snd].
  eexists. split; [reflexivity|].
  destruct (E _ h (ReadToString path)) as [raw|e]; [|done].
  destruct (Z.ltb_spec (str_len (trim raw)) 32); [done|]. exists raw. set_solver.
Qed.

Lemma adds_create_tun E os options h :
  adds E (catch (create_tun os options)) h (fun device t =>
    device = Ok tt -> Ev (BuildAsync (tun_builder os options)) (Ok tt) ∈ t).
Proof.
  apply wp_pbind, wp_vis. destruct (E _ h (BuildAsync _)) as [[]|e]; eexists; (split; [reflexivity|]).
  - set_solver.
  - done.
Qed.

Lemma adds_server_config E cert key buffer mtu cc h :
  adds E (server_config cert key buffer mtu cc) h (fun sc t =>
    server_files cert key (server_certs sc) (server_key sc) t /\
    server_alpn sc = [ALPN] /\ server_transport sc = transport_config buffer mtu cc).
Proof.
  eapply wp_mono; [apply server_config_spec|]. intros r h' (t & -> & H).
  exists t. split; [done|]. by destruct r.
Qed.

Lemma adds_create_udp_socket E addr recv send h :
  adds E (create_udp_socket addr recv send) h (fun socket t =>
    Ev (Bind socket (addr_text addr)) (Ok tt) ∈ t).
Proof.
  destruct (create_udp_socket_dialled E h addr recv send) as [Hs _].
  destruct (run_extends E (create_udp_socket addr recv send) h) as [t Et].
  exists t. split; [exact Et|].
  destruct (run E h (create_udp_socket addr recv send)).1 as [socket|e| |] eqn:Er; [|done..].
  destruct (proj2 (capacity_and_socket E 0 0 [] addr recv send h) socket Er)
    as (o & v & r & s & b & _ & _ & _ & _ & -> & E').
  rewrite Et in E'. apply app_inv_head in E' as ->. set_solver.
Qed.

Lemma server_setup_ready E h from_str parse_addr os path raw config :
  from_str raw = Ok config ->
  adds E (server_setup os config (parse_addr (ServerConfig.listen config))) h (fun r t =>
    ready from_str parse_addr os path r.2 config (Ev (ReadToString path) (Ok raw) :: t)).
Proof.
  intros Hconfig. unfold server_setup.
  eapply adds_bind; [apply adds_lift|]. intros [] t1 [Hvalid ->].
  eapply adds_bind; [apply adds_load_token|]. intros token t2 (text & -> & Hlen & Htoken).
  eapply adds_bind; [apply adds_create_tun|]. intros device t3 Hdevice.
  eapply adds_bind; [apply adds_lift|]. intros [] t4 [Hctx ->]. apply context_res_ok in Hctx.
  specialize (Hdevice Hctx).
  eapply adds_bind; [apply adds_lift|]. intros listen t5 [Hlisten ->].
  apply context_ext_ok in Hlisten.
  eapply adds_bind; [apply adds_server_config|]. intros sc tc (Hfiles & Halpn & Htransport).
  eapply adds_bind; [apply adds_create_udp_socket|]. intros socket t7 Hbind.
  eapply adds_bind; [apply adds_call|]. intros endpoint t8 Hend.
  exists []. rewrite !app_nil_r. split; [done|]. cbn [app snd]. split.
  - by exists raw; eexists.
  - exists text. split; [done|set_solver].
  - set_solver.
  - exists sc, listen, socket, (Ev (ReadToString path) (Ok raw) :: t2 ++ t3), tc, (t7 ++ t8).
    cbn [app]. rewrite <- !app_assoc. do 5 (split; [done|]). set_solver.
Qed.

Lemma server_setup_unready os config parsed : all_ops unready (server_setup os config parsed).
Proof.
  unfold server_setup, load_token, create_tun, catch, server_config, read_certs, read_private_key,
    create_udp_socket. ops.
Qed.

(** ** Properties *)

(** C36: The server takes connections only when everything is in place, and
    gives each a task. In every environment [main] never returns and never
    panics. It fails during the start-up, before it has taken a connection; or
    it has read its configuration from the file it was given, which passed
    validation, has found a token of at least 32 bytes in the token file, has
    built the TUN device with the configuration's parameters, and has an
    endpoint that was made of the certificates and the private key in the
    files named by the configuration, on a socket bound to the configured
    address ([ready]). It then takes connections from that endpoint only, and
    the tasks it spawns are exactly for those, in order. *)
Theorem server_accepts_when_ready E h from_str parse_addr os fuel path :
  let r := run E h (server_main from_str parse_addr os fuel path) in
  match r.1 with
  | Fail _ => exists t, r.2 = h ++ t /\ accepted t = [] /\ spawned t = []
  | Running => exists t1 t2 endpoint config, r.2 = h ++ t1 ++ t2 /\
      accepted t1 = [] /\ spawned t1 = [] /\
      ready from_str parse_addr os path endpoint config t1 /\
      accepted t2 = map (pair endpoint) (spawned t2)
  | _ => False
  end.
Proof.
  enough (wp E h (server_main from_str parse_addr os fuel path) (fun r h' =>
    match r with
    | Fail _ => exists t, h' = h ++ t /\ accepted t = [] /\ spawned t = []
    | Running => exists t1 t2 endpoint config, h' = h ++ t1 ++ t2 /\
        accepted t1 = [] /\ spawned t1 = [] /\
        ready from_str parse_addr os path endpoint config t1 /\
        accepted t2 = map (pair endpoint) (spawned t2)
    | _ => False
    end)) as H by exact H.
  unfold server_main, load_toml. apply wp_bind, wp_bind, wp_vis.
  destruct (E _ h (ReadToString path)) as [raw|e]; apply wp_ret; [|by eexists].
  set (h1 := h ++ _).
  destruct (from_str raw) as [config|e] eqn:Hconfig; apply wp_ret; [|by eexists].
  apply wp_bind. eapply wp_mono; [apply wp_and; [
    by apply (server_setup_ready E h1 from_str parse_addr os path raw config)|
    apply (unready_quiet E _ h1 (server_setup_unready os config _))]|].
  intros r h2 [(t & -> & Hr) (t' & Et & Ha & Hs)]. apply app_inv_head in Et as <-.
  assert (accepted (Ev (ReadToString path) (Ok raw) :: t) = []) as Ha' by exact Ha.
  assert (spawned (Ev (ReadToString path) (Ok raw) :: t) = []) as Hs' by exact Hs.
  destruct r as [[token endpoint]|e| |]; try done.
  - eapply wp_mono; [apply accept_loop_spec|]. intros r h3 (-> & t2 & -> & H2).
    exists (Ev (ReadToString path) (Ok raw) :: t), t2, endpoint, config.
    unfold h1. by rewrite <-!app_assoc.
  - exists (Ev (ReadToString path) (Ok raw) :: t). unfold h1. by rewrite <-!app_assoc.
Qed.

(** A host on which everything is found, with a client knocking again and
    again. *)
Definition hosted : env := fun X h o =>
  let config := ServerConfig.default in
  match o in Op X return X -> X with
  | ReadToString path => fun _ =>
      if bool_decide (path = lit "server.toml") then Ok (lit "toml")
      else Ok (lit "0123456789abcdef0123456789abcdef")
  | BuildAsync _ => fun _ => Ok tt
  | OpenFile path => fun _ =>
      if bool_decide (path = ServerConfig.cert_path config) then Ok 1
      else if bool_decide (path = ServerConfig.key_path config) then Ok 2 else Err (lit "not found")
  | PemCerts file => fun _ => Ok (if file =? 1 then [[10]] else [])
  | PemPrivateKey file => fun _ => Ok (if file =? 2 then Some [30] else None)
  | SingleCert _ _ => fun _ => Ok tt
  | QuicServerCrypto => fun _ => Ok tt
  | SocketNew _ => fun _ => Ok 3
  | SetRecvBufferSize _ _ => fun _ => Ok tt
  | SetSendBufferSize _ _ => fun _ => Ok tt
  | Bind _ _ => fun _ => Ok tt
  | EndpointNew _ _ => fun _ => Ok 4
  | Accept _ => fun _ => Some (50 + zlen (accepted h))
  | _ => fun x => x
  end (quiet X h o).
Definition toml_read (raw : str) : ext ServerConfig.t :=
  if bool_decide (raw = lit "toml") then Ok ServerConfig.default else Err (lit "no toml").
Definition addr_read (text : str) : ext SocketAddr :=
  Ok (mk_addr (Some (ipv4_new 0 0 0 0)) text).

Lemma server_accepts_when_ready_witness :
  let r := run hosted [] (server_main toml_read addr_read Linux 3 (lit "server.toml")) in
  r.1 = Running /\ spawned r.2 = [50; 51; 52] /\
  exists t1 t2 endpoint config, r.2 = t1 ++ t2 /\ accepted t1 = [] /\ spawned t1 = [] /\
    ready toml_read addr_read Linux (lit "server.toml") endpoint config t1 /\
    accepted t2 = map (pair endpoint) (spawned t2).
Proof.
  intros r. assert (r.1 = Running) as Hr by (vm_compute; reflexivity).
  split; [exact Hr|]. split; [vm_compute; reflexivity|].
  pose proof (server_accepts_when_ready hosted [] toml_read addr_read Linux 3 (lit "server.toml")) as H.
  cbv zeta in H. fold r in H. rewrite Hr in H. exact H.
Defined.
