(* ===== verification/ClientBench.v ===== *)
(** * Benchmarks of the client: [litevpn-client/src/main.rs]

    The checks of the benchmark options, the four benchmark loops, each the
    counterpart of one of the server's, and the repetition of a benchmark over
    fresh connections. *)

From S2P Require Import Prelude RustStr World Auth Config Frame Float64 Pacer Backlog Pumps.
From S2P Require Import Summary Report Routes Connect Server.

(** ** The checks of the command line *)

Definition parse_bench_direction (value : str) : res BenchDirection :=
  if bool_decide (value = lit "upload") then Ok Upload
  else if bool_decide (value = lit "download") then Ok Download
  else if bool_decide (value = lit "stream-upload") then Ok StreamUpload
  else if bool_decide (value = lit "stream-download") then Ok StreamDownload
  else if bool_decide (value = lit "stream-packet-upload") then Ok StreamPacketUpload
  else if bool_decide (value = lit "stream-packet-download") then Ok StreamPacketDownload
  else bail "bench must be upload, download, stream-upload, stream-download, stream-packet-upload, or stream-packet-download".

Definition bench_payload_bytes (direction : BenchDirection) (requested : Z)
    (max_datagram_size : option Z) (config_mtu : Z) : res Z :=
  let max := if uses_datagrams direction
             then Z.min (default config_mtu max_datagram_size) config_mtu
             else config_mtu in
  if max <? 64 then
    Err (Msg (lit "QUIC datagram payload limit is too small: " ++ to_dec max ++ lit " bytes")) else
  let payload_bytes := if requested =? 0 then max else requested in
  if payload_bytes <? 64 then bail "bench payload must be at least 64 bytes" else
  if max <? payload_bytes then
    Err (Msg (lit "bench payload " ++ to_dec payload_bytes
              ++ lit " exceeds current QUIC/datagram limit " ++ to_dec max)) else
  Ok payload_bytes.

Definition bench_target_mbps (value : Z) : res (option Z) :=
  if value =? 0 then Ok None else
  if 10000 <? value then bail "bench target Mbps must be <= 10000" else
  Ok (Some value).

Definition bench_runs (value : Z) : res Z :=
  if value =? 0 then bail "bench runs must be greater than zero" else
  if 100 <? value then bail "bench runs must be <= 100" else
  Ok value.

(** The unit test of the source. *)
Example validates_bench_runs :
  bench_runs 1 = Ok 1 /\ is_ok (bench_runs 0) = false /\ is_ok (bench_runs 101) = false.
Proof. done. Qed.

(** ** Uploads *)

(** [timeout(5 s, read_bench_summary_stream(..)).await.context(m)??]. *)
Definition await_summary (m : string) (connection : conn) : M str :=
  r <- timeout (Within (secs 5)) (read_bench_summary_stream connection);
  match r with
  | None => fail (Context (lit m) elapsed_error)
  | Some r => lift r
  end.

(** The select is the server's of a datagram benchmark. *)
Definition upload_bench_body (fuel : nat) (connection : conn) (payload : bytes) (deadline : Z)
    (st : sender_state) : M (sender_state + Z * Z) :=
  let '(packets, bytes, pacer, datagram_backlog) := st in
  turn <- select_bench_turn connection payload deadline;
  match turn with
  | DeadlineReached => ret (inr (packets, bytes))
  | Handed (Err error) => fail (External error)
  | Handed (Ok _) =>
    '(within_limit, datagram_backlog) <- queued_until fuel connection deadline datagram_backlog;
    if negb within_limit then ret (inr (packets, bytes)) else
    let packets := wrapping_add_u64 packets 1 in
    let bytes := wrapping_add_u64 bytes (zlen payload) in
    pacer <- record_and_wait pacer (zlen payload) (Some connection);
    ret (inl (packets, bytes, pacer, datagram_backlog))
  | ConnectionClosed reason =>
    fail (Msg (lit "connection closed during upload bench: " ++ reason))
  end.

(** The two lines after that of [print_local_bench]. *)
Definition print_stats (connection : conn) (summary : str) : M unit :=
  stats <- connection_stats_summary connection;
  println (lit "client stats: " ++ stats) ;;
  println (lit "server " ++ summary).

(** The measurement after an upload: the summary, the printed figures, a
    pause. *)
Definition upload_measurement (m : string) (label : str) (connection : conn)
    (elapsed bytes packets payload_bytes : Z) (target_mbps : option Z) : M BenchMeasurement :=
  summary <- await_summary m connection;
  print_local_bench label elapsed bytes packets payload_bytes target_mbps ;;
  print_stats connection summary ;;
  perform (Sleep (millis 100)) ;;
  ret (bench_measurement elapsed bytes packets (parse_server_bench_measurement summary)).

Definition run_upload_bench (fuel : nat) (connection : conn) (duration_secs payload_bytes : Z)
    (target_mbps : option Z) (datagram_backlog_packets : Z) (adaptive_egress : bool)
    : M BenchMeasurement :=
  let payload := repeat 0 (Z.to_nat payload_bytes) in
  started <- perform Now;
  deadline <- instant_add started (secs duration_secs);
  pacer <- from_optional target_mbps payload_bytes adaptive_egress;
  datagram_backlog <- backlog_new connection datagram_backlog_packets;
  '(packets, bytes) <-
    loop fuel (upload_bench_body fuel connection payload deadline) (0, 0, pacer, datagram_backlog);
  elapsed <- elapsed_since started;
  upload_measurement "timed out waiting for bench summary" (lit "upload sent") connection elapsed
    bytes packets payload_bytes target_mbps.

Definition stream_upload_body (stream : sid) (connection : conn) (payload : bytes)
    (deadline : Z) (framed : bool) (st : Z * Z * EgressPacer * bytes)
    : M (Z * Z * EgressPacer * bytes + Z * Z) :=
  let '(packets, bytes, pacer, frame_header) := st in
  now <- perform Now;
  if deadline <=? now then ret (inr (packets, bytes)) else
  if framed then
    turn <- select2
      (h <- write_stream_packet stream frame_header payload (lit "stream bench"); ret (inl h))
      (reason <- perform (Closed connection); ret (inr reason));
    match turn with
    | inl frame_header =>
      let packets := wrapping_add_u64 packets 1 in
      let bytes := wrapping_add_u64 bytes (zlen payload) in
      pacer <- record_and_wait pacer (zlen payload) (Some connection);
      ret (inl (packets, bytes, pacer, frame_header))
    | inr reason =>
      fail (Msg (lit "connection closed during stream packet upload bench: " ++ reason))
    end
  else
    r <- timeout (Until deadline) (call (Write stream payload));
    match r with
    | Some (Ok n) =>
      if n =? 0 then ret (inr (packets, bytes)) else
      let packets := wrapping_add_u64 packets 1 in
      let bytes := wrapping_add_u64 bytes n in
      pacer <- record_and_wait pacer n (Some connection);
      ret (inl (packets, bytes, pacer, frame_header))
    | Some (Err error) => fail error
    | None => ret (inr (packets, bytes))
    end.

Definition run_stream_upload_bench (fuel : nat) (connection : conn)
    (duration_secs payload_bytes : Z) (target_mbps : option Z) (adaptive_egress framed : bool)
    : M BenchMeasurement :=
  let payload := repeat 0 (Z.to_nat payload_bytes) in
  stream <- call_context "failed to open stream upload" (OpenUni connection);
  started <- perform Now;
  deadline <- instant_add started (secs duration_secs);
  pacer <- from_optional target_mbps payload_bytes adaptive_egress;
  '(packets, bytes) <-
    loop fuel (stream_upload_body stream connection payload deadline framed)
      (0, 0, pacer, [0; 0]);
  finish_stream_with_ack stream (lit "stream upload") ;;
  elapsed <- elapsed_since started;
  let label := if framed then lit "stream packet upload sent" else lit "stream upload sent" in
  upload_measurement "timed out waiting for stream bench summary" label connection elapsed bytes
    packets payload_bytes target_mbps.

(** ** Downloads *)

(** A turn of the [tokio::select!] of the datagram download. The summary is
    read by a spawned task, which makes its calls while the loop goes on:
    [task] is what is left of it. *)
Inductive download_turn : Type :=
| SummaryReady (r : outcome str)
| TaskRuns (task : M str)
| Received (r : ext bytes)
| TimedOut.

Definition select_download_turn (connection : conn) (deadline : Z) (task : M str)
    : M download_turn :=
  polled <- perform Poll;
  if (polled : bool) then
    match task with
    | Ret r => ret (SummaryReady r)
    | Vis o k => x <- perform o; ret (TaskRuns (k x))
    end
  else
    select2 (packet <- perform (ReadDatagram connection); ret (Received packet))
      (perform (SleepUntil deadline) ;; ret TimedOut).

Definition download_bench_body (connection : conn) (started deadline payload_bytes : Z)
    (target_mbps : option Z) (st : Z * Z * M str) : M (Z * Z * M str + BenchMeasurement) :=
  let '(packets, bytes, summary_task) := st in
  turn <- select_download_turn connection deadline summary_task;
  match turn with
  | SummaryReady r =>
    summary <- Ret r;
    elapsed <- elapsed_since started;
    print_local_bench (lit "download received") elapsed bytes packets payload_bytes target_mbps ;;
    print_stats connection summary ;;
    elapsed <- elapsed_since started;
    ret (inr (bench_measurement elapsed bytes packets (parse_server_bench_measurement summary)))
  | TaskRuns summary_task => ret (inl (packets, bytes, summary_task))
  | Received (Ok packet) =>
    ret (inl (wrapping_add_u64 packets 1, wrapping_add_u64 bytes (zlen packet), summary_task))
  | Received (Err error) => fail (External error)
  | TimedOut => lift (bail "timed out waiting for download bench summary")
  end.

Definition run_download_bench (fuel : nat) (connection : conn) (duration_secs payload_bytes : Z)
    (target_mbps : option Z) : M BenchMeasurement :=
  started <- perform Now;
  deadline <- instant_add started (secs (wrapping_add_u64 duration_secs 5));
  loop fuel (download_bench_body connection started deadline payload_bytes target_mbps)
    (0, 0, read_bench_summary_stream connection).

(** One packet of a framed stream, or one read of an unframed one. *)
Definition stream_download_body (fuel : nat) (stream : sid) (deadline : Z) (framed : bool)
    (st : Z * Z * bytes) : M (Z * Z * bytes + Z * Z) :=
  let '(packets, bytes, buf) := st in
  if framed then
    r <- timeout (Until deadline) (read_stream_packet fuel stream buf (lit "stream bench"));
    match r with
    | Some (Ok (Some n, buf)) =>
      if n =? 0 then ret (inl (packets, bytes, buf))
      else ret (inl (wrapping_add_u64 packets 1, wrapping_add_u64 bytes n, buf))
    | Some (Ok (None, _)) => ret (inr (packets, bytes))
    | Some (Err error) => fail error
    | None => lift (bail "timed out waiting for stream packet download")
    end
  else
    r <- timeout (Until deadline) (call (Read stream (zlen buf)));
    match r with
    | Some (Ok (Some d)) =>
      ret (inl (wrapping_add_u64 packets 1, wrapping_add_u64 bytes (zlen d), splice buf 0 d))
    | Some (Ok None) => ret (inr (packets, bytes))
    | Some (Err error) => fail error
    | None => lift (bail "timed out waiting for stream download")
    end.

Definition run_stream_download_bench (fuel : nat) (connection : conn)
    (duration_secs payload_bytes : Z) (target_mbps : option Z) (framed : bool)
    : M BenchMeasurement :=
  stream <- call_context "failed to accept stream download" (AcceptUni connection);
  started <- perform Now;
  deadline <- instant_add started (secs (wrapping_add_u64 duration_secs 5));
  '(packets, bytes) <-
    loop fuel (stream_download_body fuel stream deadline framed)
      (0, 0, repeat 0 (Z.to_nat payload_bytes));
  summary <- await_summary "timed out waiting for stream bench summary" connection;
  let label :=
    if framed then lit "stream packet download received" else lit "stream download received" in
  elapsed <- elapsed_since started;
  print_local_bench label elapsed bytes packets payload_bytes target_mbps ;;
  print_stats connection summary ;;
  elapsed <- elapsed_since started;
  ret (bench_measurement elapsed bytes packets (parse_server_bench_measurement summary)).

Definition run_bench (fuel : nat) (connection : conn) (direction : BenchDirection)
    (duration_secs payload_bytes : Z) (target_mbps : option Z) (datagram_backlog_packets : Z)
    (adaptive_egress : bool) : M BenchMeasurement :=
  if duration_secs =? 0 then lift (bail "bench duration must be greater than zero") else
  match direction with
  | Upload =>
    run_upload_bench fuel connection duration_secs payload_bytes target_mbps
      datagram_backlog_packets adaptive_egress
  | Download => run_download_bench fuel connection duration_secs payload_bytes target_mbps
  | StreamUpload =>
    run_stream_upload_bench fuel connection duration_secs payload_bytes target_mbps
      adaptive_egress false
  | StreamDownload =>
    run_stream_download_bench fuel connection duration_secs payload_bytes target_mbps false
  | StreamPacketUpload =>
    run_stream_upload_bench fuel connection duration_secs payload_bytes target_mbps
      adaptive_egress true
  | StreamPacketDownload =>
    run_stream_download_bench fuel connection duration_secs payload_bytes target_mbps true
  end.

(** ** Repetition *)

Section Iterations.
(** The configuration, the server, and the options of the command line. *)
Context (fuel : nat) (config : ClientConfig.t) (quic_config : QuicClientConfig)
  (server_addr : SocketAddr) (token : str) (auth_mode : AuthMode) (direction : BenchDirection) (duration_secs payload_bytes : Z)
  (target_mbps : option Z) (runs run_gap_ms connect_timeout_secs connect_retries connect_retry_delay_ms : Z)
  (adaptive_egress : bool).

(** The endpoint and connection of a run: those at hand, or new ones. *)
Definition bench_connection (next : option (Z * conn)) : M (Z * conn) :=
  match next with
  | Some made => ret made
  | None =>
    '(endpoint, connection) <-
      connect_client config server_addr quic_config connect_timeout_secs connect_retries
        connect_retry_delay_ms;
    client_authenticate_with_mode connection token auth_mode ;;
    ret (endpoint, connection)
  end.

(** [for run in 1..=runs]: [remaining] runs are left, of which the next is
    number [run]. *)
Fixpoint bench_iterations (remaining : nat) (run : Z) (next : option (Z * conn))
    (measurements : list BenchMeasurement) : M (list BenchMeasurement) :=
  match remaining with
  | O => ret measurements
  | S remaining =>
    '(endpoint, connection) <- bench_connection next;
    (if 1 <? runs then println (lit "bench run " ++ to_dec run ++ lit "/" ++ to_dec runs)
     else ret tt) ;;
    result <- catch (run_bench fuel connection direction duration_secs payload_bytes target_mbps
                       (ClientConfig.datagram_backlog_packets config) adaptive_egress);
    perform (Close connection 0 (lit "bench complete")) ;;
    perform (WaitIdle endpoint) ;;
    m <- lift result;
    (if (run <? runs) && (0 <? run_gap_ms) then perform (Sleep (millis run_gap_ms))
     else ret tt) ;;
    bench_iterations remaining (run + 1) None (measurements ++ [m])
  end.

Definition run_bench_iterations (first_endpoint : Z) (first_connection : conn) : M unit :=
  measurements <-
    bench_iterations (Z.to_nat runs) 1 (Some (first_endpoint, first_connection)) [];
  print_bench_aggregate measurements.
End Iterations.

(** ** What a benchmark calls

    Neither the TUN device, nor commands, nor new or closed connections. *)
Definition bench_op : forall X, Op X -> bool := fun X o =>
  match o with
  | TunRecv _ | TunSend _ | BuildAsync _ | Command _ _ | SocketNew _ | Handshake _
  | Close _ _ _ => false
  | _ => true
  end.

(** Printing, and the end of an upload. *)
Definition print_op : forall X, Op X -> bool := fun X o =>
  match o with Println _ => true | _ => is_wait_op X o end.
Definition closing_op : forall X, Op X -> bool := fun X o =>
  match o with Println _ | AcceptBi _ | ReadToEnd _ _ => true | _ => is_wait_op X o end.

Lemma print_stats_calls c s : all_ops print_op (print_stats c s).
Proof. unfold print_stats. ops. Qed.
Lemma print_local_bench_calls l e b p n t : all_ops print_op (print_local_bench l e b p n t).
Proof. unfold print_local_bench. ops. Qed.
Lemma print_bench_aggregate_calls ms : all_ops print_op (print_bench_aggregate ms).
Proof. unfold print_bench_aggregate. ops. Qed.
Lemma await_summary_calls m c : all_ops closing_op (await_summary m c).
Proof. unfold await_summary. ops. Qed.
#[export] Hint Resolve print_stats_calls print_local_bench_calls print_bench_aggregate_calls
  await_summary_calls : calls.
Lemma upload_measurement_calls m l c e b p n t :
  all_ops closing_op (upload_measurement m l c e b p n t).
Proof. unfold upload_measurement. ops. Qed.
#[export] Hint Resolve upload_measurement_calls : calls.

(** The rest of the spawned task stays within the class as it runs. *)
Lemma download_loop_bench (P : forall X, Op X -> bool) fuel c started deadline n tgt st :
  P _ Poll = true -> P _ Now = true -> P _ (ConnStats c) = true ->
  P _ (ReadDatagram c) = true -> P _ (SleepUntil deadline) = true ->
  (forall line, P _ (Println line) = true) ->
  all_ops P st.2 -> all_ops P (loop fuel (download_bench_body c started deadline n tgt) st).
Proof.
  intros HP HN HS HR HU HL. revert st. induction fuel as [|fuel IH]; [done|].
  intros [[packets bytes] task] Ht. cbn [loop snd] in *.
  unfold bind, download_bench_body, select_download_turn. cbn.
  split; [done|]. intros [].
  - destruct task as [r|X o k]; cbn.
    + destruct r as [s|e|w|]; cbn; [|done..].
      repeat (split; [by auto|first [intros []|intros ?]; cbn]; try done).
    + destruct Ht as [Ho Hk]. split; [done|]. intros x. cbn. apply IH, Hk.
  - cbn. split; [done|]. intros []; (split; [done|]); cbn.
    + intros [p|e]; cbn; [by apply IH|done].
    + done.
Qed.

Lemma run_bench_calls fuel c d dur pay tgt bl a :
  all_ops bench_op (run_bench fuel c d dur pay tgt bl a).
Proof.
  unfold run_bench. destruct (dur =? 0); [by ops|]. destruct d.
  2:{ unfold run_download_bench. apply all_ops_bind; [by ops|intros started].
      apply all_ops_bind; [by ops|intros deadline].
      apply download_loop_bench; [done..|cbn [snd]; auto with vpn]. }
  all: unfold run_upload_bench, upload_bench_body, select_bench_turn, run_stream_upload_bench,
    stream_upload_body, run_stream_download_bench, stream_download_body; ops.
Qed.
#[export] Hint Resolve run_bench_calls : calls.

(** ** The iterations *)

(** The connections a run obtained and those it closed. *)
Lemma closes_app h1 h2 : closes (h1 ++ h2) = closes h1 ++ closes h2.
Proof. apply observe_app. Qed.

Abbreviation closed_all cs := (map (fun c : conn => (c, lit "bench complete")) cs).

(** [h'] adds to [h] exactly these successful handshakes and closings. *)
Definition used (h h' : history) (opened closed : list conn) : Prop :=
  exists t, h' = h ++ t /\ connected t = opened /\ closes t = closed_all closed.

Lemma used_trans h1 h2 h3 o1 o2 c1 c2 :
  used h1 h2 o1 c1 -> used h2 h3 o2 c2 -> used h1 h3 (o1 ++ o2) (c1 ++ c2).
Proof.
  intros (t1 & -> & <- & E1) (t2 & -> & <- & E2). exists (t1 ++ t2).
  by rewrite <-app_assoc, connected_app, closes_app, E1, E2, map_app.
Qed.

Lemma bench_ops_used E {A} (p : prog A) h :
  all_ops bench_op p -> wp E h p (fun _ h' => used h h' [] []).
Proof.
  intros Hp. destruct (all_ops_run bench_op E p h Hp) as (t & Et & Ht).
  exists t. split; [exact Et|]. clear Et.
  induction Ht as [|[X o x] t He _ IH]; [done|].
  destruct IH as (Ic & Il). change (Ev o x :: t) with ([Ev o x] ++ t).
  rewrite connected_app, closes_app, Ic, Il. by destruct o.
Qed.

(** Dialling closes nothing. *)
Definition no_close : forall X, Op X -> bool := fun X o =>
  match o with Close _ _ _ => false | _ => true end.

Lemma connect_client_no_close config addr qc limit retries delay :
  all_ops no_close (connect_client config addr qc limit retries delay).
Proof.
  unfold connect_client. generalize 1 (Z.to_nat retries). intros attempt n. revert attempt.
  induction n as [|n IH]; intros attempt; cbn [connect_attempts]; [done|].
  assert (all_ops no_close (connect_once config addr qc limit)) as Honce
    by (unfold connect_once, create_udp_socket; ops).
  apply all_ops_bind; [unfold catch; by ops|]. intros []; ops.
Qed.

Lemma no_closes E {A} (p : prog A) h :
  all_ops no_close p -> wp E h p (fun _ h' => exists t, h' = h ++ t /\ closes t = []).
Proof.
  intros Hp. destruct (all_ops_run no_close E p h Hp) as (t & Et & Ht).
  exists t. split; [exact Et|]. clear Et.
  induction Ht as [|[X o x] t He _ IH]; [done|].
  change (Ev o x :: t) with ([Ev o x] ++ t). rewrite closes_app, IH. by destruct o.
Qed.

Lemma connect_client_used E h config addr qc limit value retries delay :
  is_u64 value -> connect_retries value = Ok retries ->
  wp E h (connect_client config addr qc limit retries delay) (fun r h' => settled r /\
    used h h' (match r with Val (_, c) => [c] | _ => [] end) []).
Proof.
  intros Hv Hr. pose proof (connect_client_dialled E h config addr qc limit value retries delay Hv Hr) as H1.
  pose proof (no_closes E _ h (connect_client_no_close config addr qc limit retries delay)) as H2.
  destruct H1 as (Hs & n & _ & (t & Et & _ & _ & Hc) & _), H2 as (t' & Et' & Hcl).
  split; [exact Hs|]. rewrite Et in Et'. apply app_inv_head in Et' as <-. by exists t.
Qed.

Lemma authenticate_settled E h c token mode :
  wp E h (client_authenticate_with_mode c token mode) (fun r _ => settled r).
Proof.
  unfold client_authenticate_with_mode. apply settled_bind; [settles|].
  intros [send recv] h'. settles.
Qed.

Lemma authenticate_bench c token mode :
  all_ops bench_op (client_authenticate_with_mode c token mode).
Proof. unfold client_authenticate_with_mode. ops. Qed.
#[export] Hint Resolve authenticate_bench : calls.

Section IterationsUse.
Context (fuel : nat) (config : ClientConfig.t) (quic_config : QuicClientConfig)
  (server_addr : SocketAddr) (token : str) (auth_mode : AuthMode) (direction : BenchDirection) (duration_secs payload_bytes : Z)
  (target_mbps : option Z) (runs run_gap_ms limit value retries delay : Z) (adaptive_egress : bool).
Context (Hvalue : is_u64 value) (Hretries : connect_retries value = Ok retries).

Abbreviation iterations := (bench_iterations fuel config quic_config server_addr token auth_mode direction
  duration_secs payload_bytes target_mbps runs run_gap_ms limit retries delay adaptive_egress).

(** The connection at hand before a run. *)
Definition at_hand (next : option (Z * conn)) : list conn :=
  match next with Some (_, c) => [c] | None => [] end.

(** From [h] to [h'] there was one benchmark on each of these connections, with
    these outcomes; each was closed as soon as its benchmark had ended, and
    before the next began. *)
Fixpoint sessions (E : env) (h : history) (cs : list conn) (rs : list (outcome BenchMeasurement))
    (h' : history) : Prop :=
  match cs, rs with
  | [], [] => h `prefix_of` h'
  | c :: cs, r :: rs => exists h1 h2 endpoint, h `prefix_of` h1 /\
      run E h1 (run_bench fuel c direction duration_secs payload_bytes target_mbps
                  (ClientConfig.datagram_backlog_packets config) adaptive_egress) = (r, h2) /\
      sessions E (h2 ++ [Ev (Close c 0 (lit "bench complete")) tt; Ev (WaitIdle endpoint) tt])
        cs rs h'
  | _, _ => False
  end.

(** How the repetition fails, with the outcome of the last benchmark and the
    connection left open: a benchmark fails; no connection can be made; a new
    connection does not pass authentication. *)
Inductive failure (E : env) (e : error) (h' : history) :
    list (outcome BenchMeasurement) -> list conn -> Prop :=
| benchmark_failed : failure E e h' [Fail e] []
| connecting_failed h1 :
    run E h1 (connect_client config server_addr quic_config limit retries delay) = (Fail e, h') ->
    failure E e h' [] []
| authentication_failed h1 c :
    run E h1 (client_authenticate_with_mode c token auth_mode) = (Fail e, h') ->
    failure E e h' [] [c].

(** What was opened, used and closed by [remaining] runs. *)
Definition completed (E : env) (next : option (Z * conn)) (remaining : nat) (h h' : history)
    (new : list BenchMeasurement) : Prop :=
  exists opened, length new = remaining /\ used h h' opened (at_hand next ++ opened) /\
    sessions E h (at_hand next ++ opened) (map Val new) h'.
Definition failed (E : env) (e : error) (next : option (Z * conn)) (remaining : nat)
    (h h' : history) : Prop :=
  exists opened closed left_open new last, (length new < remaining)%nat /\
    used h h' opened closed /\ at_hand next ++ opened = closed ++ left_open /\
    failure E e h' last left_open /\ sessions E h closed (map Val new ++ last) h'.

Lemma sessions_from E h0 h cs rs h' :
  h0 `prefix_of` h -> sessions E h cs rs h' -> sessions E h0 cs rs h'.
Proof.
  destruct cs as [|c cs], rs as [|r rs]; cbn [sessions]; try done; [by etrans|].
  intros Hp (h1 & h2 & ep & H1 & Hr & Hs). exists h1, h2, ep. split; [by etrans|done].
Qed.

Lemma used_prefix h h' opened closed : used h h' opened closed -> h `prefix_of` h'.
Proof. intros (t & -> & _). by exists t. Qed.

Lemma bench_connection_used E h next remaining : (0 < remaining)%nat ->
  wp E h (bench_connection config quic_config server_addr token auth_mode limit retries delay next)
    (fun r h' =>
      match r with
      | Val (_, c) => exists opened, used h h' opened [] /\ at_hand next ++ opened = [c]
      | Fail e => failed E e next remaining h h'
      | _ => False
      end).
Proof.
  intros Hrem. destruct next as [[ep c]|]; cbn [bench_connection].
  { apply wp_ret. exists []. split; [|done]. exists []. by rewrite app_nil_r. }
  apply wp_bind. pose proof (connect_client_used E h config server_addr quic_config limit value
    retries delay Hvalue Hretries) as [Hs H1].
  unfold wp. destruct (run E h (connect_client _ _ _ _ _ _)) as [[[ep c]|e| |] h1] eqn:Ec;
    cbn [fst snd] in *; try done.
  2:{ exists [], [], [], [], []. split; [done|]. split; [done|]. split; [done|].
      split; [by eapply connecting_failed|]. by eapply used_prefix. }
  unfold bind. rewrite !run_pbind. pose proof (authenticate_settled E h1 c token auth_mode) as Ha.
  pose proof (bench_ops_used E _ h1 (authenticate_bench c token auth_mode)) as H2. unfold wp in Ha, H2.
  destruct (run E h1 (client_authenticate_with_mode c token auth_mode)) as [r h2] eqn:Er.
  cbn [fst snd] in *. pose proof (used_trans _ _ _ _ _ _ _ H1 H2) as H. rewrite app_nil_r in H.
  destruct r as [[]|e| |]; try done; cbn [run fst snd].
  - by exists [c].
  - exists [c], [], [c], [], []. split; [done|]. split; [done|]. split; [done|].
    split; [by eapply authentication_failed|]. by eapply used_prefix.
Qed.

(** A line is printed, or its failure ends the process. *)
Lemma println_used E h line :
  wp E h (println line) (fun r h' => used h h' [] [] /\
    match r with Val _ | Panic _ => True | _ => False end).
Proof.
  apply wp_vis. set (x := E _ h (Println line)).
  assert (used h (h ++ [Ev (Println line) x]) [] []) by (by eexists). by destruct x.
Qed.

(** The number of the run is printed when there are several. *)
Lemma announced_used E h0 h opened run :
  used h0 h opened [] ->
  wp E h (if 1 <? runs then println (lit "bench run " ++ to_dec run ++ lit "/" ++ to_dec runs)
          else ret tt) (fun r h' => used h0 h' opened [] /\
    match r with Val _ | Panic _ => True | _ => False end).
Proof.
  intros H. destruct (1 <? runs); [|by apply wp_ret].
  eapply wp_mono; [apply println_used|]. intros r h' [H' Hr]. split; [|exact Hr].
  rewrite <- (app_nil_r opened). exact (used_trans _ _ _ _ _ _ _ H H').
Qed.

(** A pause opens and closes nothing. *)
Lemma used_after h h1 h2 opened closed :
  used h h1 [] [] -> used h1 h2 opened closed -> used h h2 opened closed.
Proof. intros H1 H2. exact (used_trans _ _ _ [] _ [] _ H1 H2). Qed.

Lemma completed_after E h h1 h2 remaining new :
  used h h1 [] [] -> completed E None remaining h1 h2 new -> completed E None remaining h h2 new.
Proof.
  intros H1 (op & Hl & Hu & Hs). exists op. split; [done|]. split; [by eapply used_after|].
  eapply sessions_from; [by eapply used_prefix|exact Hs].
Qed.

Lemma failed_after E e h h1 h2 remaining :
  used h h1 [] [] -> failed E e None remaining h1 h2 -> failed E e None remaining h h2.
Proof.
  intros H1 (op & cs & ex & new & lst & Hl & Hu & E' & Hf & Hs). exists op, cs, ex, new, lst.
  split; [done|]. split; [by eapply used_after|]. split; [done|]. split; [done|].
  eapply sessions_from; [by eapply used_prefix|exact Hs].
Qed.

(** The part of [h] up to the end of a run and the closing of its connection,
    which used the one at hand. *)
Definition ran (E : env) (next : option (Z * conn)) (c : conn) (r : outcome BenchMeasurement)
    (h h' : history) : Prop :=
  exists opened h1 h2 ep, at_hand next ++ opened = [c] /\ used h h' opened [c] /\
    h `prefix_of` h1 /\
    run E h1 (run_bench fuel c direction duration_secs payload_bytes target_mbps
                (ClientConfig.datagram_backlog_packets config) adaptive_egress) = (r, h2) /\
    h' = h2 ++ [Ev (Close c 0 (lit "bench complete")) tt; Ev (WaitIdle ep) tt].

Lemma ran_failed E next c e h h' remaining :
  ran E next c (Fail e) h h' -> failed E e next (S remaining) h h'.
Proof.
  intros (op & h1 & h2 & ep & Eq & Hu & Hp & Hr & ->).
  exists op, [c], [], [], [Fail e]. split; [cbn; lia|]. split; [done|].
  split; [done|]. split; [constructor|]. exists h1, h2, ep. split; [done|]. split; [done|]. by cbn.
Qed.

Lemma ran_completed E next c m h h' remaining h'' new :
  ran E next c (Val m) h h' -> completed E None remaining h' h'' new ->
  completed E next (S remaining) h h'' (m :: new).
Proof.
  intros (op & h1 & h2 & ep & Eq & Hu & Hp & Hr & ->) (op' & <- & Hu' & Hs). cbn [at_hand app] in *.
  exists (op ++ op'). rewrite app_assoc, Eq. split; [done|].
  split; [exact (used_trans _ _ _ _ _ _ _ Hu Hu')|]. by exists h1, h2, ep.
Qed.

Lemma ran_then_failed E next c m e h h' remaining h'' :
  ran E next c (Val m) h h' -> failed E e None remaining h' h'' ->
  failed E e next (S remaining) h h''.
Proof.
  intros (op & h1 & h2 & ep & Eq & Hu & Hp & Hr & ->) (op' & cs & ex & new & lst & Hl & Hu' & E' & Hf & Hs).
  cbn [at_hand app] in *. exists (op ++ op'), (c :: cs), ex, (m :: new), lst.
  split; [cbn; lia|]. split; [exact (used_trans _ _ _ _ _ [c] _ Hu Hu')|].
  split; [by rewrite app_assoc, Eq, E'|]. split; [done|]. by exists h1, h2, ep.
Qed.

(** A run on [c], its connection closed, and then its result. *)
Lemma bench_run_used E h next c ep opened h1 (f : BenchMeasurement -> M (list BenchMeasurement)) Q :
  used h h1 opened [] -> at_hand next ++ opened = [c] ->
  (forall m h3, ran E next c (Val m) h h3 -> wp E h3 (f m) Q) ->
  (forall e h3, ran E next c (Fail e) h h3 -> Q (Fail e) h3) ->
  (forall w h3, Q (Panic w) h3) -> (forall h3, Q Running h3) ->
  wp E h1 (result <- catch (run_bench fuel c direction duration_secs payload_bytes target_mbps
                       (ClientConfig.datagram_backlog_packets config) adaptive_egress);
    perform (Close c 0 (lit "bench complete")) ;;
    perform (WaitIdle ep) ;;
    m <- lift result; f m) Q.
Proof.
  intros H1 Eq HV HF HP HR. apply wp_bind, wp_catch. unfold wp at 1.
  pose proof (bench_ops_used E _ h1 (run_bench_calls fuel c direction duration_secs payload_bytes
    target_mbps (ClientConfig.datagram_backlog_packets config) adaptive_egress)) as H2. unfold wp in H2.
  destruct (run E h1 (run_bench _ _ _ _ _ _ _ _)) as [r h2] eqn:Er. cbn [fst snd] in *.
  pose proof (used_trans _ _ _ _ _ _ _ H1 H2) as H12. rewrite app_nil_r in H12.
  set (h3 := (h2 ++ [Ev (Close c 0 (lit "bench complete")) tt]) ++ [Ev (WaitIdle ep) tt]).
  assert (ran E next c r h h3) as Hran.
  { exists opened, h1, h2, ep. unfold h3. rewrite <- app_assoc. split; [done|].
    split; [|by split; [eapply used_prefix|]]. rewrite <- (app_nil_r opened).
    apply (used_trans h h2 _ opened [] [] [c] H12). by eexists. }
  destruct r as [m|e| |]; [..|apply HP|apply HR]; apply wp_bind, wp_vis, wp_ret, wp_bind, wp_vis, wp_ret;
    destruct (E unit h2 _), (E unit _ (WaitIdle ep)); apply wp_bind, wp_ret; [by apply HV|by apply HF].
Qed.

Lemma bench_iterations_used E remaining :
  forall h run next measurements, (remaining = 0%nat -> next = None) ->
  wp E h (iterations remaining run next measurements) (fun r h' =>
    match r with
    | Val ms => exists new, ms = measurements ++ new /\ completed E next remaining h h' new
    | Fail e => failed E e next remaining h h'
    | _ => True
    end).
Proof.
  induction remaining as [|remaining IH]; intros h run next ms Hnext; cbn [bench_iterations].
  { rewrite (Hnext eq_refl). apply wp_ret. exists []. rewrite app_nil_r. split; [done|].
    exists []. split; [done|]. split; [exists []; by rewrite app_nil_r|by exists []; rewrite app_nil_r]. }
  apply wp_bind. eapply wp_mono; [apply (bench_connection_used E h next (S remaining)); lia|].
  intros [[ep c]|e| |] h1 H1; try done. destruct H1 as (opened & H1 & Eq).
  apply wp_bind. eapply wp_mono; [by apply (announced_used E h h1 opened)|].
  clear H1. intros [[]|e|w|] h1' [H1 Hr]; try done. clear Hr.
  apply (bench_run_used E h next c ep opened h1'); [done|done| |intros; by eapply ran_failed|done..].
  intros m h3 Hran. apply wp_bind.
  eapply wp_mono with (Q := fun r h4 => r = Val tt /\ used h3 h4 [] []).
  { destruct (_ && _); [apply wp_vis, wp_ret|apply wp_ret].
    - split; [by destruct (E unit h3 _)|]. by eexists.
    - split; [done|]. exists []. by rewrite app_nil_r. }
  intros r h4 [-> H4]. eapply wp_mono; [apply IH; by intros _|].
  intros r h5 H5. destruct r as [ms'|e| |]; try done.
  - destruct H5 as (new & -> & H5). exists (m :: new). rewrite <- app_assoc. split; [done|].
    eapply ran_completed; [exact Hran|]. by eapply completed_after.
  - eapply ran_then_failed; [exact Hran|]. by eapply failed_after.
Qed.
End IterationsUse.

(** ** Properties *)

(** C26: Every benchmark is measured, and its connection closed, whatever comes
    of it. When [run_bench_iterations] succeeds, every one of the [runs] had a
    connection of its own (the first one given, the others opened by
    [connect_client]), each was closed right after its benchmark had ended and
    before the next began, nothing else was closed, and what is printed last
    is the aggregate of exactly the measurements these benchmarks returned.
    When it fails, fewer than [runs] benchmarks have succeeded, and it fails
    in one of three ways: with the error of a last benchmark, whose connection
    was closed all the same, so that none is left open; with the error of
    [connect_client], with none left open; or with the error of the
    authentication on a new connection, the only one left open. *)
Theorem bench_connections_closed E h fuel config qc addr token mode direction duration payload
    target runs gap limit value retries delay adaptive ep c :
  is_u64 value -> connect_retries value = Ok retries -> 1 <= runs ->
  let r := run E h (run_bench_iterations fuel config qc addr token mode direction duration payload
                      target runs gap limit retries delay adaptive ep c) in
  let sessions := sessions fuel config direction duration payload target adaptive E h in
  match r.1 with
  | Val _ => exists ms t t', r.2 = h ++ t ++ t' /\ zlen ms = runs /\
      sessions (c :: connected t) (map Val ms) (h ++ t) /\
      closes (t ++ t') = closed_all (c :: connected (t ++ t')) /\
      run E (h ++ t) (print_bench_aggregate ms) = r
  | Fail e => exists ms last left_open closed t, r.2 = h ++ t /\ zlen ms < runs /\
      failure config qc addr token mode limit retries delay E e r.2 last left_open /\
      sessions closed (map Val ms ++ last) r.2 /\
      closes t = closed_all closed /\ c :: connected t = closed ++ left_open
  | _ => True
  end.
Proof.
  intros Hv Hr Hruns.
  pose proof (bench_iterations_used fuel config qc addr token mode direction duration payload target
    runs gap limit value retries delay adaptive Hv Hr E (Z.to_nat runs) h 1 (Some (ep, c)) []) as H.
  specialize (H ltac:(lia)). unfold run_bench_iterations, bind. rewrite run_pbind.
  unfold wp in H. destruct (run E h (bench_iterations _ _ _ _ _ _ _ _ _ _ _ _ _ _ _ _ _ _ _ _))
    as [r1 h1]. cbn [fst snd] in *.
  destruct r1 as [ms|e| |]; try done.
  - destruct H as (new & -> & op & Hl & (t & -> & <- & Hc) & Hs). cbn [at_hand app] in *.
    destruct (bench_ops_used E (print_bench_aggregate new) (h ++ t) ltac:(auto with vpn)) as (t' & Et & Eo & Ec).
    destruct (print_bench_aggregate_ends E (h ++ t) new) as [Hr'|[w Hr']];
      destruct (run E (h ++ t) (print_bench_aggregate new)) as [r' h'] eqn:E';
      cbn [fst snd] in *; subst r' h'; [|done].
    exists new, t, t'. rewrite connected_app, closes_app, Eo, Ec, !app_nil_r, <- app_assoc.
    split; [done|]. split; [lia|]. split; [done|]. split; [done|]. by rewrite E', <- app_assoc.
  - destruct H as (op & cs & ex & new & lst & Hl & (t & -> & <- & Hc) & Eq & Hf & Hs).
    exists new, lst, ex, cs, t. split; [done|]. split; [lia|done].
Qed.

(** A server that accepts the token and sends a summary at once. *)
Definition prompt_server : env := fun X h o =>
  match o in Op X return X -> X with
  | Now => fun _ => Z.max 0 (time_floor h)
  | OpenBi _ => fun _ => Ok (1, 2)
  | AcceptBi _ => fun _ => Ok (3, 4)
  | WriteAll _ _ => fun _ => Ok tt
  | Finish _ => fun _ => Ok tt
  | ReadToEnd s _ => fun _ =>
    Ok (if s =? 2 then AUTH_OK
        else BENCH_SUMMARY_MAGIC ++ lit "bytes=3900 packets=3 elapsed_ms=1000")
  | ReadDatagram _ => fun _ => Ok (repeat 0 1300)
  | _ => fun x => x
  end (third_time_lucky X h o).

Definition loopback : SocketAddr :=
  mk_addr (Some (ipv4_new 127 0 0 1)) (lit "127.0.0.1:443").

(** It again, but the summary of a second benchmark never comes. *)
Definition lost_summary : env := fun X h o =>
  match o in Op X return X -> X with
  | ReadToEnd s _ => fun x => if (s =? 4) && (0 <? zlen (closes h)) then Err (lit "lost") else x
  | _ => fun x => x
  end (prompt_server X h o).

Definition roots_of_ten : QuicClientConfig := mk_quic_client [[10]] [ALPN] [].
Abbreviation two_downloads := (run_bench_iterations 9 ClientConfig.default roots_of_ten loopback
  (lit "k") (Bench Download 1 1300 None) Download 1 1300 None 2 250 10 5 500 false 4 5).
Abbreviation two_sessions E := (sessions 9 ClientConfig.default Download 1 1300 None false E []).

(** On the first server both benchmarks succeed, on the connections 5 and 6;
    on the second one the second fails, and both connections are closed. *)
Lemma bench_connections_closed_witness :
  let r := run prompt_server [] two_downloads in
  let f := run lost_summary [] two_downloads in
  (closes r.2 = closed_all [5; 6] /\ exists ms t t', r.2 = [] ++ t ++ t' /\ zlen ms = 2 /\
     two_sessions prompt_server (5 :: connected t) (map Val ms) ([] ++ t) /\
     closes (t ++ t') = closed_all (5 :: connected (t ++ t')) /\
     run prompt_server ([] ++ t) (print_bench_aggregate ms) = r) /\
  closes f.2 = closed_all [5; 6] /\ exists e, f.1 = Fail e /\ exists ms last left_open closed t,
     f.2 = [] ++ t /\ zlen ms < 2 /\
     failure ClientConfig.default roots_of_ten loopback (lit "k") (Bench Download 1 1300 None)
       10 5 500 lost_summary e f.2 last left_open /\
     two_sessions lost_summary closed (map Val ms ++ last) f.2 /\
     closes t = closed_all closed /\ 5 :: connected t = closed ++ left_open.
Proof.
  intros r f.
  pose proof (fun E => bench_connections_closed E [] 9 ClientConfig.default roots_of_ten loopback
    (lit "k") (Bench Download 1 1300 None) Download 1 1300 None 2 250 10 5 5 500 false 4 5
    ltac:(done) ltac:(done) ltac:(done)) as H.
  assert (r.1 = Val tt) as Hr by (vm_compute; reflexivity).
  assert (f.1 = Fail (Context (lit "failed to read bench summary") (External (lit "lost")))) as Hf
    by (vm_compute; reflexivity).
  split; (split; [vm_compute; reflexivity|]).
  - specialize (H prompt_server). cbv zeta in H. fold r in H. rewrite Hr in H. exact H.
  - eexists. split; [exact Hf|]. specialize (H lost_summary). cbv zeta in H. fold f in H.
    rewrite Hf in H. exact H.
Defined.

(** C30: What the client asks for, the server understands. Every benchmark the
    client's own checks let through (direction word, payload between 64 bytes
    and the configured MTU or the connection's datagram capacity, target up to
    10000 Mbps) with a positive duration is sent as a request that the server
    parses to the same benchmark, without loss. *)
Theorem client_bench_modes_accepted config token word direction duration requested max payload
    value target :
  is_u64 duration -> duration <> 0 -> is_u64 value ->
  client_validate config = Ok tt ->
  parse_bench_direction word = Ok direction ->
  bench_payload_bytes direction requested max (ClientConfig.mtu config) = Ok payload ->
  bench_target_mbps value = Ok target ->
  token_ok token (Bench direction duration payload target) ->
  word = as_str direction /\ 64 <= payload <= ClientConfig.mtu config /\
  parse_request (auth_request token (Bench direction duration payload target))
  = Ok (token, Bench direction duration payload target).
Proof.
  intros Hd Hd0 Hv Hconf Hword Hpay Htgt Htok.
  assert (word = as_str direction) as ->.
  { unfold parse_bench_direction in Hword. revert Hword.
    repeat case_bool_decide; intros [= <-]; done. }
  assert (64 <= payload <= ClientConfig.mtu config) as Hrange.
  { unfold bench_payload_bytes, bail in Hpay. revert Hpay.
    set (m := if uses_datagrams direction then _ else _).
    assert (m <= ClientConfig.mtu config) by (unfold m; destruct (uses_datagrams direction); lia).
    bcase; intros [= <-]; bcase; lia. }
  assert (ClientConfig.mtu config <= 1400) as Hmtu.
  { unfold client_validate in Hconf. apply res_bind_ok in Hconf as (u & Hc & _).
    revert Hc. unfold validate_common, MAX_MTU, bail. bcase; intros [=]; lia. }
  split; [done|]. split; [done|].
  unfold bench_target_mbps, bail in Htgt. unfold is_u64 in *.
  rewrite parse_auth_request; [|done|].
  - unfold normalize_mode. destruct target as [[| |]|]; try done.
    revert Htgt. bcase; intros [= ->]; lia.
  - unfold mode_requestable, normalize_mode. revert Htgt.
    assert (1 <= duration) by lia.
    destruct value as [|v|v]; [intros [= <-]|destruct (10000 <? Z.pos v); intros [= <-]|lia];
      unfold mode_ok; lia.
Qed.

Lemma client_bench_modes_accepted_witness :
  lit "stream-upload" = as_str StreamUpload /\
  64 <= 1300 <= ClientConfig.mtu ClientConfig.default /\
  parse_request (auth_request (lit "k") (Bench StreamUpload 10 1300 (Some 40)))
  = Ok (lit "k", Bench StreamUpload 10 1300 (Some 40)).
Proof.
  apply (client_bench_modes_accepted ClientConfig.default (lit "k") (lit "stream-upload")
    StreamUpload 10 0 (Some 1200) 1300 40 (Some 40)); try done;
    try (unfold is_u64, U64_MAX; lia).
  split; [by repeat constructor|]. split; [by apply (bool_decide_unpack _)|done].
Defined.

(** ** Counting *)

(** The client's measurement has the counters it was given. *)
Lemma upload_measurement_counts E h m l c e b p n tgt :
  wp E h (upload_measurement m l c e b p n tgt) (fun r h' => forall r', r = Val r' ->
    m_packets r' = p /\ m_bytes r' = b).
Proof.
  unfold upload_measurement. do 4 (apply (wp_keep _ (fun _ => True)); [done|intros ? ? _|by intros []]).
  apply wp_ret. by intros r' [= <-].
Qed.

Definition no_datagram : forall X, Op X -> bool := fun X o =>
  match o with ReadDatagram _ => false | _ => true end.

Lemma no_datagram_received (E : env) {A} (p : prog A) h c :
  all_ops no_datagram p ->
  wp E h p (fun _ h' => exists t, h' = h ++ t /\ datagrams_received c t = []).
Proof.
  intros Hp. destruct (all_ops_run no_datagram E p h Hp) as (t & Et & Ht).
  exists t. split; [exact Et|]. clear Et.
  induction Ht as [|[X o x] t He _ IH]; [done|].
  change (Ev o x :: t) with ([Ev o x] ++ t). rewrite datagrams_received_app, IH. by destruct o.
Qed.

(** The counters after the datagrams [ds]. *)
Definition counts (ds : list bytes) (packets bytes : Z) : Prop :=
  packets = wrap (zlen ds) /\ bytes = wrap (sum_len ds).

Lemma counts_snoc ds p b d :
  counts ds p b -> counts (ds ++ [d]) (wrapping_add_u64 p 1) (wrapping_add_u64 b (zlen d)).
Proof.
  intros [-> ->]. unfold counts. rewrite !wrap_add, sum_len_snoc, length_app. cbn.
  split; f_equal; lia.
Qed.

(** The measurement counts the datagrams received. *)
Definition measured_download (ds : list bytes) (m : BenchMeasurement) : Prop :=
  counts ds (m_packets m) (m_bytes m).

Lemma download_body_counts E c started deadline n tgt h0 st h :
  (exists t, h = h0 ++ t /\ counts (datagrams_received c t) st.1.1 st.1.2) ->
  all_ops no_datagram st.2 ->
  wp E h (download_bench_body c started deadline n tgt st) (fun r h' =>
    exists t, h' = h0 ++ t /\
    match r with
    | Val (inl st') => counts (datagrams_received c t) st'.1.1 st'.1.2 /\ all_ops no_datagram st'.2
    | Val (inr m) => measured_download (datagrams_received c t) m
    | _ => True
    end).
Proof.
  intros (t & -> & Hc) Hops. destruct st as [[packets bytes] task]. cbn [fst snd] in *.
  unfold download_bench_body, select_download_turn, wp. cbn -[app].
  destruct (E bool (h0 ++ t) Poll) eqn:Ep; cbn -[app].
  - destruct task as [r|X o k]; cbn -[app].
    + destruct r as [s|e|w|]; cbn -[app local_bench_text stats_text];
        repeat (destruct (E _ _ (Println _)) as [[]|?]; cbn -[app local_bench_text stats_text]);
        rewrite <- ?app_assoc; (eexists; split; [reflexivity|]); try done.
      unfold measured_download, bench_measurement. cbn [m_packets m_bytes].
      rewrite !datagrams_received_app. cbn. by rewrite !app_nil_r.
    + destruct Hops as [Ho Hk]. rewrite <- !app_assoc. eexists. split; [reflexivity|].
      cbn [fst snd]. split; [|apply Hk].
      rewrite !datagrams_received_app.
      assert (forall x, datagrams_received c [Ev o x] = []) as Hn by (intros x; by destruct o).
      rewrite Hn. cbn. by rewrite !app_nil_r.
  - case_poll; cbn -[app].
    + destruct (E _ _ (ReadDatagram c)) as [p|e] eqn:Er; cbn -[app]; rewrite <- ?app_assoc;
        (eexists; split; [reflexivity|]); [|done].
      split; [|done]. rewrite !datagrams_received_app.
      assert (datagrams_received c [Ev (ReadDatagram c) (Ok p)] = [p]) as ->
        by (cbn; by rewrite Z.eqb_refl).
      cbn. rewrite ?app_nil_r. by apply counts_snoc.
    + rewrite <- ?app_assoc. by eexists.
Qed.

(** The download benchmark reports what arrived. Whenever
    [run_download_bench] of the client returns a measurement, its packets and
    bytes are the number and the total length of the datagrams the client
    received (modulo 2^64), however the loop and the task that reads the
    server's summary were interleaved. *)
Lemma download_bench_counts E h fuel c duration payload target m :
  let r := run E h (run_download_bench fuel c duration payload target) in
  r.1 = Val m ->
  exists t, r.2 = h ++ t /\
    m_packets m = wrap (zlen (datagrams_received c t)) /\
    m_bytes m = wrap (sum_len (datagrams_received c t)).
Proof.
  intros r Hv.
  enough (wp E h (run_download_bench fuel c duration payload target) (fun r h' => forall m, r = Val m ->
    exists t, h' = h ++ t /\ measured_download (datagrams_received c t) m)) as H by exact (H m Hv).
  clear r m Hv. unfold run_download_bench. apply wp_bind, wp_vis, wp_ret. set (h1 := h ++ _).
  apply wp_bind. unfold instant_add. destruct (_ <=? _); apply wp_ret; [|done].
  apply wp_loop with (I := fun st h' =>
    (exists t, h' = h ++ t /\ counts (datagrams_received c t) st.1.1 st.1.2) /\
    all_ops no_datagram st.2).
  - split; [|unfold read_bench_summary_stream; cbn [snd]; ops]. by eexists.
  - intros st h2 [Hc Hops].
    eapply wp_mono; [by apply (download_body_counts E c _ _ _ _ h)|].
    intros r h3 (t & -> & Hr). destruct r as [[st'|m]| | |]; try done.
    + destruct Hr. split; [by eexists|done].
    + intros m' [= <-]. by exists t.
  - done.
Qed.

(** The same server after three datagrams: the scheduler lets the loop run
    first, then the task. *)
Definition loop_polled (h : history) : bool :=
  match last h with
  | Some (Ev o x) =>
    (match o in Op X return X -> bool with Poll => negb | _ => fun _ => false end) x
  | None => false
  end.
Definition three_datagrams_first : env := fun X h o =>
  match o in Op X return X -> X with
  | Poll => fun _ => (3 <=? zlen (datagrams_received 5 h)) || loop_polled h
  | _ => fun x => x
  end (prompt_server X h o).

Lemma download_bench_counts_witness :
  let r := run three_datagrams_first [] (run_download_bench 9 5 1 1300 None) in
  exists m, r.1 = Val m /\ m_packets m = 3 /\ exists t, r.2 = [] ++ t /\
    m_packets m = wrap (zlen (datagrams_received 5 t)) /\
    m_bytes m = wrap (sum_len (datagrams_received 5 t)).
Proof.
  intros r. exists (bench_measurement 0 3900 3 (Some (mk_server_measurement
             (mbps_over 3900 (f64_of_u64 1)) 3900 3 0 0 1000))).
  assert (r.1 = Val (bench_measurement 0 3900 3 (Some (mk_server_measurement
             (mbps_over 3900 (f64_of_u64 1)) 3900 3 0 0 1000)))) as Hr
    by (vm_compute; reflexivity).
  split; [exact Hr|]. split; [done|].
  apply (download_bench_counts three_datagrams_first [] 9 5 1 1300 None _ Hr).
Defined.
