(* ===== verification/Client.v ===== *)
(** * The client: [main] of [litevpn-client/src/main.rs]

    The whole run of the client, from the validated configuration to the
    shutdown: stale routes, token and options, connecting, authentication, and
    then a benchmark, a probe, or the tunnel with its device and routes. *)

From S2P Require Import Prelude RustStr World Auth Config Crypto Frame Float64 Pacer Backlog Pumps.
From S2P Require Import Summary Report Routes Connect ClientBench.

(** [Args]; clap has filled in the defaults. *)
Record Args := mk_args {
  arg_no_routes : bool;
  arg_cleanup_routes : bool;
  arg_probe : bool;
  arg_probe_hold_secs : Z;
  arg_connect_timeout_secs : Z;
  arg_connect_retries : Z;
  arg_connect_retry_delay_ms : Z;
  arg_bench : option str;
  arg_bench_duration_secs : Z;
  arg_bench_payload_bytes : Z;
  arg_bench_target_mbps : Z;
  arg_bench_runs : Z;
  arg_bench_run_gap_ms : Z;
}.

Definition default_args : Args := {|
  arg_no_routes := false;
  arg_cleanup_routes := false;
  arg_probe := false;
  arg_probe_hold_secs := 0;
  arg_connect_timeout_secs := 10;
  arg_connect_retries := 1;
  arg_connect_retry_delay_ms := 500;
  arg_bench := None;
  arg_bench_duration_secs := 10;
  arg_bench_payload_bytes := 0;
  arg_bench_target_mbps := 0;
  arg_bench_runs := 1;
  arg_bench_run_gap_ms := 250;
|}.

(** ** Shutdown *)

(** Both systems are Unix. *)
Definition shutdown_signal : M unit :=
  call_context "failed to install SIGTERM handler" SignalTerminate ;;
  select2 (call_context "failed to listen for Ctrl+C" CtrlC)
    (perform TerminateRecv).

Definition shutdown_result (result : res unit) : res unit :=
  match result with
  | Ok _ => Ok tt
  | Err error => Err error
  end.

(** [result = shutdown_signal() => shutdown_result(result)]. *)
Definition shutdown : M unit :=
  result <- catch shutdown_signal;
  lift (shutdown_result result).

(** ** The run *)

Section Client.
Context (os : target_os) (fuel : nat) (args : Args) (config : ClientConfig.t).

Abbreviation mtu := (ClientConfig.mtu config).
Abbreviation wants_routes := (ClientConfig.route_all config && negb (arg_no_routes args)).

(** The pumps and the shutdown signal, whichever ends first: [run_result].
    Opening the streams returns early with [?]. *)
Definition client_pumps (connection : conn) : M (res unit) :=
  match ClientConfig.vpn_transport config with
  | Datagram =>
    let up := pump_tun_to_quic fuel connection mtu (lit "client")
                (ClientConfig.egress_target_mbps config)
                (ClientConfig.datagram_backlog_packets config)
                (ClientConfig.adaptive_egress config) in
    let down := pump_quic_to_tun fuel connection (lit "client") in
    catch (select2 up (select2 down shutdown))
  | Stream =>
    send_stream <- call_context "failed to open client packet stream" (OpenUni connection);
    recv_stream <- call_context "failed to accept server packet stream" (AcceptUni connection);
    let up := pump_tun_to_stream fuel send_stream connection mtu (lit "client")
                (ClientConfig.egress_target_mbps config)
                (ClientConfig.adaptive_egress config) in
    let down := pump_stream_to_tun fuel recv_stream (mtu + 64) (lit "client") in
    catch (select2 up (select2 down shutdown))
  end.

(** [Option<RouteGuard>]: cleaning up, and dropping, which is the same. *)
Definition drop_routes (routes : option RouteGuard) : M (option RouteGuard) :=
  match routes with
  | Some guard => guard <- guard_cleanup guard; ret (Some guard)
  | None => ret None
  end.

(** From the device on. [routes] is dropped at the end of its scope, on an
    early return too (a panic aborts the process and drops nothing). *)
Definition client_tunnel (endpoint : Z) (connection : conn) (server_addr : SocketAddr) : M unit :=
  (if bool_decide (ClientConfig.vpn_transport config = Datagram)
   then ensure_datagram_capacity connection mtu (lit "client") else ret tt) ;;
  device <- catch (create_tun os (client_tun_options config));
  lift (context_res "failed to create client tun device" device) ;;
  routes <- match os with
            | MacOS =>
              if wants_routes then
                guard <- install (addr_ip server_addr) (ClientConfig.server_tun_ip config);
                ret (Some guard)
              else ret None
            | Linux => ret None
            end;
  run_result <- catch (client_pumps connection);
  match run_result with
  | Err error => drop_routes routes ;; fail error
  | Ok run_result =>
    routes <- drop_routes routes;
    perform (Close connection 0 (lit "client shutdown")) ;;
    perform (WaitIdle endpoint) ;;
    drop_routes routes ;;
    lift run_result
  end.

Definition client_probe (endpoint : Z) (connection : conn) (server_addr : SocketAddr) : M unit :=
  println (lit "LiteVPN probe OK: connected and authenticated to " ++ addr_text server_addr) ;;
  (if 0 <? arg_probe_hold_secs args then
     reason <- select2 (perform (Sleep (secs (arg_probe_hold_secs args))) ;; ret None)
                 (reason <- perform (Closed connection); ret (Some reason));
     match reason with
     | Some reason =>
       println (lit "LiteVPN probe connection closed while holding: " ++ reason)
     | None => ret tt
     end
   else ret tt) ;;
  perform (Close connection 0 (lit "probe complete")) ;;
  perform (WaitIdle endpoint).

(** The options of the command line: direction, target, retries, delay, runs. *)
Definition client_options : M (option BenchDirection * option Z * Z * Z * Z) :=
  bench_direction <- match arg_bench args with
                     | Some value => d <- lift (parse_bench_direction value); ret (Some d)
                     | None => ret None
                     end;
  target_mbps <- lift (bench_target_mbps (arg_bench_target_mbps args));
  retries <- lift (connect_retries (arg_connect_retries args));
  delay <- lift (connect_retry_delay_ms (arg_connect_retry_delay_ms args));
  runs <- match bench_direction with
          | Some _ => lift (bench_runs (arg_bench_runs args))
          | None => ret 1
          end;
  ret (bench_direction, target_mbps, retries, delay, runs).

Definition client_session (server_addr : SocketAddr) : M unit :=
  token <- load_token (ClientConfig.auth_token_path config);
  '(bench_direction, target_mbps, retries, delay, runs) <- client_options;
  quic_config <- client_config (ClientConfig.ca_cert_path config)
                   (ClientConfig.datagram_buffer_bytes config) mtu
                   (ClientConfig.congestion_controller config);
  '(endpoint, connection) <-
    connect_client config server_addr quic_config (arg_connect_timeout_secs args) retries delay;
  payload_bytes <- match bench_direction with
                   | Some direction =>
                     max <- perform (MaxDatagramSize connection);
                     lift (bench_payload_bytes direction (arg_bench_payload_bytes args) max mtu)
                   | None => ret 0
                   end;
  let auth_mode :=
    match bench_direction with
    | Some direction => Bench direction (arg_bench_duration_secs args) payload_bytes target_mbps
    | None => Vpn
    end in
  client_authenticate_with_mode connection token auth_mode ;;
  match bench_direction with
  | Some direction =>
    run_bench_iterations fuel config quic_config server_addr token auth_mode direction
      (arg_bench_duration_secs args) payload_bytes target_mbps runs
      (arg_bench_run_gap_ms args) (arg_connect_timeout_secs args) retries delay
      (ClientConfig.adaptive_egress config) endpoint connection
  | None =>
    if arg_probe args then client_probe endpoint connection server_addr
    else client_tunnel endpoint connection server_addr
  end.

(** [main] once the configuration is loaded; [parsed] is the address that
    [config.server.parse()] makes of the server's text. *)
Definition client_main (parsed : ext SocketAddr) : M unit :=
  lift (client_validate config) ;;
  server_addr <- lift (context_ext "invalid server address" parsed);
  match os with
  | MacOS =>
    (if arg_cleanup_routes args || wants_routes then cleanup_stale (addr_ip server_addr)
     else ret tt) ;;
    if arg_cleanup_routes args then ret tt else client_session server_addr
  | Linux =>
    if arg_cleanup_routes args then
      lift (bail "--cleanup-routes is currently implemented only on macOS")
    else client_session server_addr
  end.
End Client.

(** The whole of [main]: [from_str] is [toml::from_str] at the configuration's
    type, [parse_addr] is [SocketAddr::from_str]. *)
Definition client_program (from_str : str -> ext ClientConfig.t)
    (parse_addr : str -> ext SocketAddr) (os : target_os) (fuel : nat) (args : Args)
    (config_path : str) : M unit :=
  config <- load_toml from_str config_path;
  client_main os fuel args config (parse_addr (ClientConfig.server config)).

(** ** Classes of calls *)

(** No command is run. *)
Definition no_command : forall X, Op X -> bool := fun X o =>
  match o with Command _ _ => false | _ => true end.

(** Neither a command nor the TUN device. *)
Definition no_tunnel : forall X, Op X -> bool := fun X o =>
  match o with
  | Command _ _ | TunRecv _ | TunSend _ | BuildAsync _ => false
  | _ => true
  end.

(** Neither the TUN device nor the addition of a route. *)
Definition adds_route (args : list str) : bool :=
  match args with _ :: verb :: _ => bool_decide (verb = lit "add") | _ => false end.
Definition before_auth : forall X, Op X -> bool := fun X o =>
  match o with
  | Command _ args => negb (adds_route args)
  | TunRecv _ | TunSend _ | BuildAsync _ => false
  | _ => true
  end.

Lemma connect_client_no_tunnel config addr qc limit retries delay :
  all_ops no_tunnel (connect_client config addr qc limit retries delay).
Proof.
  unfold connect_client. generalize 1 (Z.to_nat retries). intros attempt n. revert attempt.
  induction n as [|n IH]; intros attempt; cbn [connect_attempts]; [done|].
  apply all_ops_bind; [apply all_ops_catch; unfold connect_once, create_udp_socket; ops|].
  intros []; ops.
Qed.

#[export] Hint Resolve connect_client_no_tunnel : calls.

Lemma run_bench_iterations_no_tunnel fuel config qc addr token mode d dur pay tgt runs gap limit retries
    delay a ep c :
  all_ops no_tunnel (run_bench_iterations fuel config qc addr token mode d dur pay tgt runs
    gap limit retries delay a ep c).
Proof.
  unfold run_bench_iterations.
  apply all_ops_bind; [|intros ms; auto with vpn].
  generalize (Z.to_nat runs) 1 (Some (ep, c)) ([] : list BenchMeasurement).
  intros n. induction n as [|n IH]; intros run next ms; cbn [bench_iterations]; [done|].
  apply all_ops_bind; [unfold bench_connection; ops|]. intros [ep' c'].
  apply all_ops_bind; [ops|intros _].
  apply all_ops_bind; [apply all_ops_catch; auto with vpn|]. intros result. ops.
Qed.

Lemma client_config_no_tunnel ca buffer mtu cc :
  all_ops no_tunnel (client_config ca buffer mtu cc).
Proof.
  assert (forall certs, all_ops no_tunnel (add_roots certs)) as Hr.
  { induction certs as [|c certs IH]; cbn [add_roots]; [done|]. ops. }
  unfold client_config, read_certs. ops.
Qed.

Lemma client_options_no_tunnel args : all_ops no_tunnel (client_options args).
Proof. unfold client_options. ops. Qed.

Lemma client_probe_no_tunnel args ep c addr : all_ops no_tunnel (client_probe args ep c addr).
Proof. unfold client_probe. ops. Qed.

#[export] Hint Resolve run_bench_iterations_no_tunnel client_options_no_tunnel client_config_no_tunnel
  client_probe_no_tunnel : calls.

(** The pumps run no command. *)
Lemma client_pumps_no_command fuel config c : all_ops no_command (client_pumps fuel config c).
Proof.
  assert (all_ops no_command shutdown) as Hs.
  { unfold shutdown, shutdown_signal. apply all_ops_bind; [apply all_ops_catch|]; ops. }
  unfold client_pumps. destruct (ClientConfig.vpn_transport config).
  - apply all_ops_catch, all_ops_select2; [done|..|apply all_ops_select2; [done|..|done]].
    + unfold pump_tun_to_quic, tun_to_quic_body, recv_or_closed. ops.
    + unfold pump_quic_to_tun, quic_to_tun_body. ops.
  - apply all_ops_bind; [by ops|intros s]. apply all_ops_bind; [by ops|intros r].
    apply all_ops_catch, all_ops_select2; [done|..|apply all_ops_select2; [done|..|done]].
    + unfold pump_tun_to_stream, tun_to_stream_body, recv_or_closed. ops.
    + unfold pump_stream_to_tun, stream_to_tun_body. ops.
Qed.

(** ** The routes of a run *)

Lemma no_command_routes E {A} (p : prog A) h :
  all_ops no_command p -> wp E h p (fun _ h' => route_table h' = route_table h).
Proof.
  intros Hp. destruct (all_ops_run no_command E p h Hp) as (t & Et & Ht).
  unfold wp. rewrite Et. clear Et.
  induction t as [|[X o x] t IH] using rev_ind; [by rewrite app_nil_r|].
  apply Forall_app in Ht as [Ht Ho]. apply Forall_cons in Ho as [Ho _].
  rewrite app_assoc, route_table_snoc, (IH Ht). by destruct o.
Qed.

(** The table is as before, or without the client's own entries. *)
Definition restored (ip : option Ipv4Addr) (h h' : history) : Prop :=
  route_table h' = route_table h \/
  exists ip4, ip = Some ip4 /\ route_table h' = route_table h ∖ our_routes ip4.

Lemma restored_same ip h h' : route_table h' = route_table h -> restored ip h h'.
Proof. by left. Qed.

#[global] Instance restored_trans ip : Transitive (restored ip).
Proof.
  intros h1 h2 h3 [E1|(a & Ea & E1)] [E2|(b & Eb & E2)].
  - left. by rewrite E2.
  - right. exists b. by rewrite E2, E1.
  - right. exists a. by rewrite E2.
  - right. exists a. split; [done|]. rewrite E2, E1. simplify_eq. set_solver.
Qed.

(** Whatever ends with a result leaves the table restored. *)
Abbreviation restores ip h :=
  (fun r h' => match r with Val _ | Fail _ => restored ip h h' | _ => True end).

Lemma restores_bind E {A B} (m : M A) (f : A -> M B) ip h :
  wp E h m (restores ip h) ->
  (forall a h1, restored ip h h1 -> wp E h1 (f a) (restores ip h1)) ->
  wp E h (bind m f) (restores ip h).
Proof.
  intros Hm Hf. apply wp_bind. eapply wp_mono; [exact Hm|].
  intros [a|e| |] h1 H1; try done.
  eapply wp_mono; [by apply Hf|]. intros [b|e| |] h2 H2; try done; by transitivity h1.
Qed.

Lemma no_command_restores E {A} (m : M A) ip h :
  all_ops no_command m -> wp E h m (restores ip h).
Proof.
  intros Hm. eapply wp_mono; [by apply no_command_routes|].
  intros [] h' H'; try done; by left.
Qed.

Lemma stale_routes_present_routes E ip h :
  wp E h (stale_routes_present ip) (fun r h' => settled r /\ route_table h' = route_table h).
Proof.
  unfold stale_routes_present. apply wp_bind, wp_vis.
  assert (forall r, route_table (h ++ [Ev (Command (lit "netstat")
    [lit "-rn"; lit "-f"; lit "inet"]) r]) = route_table h) as Ht.
  { intros r. rewrite route_table_snoc. cbn. by destruct r. }
  destruct (E _ h _) as [out|]; apply wp_ret; [|by split].
  destruct (negb (out_success out)); by apply wp_ret.
Qed.

Lemma cleanup_stale_restores E addr h :
  route_tool E -> wp E h (cleanup_stale addr) (restores addr h).
Proof.
  intros HE. unfold cleanup_stale. destruct addr as [ip|]; [|by apply wp_bind, wp_ret; left].
  apply wp_bind, wp_ret, wp_bind. eapply wp_mono; [apply stale_routes_present_routes|].
  intros [stale|e| |] h1 [Hs E1]; try done; [|by left].
  destruct stale; [|by apply wp_ret; left]. cbn [negb].
  apply wp_bind. eapply wp_mono; [by apply cleanup_routes_spec|]. intros r h2 [-> E2].
  apply wp_ret. right. exists ip. by rewrite E2, E1.
Qed.

Lemma drop_routes_spec E routes h :
  route_tool E ->
  wp E h (drop_routes routes) (fun r h' =>
    r = Val (option_map (fun g => mk_guard (server_ip g) (gateway g) false) routes) /\
    route_table h' = match routes with
                     | Some g => if installed g then route_table h ∖ our_routes (server_ip g)
                                 else route_table h
                     | None => route_table h
                     end).
Proof.
  intros HE. destruct routes as [g|]; [|by apply wp_ret].
  apply wp_bind. eapply wp_mono; [by apply guard_cleanup_spec|].
  intros r h1 [-> E1]. by apply wp_ret.
Qed.

(** The end of a run with the routes of [ip] in the table: both ways out. *)
Lemma tunnel_end_restores E ip g h0 h (result : res (res unit)) endpoint connection :
  route_tool E ->
  match g with
  | Some g => ip = Some (server_ip g) /\ installed g = true /\
      route_table h = our_routes (server_ip g) ∪ route_table h0
  | None => route_table h = route_table h0
  end ->
  wp E h (match result with
          | Err error => drop_routes g ;; fail error
          | Ok run_result =>
            routes <- drop_routes g;
            perform (Close connection 0 (lit "client shutdown")) ;;
            perform (WaitIdle endpoint) ;;
            drop_routes routes ;;
            lift run_result
          end) (fun r h' => settled r /\ restored ip h0 h').
Proof.
  intros HE Hg.
  assert (wp E h (drop_routes g) (fun r h' =>
    r = Val (option_map (fun g => mk_guard (server_ip g) (gateway g) false) g) /\
    restored ip h0 h')) as Hdrop.
  { eapply wp_mono; [by apply drop_routes_spec|]. intros r h1 [-> E1]. split; [done|].
    destruct g as [g|]; [|left; by rewrite E1].
    destruct Hg as (-> & Hi & Eh). rewrite Hi, Eh in E1.
    right. exists (server_ip g). split; [done|]. rewrite E1. set_solver. }
  destruct result as [run_result|e]; apply wp_bind; (eapply wp_mono; [exact Hdrop|]);
    intros r h1 [-> H1]; [|by apply wp_ret].
  apply wp_bind, wp_vis, wp_ret, wp_bind, wp_vis, wp_ret, wp_bind.
  set (h2 := (h1 ++ _) ++ _).
  assert (route_table h2 = route_table h1) as E2 by (unfold h2; by rewrite !route_table_snoc).
  eapply wp_mono; [by apply drop_routes_spec|]. intros r h3 [-> E3].
  assert (route_table h3 = route_table h1) as E31
    by (rewrite E3, E2; destruct g; [by cbn|done]).
  assert (restored ip h0 h3) by (unfold restored in *; by rewrite E31).
  unfold lift. destruct run_result; by apply wp_ret.
Qed.

Lemma client_tunnel_restores E os fuel args config ep c addr h :
  route_tool E ->
  wp E h (client_tunnel os fuel args config ep c addr) (restores (addr_ip addr) h).
Proof.
  intros HE. unfold client_tunnel.
  apply restores_bind; [apply no_command_restores; unfold ensure_datagram_capacity; ops|].
  intros _ h1 _. apply restores_bind.
  { apply no_command_restores, all_ops_catch. unfold create_tun. ops. }
  intros device h2 _. apply restores_bind; [apply no_command_restores; ops|]. intros _ h3 _.
  apply wp_bind. eapply wp_mono with (Q := fun r h4 =>
    match r with
    | Val (Some g) => addr_ip addr = Some (server_ip g) /\ installed g = true /\
        route_table h4 = our_routes (server_ip g) ∪ route_table h3
    | Val None => route_table h4 = route_table h3
    | Fail _ => restored (addr_ip addr) h3 h4
    | _ => False
    end).
  { destruct os; [by apply wp_ret|]. destruct (_ && _); [|by apply wp_ret].
    apply wp_bind. eapply wp_mono; [by apply install_spec|].
    by intros [g|e| |] h4 H4. }
  intros [g|e| |] h4 H4; try done. apply wp_bind, wp_catch.
  eapply wp_mono; [apply no_command_routes, client_pumps_no_command|].
  intros r h5 E5.
  assert (forall result, wp E h5 (match result with
          | Err error => drop_routes g ;; fail error
          | Ok run_result =>
            routes <- drop_routes g;
            perform (Close c 0 (lit "client shutdown")) ;;
            perform (WaitIdle ep) ;;
            drop_routes routes ;;
            lift run_result
          end) (restores (addr_ip addr) h3 : outcome unit -> history -> Prop)) as Hend.
  { intros result.
    eapply wp_mono; [apply (tunnel_end_restores E (addr_ip addr) g h3 h5); [done|]|].
    - destruct g; by rewrite E5.
    - intros [] h6 [Hs H6]; done. }
  destruct r as [run_result|e| |]; [apply (Hend (Ok run_result))|apply (Hend (Err e))|done..].
Qed.

Lemma client_session_restores E os fuel args config addr h :
  route_tool E ->
  wp E h (client_session os fuel args config addr) (restores (addr_ip addr) h).
Proof.
  intros HE. unfold client_session.
  apply restores_bind; [apply no_command_restores; unfold load_token; ops|]. intros token h1 _.
  apply restores_bind; [apply no_command_restores; auto with vpn|].
  intros [[[[dir tgt] retries] delay] runs] h2 _.
  apply restores_bind; [apply no_command_restores; auto with vpn|].
  intros tls h3 _.
  apply restores_bind; [apply no_command_restores; auto with vpn|].
  intros [ep c] h4 _.
  apply restores_bind; [apply no_command_restores; ops|]. intros payload h5 _. cbv zeta.
  apply restores_bind; [apply no_command_restores; auto with vpn|].
  intros _ h6 _. destruct dir as [direction|].
  - apply no_command_restores. ops.
  - destruct (arg_probe args); [|by apply client_tunnel_restores].
    apply no_command_restores. auto with vpn.
Qed.

(** ** What comes before the server's consent *)

(** A successful [client_authenticate] has read the server's [OK]. *)
Lemma authenticate_consent E h c token mode :
  wp E h (client_authenticate_with_mode c token mode) (fun r h' => exists t, h' = h ++ t /\
    match r with Val _ => AUTH_OK ∈ reads_to_end t | _ => True end).
Proof.
  unfold client_authenticate_with_mode, wp. cbn -[app auth_request].
  destruct (E _ h (OpenBi c)) as [[send recv]|e]; cbn -[app auth_request]; [|by eexists].
  destruct (E _ _ (WriteAll _ _)) as [[]|e]; cbn -[app auth_request];
    [|rewrite <- ?app_assoc; by eexists].
  destruct (E _ _ (Finish _)) as [[]|e]; cbn -[app auth_request];
    [|rewrite <- ?app_assoc; by eexists].
  destruct (E _ _ (ReadToEnd _ _)) as [response|e]; cbn -[app auth_request];
    [|rewrite <- ?app_assoc; by eexists].
  case_bool_decide; cbn -[app auth_request]; rewrite <- ?app_assoc; eexists;
    (split; [reflexivity|]); [|done].
  subst. unfold reads_to_end. rewrite !observe_app, !observe_one. set_solver.
Qed.

Abbreviation cautious t :=
  (Forall (fun e => match e with Ev o _ => before_auth _ o = true end) t).

(** [h'] adds to [h] only cautious calls, or cautious calls up to the consent. *)
Definition consented (h h' : history) : Prop :=
  exists t, h' = h ++ t /\
    (cautious t \/ exists t1 t2, t = t1 ++ t2 /\ cautious t1 /\ AUTH_OK ∈ reads_to_end t1).

Lemma cautious_bind E {A B} (m : M A) (f : A -> M B) h :
  all_ops before_auth m -> (forall a h', wp E h' (f a) (fun _ h'' => consented h' h'')) ->
  wp E h (bind m f) (fun _ h' => consented h h').
Proof.
  intros Hm Hf. apply wp_bind.
  destruct (all_ops_run before_auth E m h Hm) as (t & Et & Ht).
  unfold wp at 1. rewrite Et.
  assert (consented h (h ++ t)) as Hc by (exists t; split; [done|by left]).
  destruct (run E h m).1; [|done..].
  eapply wp_mono; [apply Hf|]. intros _ h' (t' & -> & H'). exists (t ++ t').
  rewrite app_assoc. split; [done|]. destruct H' as [H'|(t1 & t2 & -> & H1 & H2)].
  - left. by apply Forall_app.
  - right. exists (t ++ t1), t2. rewrite app_assoc. split; [done|].
    split; [by apply Forall_app|]. unfold reads_to_end in *. rewrite observe_app. set_solver.
Qed.

Lemma consent_bind E {A} c token mode (k : M A) h :
  wp E h (client_authenticate_with_mode c token mode ;; k) (fun _ h' => consented h h').
Proof.
  apply wp_bind.
  assert (all_ops before_auth (client_authenticate_with_mode c token mode)) as Hops
    by auto with vpn.
  destruct (all_ops_run before_auth E _ h Hops) as (t & Et & Ht).
  destruct (authenticate_consent E h c token mode) as (t' & Et' & Hok).
  rewrite Et in Et'. apply app_inv_head in Et' as <-.
  unfold wp at 1. rewrite Et.
  assert (consented h (h ++ t)) as Hc by (exists t; split; [done|by left]).
  destruct (run E h _).1 as [[]| | |]; [|done..].
  unfold wp. destruct (run_extends E k (h ++ t)) as [t2 ->].
  exists (t ++ t2). rewrite <-app_assoc. split; [done|]. right. by exists t, t2.
Qed.

Lemma cautious_all E {A} (p : prog A) h :
  all_ops before_auth p -> wp E h p (fun _ h' => consented h h').
Proof.
  intros Hp. destruct (all_ops_run before_auth E p h Hp) as (t & Et & Ht).
  exists t. split; [exact Et|by left].
Qed.

Lemma client_session_consented E os fuel args config addr h :
  wp E h (client_session os fuel args config addr) (fun _ h' => consented h h').
Proof.
  unfold client_session.
  apply cautious_bind; [unfold load_token; ops|]. intros token h1.
  apply cautious_bind; [auto with vpn|].
  intros [[[[dir tgt] retries] delay] runs] h2.
  apply cautious_bind; [auto with vpn|]. intros tls h3.
  apply cautious_bind; [auto with vpn|]. intros [ep c] h4.
  apply cautious_bind; [ops|]. intros payload h5. cbv zeta.
  apply consent_bind.
Qed.

(** ** [main] *)

Lemma client_main_restores E h os fuel args config parsed :
  route_tool E ->
  wp E h (client_main os fuel args config parsed)
    (restores (match parsed with Ok addr => addr_ip addr | Err _ => None end) h).
Proof.
  intros HE. unfold client_main. apply restores_bind; [apply no_command_restores; ops|].
  intros _ h1 _. destruct parsed as [addr|e]; [|apply wp_bind, wp_ret; by left].
  change (lift (context_ext "invalid server address" (Ok addr))) with (ret (A := SocketAddr) addr).
  apply wp_bind, wp_ret. destruct os.
  - destruct (arg_cleanup_routes args); [by left|]. by apply client_session_restores.
  - apply restores_bind.
    { destruct (_ || _); [by apply cleanup_stale_restores|by left]. }
    intros _ h2 _. destruct (arg_cleanup_routes args); [by left|]. by apply client_session_restores.
Qed.

Lemma client_main_consented E h os fuel args config parsed :
  wp E h (client_main os fuel args config parsed) (fun _ h' => consented h h').
Proof.
  unfold client_main. apply cautious_bind; [ops|]. intros _ h1.
  apply cautious_bind; [ops|]. intros addr h2. destruct os.
  - destruct (arg_cleanup_routes args); [apply cautious_all; ops|apply client_session_consented].
  - apply cautious_bind.
    { destruct (_ || _); [|done].
      unfold cleanup_stale, stale_routes_present, cleanup_routes, delete_route. ops. }
    intros _ h3.
    destruct (arg_cleanup_routes args); [by apply cautious_all|apply client_session_consented].
Qed.

(** ** Properties *)

(** C9: The client leaves no route behind. With the [route] command as
    documented, however the client's run ends (a normal shutdown, a failing
    pump, a stream that does not open, an error at any earlier point, a probe
    or a benchmark), when it returns the routing table is what it was before,
    or that without the entries of the client itself (those of an earlier run
    that was killed) for the server its configuration names. *)
Theorem client_restores_routes E h from_str parse_addr os fuel args path :
  route_tool E ->
  let r := run E h (client_program from_str parse_addr os fuel args path) in
  match r.1 with
  | Val _ | Fail _ =>
    route_table r.2 = route_table h \/
    exists raw config addr ip, from_str raw = Ok config /\
      parse_addr (ClientConfig.server config) = Ok addr /\ addr_ip addr = Some ip /\
      route_table r.2 = route_table h ∖ our_routes ip
  | _ => True
  end.
Proof.
  intros HE. unfold client_program, load_toml, bind, call_with_context.
  cbn -[lit app route_table].
  destruct (E _ h (ReadToString path)) as [raw|e]; cbn -[lit app route_table];
    [|left; apply route_table_snoc].
  destruct (from_str raw) as [config|e] eqn:Hconfig; cbn -[lit app route_table];
    [|left; apply route_table_snoc].
  set (h1 := h ++ _). assert (route_table h1 = route_table h) as <- by apply route_table_snoc.
  pose proof (client_main_restores E h1 os fuel args config
    (parse_addr (ClientConfig.server config)) HE) as H.
  unfold wp in H. destruct (run E h1 _).1; try done;
    (destruct H as [H|(ip & Eip & H)]; [by left|right]);
    destruct (parse_addr _) as [addr|] eqn:Haddr; try done; by exists raw, config, addr, ip.
Qed.

(** C13: Nothing of the host is touched before the server consents. In every
    environment the client neither builds, reads nor writes the TUN device nor
    adds a route unless it has first read the server's [OK] to its token:
    before that, the only commands it runs list or delete routes. *)
Theorem client_waits_for_consent E h from_str parse_addr os fuel args path :
  exists t, (run E h (client_program from_str parse_addr os fuel args path)).2 = h ++ t /\
    (cautious t \/ exists t1 t2, t = t1 ++ t2 /\ cautious t1 /\ AUTH_OK ∈ reads_to_end t1).
Proof.
  change (wp E h (client_program from_str parse_addr os fuel args path)
    (fun _ h' => consented h h')).
  apply cautious_bind; [unfold load_toml; ops|]. intros config h1. apply client_main_consented.
Qed.

(** A machine whose [route] command does what it is asked, a token file, and a
    server; the TUN device fails at the first read. *)
Definition home_machine : env := fun X h o =>
  match o in Op X return X -> X with
  | Command _ args => fun _ =>
    Ok (mk_output true (if Nat.eqb (length args) 3 then lit "gateway: 192.168.1.1" else []) [])
  | ReadToString _ => fun _ => Ok (lit "0123456789abcdef0123456789abcdef" ++ [LF])
  | OpenFile _ => fun _ => Ok 3
  | PemCerts _ => fun _ => Ok [[48; 130]]
  | AddRoot _ => fun _ => Ok tt
  | QuicClientCrypto => fun _ => Ok tt
  | MaxDatagramSize _ => fun _ => Some 1400
  | BuildAsync _ => fun _ => Ok tt
  | _ => fun x => x
  end (prompt_server X h o).

Lemma home_machine_tool : route_tool home_machine.
Proof.
  split.
  - intros h kind destination. by left.
  - intros h kind destination gw output. cbn -[lit]. by intros [= <-].
Qed.

Definition patient_args : Args :=
  mk_args false false false 0 10 5 500 None 10 0 0 1 250.

(** A parser that takes any file for the default configuration. *)
Definition any_config (raw : str) : ext ClientConfig.t := Ok ClientConfig.default.

Lemma client_restores_routes_witness :
  let r := run home_machine [] (client_program any_config (fun _ => Ok loopback) MacOS 9
             patient_args (lit "client.toml")) in
  match r.1 with
  | Val _ | Fail _ =>
    route_table r.2 = route_table [] \/
    exists raw config addr ip, any_config raw = Ok config /\
      (Ok loopback : ext SocketAddr) = Ok addr /\ addr_ip addr = Some ip /\
      route_table r.2 = route_table [] ∖ our_routes ip
  | _ => True
  end.
Proof.
  apply (client_restores_routes home_machine [] any_config (fun _ => Ok loopback) MacOS 9
    patient_args (lit "client.toml") home_machine_tool).
Defined.

(** In that run the routes are added and removed, and the device's error is
    what [main] returns. *)
Example routes_come_and_go :
  let r := run home_machine [] (client_program any_config (fun _ => Ok loopback) MacOS 9
             patient_args (lit "client.toml")) in
  is_ok (match r.1 with Fail e => Err e | _ => Ok tt end) = false /\
  map (fun '(_, args) => nth 1 args []) (commands_run r.2) =
    [lit "-f"; lit "get"; lit "delete"; lit "delete"; lit "delete"; lit "add"; lit "add"; lit "add";
     lit "delete"; lit "delete"; lit "delete"].
Proof. vm_compute. split; reflexivity. Qed.
