(* ===== verification/StreamBench.v ===== *)
(** * The stream benchmarks, end to end

    An upload of the client and the server's measurement of it, and the other
    way round: what each side counts is what it wrote or read, and so the two
    counts agree when the stream delivered everything. *)

From S2P Require Import Prelude RustStr World Follow Auth Config Frame Float64 Pacer Backlog.
From S2P Require Import Pumps Summary Report Server Routes Connect ClientBench.

(** ** The data of a stream

    What a benchmark wrote to it (the summary goes elsewhere). *)
Definition stream_data (s : sid) : history -> bytes :=
  observe (fun X o =>
    match o in Op X return X -> bytes with
    | WriteAllChunks s' ds => fun r =>
        match r with Ok _ => if s' =? s then concat ds else [] | Err _ => [] end
    | Write s' d => fun r =>
        match r with
        | Ok n => if s' =? s then take (Z.to_nat n) d else []
        | Err _ => []
        end
    | _ => fun _ => []
    end).

Lemma stream_data_app s h1 h2 : stream_data s (h1 ++ h2) = stream_data s h1 ++ stream_data s h2.
Proof. apply observe_app. Qed.

(** Calls that leave streams alone. *)
Definition no_stream : forall X, Op X -> bool := fun X o =>
  match o with Write _ _ | WriteAllChunks _ _ | Read _ _ => false | _ => true end.

Definition streamless (t : history) : Prop :=
  forall s, stream_data s t = [] /\ stream_read s t = [].

Lemma streamless_app t1 t2 : streamless t1 -> streamless t2 -> streamless (t1 ++ t2).
Proof.
  intros H1 H2 s. destruct (H1 s) as [D1 R1], (H2 s) as [D2 R2].
  by rewrite stream_data_app, stream_read_app, D1, R1, D2, R2.
Qed.

Lemma no_stream_run E {A} (p : prog A) h :
  all_ops no_stream p -> wp E h p (fun _ h' => exists t, h' = h ++ t /\ streamless t).
Proof.
  intros Hp. destruct (all_ops_run no_stream E p h Hp) as (t & Et & Ht).
  exists t. split; [exact Et|]. intros s.
  split; apply observe_silent; (eapply Forall_impl; [exact Ht|]); intros [X o x] Ho; by destruct o.
Qed.

(** ** Counting what was written *)

(** quinn's [write] takes a part of what it is given. *)
Definition writes_fit (E : env) : Prop := forall h s d n,
  E _ h (Write s d) = Ok n -> 0 <= n <= zlen d.

Definition sent_count (framed : bool) (s : sid) (payload : bytes) (packets bytes : Z)
    (t : history) : Prop :=
  if framed then exists k : nat, stream_data s t = concat (repeat (frame payload) k) /\
    packets = wrap (Z.of_nat k) /\ bytes = wrap (Z.of_nat k * zlen payload)
  else bytes = wrap (zlen (stream_data s t)).

Lemma sent_count_quiet framed s payload p b t w :
  sent_count framed s payload p b t -> streamless w -> sent_count framed s payload p b (t ++ w).
Proof. intros H Hw. destruct (Hw s) as [D _]. unfold sent_count. by rewrite stream_data_app, D, app_nil_r. Qed.

Lemma sent_count_packet s payload p b t w :
  sent_count true s payload p b t -> stream_data s w = frame payload ->
  sent_count true s payload (wrapping_add_u64 p 1) (wrapping_add_u64 b (zlen payload)) (t ++ w).
Proof.
  intros (k & Ed & -> & ->) Ew. exists (S k). rewrite stream_data_app, Ed, Ew, !wrap_add.
  split; [|split; f_equal; lia].
  rewrite <- (app_nil_r (frame payload)) at 2. change (frame payload ++ []) with (concat [frame payload]).
  rewrite <- concat_app. by rewrite <- repeat_cons.
Qed.

(** The select between a packet and the end of the connection. *)
Lemma packet_turn E h s hd payload label (c : conn) {B} (f : bytes -> B) (g : str -> B) :
  2 <= zlen hd ->
  wp E h (select2 (hd <- write_stream_packet s hd payload label; ret (f hd))
            (reason <- perform (Closed c); ret (g reason))) (fun r h' => exists t, h' = h ++ t /\
    match r with
    | Val b => (exists hd', b = f hd' /\ 2 <= zlen hd' /\ stream_data s t = frame payload) \/
        (exists reason, b = g reason) /\ streamless t
    | Fail _ => True
    | _ => False
    end).
Proof.
  intros Hhd. unfold write_stream_packet, wp.
  destruct (U16_MAX <? zlen payload); [by exists []; rewrite app_nil_r|].
  rewrite (proj2 (Z.ltb_ge _ _)) by done.
  destruct (splice_zero hd (to_be_bytes (zlen payload))) as [Hl Ht]; [simpl; lia|].
  set (hd' := splice hd 0 _) in *. change (length (to_be_bytes _)) with 2%nat in Ht.
  cbn -[app take]. case_poll; cbn -[app take].
  - destruct (E _ _ (WriteAllChunks s _)) as [[]|e]; cbn -[app take]; rewrite <- !app_assoc;
      (eexists; split; [reflexivity|]); [|done].
    left. exists hd'. split; [done|]. split; [lia|]. cbn -[take]. rewrite Z.eqb_refl, Ht. cbn.
    by rewrite !app_nil_r.
  - rewrite <- !app_assoc. eexists. split; [reflexivity|]. right. by split; [eexists|].
Qed.

(** A write that the deadline can cut. *)
Lemma write_turn E h s payload deadline : writes_fit E ->
  wp E h (timeout (Until deadline) (call (Write s payload))) (fun r h' => exists t, h' = h ++ t /\
    match r with
    | Val (Some (Ok n)) => 0 <= n /\ zlen (stream_data s t) = n
    | Val _ => stream_data s t = []
    | _ => False
    end).
Proof.
  intros HE. unfold wp. cbn -[app]. destruct (E bool h (Expired _)); cbn -[app]; [by eexists|].
  destruct (E _ _ (Write s payload)) as [n|e] eqn:Ew; cbn -[app]; rewrite <- app_assoc;
    (eexists; split; [reflexivity|]); [|done].
  apply HE in Ew. split; [lia|]. cbn. rewrite Z.eqb_refl, app_nil_r, length_take. lia.
Qed.

(** ** The client sends *)

Section Sender.
Context (E : env) (s : sid) (c : conn) (payload : bytes) (deadline : Z) (framed : bool).
Context (HE : writes_fit E) (h0 : history).

(** A loop of a sending benchmark between two turns, and at its end. *)
Definition sending (packets bytes : Z) (hd : list Z) (h : history) : Prop :=
  2 <= zlen hd /\ exists t, h = h0 ++ t /\ sent_count framed s payload packets bytes t.
Definition sent (packets bytes : Z) (h : history) : Prop :=
  exists t, h = h0 ++ t /\ sent_count framed s payload packets bytes t.

Lemma sent_quiet p b h w : sent p b h -> streamless w -> sent p b (h ++ w).
Proof.
  intros (t & -> & Hc) Hw. exists (t ++ w). rewrite <- app_assoc. split; [done|].
  by apply sent_count_quiet.
Qed.

Lemma sent_packet p b h w : framed = true -> sent p b h -> stream_data s w = frame payload ->
  sent (wrapping_add_u64 p 1) (wrapping_add_u64 b (zlen payload)) (h ++ w).
Proof.
  intros Hf (t & -> & Hc) Hw. exists (t ++ w). rewrite <- app_assoc. split; [done|].
  rewrite Hf in *. by apply sent_count_packet.
Qed.

Lemma sent_bytes p b h w n : framed = false -> sent p b h -> zlen (stream_data s w) = n ->
  sent (wrapping_add_u64 p 1) (wrapping_add_u64 b n) (h ++ w).
Proof.
  intros Hf (t & -> & Hc) Hw. exists (t ++ w). rewrite <- app_assoc. split; [done|].
  rewrite Hf in *. unfold sent_count in *. rewrite stream_data_app, length_app, Hc, wrap_add, <- Hw.
  f_equal. lia.
Qed.

Lemma sent_nothing p b h w : framed = false -> sent p b h -> stream_data s w = [] ->
  sent p b (h ++ w).
Proof.
  intros Hf (t & -> & Hc) Hw. exists (t ++ w). rewrite <- app_assoc. split; [done|].
  rewrite Hf in *. unfold sent_count in *. by rewrite stream_data_app, Hw, app_nil_r.
Qed.

(** The pause after a packet or a write. *)
Lemma sending_pause {B} p n pacer hd h (k : EgressPacer -> M B) (Q : outcome B -> history -> Prop) :
  2 <= zlen hd -> sent p n h -> (forall pc h', sending p n hd h' -> wp E h' (k pc) Q) ->
  (forall r h', match r with Val _ => False | _ => True end -> Q r h') ->
  forall len, wp E h (pacer <- record_and_wait pacer len (Some c); k pacer) Q.
Proof.
  intros Hhd Hs Hk HQ len. apply wp_bind.
  eapply wp_mono; [apply no_stream_run; auto with vpn|].
  intros r h' (w & -> & Hw). destruct r as [pc|e|m|]; [|by apply HQ..].
  apply Hk. split; [done|]. by apply sent_quiet.
Qed.

Lemma stream_upload_turn packets bytes pacer hd h :
  sending packets bytes hd h ->
  wp E h (ClientBench.stream_upload_body s c payload deadline framed (packets, bytes, pacer, hd))
    (fun r h' =>
    match r with
    | Val (inl (p, b, _, hd)) => sending p b hd h'
    | Val (inr (p, b)) => sent p b h'
    | _ => True
    end).
Proof.
  intros [Hhd Hs]. unfold ClientBench.stream_upload_body. apply wp_bind, wp_vis, wp_ret. cbv beta.
  assert (forall x, sent packets bytes (h ++ [Ev Now x])) as Hnow by (intros; by apply sent_quiet).
  destruct (deadline <=? _); [by apply wp_ret|]. set (h1 := h ++ _).
  assert (sent packets bytes h1) as Hs1 by apply Hnow. clearbody h1.
  destruct framed eqn:Hf; apply wp_bind.
  - eapply wp_mono; [by apply (packet_turn E h1 s hd payload _ c inl inr)|].
    intros [turn|e| |] h2 (w & -> & Hw); try done.
    destruct Hw as [(hd' & -> & Hhd' & Hw)|[[reason ->] _]]; [|done].
    pose proof (sent_packet _ _ _ _ Hf Hs1 Hw) as Hs2. cbv zeta.
    apply (sending_pause _ _ _ hd' _ _ _ Hhd' Hs2); [|by intros []].
    intros pc h' H. by apply wp_ret.
  - eapply wp_mono; [by apply (write_turn E h1 s payload)|].
    intros [[[n|e]|]|e| |] h2 (w & -> & Hw); try done.
    + destruct Hw as [Hn Hw]. destruct (Z.eqb_spec n 0) as [->|Hne].
      * by apply wp_ret, sent_nothing; [..|apply nil_length_inv; lia].
      * pose proof (sent_bytes _ _ _ _ n Hf Hs1 Hw) as Hs2. cbv zeta.
        apply (sending_pause _ _ _ hd _ _ _ Hhd Hs2); [|by intros []].
        intros pc h' H. by apply wp_ret.
    + by apply wp_ret, sent_nothing.
Qed.

(** The server's loop, which goes on to its summary when the connection ends. *)
Lemma stream_download_turn packets bytes pacer hd h :
  sending packets bytes hd h ->
  wp E h (Server.stream_download_body s c payload deadline framed (packets, bytes, pacer, hd))
    (fun r h' =>
    match r with
    | Val (inl (p, b, _, hd)) => sending p b hd h'
    | Val (inr (p, b)) => sent p b h'
    | _ => True
    end).
Proof.
  intros [Hhd Hs]. unfold Server.stream_download_body. apply wp_bind, wp_vis, wp_ret. cbv beta.
  assert (forall x, sent packets bytes (h ++ [Ev Now x])) as Hnow by (intros; by apply sent_quiet).
  destruct (deadline <=? _); [by apply wp_ret|]. set (h1 := h ++ _).
  assert (sent packets bytes h1) as Hs1 by apply Hnow. clearbody h1.
  destruct framed eqn:Hf; apply wp_bind.
  - eapply wp_mono; [by apply (packet_turn E h1 s hd payload _ c Some (fun _ => None))|].
    intros [turn|e| |] h2 (w & -> & Hw); try done.
    destruct Hw as [(hd' & -> & Hhd' & Hw)|[[reason ->] Hw]].
    2:{ apply wp_ret. by apply sent_quiet. }
    pose proof (sent_packet _ _ _ _ Hf Hs1 Hw) as Hs2.
    apply (sending_pause _ _ _ hd' _ _ _ Hhd' Hs2); [|by intros []].
    intros pc h' H. by apply wp_ret.
  - eapply wp_mono; [by apply (write_turn E h1 s payload)|].
    intros [[[n|e]|]|e| |] h2 (w & -> & Hw); try done.
    + destruct Hw as [Hn Hw]. destruct (Z.eqb_spec n 0) as [->|Hne].
      * by apply wp_ret, sent_nothing; [..|apply nil_length_inv; lia].
      * pose proof (sent_bytes _ _ _ _ n Hf Hs1 Hw) as Hs2.
        apply (sending_pause _ _ _ hd _ _ _ Hhd Hs2); [|by intros []].
        intros pc h' H. by apply wp_ret.
    + by apply wp_ret, sent_nothing.
Qed.
End Sender.

Lemma sent_nil framed s payload h : sent s payload framed h 0 0 h.
Proof.
  exists []. rewrite app_nil_r. split; [done|]. destruct framed; [|done]. by exists 0%nat.
Qed.

Lemma sent_event framed s payload h0 p b h X (o : Op X) x :
  no_stream X o = true -> sent s payload framed h0 p b h -> sent s payload framed h0 p b (h ++ [Ev o x]).
Proof. intros Ho Hs. apply sent_quiet; [done|]. intros s'. by destruct o. Qed.

(** A part of the program that leaves streams alone. *)
Lemma sent_kept E framed s payload h0 p b h {A} (m : prog A) :
  all_ops no_stream m -> sent s payload framed h0 p b h ->
  wp E h m (fun _ => sent s payload framed h0 p b).
Proof.
  intros Hm Hs. eapply wp_mono; [by apply no_stream_run|].
  intros r h' (w & -> & Hw). by apply sent_quiet.
Qed.

Lemma upload_loop E fuel s c payload deadline framed pacer h0 h :
  writes_fit E -> sent s payload framed h0 0 0 h ->
  wp E h (loop fuel (ClientBench.stream_upload_body s c payload deadline framed)
            (0, 0, pacer, [0; 0])) (fun r h' =>
    match r with Val (p, b) => sent s payload framed h0 p b h' | _ => True end).
Proof.
  intros HE Hs. apply (wp_loop _ _ _ _ _ (fun st h' => let '(p, b, _, hd) := st in
    sending s payload framed h0 p b hd h')).
  - by split.
  - intros [[[p b] pc] hd] h1 H. eapply wp_mono; [by apply (stream_upload_turn E s c)|].
    intros [[[[[? ?] ?] ?]|[? ?]]|e| |] h2 H2; done.
  - done.
Qed.

Lemma download_loop E fuel s c payload deadline framed pacer h0 h :
  writes_fit E -> sent s payload framed h0 0 0 h ->
  wp E h (loop fuel (Server.stream_download_body s c payload deadline framed)
            (0, 0, pacer, [0; 0])) (fun r h' =>
    match r with Val (p, b) => sent s payload framed h0 p b h' | _ => True end).
Proof.
  intros HE Hs. apply (wp_loop _ _ _ _ _ (fun st h' => let '(p, b, _, hd) := st in
    sending s payload framed h0 p b hd h')).
  - by split.
  - intros [[[p b] pc] hd] h1 H. eapply wp_mono; [by apply (stream_download_turn E s c)|].
    intros [[[[[? ?] ?] ?]|[? ?]]|e| |] h2 H2; done.
  - done.
Qed.

(** ** Counting what was read *)

Definition received_count (framed : bool) (s : sid) (packets bytes : Z) (t : history) : Prop :=
  if framed then exists ps tail, stream_read s t = concat (map frame ps) ++ tail /\
    Forall (fun p => zlen p <= U16_MAX) ps /\ begun tail /\
    packets = wrap (zlen (List.filter nonempty ps)) /\ bytes = wrap (sum_len ps)
  else bytes = wrap (zlen (stream_read s t)).

(** The same between two packets. *)
Definition received_all (framed : bool) (s : sid) (packets bytes : Z) (t : history) : Prop :=
  if framed then exists ps, stream_read s t = concat (map frame ps) /\
    Forall (fun p => zlen p <= U16_MAX) ps /\
    packets = wrap (zlen (List.filter nonempty ps)) /\ bytes = wrap (sum_len ps)
  else bytes = wrap (zlen (stream_read s t)).

Lemma received_end framed s p b t w :
  received_all framed s p b t -> (if framed then begun (stream_read s w) else stream_read s w = []) ->
  received_count framed s p b (t ++ w).
Proof.
  unfold received_all, received_count. rewrite stream_read_app. destruct framed.
  - intros (ps & -> & Hps & -> & ->) Hw. by exists ps, (stream_read s w).
  - intros -> ->. by rewrite app_nil_r.
Qed.

Lemma received_quiet framed s p b t w :
  received_count framed s p b t -> streamless w -> received_count framed s p b (t ++ w).
Proof. intros H Hw. destruct (Hw s) as [_ R]. unfold received_count. by rewrite stream_read_app, R, app_nil_r. Qed.

Lemma received_packet s p b t w q :
  received_all true s p b t -> stream_read s w = frame q -> zlen q <= U16_MAX ->
  received_all true s (if nonempty q then wrapping_add_u64 p 1 else p)
    (wrapping_add_u64 b (zlen q)) (t ++ w).
Proof.
  intros (ps & Er & Hps & -> & ->) Ew Hq. exists (ps ++ [q]).
  rewrite stream_read_app, Er, Ew, map_app, concat_app. cbn. rewrite app_nil_r. split; [done|].
  split; [apply Forall_app; split; [done|by apply Forall_singleton]|].
  rewrite List.filter_app, !wrap_add, sum_len_snoc. split; [|done]. cbn.
  destruct (nonempty q); cbn; [|by rewrite app_nil_r]. rewrite length_app. cbn.
  f_equal. lia.
Qed.

(** A packet under the deadline. *)
Lemma timeout_packet E s label fuel buf deadline h : reads_fit E ->
  wp E h (timeout (Until deadline) (read_stream_packet fuel s buf label)) (fun r h' => exists t, h' = h ++ t /\
    match r with
    | Val (Some (Ok (Some n, _))) =>
      exists p, stream_read s t = frame p /\ n = zlen p /\ zlen p <= U16_MAX
    | Val (Some (Ok (None, _))) => stream_read s t = []
    | Val None => begun (stream_read s t)
    | Val (Some (Err _)) | Running => True
    | _ => False
    end).
Proof.
  intros HE. destruct (timeout_follows E (severed None) (Until deadline) (read_stream_packet fuel s buf label) h)
    as (hs & t & t1 & t2 & Et & Ht & E1 & H2 & Hr).
  exists t. split; [exact Et|].
  assert (stream_read s t = stream_read s t1) as ->
    by (unfold stream_read; by rewrite (timed_observe _ t1 t) by done).
  assert (reads_fit (patched E (severed None) hs)) as Hfit
    by (intros h' s' cap d; unfold patched; destruct (hs !! length h'); [apply HE|done]).
  destruct (read_packet_any (patched E (severed None) hs) s label Hfit fuel [] buf)
    as (d & (t' & E' & Honly & Hd & _) & Hq). rewrite E1 in E'. cbn [app] in E'. subst t'.
  assert (stream_read s t2 = []) as U2.
  { apply observe_silent. eapply Forall_impl; [exact H2|]. intros e (X & o & h' & ->). by destruct o. }
  rewrite stream_read_app, U2, app_nil_r in Hd. rewrite Hd.
  destruct (run E h _).1 as [[[[[n|] buf']|e]|]|e|w|]; try done.
  - destruct Hr as [-> Hr]. rewrite Hr in Hq. destruct Hq as (_ & p & -> & -> & Hp & _). by exists p.
  - destruct Hr as [-> Hr]. rewrite Hr in Hq. by destruct Hq.
  - destruct t2 as [|x t2]; [done|].
    destruct (heeds_run (patched E (severed None) hs) (read_stream_packet fuel s buf label) []
      (read_stream_packet_heeds _ _ _ _)) as (t' & E' & Hf). rewrite E1 in E'. cbn [app] in E'. subst t'.
    destruct Hf as [e He]; [|by rewrite He in Hq].
    apply List.Exists_app. right. left. apply Forall_app in Honly as [_ [Hx _]%Forall_cons].
    apply Forall_cons in H2 as [(X & o & h' & ->) _].
    destruct Hx as (cap & r & Hx).
    apply (f_equal (fun e => match e with Ev (Read _ _) _ => true | _ => false end)) in Hx.
    by destruct o.
  - destruct Hr as [-> Hr]. by rewrite Hr in Hq.
Qed.

Section Receiver.
Context (E : env) (s : sid) (fuel : nat) (framed : bool) (HE : reads_fit E) (h0 : history).

Definition receiving (packets bytes : Z) (h : history) : Prop :=
  exists t, h = h0 ++ t /\ received_all framed s packets bytes t.
Definition received (packets bytes : Z) (h : history) : Prop :=
  exists t, h = h0 ++ t /\ received_count framed s packets bytes t.

Lemma receiving_end p b h w : receiving p b h ->
  (if framed then begun (stream_read s w) else stream_read s w = []) ->
  received p b (h ++ w).
Proof.
  intros (t & -> & Hc) Hw. exists (t ++ w). rewrite <- app_assoc. split; [done|].
  by apply received_end.
Qed.

(** One packet, on either side; a packet of length 0 is not counted. *)
Lemma receiving_packet p b h w q : framed = true -> receiving p b h ->
  stream_read s w = frame q -> zlen q <= U16_MAX ->
  if zlen q =? 0 then receiving p b (h ++ w)
  else receiving (wrapping_add_u64 p 1) (wrapping_add_u64 b (zlen q)) (h ++ w).
Proof.
  intros Hf (t & -> & Hc) Hw Hq. rewrite <- app_assoc. rewrite Hf in Hc.
  pose proof (received_packet _ _ _ _ w q Hc Hw Hq) as H. unfold receiving. rewrite Hf.
  destruct q as [|x q]; [|by exists (t ++ w)].
  destruct Hc as (ps & _ & _ & _ & Hb). exists (t ++ w). split; [done|].
  change (zlen []) with 0 in H. by rewrite Hb, wrap_add, Z.add_0_r, <- Hb in H.
Qed.

Lemma receiving_bytes p b h w d : framed = false -> receiving p b h -> stream_read s w = d ->
  receiving (wrapping_add_u64 p 1) (wrapping_add_u64 b (zlen d)) (h ++ w).
Proof.
  intros Hf (t & -> & Hc) Hw. exists (t ++ w). rewrite <- app_assoc. split; [done|].
  rewrite Hf in *. unfold received_all in *. rewrite stream_read_app, Hw, length_app, Hc, wrap_add.
  f_equal. lia.
Qed.

(** One read of an unframed stream under the deadline. *)
Lemma timeout_read h deadline cap :
  wp E h (timeout (Until deadline) (call (Read s cap))) (fun r h' => exists t, h' = h ++ t /\
    match r with
    | Val (Some (Ok (Some d))) => stream_read s t = d
    | Val _ => stream_read s t = []
    | _ => False
    end).
Proof.
  unfold wp. cbn -[app]. destruct (E bool h (Expired _)); cbn -[app]; [by eexists|].
  destruct (E _ _ (Read s cap)) as [[d|]|e]; cbn -[app]; rewrite <- app_assoc;
    (eexists; split; [reflexivity|]); [|done..].
  cbn. by rewrite Z.eqb_refl, app_nil_r.
Qed.

Abbreviation turn_post := (fun r h' =>
  match r with
  | Val (inl (p, b, _)) => receiving p b h'
  | Val (inr (p, b)) => received p b h'
  | _ => True
  end : Prop).

Lemma server_stream_turn packets bytes buf deadline h : receiving packets bytes h ->
  wp E h (Server.stream_upload_body fuel s deadline framed (packets, bytes, buf)) turn_post.
Proof.
  intros Hs. unfold Server.stream_upload_body. destruct framed eqn:Hf; apply wp_bind.
  - eapply wp_mono; [by apply (timeout_packet E s)|].
    intros [[[[[n|] buf']|e]|]|e| |] h' (w & -> & Hw); try done.
    + destruct Hw as (q & Hw & -> & Hq). pose proof (receiving_packet _ _ _ _ _ Hf Hs Hw Hq) as H.
      destruct (zlen q =? 0); by apply wp_ret.
    + apply wp_ret, receiving_end; [done|]. rewrite Hf, Hw. left. cbn. lia.
    + apply wp_ret, receiving_end; [done|by rewrite Hf].
  - eapply wp_mono; [apply timeout_read|].
    intros [[[[d|]|e]|]|e| |] h' (w & -> & Hw); try done; apply wp_ret.
    + by apply receiving_bytes.
    + apply receiving_end; [done|by rewrite Hf].
    + apply receiving_end; [done|by rewrite Hf].
Qed.

Lemma client_stream_turn packets bytes buf deadline h : receiving packets bytes h ->
  wp E h (ClientBench.stream_download_body fuel s deadline framed (packets, bytes, buf)) turn_post.
Proof.
  intros Hs. unfold ClientBench.stream_download_body. destruct framed eqn:Hf; apply wp_bind.
  - eapply wp_mono; [by apply (timeout_packet E s)|].
    intros [[[[[n|] buf']|e]|]|e| |] h' (w & -> & Hw); try done.
    + destruct Hw as (q & Hw & -> & Hq). pose proof (receiving_packet _ _ _ _ _ Hf Hs Hw Hq) as H.
      destruct (zlen q =? 0); by apply wp_ret.
    + apply wp_ret, receiving_end; [done|]. rewrite Hf, Hw. left. cbn. lia.
  - eapply wp_mono; [apply timeout_read|].
    intros [[[[d|]|e]|]|e| |] h' (w & -> & Hw); try done; apply wp_ret.
    + by apply receiving_bytes.
    + apply receiving_end; [done|by rewrite Hf].
Qed.

Lemma receiving_nil X (o : Op X) x : no_stream X o = true -> receiving 0 0 (h0 ++ [Ev o x]).
Proof.
  intros Ho. exists [Ev o x]. split; [done|].
  assert (stream_read s [Ev o x] = []) as R by by destruct o.
  unfold received_all. rewrite R. destruct framed; [|done]. by exists [].
Qed.

Lemma receiving_quiet p b h w : receiving p b h -> streamless w -> receiving p b (h ++ w).
Proof.
  intros (t & -> & Hc) Hw. exists (t ++ w). rewrite <- app_assoc. split; [done|].
  destruct (Hw s) as [_ R]. unfold received_all in *. by rewrite stream_read_app, R, app_nil_r.
Qed.

Lemma received_after p b h w : received p b h -> streamless w -> received p b (h ++ w).
Proof.
  intros (t & -> & Hc) Hw. exists (t ++ w). rewrite <- app_assoc. split; [done|].
  by apply received_quiet.
Qed.

Lemma receiving_between p b h : receiving p b h -> received p b h.
Proof.
  intros Hs. rewrite <- (app_nil_r h). apply receiving_end; [done|].
  destruct framed; [left; cbn; lia|done].
Qed.

Lemma server_stream_loop deadline n st h : receiving st.1.1 st.1.2 h ->
  wp E h (loop n (Server.stream_upload_body fuel s deadline framed) st) (fun r h' =>
    match r with Val (p, b) => received p b h' | _ => True end).
Proof.
  intros Hs. apply (wp_loop _ _ _ _ _ (fun st h' => receiving st.1.1 st.1.2 h')); [done| |done].
  intros [[p b] buf] h1 H. eapply wp_mono; [by apply server_stream_turn|].
  intros [[[[? ?] ?]|[? ?]]|e| |] h2 H2; done.
Qed.

Lemma client_stream_loop deadline n st h : receiving st.1.1 st.1.2 h ->
  wp E h (loop n (ClientBench.stream_download_body fuel s deadline framed) st) (fun r h' =>
    match r with Val (p, b) => received p b h' | _ => True end).
Proof.
  intros Hs. apply (wp_loop _ _ _ _ _ (fun st h' => receiving st.1.1 st.1.2 h')); [done| |done].
  intros [[p b] buf] h1 H. eapply wp_mono; [by apply client_stream_turn|].
  intros [[[[? ?] ?]|[? ?]]|e| |] h2 H2; done.
Qed.
End Receiver.

(** ** The server's measurement *)

(** Calls that are not messages. *)
Definition no_message : forall X, Op X -> bool := fun X o =>
  match o with WriteAll _ _ => false | _ => true end.

Definition unwritten (h0 h : history) : Prop := exists t, h = h0 ++ t /\ writes t = [].

Lemma unwritten_run E {A} (p : prog A) h0 h :
  all_ops no_message p -> unwritten h0 h -> wp E h p (fun _ h' => unwritten h0 h').
Proof.
  intros Hp (t0 & -> & W0). destruct (all_ops_run no_message E p (h0 ++ t0) Hp) as (t & Et & Ht).
  exists (t0 ++ t). rewrite Et, <- app_assoc. split; [done|]. rewrite writes_app, W0.
  apply observe_silent. eapply Forall_impl; [exact Ht|]. intros [X o x] Ho. by destruct o.
Qed.

Lemma unwritten_event h0 h X (o : Op X) x :
  no_message X o = true -> unwritten h0 h -> unwritten h0 (h ++ [Ev o x]).
Proof.
  intros Ho (t & -> & W). exists (t ++ [Ev o x]). rewrite <- app_assoc, writes_app, W.
  split; [done|]. by destruct o.
Qed.

Lemma unwritten_nil h : unwritten h h.
Proof. exists []. by rewrite app_nil_r. Qed.

Lemma server_stream_loop_no_message fuel n s deadline framed st :
  all_ops no_message (loop n (Server.stream_upload_body fuel s deadline framed) st).
Proof. unfold Server.stream_upload_body. ops. Qed.

(** The summary closes the measurement: it is the only message, and what
    the streams carried stays what it was. *)
Lemma summary_closes E (P : history -> Prop) h0 h (c : conn) d e m b p n tgt :
  P h -> (forall w, streamless w -> P (h ++ w)) -> unwritten h0 h ->
  wp E h (send_bench_summary c d e m b p n tgt) (fun r h' => r = Val tt -> P h' /\
    exists t st, h' = h0 ++ t /\
      writes t = [as_bytes (summary_text d e m b p n tgt (stats_text st))]).
Proof.
  intros HP HPw (t & -> & Hw).
  eapply wp_mono; [apply wp_and; [apply send_summary_writes|
    apply no_stream_run; auto with vpn]|].
  intros r h' [(w & -> & _ & Hsum) (w' & Ew & Hq)] ->. apply app_inv_head in Ew as <-.
  split; [by apply HPw|]. destruct Hsum as [st Hsum]. exists (t ++ w), st.
  rewrite <- app_assoc. split; [done|]. by rewrite writes_app, Hw, Hsum.
Qed.

Lemma server_upload_counts E h fuel c duration n target framed :
  reads_fit E ->
  wp E h (Server.run_stream_upload_bench fuel c duration n target framed) (fun r h' =>
    r = Val tt -> exists s t elapsed st p b, h' = h ++ t /\ (exists h1, E _ h1 (AcceptUni c) = Ok s) /\
      received_count framed s p b t /\
      writes t = [as_bytes (summary_text
        (if framed then lit "stream-packet-upload" else lit "stream-upload") elapsed (secs duration)
        b p n target (stats_text st))]).
Proof.
  intros HE. unfold Server.run_stream_upload_bench.
  apply wp_bind, wp_vis. destruct (E _ h (AcceptUni c)) as [s|e] eqn:Ho; apply wp_ret; [|done].
  apply wp_bind, wp_vis, wp_ret. set (h2 := (h ++ _) ++ _).
  assert (receiving s framed h 0 0 h2) as Hs by by apply receiving_quiet; [apply receiving_nil|].
  assert (unwritten h h2) as Hw by (apply unwritten_event; [done|apply unwritten_event; [done|apply unwritten_nil]]).
  clearbody h2. apply wp_bind. unfold instant_add. destruct (_ <=? _); apply wp_ret; [|done].
  apply wp_bind. eapply wp_mono; [apply wp_and; [by apply (server_stream_loop E s)|
    apply unwritten_run; [apply server_stream_loop_no_message|exact Hw]]|].
  intros [[p b]|e| |] h3 [H3 W3]; try done. cbv beta iota zeta. unfold elapsed_since.
  apply wp_bind, wp_bind, wp_vis, wp_ret, wp_ret.
  eapply wp_mono; [apply (summary_closes E (received s framed h p b) h)|].
  - by apply received_after.
  - intros w Hq. by apply received_after; [apply received_after|].
  - by apply unwritten_event.
  - intros r h' Hr Hv. destruct (Hr Hv) as [(t' & Et & Hc) (t & st & -> & Ht)].
    apply app_inv_head in Et as <-. eexists s, t, _, st, p, b.
    split; [done|]. split; [by exists h|]. by split.
Qed.

Lemma download_loop_no_message fuel s c payload deadline framed st :
  all_ops no_message (loop fuel (Server.stream_download_body s c payload deadline framed) st).
Proof. unfold Server.stream_download_body. ops. Qed.
(** A sender that has written no message. *)
Definition sending_silently (s : sid) (payload : bytes) (framed : bool) (h0 : history)
    (p b : Z) (h : history) : Prop :=
  sent s payload framed h0 p b h /\ unwritten h0 h.

Lemma silently_kept E framed s payload h0 p b h {A} (m : prog A) :
  all_ops no_stream m -> all_ops no_message m -> sending_silently s payload framed h0 p b h ->
  wp E h m (fun _ => sending_silently s payload framed h0 p b).
Proof.
  intros Hm Hm' [Hs Hw]. apply wp_and; [by apply sent_kept|by apply unwritten_run].
Qed.

Lemma received_kept E framed s h0 p b h {A} (m : prog A) :
  all_ops no_stream m -> received s framed h0 p b h ->
  wp E h m (fun _ => received s framed h0 p b).
Proof.
  intros Hm Hs. eapply wp_mono; [by apply no_stream_run|].
  intros r h' (w & -> & Hw). by apply received_after.
Qed.

(** The next part of the program keeps [H]. *)
Ltac leaves_alone := solve [auto with vpn | ops].
Ltac kept H :=
  eapply wp_keep;
  [first [eapply sent_kept; [leaves_alone|exact H]
         |eapply silently_kept; [leaves_alone..|exact H]
         |eapply received_kept; [leaves_alone|exact H]]
  | |by intros []]; clear H.

Lemma client_upload_counts E h fuel c duration n target adaptive framed :
  writes_fit E ->
  wp E h (ClientBench.run_stream_upload_bench fuel c duration n target adaptive framed) (fun r h' =>
    forall m, r = Val m -> exists s t, h' = h ++ t /\ (exists h1, E _ h1 (OpenUni c) = Ok s) /\
      sent_count framed s (repeat 0 (Z.to_nat n)) (m_packets m) (m_bytes m) t).
Proof.
  intros HE. unfold ClientBench.run_stream_upload_bench. set (payload := repeat _ _).
  apply wp_bind, wp_vis. destruct (E _ h (OpenUni c)) as [s|e] eqn:Ho; apply wp_ret; [|done].
  assert (sent s payload framed h 0 0 (h ++ [Ev (OpenUni c) (Ok s)])) as Hs
    by (by apply sent_event, sent_nil).
  kept Hs. intros started h1 Hs.
  kept Hs. intros deadline h2 Hs.
  kept Hs. intros pacer h3 Hs.
  apply wp_bind. eapply wp_mono; [by apply (upload_loop E)|].
  intros [[p b]|e| |] h4 H4; try done.
  kept H4. intros _ h5 H5.
  kept H5. intros elapsed h6 H6. cbv zeta.
  eapply wp_mono; [apply wp_and; [apply upload_measurement_counts|
    apply no_stream_run; auto with vpn]|].
  intros r h7 [Hm (w & -> & Hw)] m Hr. destruct (Hm m Hr) as [-> ->].
  destruct (sent_quiet _ _ _ _ _ _ _ _ H6 Hw) as (t & -> & Hc).
  exists s, t. split; [done|]. split; [by exists h|done].
Qed.

Lemma server_download_counts E h fuel c duration n target adaptive framed :
  writes_fit E ->
  wp E h (Server.run_stream_download_bench fuel c duration n target adaptive framed) (fun r h' =>
    r = Val tt -> exists s t e m st p b, h' = h ++ t /\ (exists h1, E _ h1 (OpenUni c) = Ok s) /\
      sent_count framed s (repeat 0 (Z.to_nat n)) p b t /\
      writes t = [as_bytes (summary_text
        (if framed then lit "stream-packet-download" else lit "stream-download") e m b p n target
        (stats_text st))]).
Proof.
  intros HE. unfold Server.run_stream_download_bench. set (payload := repeat _ _).
  apply wp_bind, wp_vis. destruct (E _ h (OpenUni c)) as [s|e] eqn:Ho; apply wp_ret; [|done].
  assert (sending_silently s payload framed h 0 0 (h ++ [Ev (OpenUni c) (Ok s)])) as Hs
    by (split; [by apply sent_event, sent_nil|by apply unwritten_event, unwritten_nil]).
  kept Hs. intros started h1 Hs.
  kept Hs. intros deadline h2 Hs.
  kept Hs. intros pacer h3 [Hs Hw].
  apply wp_bind. eapply wp_mono; [apply wp_and; [by apply (download_loop E)|
    apply unwritten_run; [apply download_loop_no_message|exact Hw]]|].
  intros [[p b]|e| |] h4 H4; try done; [|by destruct H4..].
  kept H4. intros _ h5 H5.
  cbv zeta. kept H5. intros e h6 H6.
  kept H6. intros m h7 [H7 W7].
  eapply wp_mono; [apply (summary_closes E (sent s payload framed h p b) h); [exact H7| |exact W7]|].
  - intros w Hq. by apply sent_quiet.
  - intros r h' Hr Hv. destruct (Hr Hv) as [(t' & Et & Hc) (t & st & -> & Ht)].
    apply app_inv_head in Et as <-. exists s, t, e, m, st, p, b.
    split; [done|]. split; [by exists h|]. by split.
Qed.

Lemma client_download_counts E h fuel c duration n target framed :
  reads_fit E ->
  wp E h (ClientBench.run_stream_download_bench fuel c duration n target framed) (fun r h' =>
    forall m, r = Val m -> exists s t, h' = h ++ t /\ (exists h1, E _ h1 (AcceptUni c) = Ok s) /\
      received_count framed s (m_packets m) (m_bytes m) t).
Proof.
  intros HE. unfold ClientBench.run_stream_download_bench.
  apply wp_bind, wp_vis. destruct (E _ h (AcceptUni c)) as [s|e] eqn:Ho; apply wp_ret; [|done].
  apply wp_bind, wp_vis, wp_ret. set (h2 := (h ++ _) ++ _).
  assert (receiving s framed h 0 0 h2) as Hs by by apply receiving_quiet; [apply receiving_nil|].
  clearbody h2. apply wp_bind. unfold instant_add. destruct (_ <=? _); apply wp_ret; [|done].
  apply wp_bind. eapply wp_mono; [by apply (client_stream_loop E s)|].
  intros [[p b]|e| |] h3 H3; try done. cbv beta iota zeta.
  kept H3. intros summary h4 H4.
  kept H4. intros e h5 H5.
  kept H5. intros _ h6 H6.
  kept H6. intros _ h7 H7.
  kept H7. intros e' h8 (t & -> & Hc).
  apply wp_ret. intros m [= <-]. exists s, t. split; [done|]. split; [by exists h|done].
Qed.

(** ** Two ends of a stream *)

(** The counters of an end whose stream carried [len] bytes: whole packets of
    [n] bytes, each in a frame, or bytes (the reads of an unframed stream need
    not match its writes). *)
Definition counted (framed : bool) (n p b len : Z) : Prop :=
  if framed then p = wrap (len / (n + 2)) /\ b = wrap (len / (n + 2) * n) else b = wrap len.

Lemma concat_repeat_frames (q : bytes) k :
  concat (repeat (frame q) k) = concat (map frame (repeat q k)).
Proof. by rewrite map_repeat. Qed.

Lemma repeat_prefix {A} (x : A) k ps rest : repeat x k = ps ++ rest ->
  exists k', (k' <= k)%nat /\ ps = repeat x k' /\ rest = repeat x (k - k').
Proof.
  revert k. induction ps as [|y ps IH]; intros k Hk.
  - exists 0%nat. rewrite Nat.sub_0_r. split; [lia|]. by rewrite Hk.
  - destruct k as [|k]; [done|]. injection Hk as <- Hk.
    destruct (IH k Hk) as (k' & Hle & -> & ->). exists (S k'). by split; [lia|].
Qed.

Lemma filter_nonempty_repeat (q : bytes) k : nonempty q = true ->
  List.filter nonempty (repeat q k) = repeat q k.
Proof. intros Hq. induction k as [|k IH]; [done|]. cbn. by rewrite Hq, IH. Qed.

Lemma sum_len_repeat (q : bytes) k : sum_len (repeat q k) = Z.of_nat k * zlen q.
Proof. induction k as [|k IH]; [done|]. cbn [repeat sum_len foldr]. fold (sum_len (repeat q k)). rewrite IH. lia. Qed.

Lemma frames_length (q : bytes) k : zlen (concat (map frame (repeat q k))) = Z.of_nat k * (zlen q + 2).
Proof.
  induction k as [|k IH]; [done|]. cbn [repeat map concat].
  rewrite length_app, Nat2Z.inj_add, IH. unfold frame. rewrite length_app. cbn [length to_be_bytes]. lia.
Qed.

(** What is left of a frame that was not read to its end. *)
Lemma begun_length (q tail : bytes) k : zlen q <= U16_MAX ->
  begun tail -> tail `prefix_of` concat (map frame (repeat q k)) -> zlen tail < zlen q + 2.
Proof.
  intros Hq Hb [d Hd]. destruct Hb as [Hb|Hb]; [lia|].
  destruct tail as [|x [|y tail]]; [cbn; lia..|]. destruct k as [|k]; [done|].
  unfold frame in Hd. cbn [repeat map concat app to_be_bytes] in Hd. injection Hd as <- <- Hd.
  change (from_be_bytes (_ :: _ :: tail)) with (from_be_bytes (to_be_bytes (zlen q) ++ tail)) in Hb.
  rewrite (proj1 (be_bytes_roundtrip (zlen q) tail ltac:(lia))) in Hb. lia.
Qed.

Lemma sent_counted framed s n p b t : (framed = true -> 1 <= n <= U16_MAX) ->
  sent_count framed s (repeat 0 (Z.to_nat n)) p b t ->
  counted framed n p b (zlen (stream_data s t)).
Proof.
  intros Hn Hs. unfold sent_count, counted in *. destruct framed; [|done]. specialize (Hn eq_refl).
  destruct Hs as (k & -> & -> & ->). rewrite concat_repeat_frames, frames_length, repeat_length.
  rewrite Z2Nat.id, Z.div_mul by lia. done.
Qed.

Lemma received_counted framed s s' n p b p' b' t t' : (framed = true -> 1 <= n <= U16_MAX) ->
  sent_count framed s (repeat 0 (Z.to_nat n)) p b t -> received_count framed s' p' b' t' ->
  stream_read s' t' `prefix_of` stream_data s t ->
  counted framed n p' b' (zlen (stream_read s' t')).
Proof.
  intros Hn Hs Hr Hpre. unfold sent_count, received_count, counted in *. destruct framed; [|done].
  specialize (Hn eq_refl). set (q := repeat 0 _) in *.
  assert (zlen q = n) as Hq by (unfold q; rewrite repeat_length; lia).
  assert (nonempty q = true) as Hne by (destruct q; [cbn in Hq; lia|done]).
  destruct Hs as (k & Es & -> & ->), Hr as (ps & tail & Er & Hps & Htail & -> & ->).
  rewrite Es, concat_repeat_frames, Er in *.
  destruct (frames_prefix ps (repeat q k) tail) as (rest & Eq & Hrest); [done|..|done|].
  { apply Forall_forall. intros x Hx%list_elem_of_In%repeat_spec. subst x. lia. }
  destruct (repeat_prefix q k ps rest Eq) as (k' & Hle & -> & ->).
  apply begun_length in Hrest; [|lia|done].
  rewrite filter_nonempty_repeat, repeat_length, sum_len_repeat, length_app, Nat2Z.inj_add,
    frames_length, Hq by done.
  rewrite (Z.div_add_l _ (n + 2)), (Z.div_small (zlen tail)), Z.add_0_r by lia. done.
Qed.

(** Two ends with the same bytes have the same counters. *)
Lemma counted_same framed n p b p' b' len :
  counted framed n p b len -> counted framed n p' b' len -> b' = b /\ (framed = true -> p' = p).
Proof. unfold counted. destruct framed; [by intros [-> ->] [-> ->]|by intros -> ->]. Qed.

Lemma ends_counted framed s s' n p b p' b' t t' : (framed = true -> 1 <= n <= U16_MAX) ->
  sent_count framed s (repeat 0 (Z.to_nat n)) p b t -> received_count framed s' p' b' t' ->
  counted framed n p b (zlen (stream_data s t)) /\
  (stream_read s' t' `prefix_of` stream_data s t ->
   counted framed n p' b' (zlen (stream_read s' t'))) /\
  (stream_read s' t' = stream_data s t -> b' = b /\ (framed = true -> p' = p)).
Proof.
  intros Hn Hs Hr. pose proof (sent_counted _ _ _ _ _ _ Hn Hs) as Hsent.
  pose proof (received_counted _ _ _ _ _ _ _ _ _ _ Hn Hs Hr) as Hrecv.
  split; [done|]. split; [exact Hrecv|]. intros Hall.
  eapply counted_same; [exact Hsent|]. rewrite <- Hall. apply Hrecv. by rewrite Hall.
Qed.

(** ** A concrete benchmark

    One end: it takes what is written, up to [4] bytes at a time when [write]
    may stop early, until the time is up after 20 bytes, and reads [content] in
    chunks. The other calls are answered as by a prompt server. *)
Definition bench_machine (content : bytes) : env := fun X h o =>
  match o in Op X return X -> X with
  | Now => fun _ => if 20 <=? zlen (stream_data 3 h) then secs 60 else 0
  | OpenUni _ => fun _ => Ok 3
  | AcceptUni _ => fun _ => Ok 5
  | WriteAllChunks _ _ => fun _ => Ok tt
  | Write _ d => fun _ => Ok (Z.min 4 (zlen d))
  | Stopped _ => fun _ => Ok None
  | Println _ => fun _ => Ok tt
  | Read s cap => fun x => if 0 <=? cap then feeding content 6 _ h (Read s cap) else x
  | _ => fun x => x
  end (prompt_server X h o).

Lemma bench_machine_writes content : writes_fit (bench_machine content).
Proof. intros h s d n. cbn. intros [= <-]. lia. Qed.

Lemma bench_machine_reads content : Forall is_byte content -> reads_fit (bench_machine content).
Proof.
  intros Hc h s cap d. unfold bench_machine. destruct (Z.leb_spec 0 cap); [|done].
  by apply feeding_reads.
Qed.

Definition three_frames : bytes := concat (repeat (frame (repeat 0 5%nat)) 3).
Lemma three_frames_bytes : Forall is_byte three_frames.
Proof. vm_compute. repeat constructor; done. Qed.

(** ** Properties *)

(** C22: A stream upload, plain or in packets, is counted alike at both ends.
    When the client's benchmark and the server's both end well, the client's
    measurement counts what it wrote to its stream (whole packets of the
    payload's size, or bytes), the one message of the server is its summary
    with the count of what it read from its own, provided this is the beginning
    of what the client wrote; and when it is all of it, the two ends have
    the same numbers. Counters wrap at 2^64. *)
Theorem stream_upload_agreement (Ec Es : env) hc hs cc cs s s' fuel fuel' dc ds n target target'
    adaptive framed m :
  writes_fit Ec -> reads_fit Es -> (framed = true -> 1 <= n <= U16_MAX) ->
  (forall h, Ec _ h (OpenUni cc) = Ok s) -> (forall h, Es _ h (AcceptUni cs) = Ok s') ->
  let client := run Ec hc (ClientBench.run_stream_upload_bench fuel cc dc n target adaptive framed) in
  let server := run Es hs (Server.run_stream_upload_bench fuel' cs ds n target' framed) in
  client.1 = Val m -> server.1 = Val tt ->
  exists tc ts elapsed st p b, client.2 = hc ++ tc /\ server.2 = hs ++ ts /\
    writes ts = [as_bytes (summary_text
      (if framed then lit "stream-packet-upload" else lit "stream-upload") elapsed (secs ds)
      b p n target' (stats_text st))] /\
    counted framed n (m_packets m) (m_bytes m) (zlen (stream_data s tc)) /\
    (stream_read s' ts `prefix_of` stream_data s tc ->
     counted framed n p b (zlen (stream_read s' ts))) /\
    (stream_read s' ts = stream_data s tc -> b = m_bytes m /\ (framed = true -> p = m_packets m)).
Proof.
  intros HEc HEs Hn Hopen Haccept client server Hc Hs.
  destruct (client_upload_counts Ec hc fuel cc dc n target adaptive framed HEc m Hc)
    as (sc & tc & Etc & [h1 Ho] & Hsent).
  destruct (server_upload_counts Es hs fuel' cs ds n target' framed HEs Hs)
    as (ss & ts & elapsed & st & p & b & Ets & [h2 Ha] & Hrecv & Hw).
  rewrite Hopen in Ho. injection Ho as <-. rewrite Haccept in Ha. injection Ha as <-.
  exists tc, ts, elapsed, st, p, b. split; [done|]. split; [done|]. split; [done|].
  by apply ends_counted.
Qed.

Lemma stream_upload_agreement_witness : exists m,
  let client := run (bench_machine []) []
    (ClientBench.run_stream_upload_bench 50 1 10 5 None false true) in
  let server := run (bench_machine three_frames) []
    (Server.run_stream_upload_bench 50 2 10 5 None true) in
  client.1 = Val m /\ m_packets m = 3 /\
  exists tc ts elapsed st p b, client.2 = [] ++ tc /\ server.2 = [] ++ ts /\
    writes ts = [as_bytes (summary_text (lit "stream-packet-upload") elapsed (secs 10)
      b p 5 None (stats_text st))] /\
    counted true 5 (m_packets m) (m_bytes m) (zlen (stream_data 3 tc)) /\
    (stream_read 5 ts `prefix_of` stream_data 3 tc ->
     counted true 5 p b (zlen (stream_read 5 ts))) /\
    (stream_read 5 ts = stream_data 3 tc -> b = m_bytes m /\ (true = true -> p = m_packets m)).
Proof.
  eexists. split; [vm_compute; reflexivity|]. split; [reflexivity|].
  apply (stream_upload_agreement (bench_machine []) (bench_machine three_frames) [] [] 1 2 3 5
    50 50 10 10 5 None None false true); try done.
  - apply bench_machine_writes.
  - apply bench_machine_reads, three_frames_bytes.
Defined.

(** All that the client wrote is read there. *)
Example upload_complete :
  stream_read 5 (run (bench_machine three_frames) []
    (Server.run_stream_upload_bench 50 2 10 5 None true)).2 =
  stream_data 3 (run (bench_machine []) []
    (ClientBench.run_stream_upload_bench 50 1 10 5 None false true)).2.
Proof. vm_compute. reflexivity. Qed.

(** C23: And so is a stream download, where the server sends: its summary
    counts what it wrote to the stream, the client's measurement what it
    read, and the numbers are the same when the client read all of it. *)
Theorem stream_download_agreement (Ec Es : env) hc hs cc cs s s' fuel fuel' dc ds n target target'
    adaptive framed m :
  reads_fit Ec -> writes_fit Es -> (framed = true -> 1 <= n <= U16_MAX) ->
  (forall h, Ec _ h (AcceptUni cc) = Ok s) -> (forall h, Es _ h (OpenUni cs) = Ok s') ->
  let client := run Ec hc (ClientBench.run_stream_download_bench fuel cc dc n target framed) in
  let server :=
    run Es hs (Server.run_stream_download_bench fuel' cs ds n target' adaptive framed) in
  client.1 = Val m -> server.1 = Val tt ->
  exists tc ts elapsed measured st p b, client.2 = hc ++ tc /\ server.2 = hs ++ ts /\
    writes ts = [as_bytes (summary_text
      (if framed then lit "stream-packet-download" else lit "stream-download") elapsed measured
      b p n target' (stats_text st))] /\
    counted framed n p b (zlen (stream_data s' ts)) /\
    (stream_read s tc `prefix_of` stream_data s' ts ->
     counted framed n (m_packets m) (m_bytes m) (zlen (stream_read s tc))) /\
    (stream_read s tc = stream_data s' ts -> m_bytes m = b /\ (framed = true -> m_packets m = p)).
Proof.
  intros HEc HEs Hn Haccept Hopen client server Hc Hs.
  destruct (client_download_counts Ec hc fuel cc dc n target framed HEc m Hc)
    as (sc & tc & Etc & [h1 Ha] & Hrecv).
  destruct (server_download_counts Es hs fuel' cs ds n target' adaptive framed HEs Hs)
    as (ss & ts & elapsed & measured & st & p & b & Ets & [h2 Ho] & Hsent & Hw).
  rewrite Hopen in Ho. injection Ho as <-. rewrite Haccept in Ha. injection Ha as <-.
  exists tc, ts, elapsed, measured, st, p, b. split; [done|]. split; [done|]. split; [done|].
  by apply ends_counted.
Qed.

Lemma stream_download_agreement_witness : exists m,
  let client := run (bench_machine (repeat 0 20)) []
    (ClientBench.run_stream_download_bench 50 1 10 5 None false) in
  let server := run (bench_machine []) []
    (Server.run_stream_download_bench 50 2 10 5 None false false) in
  client.1 = Val m /\ m_bytes m = 20 /\
  exists tc ts elapsed measured st p b, client.2 = [] ++ tc /\ server.2 = [] ++ ts /\
    writes ts = [as_bytes (summary_text (lit "stream-download") elapsed measured
      b p 5 None (stats_text st))] /\
    counted false 5 p b (zlen (stream_data 3 ts)) /\
    (stream_read 5 tc `prefix_of` stream_data 3 ts ->
     counted false 5 (m_packets m) (m_bytes m) (zlen (stream_read 5 tc))) /\
    (stream_read 5 tc = stream_data 3 ts -> m_bytes m = b /\ (false = true -> m_packets m = p)).
Proof.
  eexists. split; [vm_compute; reflexivity|]. split; [reflexivity|].
  apply (stream_download_agreement (bench_machine (repeat 0 20)) (bench_machine []) [] [] 1 2 5 3
    50 50 10 10 5 None None false false); try done.
  - apply bench_machine_reads. vm_compute. repeat constructor; done.
  - apply bench_machine_writes.
Defined.
