(* ===== verification/DatagramBench.v ===== *)
(** * The datagram benchmarks, end to end

    What the sender of a benchmark counts is what it handed to the connection,
    but for a last datagram that the deadline kept it from counting; the
    receiver counts what arrived. *)

From S2P Require Import Prelude RustStr World Follow Auth Config Float64 Pacer Backlog Pumps.
From S2P Require Import Summary Report Server Routes Connect ClientBench.

(** ** Calls that send nothing *)

(** Neither a datagram nor a message. *)
Definition no_send : forall X, Op X -> bool := fun X o =>
  match o with SendDatagramWait _ _ | WriteAll _ _ => false | _ => true end.

Definition unsent (t : history) : Prop := writes t = [] /\ forall c, datagrams_sent c t = [].

Lemma unsent_event X (o : Op X) x : no_send X o = true -> unsent [Ev o x].
Proof. intros Ho. split; [by destruct o|intros c; by destruct o]. Qed.

Lemma no_send_run E {A} (p : prog A) h :
  all_ops no_send p -> wp E h p (fun _ h' => exists t, h' = h ++ t /\ unsent t).
Proof.
  intros Hp. destruct (all_ops_run no_send E p h Hp) as (t & Et & Ht).
  exists t. split; [exact Et|].
  split; [|intros c]; apply observe_silent; (eapply Forall_impl; [exact Ht|]);
    intros [X o x] Ho; by destruct o.
Qed.

(** ** The sender *)

Section Sender.
Context (E : env) (c : conn) (payload : bytes) (h0 : history).

(** Between two turns every datagram handed over is counted; at the end the
    last may not be. No message was written. *)
Definition handed (packets bytes : Z) (h : history) : Prop :=
  exists t k, h = h0 ++ t /\ writes t = [] /\ datagrams_sent c t = repeat payload k /\
    counts (repeat payload k) packets bytes.
Definition handed_last (packets bytes : Z) (h : history) : Prop :=
  exists t k last, h = h0 ++ t /\ writes t = [] /\
    datagrams_sent c t = repeat payload k ++ last /\ last `prefix_of` [payload] /\
    counts (repeat payload k) packets bytes.

Lemma handed_end p b h w last : handed p b h -> writes w = [] -> datagrams_sent c w = last ->
  last `prefix_of` [payload] -> handed_last p b (h ++ w).
Proof.
  intros (t & k & -> & W & D & Hc) Ww Dw Hl. exists (t ++ w), k, last.
  by rewrite <- app_assoc, writes_app, W, Ww, datagrams_sent_app, D, Dw.
Qed.

Lemma handed_quiet p b h w : handed p b h -> unsent w -> handed p b (h ++ w).
Proof.
  intros (t & k & -> & W & D & Hc) [Ww Dw]. exists (t ++ w), k.
  by rewrite <- app_assoc, writes_app, W, Ww, datagrams_sent_app, D, Dw, ?app_nil_r.
Qed.

Lemma handed_last_quiet p b h w : handed_last p b h -> unsent w -> handed_last p b (h ++ w).
Proof.
  intros (t & k & l & -> & W & D & Hl & Hc) [Ww Dw]. exists (t ++ w), k, l.
  by rewrite <- app_assoc, writes_app, W, Ww, datagrams_sent_app, D, Dw, ?app_nil_r.
Qed.

Lemma handed_one p b h w : handed p b h -> writes w = [] -> datagrams_sent c w = [payload] ->
  handed (wrapping_add_u64 p 1) (wrapping_add_u64 b (zlen payload)) (h ++ w).
Proof.
  intros (t & k & -> & W & D & Hc) Ww Dw. exists (t ++ w), (S k).
  rewrite <- app_assoc, writes_app, W, Ww, datagrams_sent_app, D, Dw.
  assert (repeat payload k ++ [payload] = repeat payload (S k)) as Er
    by by rewrite <- repeat_cons.
  split; [done|]. split; [done|]. rewrite Er. split; [done|]. rewrite <- Er. by apply counts_snoc.
Qed.

(** Parts of the program that send nothing. *)
Lemma handed_kept {A} p b h (m : prog A) : all_ops no_send m -> handed p b h ->
  wp E h m (fun _ => handed p b).
Proof.
  intros Hm Hh. eapply wp_mono; [by apply no_send_run|].
  intros r h' (w & -> & Hw). by apply handed_quiet.
Qed.
Lemma handed_last_kept {A} p b h (m : prog A) : all_ops no_send m -> handed_last p b h ->
  wp E h m (fun _ => handed_last p b).
Proof.
  intros Hm Hh. eapply wp_mono; [by apply no_send_run|].
  intros r h' (w & -> & Hw). by apply handed_last_quiet.
Qed.

Abbreviation turn_post := (fun r h' =>
  match r with
  | Val (inl (p, b, _, _)) => handed p b h'
  | Val (inr (p, b)) => handed_last p b h'
  | _ => True
  end : Prop).

Lemma select_turn_sends h deadline :
  wp E h (select_bench_turn c payload deadline) (fun r h' => exists t, h' = h ++ t /\
    writes t = [] /\
    match r with
    | Val (Handed (Ok _)) => datagrams_sent c t = [payload]
    | Val _ => datagrams_sent c t = []
    | _ => False
    end).
Proof.
  unfold select_bench_turn, wp. cbn -[app].
  case_poll; cbn -[app]; [waits|].
  destruct (E bool _ Poll) eqn:Hsend; cbn -[app]; case_poll; cbn -[app]; [waits| |waits..].
  destruct (E _ _ (SendDatagramWait c payload)) as [[]|e]; cbn -[app]; rewrite <- !app_assoc;
    (eexists; split; [reflexivity|]; split; [done|]); [|done].
  cbn. by rewrite Z.eqb_refl.
Qed.

(** What both senders do after a datagram is handed over. *)
Lemma handed_turn fuel deadline p b pacer bl h w :
  handed p b h -> writes w = [] -> datagrams_sent c w = [payload] ->
  wp E (h ++ w) (
    '(within_limit, bl) <- queued_until fuel c deadline bl;
    if negb within_limit then ret (inr (p, b)) else
    pacer <- record_and_wait pacer (zlen payload) (Some c);
    ret (inl (wrapping_add_u64 p 1, wrapping_add_u64 b (zlen payload), pacer, bl))) turn_post.
Proof.
  intros Hh Ww Dw. apply wp_bind. eapply wp_mono; [apply no_send_run; auto with vpn|].
  intros r h2 (v & -> & Hv). destruct r as [[[] bl']|e| |]; try done; cbn [negb].
  - assert (handed (wrapping_add_u64 p 1) (wrapping_add_u64 b (zlen payload)) ((h ++ w) ++ v)) as H1
      by by apply handed_quiet; [apply handed_one|].
    eapply wp_keep; [apply handed_kept; [auto with vpn|exact H1]| |by intros []].
    intros pc h' H'. by apply wp_ret.
  - destruct Hv as [Wv Dv]. apply wp_ret. rewrite <- app_assoc. apply (handed_end _ _ _ _ [payload]).
    + done.
    + by rewrite writes_app, Ww, Wv.
    + by rewrite datagrams_sent_app, Dw, Dv.
    + done.
Qed.

Lemma client_turn fuel deadline st h : handed st.1.1.1 st.1.1.2 h ->
  wp E h (ClientBench.upload_bench_body fuel c payload deadline st) turn_post.
Proof.
  destruct st as [[[p b] pacer] bl]. cbn [fst snd]. intros Hh.
  unfold ClientBench.upload_bench_body. apply wp_bind.
  eapply wp_mono; [apply select_turn_sends|].
  intros [[|[[]|e]|reason]|e| |] h' (w & -> & Ww & Dw); try done.
  - apply wp_ret. by apply (handed_end _ _ _ _ []); [..|apply prefix_nil].
  - by apply handed_turn.
Qed.

Lemma server_turn fuel deadline st h : handed st.1.1.1 st.1.1.2 h ->
  wp E h (Server.download_bench_body fuel c payload deadline st) turn_post.
Proof.
  destruct st as [[[p b] pacer] bl]. cbn [fst snd]. intros Hh.
  unfold Server.download_bench_body. apply wp_bind.
  eapply wp_mono; [apply select_turn_sends|].
  intros [[|[[]|e]|reason]|e| |] h' (w & -> & Ww & Dw); try done.
  - apply wp_ret. by apply (handed_end _ _ _ _ []); [..|apply prefix_nil].
  - by apply handed_turn.
  - apply wp_ret. by apply (handed_end _ _ _ _ []); [..|apply prefix_nil].
Qed.

Lemma handed_nil : handed 0 0 h0.
Proof. exists [], 0%nat. by rewrite app_nil_r. Qed.

(** Both loops. *)
Lemma sender_loop fuel body st h :
  (forall st h, handed st.1.1.1 st.1.1.2 h -> wp E h (body st) turn_post) ->
  handed st.1.1.1 st.1.1.2 h ->
  wp E h (loop (S:=sender_state) fuel body st) (fun r h' =>
    match r with Val (p, b) => handed_last p b h' | _ => True end).
Proof.
  intros Hb Hh. apply (wp_loop _ _ _ _ _ (fun st h' => handed st.1.1.1 st.1.1.2 h')); [done| |done].
  intros st' h1 H. eapply wp_mono; [by apply Hb|].
  intros [[[[[? ?] ?] ?]|[? ?]]|e| |] h2 H2; done.
Qed.
End Sender.

(** The next part of the program keeps [H]. *)
Ltac keeps H :=
  eapply wp_keep;
  [first [eapply handed_kept; [solve [auto with vpn | ops]|exact H]
         |eapply handed_last_kept; [solve [auto with vpn | ops]|exact H]]
  | |by intros []]; clear H.

Lemma client_upload_hands E h fuel c duration n target backlog adaptive :
  wp E h (ClientBench.run_upload_bench fuel c duration n target backlog adaptive) (fun r h' =>
    forall m, r = Val m ->
      handed_last c (repeat 0 (Z.to_nat n)) h (m_packets m) (m_bytes m) h').
Proof.
  unfold ClientBench.run_upload_bench. cbv zeta. set (payload := repeat _ _).
  pose proof (handed_nil c payload h) as H0.
  keeps H0. intros started h1 H1. keeps H1. intros deadline h2 H2.
  keeps H2. intros pacer h3 H3. keeps H3. intros bl h4 H4.
  apply wp_bind. eapply wp_mono; [apply (sender_loop E c payload h)|].
  - intros st h' Hs. by apply client_turn.
  - exact H4.
  - intros [[p b]|e| |] h5 H5; try done. keeps H5. intros elapsed h6 H6.
    eapply wp_mono; [apply wp_and; [apply upload_measurement_counts|
      apply handed_last_kept; [auto with vpn|exact H6]]|].
    intros r h7 [Hm Hl] m Hr. by destruct (Hm m Hr) as [-> ->].
Qed.

(** ** The server's summary *)

Definition no_datagram_sent : forall X, Op X -> bool := fun X o =>
  match o with SendDatagramWait _ _ => false | _ => true end.

Lemma summary_sends_no_datagram E h c d e m b p n tgt :
  wp E h (send_bench_summary c d e m b p n tgt) (fun _ h' => exists w, h' = h ++ w /\
    datagrams_sent c w = []).
Proof.
  assert (all_ops no_datagram_sent (send_bench_summary c d e m b p n tgt)) as Hs
    by auto with vpn.
  destruct (all_ops_run no_datagram_sent E _ h Hs) as (w & Ew & Hw). exists w. split; [exact Ew|].
  apply observe_silent. eapply Forall_impl; [exact Hw|]. intros [X o x] Ho. by destruct o.
Qed.

(** After the loop the summary, the only message, has the counters. *)
Lemma server_download_hands E h fuel c duration n target backlog adaptive :
  wp E h (Server.run_download_bench fuel c duration n target backlog adaptive) (fun r h' =>
    r = Val tt -> exists t k last e m st p b, h' = h ++ t /\
      let size := Z.min (default n (E _ h (MaxDatagramSize c))) n in
      datagrams_sent c t = repeat (repeat 0 (Z.to_nat size)) k ++ last /\
      last `prefix_of` [repeat 0 (Z.to_nat size)] /\
      counts (repeat (repeat 0 (Z.to_nat size)) k) p b /\
      writes t = [as_bytes (summary_text (lit "download") e m b p size target (stats_text st))]).
Proof.
  unfold Server.run_download_bench. apply wp_bind, wp_vis, wp_ret. cbv zeta.
  set (size := Z.min _ _). set (payload := repeat 0 _).
  assert (handed c payload h 0 0 (h ++ [Ev (MaxDatagramSize c) (E _ h (MaxDatagramSize c))])) as H0
    by (apply handed_quiet; [apply handed_nil|by apply unsent_event]).
  keeps H0. intros started h1 H1. keeps H1. intros deadline h2 H2.
  keeps H2. intros pacer h3 H3. keeps H3. intros bl h4 H4.
  apply wp_bind. eapply wp_mono; [apply (sender_loop E c payload h)|].
  - intros st h' Hs. by apply server_turn.
  - exact H4.
  - intros [[p b]|er| |] h5 H5; try done. keeps H5. intros e h6 H6.
    keeps H6. intros m h7 (t & k & last & -> & W & D & Hl & Hc).
    eapply wp_mono; [apply wp_and; [apply send_summary_writes|apply summary_sends_no_datagram]|].
    intros r h8 [(w & -> & _ & Hs) (w' & Ew & Dw)] ->. apply app_inv_head in Ew as <-.
    destruct Hs as [st Hs]. exists (t ++ w), k, last, e, m, st, p, b.
    rewrite <- app_assoc. split; [done|]. fold size payload. cbv zeta.
    by rewrite datagrams_sent_app, D, Dw, app_nil_r, writes_app, W, Hs.
Qed.

(** ** Two ends of a connection *)

(** The counters of a sender that handed over [sent] datagrams of [n] bytes:
    all of them, but for at most one that the deadline came before. *)
Definition counted_sent (n p b sent : Z) : Prop :=
  exists uncounted, 0 <= uncounted <= Z.min 1 sent /\
    p = wrap (sent - uncounted) /\ b = wrap ((sent - uncounted) * n).

Lemma sum_len_uniform (ds : list bytes) n : Forall (fun d => zlen d = n) ds ->
  sum_len ds = zlen ds * n.
Proof.
  induction 1 as [|d ds Hd _ IH]; [done|]. unfold sum_len in *. cbn [foldr length]. rewrite IH. lia.
Qed.

Lemma handed_counted n k last p b :
  let payload := repeat 0 (Z.to_nat n) in
  0 <= n -> last `prefix_of` [payload] -> counts (repeat payload k) p b ->
  Forall (fun d => zlen d = n) (repeat payload k ++ last) /\
  counted_sent n p b (zlen (repeat payload k ++ last)).
Proof.
  intros payload Hn0 Hl [-> ->].
  assert (zlen payload = n) as Hn by (unfold payload; rewrite repeat_length; lia). clearbody payload.
  assert (Forall (fun d => zlen d = n) (repeat payload k)) as Hk
    by (apply Forall_forall; by intros d ->%list_elem_of_In%repeat_spec).
  assert (Forall (fun d => zlen d = n) last) as Hlast
    by (destruct Hl as [l Hl]; assert (Forall (fun d => zlen d = n) (last ++ l)) as [H _]%Forall_app
          by (rewrite <- Hl; by apply Forall_singleton); exact H).
  split; [by apply Forall_app|]. exists (zlen last). apply prefix_length in Hl. cbn in Hl.
  rewrite (sum_len_uniform _ n), length_app by done. split; [lia|].
  rewrite repeat_length. split; do 2 f_equal; lia.
Qed.

(** What arrives of datagrams of one size. *)
Lemma arrived_uniform (sent received : list bytes) n : Forall (fun d => zlen d = n) sent ->
  received ⊆+ sent -> zlen received <= zlen sent /\ sum_len received = zlen received * n.
Proof.
  intros Hs Hr. split; [apply submseteq_length in Hr; lia|]. apply sum_len_uniform.
  apply Forall_forall. intros d Hd. rewrite Forall_forall in Hs.
  apply Hs. by eapply elem_of_submseteq.
Qed.

(** ** A concrete sender

    It hands over three datagrams, then its time is up; the capacity of the
    connection is 3 bytes. The other calls are answered as by a prompt
    server. *)
Definition polls (h : history) : Z :=
  zlen (observe (fun X o =>
    match o in Op X return X -> list unit with Poll => fun _ => [tt] | _ => fun _ => [] end) h).

Definition datagram_machine : env := fun X h o =>
  match o in Op X return X -> X with
  | MaxDatagramSize _ => fun _ => Some 3
  | SendDatagramWait _ _ => fun _ => Ok tt
  | Poll => fun _ => (3 <=? zlen (datagrams_sent 1 h)) || (polls h mod 3 =? 1)
  | _ => fun x => x
  end (prompt_server X h o).

(** The receiving server of two of these datagrams, and the receiving client
    of all three. *)
Definition datagram_server : env := fun X h o =>
  match o in Op X return X -> X with
  | ReadDatagram _ => fun _ => Ok [0; 0; 0]
  | _ => fun x => x
  end (two_datagrams X h o).
Definition datagram_client : env := fun X h o =>
  match o in Op X return X -> X with
  | ReadDatagram _ => fun _ => Ok [0; 0; 0]
  | _ => fun x => x
  end (three_datagrams_first X h o).

(** ** Properties *)

(** C24: A datagram upload is counted at both ends. When both benchmarks end
    well, the client's measurement counts the datagrams handed to its
    connection, but for at most one at the deadline; the server's one message
    is its summary with the count of those it received. If the network neither
    forges nor duplicates (it may lose and reorder), these are not more, and
    the bytes are theirs. Counters wrap at 2^64. *)
Theorem datagram_upload_agreement (Ec Es : env) hc hs cc cs fuel fuel' dc ds n target target'
    backlog adaptive m :
  0 <= n ->
  let client := run Ec hc (ClientBench.run_upload_bench fuel cc dc n target backlog adaptive) in
  let server := run Es hs (Server.run_upload_bench fuel' cs ds n target') in
  client.1 = Val m -> server.1 = Val tt ->
  exists tc ts elapsed st p b, client.2 = hc ++ tc /\ server.2 = hs ++ ts /\
    writes ts = [as_bytes (summary_text (lit "upload") elapsed (secs ds) b p n target'
                   (stats_text st))] /\
    let sent := datagrams_sent cc tc in
    let received := datagrams_received cs ts in
    counted_sent n (m_packets m) (m_bytes m) (zlen sent) /\ p = wrap (zlen received) /\
    (received ⊆+ sent -> zlen received <= zlen sent /\ b = wrap (zlen received * n)).
Proof.
  intros Hn client server Hc Hs.
  destruct (client_upload_hands Ec hc fuel cc dc n target backlog adaptive m Hc)
    as (tc & k & last & Etc & _ & Dc & Hl & Hcount).
  destruct (upload_bench_counts Es hs fuel' cs ds n target' Hs) as (ts & elapsed & st & Ets & Hw).
  destruct (handed_counted n k last _ _ Hn Hl Hcount) as [Hu Hm].
  eexists tc, ts, elapsed, st, _, _. split; [exact Etc|]. split; [exact Ets|]. split; [exact Hw|].
  cbv zeta. rewrite Dc. split; [exact Hm|]. split; [done|]. intros Hnet.
  destruct (arrived_uniform _ _ _ Hu Hnet) as [Hle ->]. done.
Qed.

Lemma datagram_upload_agreement_witness : exists m,
  let client := run datagram_machine []
    (ClientBench.run_upload_bench 50 1 10 3 None 64 false) in
  let server := run datagram_server [] (Server.run_upload_bench 50 1 10 3 None) in
  client.1 = Val m /\ m_packets m = 3 /\
  exists tc ts elapsed st p b, client.2 = [] ++ tc /\ server.2 = [] ++ ts /\
    writes ts = [as_bytes (summary_text (lit "upload") elapsed (secs 10) b p 3 None
                   (stats_text st))] /\
    let sent := datagrams_sent 1 tc in
    let received := datagrams_received 1 ts in
    counted_sent 3 (m_packets m) (m_bytes m) (zlen sent) /\ p = wrap (zlen received) /\
    (received ⊆+ sent -> zlen received <= zlen sent /\ b = wrap (zlen received * 3)).
Proof.
  eexists. split; [vm_compute; reflexivity|]. split; [reflexivity|].
  apply (datagram_upload_agreement datagram_machine datagram_server [] [] 1 1 50 50 10 10 3 None None
    64 false); done.
Defined.

(** One of the three is lost there. *)
Example upload_loses_one :
  datagrams_sent 1 (run datagram_machine []
    (ClientBench.run_upload_bench 50 1 10 3 None 64 false)).2 = repeat [0; 0; 0] 3 /\
  datagrams_received 1 (run datagram_server [] (Server.run_upload_bench 50 1 10 3 None)).2 =
    repeat [0; 0; 0] 2.
Proof. vm_compute. done. Qed.

(** C25: And so is a datagram download: the server's summary counts what it
    handed over, in datagrams of the payload's size or the connection's
    capacity, the client's measurement what arrived. *)
Theorem datagram_download_agreement (Ec Es : env) hc hs cc cs fuel fuel' dc ds n target target'
    backlog adaptive m :
  let size := Z.min (default n (Es _ hs (MaxDatagramSize cs))) n in
  0 <= size ->
  let client := run Ec hc (ClientBench.run_download_bench fuel cc dc n target) in
  let server :=
    run Es hs (Server.run_download_bench fuel' cs ds n target' backlog adaptive) in
  client.1 = Val m -> server.1 = Val tt ->
  exists tc ts elapsed measured st p b, client.2 = hc ++ tc /\ server.2 = hs ++ ts /\
    writes ts = [as_bytes (summary_text (lit "download") elapsed measured b p size target'
                   (stats_text st))] /\
    let sent := datagrams_sent cs ts in
    let received := datagrams_received cc tc in
    counted_sent size p b (zlen sent) /\ m_packets m = wrap (zlen received) /\
    (received ⊆+ sent -> zlen received <= zlen sent /\ m_bytes m = wrap (zlen received * size)).
Proof.
  intros size Hn client server Hc Hs.
  destruct (server_download_hands Es hs fuel' cs ds n target' backlog adaptive Hs)
    as (ts & k & last & elapsed & measured & st & p & b & Ets & Ds & Hl & Hcount & Hw).
  destruct (download_bench_counts Ec hc fuel cc dc n target m Hc) as (tc & Etc & Hp & Hb).
  destruct (handed_counted size k last _ _ Hn Hl Hcount) as [Hu Hm].
  exists tc, ts, elapsed, measured, st, p, b. split; [exact Etc|]. split; [exact Ets|].
  split; [exact Hw|]. cbv zeta. rewrite Ds. split; [exact Hm|]. split; [exact Hp|]. intros Hnet.
  destruct (arrived_uniform _ _ _ Hu Hnet) as [Hle Hsum]. by rewrite Hb, Hsum.
Qed.

Lemma datagram_download_agreement_witness : exists m,
  let client := run datagram_client [] (ClientBench.run_download_bench 50 5 10 5 None) in
  let server := run datagram_machine [] (Server.run_download_bench 50 1 10 5 None 64 false) in
  client.1 = Val m /\ m_packets m = 3 /\
  exists tc ts elapsed measured st p b, client.2 = [] ++ tc /\ server.2 = [] ++ ts /\
    writes ts = [as_bytes (summary_text (lit "download") elapsed measured b p 3 None
                   (stats_text st))] /\
    let sent := datagrams_sent 1 ts in
    let received := datagrams_received 5 tc in
    counted_sent 3 p b (zlen sent) /\ m_packets m = wrap (zlen received) /\
    (received ⊆+ sent -> zlen received <= zlen sent /\ m_bytes m = wrap (zlen received * 3)).
Proof.
  eexists. split; [vm_compute; reflexivity|]. split; [reflexivity|].
  apply (datagram_download_agreement datagram_client datagram_machine [] [] 5 1 50 50 10 10 5 None None
    64 false); done.
Defined.
