(* ===== verification/BenchEnds.v ===== *)
(** * The stream benchmarks end

    The model's fuel is enough: when timers fire and the clock goes on, no
    stream benchmark runs for ever, at either end, whatever the streams
    deliver. A run that used up its fuel would contain that many decisions of
    a timer to wait, or readings of the clock before the deadline. When calls
    need not answer (Stall.v) a benchmark can hang at the few points that no
    time limit covers, and nowhere else. *)

From S2P Require Import Prelude RustStr World Follow Stall Auth Config Frame Float64 Pacer Backlog Pumps.
From S2P Require Import Summary Report Server Routes Connect ClientBench.

(** ** Programs without endless loops *)

Fixpoint ends {A} (p : prog (outcome A)) : Prop :=
  match p with
  | Ret r => r <> Running
  | Vis o k => forall x, ends (k x)
  end.

Lemma ends_run E {A} (m : M A) : forall h, ends m -> (run E h m).1 <> Running.
Proof. unfold M in m. induction m as [r|X o k IH]; intros h Hm; cbn [run]; [done|by apply IH]. Qed.

Lemma ends_pbind {A B} (p : prog A) (f : A -> M B) : (forall a, ends (f a)) -> ends (pbind p f).
Proof. intros Hf. induction p as [a|X o k IH]; [apply Hf|]. intros x. apply IH. Qed.

Lemma ends_bind {A B} (m : M A) (f : A -> M B) : ends m -> (forall a, ends (f a)) -> ends (bind m f).
Proof.
  intros Hm Hf. unfold bind, M in *. induction m as [r|X o k IH]; cbn [pbind ends] in *; [|auto].
  by destruct r.
Qed.

Lemma ends_call {X} (o : Op (ext X)) : ends (call o).
Proof. intros x. by destruct x. Qed.
Lemma ends_call_context {X} m (o : Op (ext X)) : ends (call_context m o).
Proof. intros x. by destruct x. Qed.
Lemma ends_call_with_context {X} m (o : Op (ext X)) : ends (call_with_context m o).
Proof. intros x. by destruct x. Qed.
Lemma ends_lift {A} (r : res A) : ends (lift r).
Proof. by destruct r. Qed.
Lemma ends_perform {X} (o : Op X) : ends (perform o).
Proof. by intros x. Qed.
Lemma ends_println line : ends (println line).
Proof. intros x. by destruct x. Qed.

Lemma ends_timeout {A} limit (m : M A) : ends m -> ends (timeout limit m).
Proof.
  unfold timeout, M in *. intros Hm. induction m as [r|X o k IH]; cbn in *.
  - by destruct r.
  - intros [|]; [done|]. intros x. apply IH, Hm.
Qed.

Lemma ends_race {A} (p : M A) : forall q : M A, ends p -> ends q ->
  ends (pbind (race p q) (fun r => Ret match r with inl o | inr o => o end)).
Proof.
  unfold M in *. induction p as [r|X o k IH]; intros q Hp Hq; [by destruct q|].
  induction q as [r|Y o' k' IH']; [done|]. cbn. intros [|] x; [by apply IH|apply IH', Hq].
Qed.

(** Walk through such a program. *)
Ltac ends_step :=
  lazymatch goal with
  | |- ends (bind _ _) => apply ends_bind; [|intros ?]
  | |- ends (perform _) => apply ends_perform
  | |- ends (call _) => apply ends_call
  | |- ends (call_context _ _) => apply ends_call_context
  | |- ends (call_with_context _ _) => apply ends_call_with_context
  | |- ends (lift _) => apply ends_lift
  | |- ends (println _) => apply ends_println
  | |- ends (timeout _ _) => apply ends_timeout
  | |- ends (select2 _ _) => apply ends_race
  | |- ends (ret _) => done
  | |- ends (fail _) => done
  | |- ends (panic _) => done
  | |- ends (if ?b then _ else _) => destruct b
  | |- ends (match ?x with _ => _ end) => destruct x
  | |- ends (let _ := _ in _) => cbv zeta
  end.
Ltac ending := repeat ends_step; auto with ends.
Create HintDb ends.

Lemma record_and_wait_ends p n c : ends (record_and_wait p n c).
Proof. unfold record_and_wait, adjust, reset_epoch, wait, instant_add. ending. Qed.
Lemma instant_add_ends t d : ends (instant_add t d).
Proof. unfold instant_add. ending. Qed.
Lemma from_optional_ends t n a : ends (from_optional t n a).
Proof. unfold from_optional, pacer_new. ending. Qed.
Lemma elapsed_since_ends t : ends (elapsed_since t).
Proof. unfold elapsed_since. ending. Qed.
Lemma finish_stream_ends s l : ends (finish_stream_with_ack s l).
Proof. unfold finish_stream_with_ack. ending. Qed.
Lemma write_stream_packet_ends s hd p l : ends (write_stream_packet s hd p l).
Proof. unfold write_stream_packet. ending. Qed.
Lemma send_bench_summary_ends c d e m b p n t : ends (send_bench_summary c d e m b p n t).
Proof. unfold send_bench_summary, connection_stats_summary. ending. Qed.
#[export] Hint Resolve record_and_wait_ends instant_add_ends from_optional_ends elapsed_since_ends
  finish_stream_ends write_stream_packet_ends send_bench_summary_ends : ends.
Lemma await_summary_ends m c : ends (await_summary m c).
Proof. unfold await_summary, read_bench_summary_stream. ending. Qed.
Lemma print_local_bench_ends l e b p n t : ends (print_local_bench l e b p n t).
Proof. unfold print_local_bench. ending. Qed.
Lemma print_stats_ends c t : ends (print_stats c t).
Proof. unfold print_stats, connection_stats_summary. ending. Qed.
#[export] Hint Resolve await_summary_ends print_local_bench_ends print_stats_ends : ends.
Lemma upload_measurement_ends m l c e b p n t : ends (upload_measurement m l c e b p n t).
Proof. unfold upload_measurement. ending. Qed.
#[export] Hint Resolve upload_measurement_ends : ends.

(** ** Counting events *)

Section Counting.
Context (P : event -> bool).

Definition count (t : history) : nat := length (List.filter P t).

Lemma count_app t1 t2 : count (t1 ++ t2) = (count t1 + count t2)%nat.
Proof. unfold count. by rewrite List.filter_app, length_app. Qed.

(** After [h], [n] such events are all there are. *)
Definition bounded (E : env) (h : history) (n : nat) : Prop := forall t X (o : Op X),
  (n <= count t)%nat -> P (Ev o (E X (h ++ t) o)) = false.

Lemma bounded_run E h n {A} (p : prog A) : bounded E h n ->
  forall t0, (count t0 <= n)%nat ->
  wp E (h ++ t0) p (fun _ h' => exists t, h' = h ++ t /\ (count t <= n)%nat).
Proof.
  intros Hb. induction p as [a|X o k IH]; intros t0 H0; [by exists t0|].
  apply wp_vis. rewrite <- app_assoc. apply IH. rewrite count_app.
  destruct (decide (n <= count t0)%nat) as [Hn|Hn].
  - pose proof (Hb t0 X o Hn) as Ho. unfold count at 2. cbn [List.filter].
    rewrite Ho. cbn. lia.
  - unfold count at 2. cbn [List.filter]. destruct (P _); cbn; lia.
Qed.

(** A run that does not end has [n] of these events. *)
Definition spends (E : env) {A} (n : nat) (m : M A) : Prop := forall h,
  wp E h m (fun r h' => exists t, h' = h ++ t /\ (r = Running -> (n <= count t)%nat)).

Lemma spends_ends E {A} n (m : M A) : ends m -> spends E n m.
Proof.
  intros Hm h. destruct (run_extends E m h) as [t Et]. exists t. split; [exact Et|].
  intros Hr. by apply ends_run in Hr.
Qed.

Lemma spends_bind E {A B} n (m : M A) (f : A -> M B) :
  spends E n m -> (forall a, spends E n (f a)) -> spends E n (bind m f).
Proof.
  intros Hm Hf h. apply wp_bind. eapply wp_mono; [apply Hm|].
  intros r h' (t & -> & Hr). destruct r as [a|e|w|];
    [|exists t; split; [done|]; intros [=]; by apply Hr..].
  eapply wp_mono; [apply Hf|]. intros r h'' (t' & -> & Hr'). exists (t ++ t').
  rewrite <- app_assoc, count_app. split; [done|]. intros Hrun. specialize (Hr' Hrun). lia.
Qed.

Lemma spends_loop E {S A} fuel (body : S -> M (S + A)) :
  (forall st h, wp E h (body st) (fun r h' => exists t, h' = h ++ t /\
    match r with Val (inl _) => (1 <= count t)%nat | Running => (fuel <= count t)%nat | _ => True end)) ->
  forall st, spends E fuel (loop fuel body st).
Proof.
  intros Hb. cut (forall k, (k <= fuel)%nat -> forall st, spends E k (loop k body st)); [eauto|].
  induction k as [|k IH]; intros Hk st h; [exists []; rewrite app_nil_r; split; [done|cbn; lia]|].
  cbn [loop]. apply wp_bind. eapply wp_mono; [apply Hb|].
  intros r h' (t & -> & Hr). destruct r as [[st'|a]|e|w|];
    [|exists t; split; [done|]; intros [=]..].
  - eapply wp_mono; [apply IH; lia|]. intros r h'' (t' & -> & Hr'). exists (t ++ t').
    rewrite <- app_assoc, count_app. split; [done|]. intros Hrun. specialize (Hr' Hrun). lia.
  - lia.
Qed.

(** More fuel than there are such events is enough. *)
Lemma spends_bounded E {A} n N (m : M A) h : spends E n m -> bounded E h N -> (N < n)%nat ->
  (run E h m).1 <> Running.
Proof.
  intros Hm Hb Hn Hr. destruct (Hm h) as (t & Et & Ht).
  pose proof (bounded_run E h N m Hb [] ltac:(cbn; lia)) as (t' & Et' & Ht').
  rewrite app_nil_r in Et'. rewrite Et in Et'. apply app_inv_head in Et' as <-.
  specialize (Ht Hr). lia.
Qed.
End Counting.

(** ** Timers *)

(** A timer's decision to wait on, and a reading of the clock before [T]. *)
Definition waits_on (e : event) : bool :=
  match e with
  | Ev o x => match o in Op X return X -> bool with Expired _ => negb | _ => fun _ => false end x
  end.
Definition reads_clock (e : event) : bool :=
  match e with Ev o _ => match o with Now => true | _ => false end end.
Definition before (T : Z) (e : event) : bool :=
  match e with
  | Ev o x => match o in Op X return X -> bool with Now => fun now => now <? T | _ => fun _ => false end x
  end.

Lemma timed_waits t1 t : timed t1 t -> (length t1 <= count waits_on t)%nat.
Proof.
  induction 1 as [|l b|l e t1 t _ IH]; cbn [length]; [lia..|].
  change (Ev (Expired l) false :: e :: t) with ([Ev (Expired l) false; e] ++ t).
  rewrite count_app. enough (1 <= count waits_on [Ev (Expired l) false; e])%nat by lia.
  unfold count. cbn. lia.
Qed.

(** Reading makes a call if there is something to read, and runs on only after
    many. *)
Lemma read_exact_reads E s l fuel : forall offset buf h,
  wp E h (loop fuel (read_exact_body s l) (offset, buf)) (fun r h' => exists t, h' = h ++ t /\
    match r with
    | Val _ => offset < zlen buf -> (1 <= length t)%nat
    | Running => (fuel <= length t)%nat
    | _ => True
    end).
Proof.
  induction fuel as [|fuel IH]; intros offset buf h.
  { exists []. rewrite app_nil_r. split; [done|cbn; lia]. }
  cbn [loop]. apply wp_bind. unfold read_exact_body at 1.
  destruct (Z.ltb_spec offset (zlen buf)) as [Hlt|Hge].
  2:{ apply wp_ret, wp_ret. exists []. rewrite app_nil_r. split; [done|lia]. }
  apply wp_bind, wp_vis.
  assert (forall st x, wp E (h ++ [Ev (Read s (zlen buf - offset)) x]) (loop fuel (read_exact_body s l) st)
    (fun r h' => exists t, h' = h ++ t /\ match r with
     | Val _ => offset < zlen buf -> (1 <= length t)%nat
     | Running => (S fuel <= length t)%nat | _ => True end)) as Hgo.
  { intros [o b] x. eapply wp_mono; [apply IH|]. intros r h' (t & -> & Hr). rewrite <- app_assoc.
    eexists. split; [reflexivity|]. rewrite length_app. cbn [length]. destruct r; [lia|done..|lia]. }
  destruct (E _ h (Read s (zlen buf - offset))) as [[d|]|e]; apply wp_ret; cbv beta iota.
  - destruct (_ =? 0); apply wp_ret; apply Hgo.
  - destruct (_ =? 0); apply wp_ret; (eexists; split; [reflexivity|]); cbn; [lia|done].
  - by eexists.
Qed.

Lemma read_stream_packet_reads E fuel s buf l h :
  wp E h (read_stream_packet fuel s buf l) (fun r h' => exists t, h' = h ++ t /\
    match r with Val _ => (1 <= length t)%nat | Running => (fuel <= length t)%nat | _ => True end).
Proof.
  unfold read_stream_packet. apply wp_bind. eapply wp_mono; [apply read_exact_reads|].
  intros r h1 (t & -> & Hr). destruct r as [[[] hd]|e|w|]; try by exists t.
  2:{ exists t. split; [done|]. by apply Hr. }
  assert (1 <= length t)%nat as Ht by by apply Hr.
  cbn [negb]. cbv zeta. destruct (_ =? 0); [by exists t|]. destruct (_ <? _); [by exists t|].
  apply wp_bind. eapply wp_mono; [apply read_exact_reads|]. intros r h2 (t2 & -> & Hr2).
  destruct r as [[[] p]|e|w|]; try apply wp_ret; rewrite <- app_assoc; exists (t ++ t2);
    rewrite ?length_app; (split; [done|]); first [done|lia].
Qed.

(** Under a time limit these are decisions to wait on. *)
Lemma timeout_packet_waits E s buf l fuel limit h :
  wp E h (timeout limit (read_stream_packet fuel s buf l)) (fun r h' => exists t, h' = h ++ t /\
    match r with
    | Val (Some (Ok _)) => (1 <= count waits_on t)%nat
    | Running => (fuel <= count waits_on t)%nat
    | _ => True
    end).
Proof.
  destruct (timeout_follows E (severed None) limit (read_stream_packet fuel s buf l) h)
    as (hs & t & t1 & t2 & Et & Ht & E1 & _ & Hr).
  exists t. split; [exact Et|]. apply timed_waits in Ht.
  destruct (read_stream_packet_reads (patched E (severed None) hs) fuel s buf l [])
    as (t' & E' & Hl). rewrite E1 in E'. cbn [app] in E'. subst t'.
  destruct (run E h _).1 as [[[a|e]|]|e|w|]; try done; destruct Hr as [-> Hr];
    rewrite Hr, app_nil_r in Hl; lia.
Qed.

(** A read under a time limit. *)
Lemma timeout_call_waits E {X} (o : Op (ext X)) limit h :
  wp E h (timeout limit (call o)) (fun r h' => exists t, h' = h ++ t /\
    match r with Val (Some _) => (1 <= count waits_on t)%nat | Running => False | _ => True end).
Proof.
  unfold wp. cbn -[app]. destruct (E bool h (Expired limit)) eqn:Hx; cbn -[app]; [by eexists|].
  destruct (E _ _ o); cbn -[app]; rewrite <- app_assoc; (eexists; split; [reflexivity|]);
    change (Ev (Expired limit) false :: ?t) with ([Ev (Expired limit) false] ++ t); cbn [app];
    unfold count; cbn; lia.
Qed.

(** ** The loops *)

Lemma server_receiver_spends E s fuel deadline framed st :
  spends waits_on E fuel (loop fuel (Server.stream_upload_body fuel s deadline framed) st).
Proof.
  apply spends_loop. intros [[p b] buf] h. unfold Server.stream_upload_body.
  destruct framed; apply wp_bind.
  - eapply wp_mono; [apply timeout_packet_waits|].
    intros r h' (t & -> & Hr). destruct r as [[[[[n|] buf']|e]|]|e|w|]; try by exists t.
    destruct (n =? 0); by exists t.
  - eapply wp_mono; [apply timeout_call_waits|].
    intros r h' (t & -> & Hr). by destruct r as [[[[d|]|e]|]|e|w|]; exists t.
Qed.

Lemma client_receiver_spends E s fuel deadline framed st :
  spends waits_on E fuel (loop fuel (ClientBench.stream_download_body fuel s deadline framed) st).
Proof.
  apply spends_loop. intros [[p b] buf] h. unfold ClientBench.stream_download_body.
  destruct framed; apply wp_bind.
  - eapply wp_mono; [apply timeout_packet_waits|].
    intros r h' (t & -> & Hr). destruct r as [[[[[n|] buf']|e]|]|e|w|]; try by exists t.
    destruct (n =? 0); by exists t.
  - eapply wp_mono; [apply timeout_call_waits|].
    intros r h' (t & -> & Hr). by destruct r as [[[[d|]|e]|]|e|w|]; exists t.
Qed.

(** A sender that goes on has read the clock before the deadline. *)
Definition heeds_deadline {S A} (deadline : Z) (body : S -> M (S + A)) : Prop := forall st,
  ends (body st) /\ exists k, body st = Vis Now k /\
    forall now, deadline <= now -> exists a, k now = ret (inr a).

Lemma sender_spends E {S A} fuel deadline (body : S -> M (S + A)) : heeds_deadline deadline body ->
  forall st, spends (before deadline) E fuel (loop fuel body st).
Proof.
  intros Hb. apply spends_loop. intros st h. destruct (Hb st) as (Hends & k & Eb & Hk). rewrite Eb in *.
  pose proof (ends_run E (Vis Now k) h Hends) as Hr.
  destruct (run_extends E (k (E Z h Now)) (h ++ [Ev Now (E Z h Now)])) as [t Et].
  unfold wp. cbn [run] in *. rewrite Et, <- app_assoc. eexists. split; [reflexivity|].
  destruct (Z.le_gt_cases deadline (E Z h Now)) as [Hle|Hlt].
  { destruct (Hk _ Hle) as [a Ha]. by rewrite Ha. }
  destruct (run E _ (k _)).1 as [[]|e|w|]; try done.
  rewrite count_app. enough (count (before deadline) [Ev Now (E Z h Now)] = 1%nat) by lia.
  unfold count. cbn. by rewrite (proj2 (Z.ltb_lt _ _)).
Qed.

Ltac heeding :=
  intros [[[p b] pc] hd]; split; [ending|];
  eexists; split; [reflexivity|]; intros now Hnow; cbn; rewrite (proj2 (Z.leb_le _ _) Hnow); by eexists.

Lemma server_sender_heeds s c payload deadline framed :
  heeds_deadline deadline (Server.stream_download_body s c payload deadline framed).
Proof. unfold Server.stream_download_body. heeding. Qed.

Lemma client_sender_heeds s c payload deadline framed :
  heeds_deadline deadline (ClientBench.stream_upload_body s c payload deadline framed).
Proof. unfold ClientBench.stream_upload_body. heeding. Qed.

(** ** The time that passes *)

Section Time.
Context (E : env) (h : history) (N : nat).

(** After [N] decisions to wait, every timer has fired; [N] readings of the
    clock later, at least [d] has passed. *)
Definition timers_fire : Prop := forall t limit,
  (N <= count waits_on t)%nat -> E bool (h ++ t) (Expired limit) = true.
Definition clock_passes (d : Z) : Prop := forall t1 t2, (N <= count reads_clock t2)%nat ->
  E Z (h ++ t1) Now + d <= E Z ((h ++ t1) ++ t2) Now.

Lemma timers_bounded : timers_fire -> bounded waits_on E h N.
Proof. intros Ht t X o Hc. destruct o; try done. cbn. by rewrite (Ht t limit Hc). Qed.

Lemma before_reads T t : (count (before T) t <= count reads_clock t)%nat.
Proof.
  induction t as [|[X o x] t IH]; [done|].
  change (Ev o x :: t) with ([Ev o x] ++ t). rewrite !count_app.
  enough (count (before T) [Ev o x] <= count reads_clock [Ev o x])%nat by lia.
  unfold count. destruct o; cbn; try lia. destruct (_ <? _); cbn; lia.
Qed.

(** The deadline of a sender is [d] after a reading. *)
Lemma clock_bounded d t1 w : clock_passes d ->
  bounded (before (E Z (h ++ t1) Now + d)) E ((h ++ t1) ++ w) N.
Proof.
  intros Hc t X o Ht. destruct o; try done. cbn. apply Z.ltb_ge. rewrite <- app_assoc.
  apply Hc. rewrite count_app. pose proof (before_reads (E Z (h ++ t1) Now + d) t). lia.
Qed.

(** A program that opens a stream, reads the clock and sends until [d] later. *)
Lemma sender_ends {A} (o : Op (ext sid)) msg d fuel (rest : sid -> Z -> Z -> M A) :
  clock_passes d -> (N < fuel)%nat ->
  (forall s started deadline, spends (before deadline) E fuel (rest s started deadline)) ->
  (run E h (s <- call_context msg o; started <- perform Now;
            deadline <- instant_add started d; rest s started deadline)).1 <> Running.
Proof.
  intros Hc Hf Hrest.
  enough (wp E h (s <- call_context msg o; started <- perform Now;
            deadline <- instant_add started d; rest s started deadline) (fun r _ => r <> Running)) as H
    by exact H.
  apply wp_bind, wp_vis. destruct (E _ h o) as [s|e]; apply wp_ret; [|done].
  set (t1 := [Ev o (Ok s)]). apply wp_bind, wp_vis, wp_ret.
  apply wp_bind. unfold instant_add. destruct (_ <=? _); apply wp_ret; [|done].
  by eapply (spends_bounded _ E fuel N); [|apply clock_bounded|].
Qed.
End Time.

(** Receivers, with what surrounds their loops. *)
Lemma receiver_ends E h N {A} fuel (m : M A) :
  timers_fire E h N -> (N < fuel)%nat -> spends waits_on E fuel m -> (run E h m).1 <> Running.
Proof. intros Ht Hf Hm. by eapply spends_bounded; [|apply timers_bounded|]. Qed.

(** Walk through a program to its loop. *)
Ltac spending :=
  repeat lazymatch goal with
  | |- spends _ _ _ (let _ := _ in _) => cbv zeta
  | |- spends _ _ _ (bind (loop _ _ _) _) => apply spends_bind; [|intros ?]
  | |- spends _ _ _ (bind _ _) => apply spends_bind; [apply spends_ends; solve [ending]|intros ?]
  | |- spends _ _ _ (loop _ _ _) => fail
  | |- spends _ _ _ (match ?x with _ => _ end) => destruct x
  | |- _ => apply spends_ends; solve [ending]
  end.

Lemma server_stream_bench_ends E h N fuel c duration n tgt adaptive framed :
  timers_fire E h N -> clock_passes E h N (secs duration) -> (N < fuel)%nat ->
  (run E h (Server.run_stream_upload_bench fuel c duration n tgt framed)).1 <> Running /\
  (run E h (Server.run_stream_download_bench fuel c duration n tgt adaptive framed)).1 <> Running.
Proof.
  intros Ht Hc Hf. split.
  - eapply receiver_ends; [exact Ht|exact Hf|]. unfold Server.run_stream_upload_bench.
    spending. apply server_receiver_spends.
  - unfold Server.run_stream_download_bench. eapply (sender_ends E h N); [exact Hc|exact Hf|]. intros s started deadline.
    spending. apply sender_spends, server_sender_heeds.
Qed.

Lemma client_stream_bench_ends E h N fuel c duration n tgt adaptive framed :
  timers_fire E h N -> clock_passes E h N (secs duration) -> (N < fuel)%nat ->
  (run E h (ClientBench.run_stream_upload_bench fuel c duration n tgt adaptive framed)).1 <> Running /\
  (run E h (ClientBench.run_stream_download_bench fuel c duration n tgt framed)).1 <> Running.
Proof.
  intros Ht Hc Hf. split.
  - unfold ClientBench.run_stream_upload_bench. eapply (sender_ends E h N); [exact Hc|exact Hf|].
    intros s started deadline. spending. apply sender_spends, client_sender_heeds.
  - eapply receiver_ends; [exact Ht|exact Hf|]. unfold ClientBench.run_stream_download_bench.
    spending. apply client_receiver_spends.
Qed.

(** ** Where they can hang *)

(** The streams a benchmark needs, the server's summary, and the two branches
    of the select around a framed write. *)
Definition server_waits (direction : BenchDirection) (call : pending_call) : bool :=
  match call with
  | Call (AcceptUni _) => bool_decide (direction = StreamUpload \/ direction = StreamPacketUpload)
  | Call (OpenUni _) => bool_decide (direction = StreamDownload \/ direction = StreamPacketDownload)
  | Call (WriteAllChunks _ _) | Call (Closed _) => bool_decide (direction = StreamPacketDownload)
  | Call (OpenBi _) | Call (WriteAll _ _) => true
  | _ => false
  end.
Definition client_waits (direction : BenchDirection) (call : pending_call) : bool :=
  match call with
  | Call (OpenUni _) => bool_decide (direction = StreamUpload \/ direction = StreamPacketUpload)
  | Call (AcceptUni _) => bool_decide (direction = StreamDownload \/ direction = StreamPacketDownload)
  | Call (WriteAllChunks _ _) | Call (Closed _) => bool_decide (direction = StreamPacketUpload)
  | _ => false
  end.

Section Hangs.
Context (Q : pending_call -> bool).

Lemma record_and_wait_safe p n c : safe Q false (record_and_wait p n c).
Proof. unfold record_and_wait, adjust, reset_epoch, wait, instant_add. safely. Qed.
Lemma instant_add_safe t d : safe Q false (instant_add t d).
Proof. unfold instant_add. safely. Qed.
Lemma from_optional_safe t n a : safe Q false (from_optional t n a).
Proof. unfold from_optional, pacer_new. safely. Qed.
Lemma elapsed_since_safe t : safe Q false (elapsed_since t).
Proof. unfold elapsed_since. safely. Qed.
Lemma finish_stream_safe s l : safe Q false (finish_stream_with_ack s l).
Proof. unfold finish_stream_with_ack. safely. Qed.
Lemma await_summary_safe m c : safe Q false (await_summary m c).
Proof. unfold await_summary. safely. Qed.
Lemma print_local_bench_safe l e b p n t : safe Q false (print_local_bench l e b p n t).
Proof. unfold print_local_bench. safely. Qed.
Lemma print_stats_safe c t : safe Q false (print_stats c t).
Proof. unfold print_stats, connection_stats_summary. safely. Qed.
End Hangs.
#[export] Hint Resolve record_and_wait_safe instant_add_safe from_optional_safe elapsed_since_safe
  finish_stream_safe await_summary_safe print_local_bench_safe print_stats_safe : safe.

(** The pause after the summary ends by itself, whether or not the connection
    is closed. *)
Lemma send_bench_summary_safe direction c d e m b p n t :
  safe (server_waits direction) false (send_bench_summary c d e m b p n t).
Proof.
  unfold send_bench_summary, connection_stats_summary. safely.
  split; [done|]. by intros []; (split; [done|]); intros x.
Qed.
#[export] Hint Resolve send_bench_summary_safe : safe.
Lemma upload_measurement_safe Q m l c e b p n t : safe Q false (upload_measurement m l c e b p n t).
Proof. unfold upload_measurement. safely. Qed.
#[export] Hint Resolve upload_measurement_safe : safe.

(** A framed write, given up when the connection is closed. *)
Lemma write_select_safe Q {A} s hd p l c (f : str -> M A) (g : bytes -> M A) :
  Q (Call (Closed c)) = true -> (forall chunks, Q (Call (WriteAllChunks s chunks)) = true) ->
  (forall reason, exists a, f reason = Ret a) -> (forall hd, exists a, g hd = Ret a) ->
  safe Q false (select2 (h <- write_stream_packet s hd p l; g h)
                  (reason <- perform (Closed c); f reason)).
Proof.
  intros Hc Hw Hf Hg. apply safe_select2.
  - unfold write_stream_packet. ops. destruct (Hg a) as [r ->]. exact I.
  - ops. destruct (Hf a) as [r ->]. exact I.
  - unfold write_stream_packet. safely; [|by destruct (Hg a) as [r ->]].
    apply safe_call. cbn. apply Hw.
  - apply safe_bind; [|intros reason; by destruct (Hf reason) as [r ->]].
    apply safe_perform. cbn. by rewrite Hc.
Qed.

Lemma server_bench_safe fuel c direction duration n tgt backlog adaptive :
  uses_datagrams direction = false ->
  safe (server_waits direction) false (Server.run_bench fuel c direction duration n tgt backlog adaptive).
Proof.
  destruct direction; try done; intros _; cbn [Server.run_bench];
    unfold Server.run_stream_upload_bench, Server.stream_upload_body,
      Server.run_stream_download_bench, Server.stream_download_body; safely.
  apply write_select_safe; try done; by eexists.
Qed.

Lemma client_bench_safe fuel c direction duration n tgt backlog adaptive :
  uses_datagrams direction = false ->
  safe (client_waits direction) false
    (ClientBench.run_bench fuel c direction duration n tgt backlog adaptive).
Proof.
  unfold ClientBench.run_bench. destruct (duration =? 0); [intros; safely|].
  destruct direction; try done; intros _;
    unfold ClientBench.run_stream_upload_bench, ClientBench.stream_upload_body,
      ClientBench.run_stream_download_bench, ClientBench.stream_download_body; safely.
  apply write_select_safe; try done; by eexists.
Qed.

(** Timers that fire earlier fire, and leave the clock alone. *)
Lemma hastens_timers E E' h N : hastens E E' -> timers_fire E h N -> timers_fire E' h N.
Proof. intros H Ht t limit Hc. exact (H _ (h ++ t) (Expired limit) (Ht t limit Hc)). Qed.
Lemma hastens_clock E E' h N d : hastens E E' -> clock_passes E h N d -> clock_passes E' h N d.
Proof.
  intros H Hc t1 t2 Hn. pose proof (H _ (h ++ t1) Now) as H1. pose proof (H _ ((h ++ t1) ++ t2) Now) as H2.
  cbn in H1, H2. rewrite <- H1, <- H2. by apply Hc.
Qed.

(** Every call answered, they end. *)
Lemma answered_benches_end E h N fuel c direction duration n tgt backlog adaptive :
  uses_datagrams direction = false -> timers_fire E h N -> clock_passes E h N (secs duration) ->
  (N < fuel)%nat ->
  (run E h (Server.run_bench fuel c direction duration n tgt backlog adaptive)).1 <> Running /\
  (run E h (ClientBench.run_bench fuel c direction duration n tgt backlog adaptive)).1 <> Running.
Proof.
  intros Hd Ht Hc Hf. unfold Server.run_bench, ClientBench.run_bench.
  destruct direction; try done; destruct (duration =? 0);
    (split; [by apply (server_stream_bench_ends E h N)|]); try done;
    by apply (client_stream_bench_ends E h N).
Qed.

(** *** A framed write that never completes *)

Lemma first_frame s payload l n : zlen payload = n -> n <= U16_MAX ->
  exists k, write_stream_packet s [0; 0] payload l = Vis (WriteAllChunks s [to_be_bytes n; payload]) k.
Proof.
  intros Hlen Hn. unfold write_stream_packet. rewrite Hlen, (proj2 (Z.ltb_ge _ _)) by done. by eexists.
Qed.

(** A sender up to the select of its first turn. *)
Lemma framed_sender_hangs (E : env) (S : forall X, history -> Op X -> bool) h c s duration
    {A} m fuel chunks tgt n adaptive
    (body : sid -> Z -> Z * Z * EgressPacer * bytes -> M (Z * Z * EgressPacer * bytes + Z * Z))
    (rest : sid -> Z -> Z -> Z * Z -> M A) :
  (forall h, E _ h (OpenUni c) = Ok s) -> (forall h, S _ h (OpenUni c) = false) ->
  (forall h chunks, S _ h (WriteAllChunks s chunks) = true) -> (forall h, S _ h (Closed c) = true) ->
  (forall t1 t2, (count reads_clock t2 <= 2)%nat ->
     E Z ((h ++ t1) ++ t2) Now < E Z (h ++ t1) Now + secs duration) ->
  (E Z (h ++ [Ev (OpenUni c) (Ok s)]) Now + secs duration) / NANOS_PER_SEC <= I64_MAX ->
  (forall deadline pacer, exists k, body s deadline (0, 0, pacer, [0; 0]) = Vis Now k /\
     forall now, now < deadline -> exists B (w : ext unit -> M B) (v : str -> M B) (r : B -> M _),
       k now = bind (select2 (Vis (WriteAllChunks s chunks) w) (Vis (Closed c) v)) r) ->
  (wait_run E S h (
     stream <- call_context m (OpenUni c); started <- perform Now;
     deadline <- instant_add started (secs duration);
     pacer <- from_optional tgt n adaptive;
     counters <- loop (Datatypes.S fuel) (body stream deadline) (0, 0, pacer, [0; 0]);
     rest stream started deadline counters)).1
  = Hung [Call (WriteAllChunks s chunks); Call (Closed c)].
Proof.
  intros Ho So Sw Sc Hclock Hmax Hbody.
  rewrite (wait_run_call_context E S h m (OpenUni c) s) by (done || cbn; auto).
  set (t1 := [Ev (OpenUni c) (Ok s)]). rewrite wait_run_perform by done.
  set (started := E Z (h ++ t1) Now). set (t2 := [Ev Now started]).
  unfold instant_add. rewrite (proj2 (Z.leb_le _ _)) by exact Hmax.
  set (t3 := [Ev Now (E Z ((h ++ t1) ++ t2) Now)]).
  pose proof (Hclock t1 (t2 ++ t3) ltac:(done)) as Hlt.
  destruct (Hbody (started + secs duration)
    (pacer_at (E Z ((h ++ t1) ++ t2) Now) (default 0 tgt) n adaptive)) as (k & Eb & Hk).
  destruct (Hk _ Hlt) as (B & w & v & r & Ek).
  set (go (r : Z * Z * EgressPacer * bytes + Z * Z) := match r with
    | inl st => loop fuel (body s (started + secs duration)) st
    | inr counters => ret counters
    end).
  set (last := rest s started (started + secs duration)).
  transitivity (wait_run E S ((h ++ t1) ++ t2) (now <- perform Now;
    counters <- (r <- body s (started + secs duration)
                        (0, 0, pacer_at now (default 0 tgt) n adaptive, [0; 0]); go r);
    last counters)).1; [reflexivity|].
  rewrite wait_run_perform by done. rewrite Eb.
  transitivity (wait_run E S (((h ++ t1) ++ t2) ++ t3) (now <- perform Now;
    counters <- (r <- k now; go r); last counters)).1; [reflexivity|].
  rewrite wait_run_perform by done. rewrite <- (app_assoc (h ++ t1) t2 t3), Ek.
  etransitivity; [apply (f_equal fst);
    eapply (wait_run_select E S _ _ (WriteAllChunks s chunks) (Closed c));
    [reflexivity|reflexivity|done|done|by cbn; rewrite Sw|by cbn; rewrite Sc]|done].
Qed.

(** ** Properties *)

(** C15: The stream benchmarks end, whatever the streams deliver and whichever
    calls never answer, but for known points. Let [S] say of every await on the
    peer whether it completes, let timers have fired after [N] decisions to
    wait, and let the clock have gone past the benchmark's duration after [N]
    readings. Then [run_bench] of a stream benchmark, at either end, comes to a
    result within [N + 1] rounds of its loops and of the reading of packets in
    them; or it hangs opening or accepting the benchmark's stream; or the
    server does so sending its summary; or, for framed packets only, the
    sender does so in a write, which no deadline ends, while the connection
    is not closed. In particular no unframed write, no read, neither framed
    nor not, no wait for an acknowledgement and no wait of the client for the
    summary outlasts its time limit. *)
Theorem stream_benches_end E S h N fuel c direction duration n tgt backlog adaptive :
  uses_datagrams direction = false -> timers_fire E h N -> clock_passes E h N (secs duration) ->
  (N < fuel)%nat ->
  ends_or_hangs (server_waits direction)
    (wait_run E S h (Server.run_bench fuel c direction duration n tgt backlog adaptive)).1 /\
  ends_or_hangs (client_waits direction)
    (wait_run E S h (ClientBench.run_bench fuel c direction duration n tgt backlog adaptive)).1.
Proof.
  intros Hd Ht Hc Hf.
  assert (forall E', hastens E E' ->
    (run E' h (Server.run_bench fuel c direction duration n tgt backlog adaptive)).1 <> Running /\
    (run E' h (ClientBench.run_bench fuel c direction duration n tgt backlog adaptive)).1 <> Running) as H.
  { intros E' HE. apply (answered_benches_end E' h N); [done| | |done];
      [by eapply hastens_timers|by eapply hastens_clock]. }
  split; apply safe_ends_or_hangs.
  - by apply server_bench_safe.
  - intros E' HE. by apply H.
  - by apply client_bench_safe.
  - intros E' HE. by apply H.
Qed.

(** Timers fire after 20 decisions, the clock advances by a second at a time,
    the stream delivers one byte after another for ever, and takes one. *)
Definition endless_stream : env := fun X h o =>
  match o in Op X return X -> X with
  | Expired _ => fun _ => (20 <=? Z.of_nat (count waits_on h))
  | Now => fun _ => secs (Z.of_nat (count reads_clock h))
  | AcceptUni _ => fun _ => Ok 5
  | OpenUni _ => fun _ => Ok 3
  | OpenBi _ => fun _ => Ok (6, 7)
  | Write _ d => fun _ => Ok 1
  | WriteAll _ _ => fun _ => Ok tt
  | WriteAllChunks _ _ => fun _ => Ok tt
  | Finish _ => fun _ => Ok tt
  | Read _ _ => fun _ => Ok (Some [0])
  | _ => fun x => x
  end (quiet X h o).

(** After three events nothing more is read or written on streams of the
    benchmark, nor acknowledged, and the connection stays open. *)
Definition goes_silent : forall X, history -> Op X -> bool := fun X h o =>
  match o with
  | Write _ _ | WriteAllChunks _ _ | Read _ _ | Stopped _ | Closed _ => 3 <=? zlen h
  | _ => false
  end.

Lemma endless_timers : timers_fire endless_stream [] 20.
Proof.
  intros t limit Ht. change ((20 <=? Z.of_nat (count waits_on t)) = true). apply Z.leb_le. lia.
Qed.
Lemma endless_clock : clock_passes endless_stream [] 20 (secs 10).
Proof.
  intros t1 t2 Ht.
  change (secs (Z.of_nat (count reads_clock t1)) + secs 10 <=
          secs (Z.of_nat (count reads_clock (t1 ++ t2)))).
  rewrite count_app. unfold secs, NANOS_PER_SEC. lia.
Qed.

(** The server's writes are held up: it ends all the same, with its summary
    sent; the client gets no more and gives up. *)
Lemma stream_benches_end_witness :
  let s := (wait_run endless_stream goes_silent []
              (Server.run_bench 30 1 StreamDownload 10 5 None 64 false)).1 in
  let c := (wait_run endless_stream goes_silent []
              (ClientBench.run_bench 30 1 StreamDownload 10 5 None 64 false)).1 in
  s = Ended (Val tt) /\ c = Ended (Fail (Msg (lit "timed out waiting for stream download"))) /\
  ends_or_hangs (server_waits StreamDownload) s /\ ends_or_hangs (client_waits StreamDownload) c.
Proof.
  intros s c. split; [vm_compute; reflexivity|]. split; [vm_compute; reflexivity|].
  apply (stream_benches_end endless_stream goes_silent [] 20 30 1 StreamDownload 10 5 None 64 false);
    [done|exact endless_timers|exact endless_clock|lia].
Defined.

(** A connection that stays open and takes no bytes of a framed packet. *)
Definition held_up : forall X, history -> Op X -> bool := fun X _ o =>
  match o with WriteAllChunks _ _ | Closed _ => true | _ => false end.

(** C33: The deadline does not end a framed write. In any environment, with any
    timers: when the benchmark's stream is opened, the clock has not reached
    the deadline at the start, and flow control holds up every framed write
    while the connection stays open, then the server of a framed download and
    the client of a framed upload hang for ever in their first write and the
    wait for the end of the connection, whatever the duration asked for. *)
Theorem framed_writes_outlast_deadline (E : env) (S : forall X, history -> Op X -> bool) h fuel c s duration n tgt backlog adaptive :
  (forall h, E _ h (OpenUni c) = Ok s) -> (forall h, S _ h (OpenUni c) = false) ->
  (forall h chunks, S _ h (WriteAllChunks s chunks) = true) -> (forall h, S _ h (Closed c) = true) ->
  (forall t1 t2, (count reads_clock t2 <= 2)%nat ->
     E Z ((h ++ t1) ++ t2) Now < E Z (h ++ t1) Now + secs duration) ->
  (E Z (h ++ [Ev (OpenUni c) (Ok s)]) Now + secs duration) / NANOS_PER_SEC <= I64_MAX ->
  0 <= n <= U16_MAX -> duration <> 0 ->
  let calls := [Call (WriteAllChunks s [to_be_bytes n; repeat 0 (Z.to_nat n)]); Call (Closed c)] in
  (wait_run E S h (Server.run_bench (Datatypes.S fuel) c StreamPacketDownload duration n tgt backlog
     adaptive)).1 = Hung calls /\
  (wait_run E S h (ClientBench.run_bench (Datatypes.S fuel) c StreamPacketUpload duration n tgt backlog
     adaptive)).1 = Hung calls.
Proof.
  intros Ho So Sw Sc Hclock Hmax Hn Hd calls.
  assert (zlen (repeat 0 (Z.to_nat n)) = n) as Hlen by (rewrite repeat_length; lia).
  unfold ClientBench.run_bench. rewrite (proj2 (Z.eqb_neq _ _)) by done.
  split;
    [apply (framed_sender_hangs E S h c s duration _ fuel _ tgt n adaptive (fun st d =>
       Server.stream_download_body st c (repeat 0 (Z.to_nat n)) d true))
    |apply (framed_sender_hangs E S h c s duration _ fuel _ tgt n adaptive (fun st d =>
       ClientBench.stream_upload_body st c (repeat 0 (Z.to_nat n)) d true))];
    try done; intros deadline pacer;
    (eexists; split; [reflexivity|]); intros now Hnow;
    cbn -[select2 write_stream_packet Z.leb bind perform record_and_wait lit];
    rewrite (proj2 (Z.leb_gt _ _)) by done;
    destruct (first_frame s (repeat 0 (Z.to_nat n)) (lit "stream bench") n Hlen (proj2 Hn)) as [w ->];
    eexists _, _, _, _; reflexivity.
Qed.

(** The streams of the example above, framed: the writes wait for ever, past a
    deadline of 10 s, though every timer fires and the clock goes on. *)
Lemma framed_writes_outlast_deadline_witness :
  let calls := [Call (WriteAllChunks 3 [to_be_bytes 5; repeat 0 (Z.to_nat 5)]); Call (Closed 1)] in
  timers_fire endless_stream [] 20 /\ clock_passes endless_stream [] 20 (secs 10) /\
  (wait_run endless_stream held_up [] (Server.run_bench 30 1 StreamPacketDownload 10 5 None 64 false)).1
    = Hung calls /\
  (wait_run endless_stream held_up [] (ClientBench.run_bench 30 1 StreamPacketUpload 10 5 None 64 false)).1
    = Hung calls.
Proof.
  intros calls. split; [exact endless_timers|]. split; [exact endless_clock|].
  apply (framed_writes_outlast_deadline endless_stream held_up [] 29 1 3 10 5 None 64 false); try done.
  - intros t1 t2 Ht.
    change (secs (Z.of_nat (count reads_clock (t1 ++ t2))) <
            secs (Z.of_nat (count reads_clock t1)) + secs 10).
    rewrite count_app. unfold secs, NANOS_PER_SEC. lia.
Defined.

(** With less fuel they would not have ended. *)
Example fuel_needed :
  (run endless_stream [] (Server.run_bench 19 1 StreamUpload 10 5 None 64 false)).1 = Running /\
  (run endless_stream [] (ClientBench.run_bench 7 1 StreamUpload 10 5 None 64 false)).1 = Running.
Proof. vm_compute. done. Qed.
