(* ===== verification/Keygen.v ===== *)
(** * Key generation: [litevpn-keygen/src/main.rs]

    The tool that writes the server's certificate and key and the token both
    ends share, and what becomes of that token when the ends load it. *)

From S2P Require Import Prelude RustStr World Auth Config.

(** [Args]. *)
Record KeygenArgs := mk_keygen_args {
  out_dir : str;
  keygen_server_name : str;
  token_bytes : Z;
}.

Definition default_keygen_args : KeygenArgs :=
  mk_keygen_args (lit "config") (lit "litevpn.local") 32.

(** [Path::join] with a relative file name. *)
Definition path_join (dir file : str) : str :=
  match last dir with
  | None => file
  | Some c => if c =? 47 then dir ++ file else dir ++ [47] ++ file
  end.

Section Keygen.
(** [hex::encode], a library function. *)
Context (hex_encode : bytes -> str).

Definition cert_file (args : KeygenArgs) : str := path_join (out_dir args) (lit "server.crt").
Definition key_file (args : KeygenArgs) : str := path_join (out_dir args) (lit "server.key").
Definition token_file (args : KeygenArgs) : str := path_join (out_dir args) (lit "client.token").

Definition keygen (args : KeygenArgs) : M unit :=
  call_with_context (lit "failed to create " ++ out_dir args) (CreateDirAll (out_dir args)) ;;
  '(cert, signing_key) <- call (GenerateCert (keygen_server_name args));
  token <- call (GetRandom (token_bytes args));
  let token := hex_encode token in
  call (WriteFile (cert_file args) (as_bytes cert)) ;;
  call (WriteFile (key_file args) (as_bytes signing_key)) ;;
  call (WriteFile (token_file args) (as_bytes (token ++ [LF]))) ;;
  call (SetPermissions (key_file args) 384) ;;
  call (SetPermissions (token_file args) 384) ;;
  println (lit "wrote " ++ cert_file args) ;;
  println (lit "wrote " ++ key_file args) ;;
  println (lit "wrote " ++ token_file args).
End Keygen.

(** 0o600: read and write for the owner only. *)
Example mode_600 : 384 = Z.lor (Z.shiftl 6 6) (Z.lor (Z.shiftl 0 3) 0).
Proof. reflexivity. Qed.

(** ** What it leaves behind *)

Definition files_written : history -> list (str * bytes) :=
  observe (fun X o =>
    match o in Op X return X -> list (str * bytes) with
    | WriteFile path content => fun _ => [(path, content)]
    | _ => fun _ => []
    end).
Definition modes_set : history -> list (str * Z) :=
  observe (fun X o =>
    match o in Op X return X -> list (str * Z) with
    | SetPermissions path mode => fun _ => [(path, mode)]
    | _ => fun _ => []
    end).

(** [hex::encode] as documented: two characters, digits or letters from a to
    f, per byte. *)
Definition is_hex (c : Z) : Prop := 48 <= c <= 57 \/ 97 <= c <= 102.
Record hex_ok (hex_encode : bytes -> str) : Prop := {
  hex_length : forall d, zlen (hex_encode d) = 2 * zlen d;
  hex_chars : forall d, Forall is_hex (hex_encode d);
}.

Lemma hex_word c : is_hex c -> is_ascii c /\ is_whitespace c = false /\ c <> LF /\ c <> CR.
Proof.
  intros H. unfold is_ascii, LF, CR. split; [destruct H; lia|].
  assert (In c (seqZ 48 10 ++ seqZ 97 6)) as Hin.
  { apply list_elem_of_In, elem_of_app. rewrite !elem_of_seqZ. destruct H; lia. }
  split; [|destruct H; lia].
  assert (forallb (fun c => negb (is_whitespace c)) (seqZ 48 10 ++ seqZ 97 6) = true) as Hall
    by (vm_compute; reflexivity).
  rewrite forallb_forall in Hall. by apply negb_true_iff, Hall.
Qed.

(** A hexadecimal token can be sent in every mode. *)
Lemma hex_token_ok token mode : Forall is_hex token -> token <> [] -> token_ok token mode.
Proof.
  intros Hhex Hne. unfold token_ok.
  assert (Forall is_ascii token) as Ha
    by (eapply Forall_impl; [exact Hhex|]; intros c Hc; by apply hex_word).
  split; [by apply ascii_valid|]. split.
  - intros Hin. rewrite Forall_forall in Hhex. by apply Hhex, hex_word in Hin as (_ & _ & ? & _).
  - destruct mode; [done|]. intros Hl. apply last_Some in Hl as [w ->].
    apply Forall_app in Hhex as [_ Hc]. apply Forall_cons in Hc as [Hc _].
    by apply hex_word in Hc as (_ & _ & _ & ?).
Qed.

Lemma load_token_line (E : env) h path token :
  Forall is_hex token -> token <> [] -> E _ h (ReadToString path) = Ok (token ++ [LF]) ->
  (run E h (load_token path)).1 =
  if zlen token <? 32
  then Fail (Msg (lit "token in " ++ path ++ lit " is too short; run litevpn-keygen"))
  else Val token.
Proof.
  intros Hhex Hne Hr.
  assert (trim (token ++ [LF]) = token) as Ht.
  { change (token ++ [LF]) with ([] ++ token ++ [LF]). apply trim_word; [|constructor|by repeat constructor].
    split; [done|]. eapply Forall_impl; [exact Hhex|]. intros c Hc. by apply hex_word. }
  assert (str_len token = zlen token) as Hlen.
  { unfold str_len. rewrite as_bytes_ascii; [done|].
    eapply Forall_impl; [exact Hhex|]. intros c Hc. by apply hex_word. }
  unfold load_token. cbn -[trim str_len lit app Z.ltb]. rewrite Hr.
  cbn -[trim str_len lit app Z.ltb]. rewrite Ht, Hlen. by destruct (_ <? _).
Qed.

(** Symbolic execution of [keygen]. *)
Ltac keygen_cbn := cbn -[app as_bytes lit cert_file key_file token_file].
Ltac keygen_call :=
  match goal with
  | |- context [match ?E ?X ?h ?o with Ok _ => _ | Err _ => _ end] =>
    let a := fresh "a" in let Er := fresh "Er" in
    destruct (E X h o) as [a|] eqn:Er; keygen_cbn; [|done];
    lazymatch type of a with
    | unit => destruct a
    | (_ * _)%type => destruct a
    | _ => idtac
    end; keygen_cbn
  end.

Lemma keygen_run (E : env) hex_encode h args :
  (run E h (keygen hex_encode args)).1 = Val tt ->
  exists t cert key d h1, (run E h (keygen hex_encode args)).2 = h ++ t /\
    E _ h1 (GetRandom (token_bytes args)) = Ok d /\
    files_written t = [(cert_file args, cert); (key_file args, key);
                       (token_file args, as_bytes (hex_encode d ++ [LF]))] /\
    modes_set t = [(key_file args, 384); (token_file args, 384)].
Proof.
  unfold keygen. keygen_cbn. do 2 keygen_call.
  destruct (E _ _ (GetRandom _)) as [d|] eqn:Hd; keygen_cbn; [|done].
  repeat keygen_call.
  intros _. rewrite <-!app_assoc. eexists _, _, _, d, _. split; [reflexivity|]. by split.
Qed.

(** ** Properties *)

(** C34: Keys fit the ends that use them. When [keygen] succeeds it has written
    the certificate, the key and one line of token, and has made key and token
    private to their owner. The token file then loads with [load_token]
    exactly when at least 16 bytes of token were asked for (below that, every
    start of either end fails, telling the user to run keygen); the token
    survives the authentication request in every mode; and a VPN request with
    it fits the server's read limit exactly up to 508 bytes. *)
Theorem keygen_token_fits (E : env) hex_encode h args :
  hex_ok hex_encode -> 1 <= token_bytes args ->
  (forall h n d, 0 <= n -> E _ h (GetRandom n) = Ok d -> zlen d = n) ->
  let r := run E h (keygen hex_encode args) in
  r.1 = Val tt ->
  exists t cert key token, r.2 = h ++ t /\
    files_written t = [(cert_file args, cert); (key_file args, key);
                       (token_file args, as_bytes (token ++ [LF]))] /\
    modes_set t = [(key_file args, 384); (token_file args, 384)] /\
    (forall (E' : env) h' path, E' _ h' (ReadToString path) = Ok (token ++ [LF]) ->
       (run E' h' (load_token path)).1 =
       if 16 <=? token_bytes args then Val token
       else Fail (Msg (lit "token in " ++ path ++ lit " is too short; run litevpn-keygen"))) /\
    (forall mode, mode_requestable mode ->
       parse_request (auth_request token mode) = Ok (token, normalize_mode mode)) /\
    (zlen (auth_request token Vpn) <= MAX_AUTH_BYTES <-> token_bytes args <= 508).
Proof.
  intros [Hlen Hchars] Hn Hrand r Hv.
  destruct (keygen_run E hex_encode h args Hv) as (t & cert & key & d & h1 & Et & Hd & Hf & Hm).
  apply Hrand in Hd; [|lia].
  assert (zlen (hex_encode d) = 2 * token_bytes args) as Hz by (by rewrite Hlen, Hd).
  assert (hex_encode d <> []) as Hne by (intros Hnil; rewrite Hnil in Hz; cbn in Hz; lia).
  exists t, cert, key, (hex_encode d).
  split; [exact Et|]. split; [done|]. split; [done|]. split; [|split].
  - intros E' h' path Hr. rewrite (load_token_line E' h' path (hex_encode d)) by done.
    rewrite Hz. bcase; done || lia.
  - intros mode Hmode. apply parse_auth_request; [by apply hex_token_ok|done].
  - assert (as_bytes (hex_encode d) = hex_encode d) as Hb.
    { apply as_bytes_ascii. eapply Forall_impl; [apply Hchars|]. intros c Hc. by apply hex_word. }
    unfold auth_request. rewrite Hb, app_nil_r, !length_app. cbn. unfold MAX_AUTH_BYTES. lia.
Qed.

(** A concrete encoder, and a machine on which everything works. *)
Definition hex_digit (n : Z) : Z := if n <? 10 then 48 + n else 87 + n.
Definition hex (d : bytes) : str :=
  flat_map (fun b => [hex_digit (b / 16 mod 16); hex_digit (b mod 16)]) d.

Lemma hex_is_hex : hex_ok hex.
Proof.
  assert (forall b, is_hex (hex_digit (b mod 16))) as Hd.
  { intros b. pose proof (Z.mod_pos_bound b 16 eq_refl). unfold is_hex, hex_digit. bcase; lia. }
  split; intros d; induction d as [|b d IH]; [done| |constructor|].
  - cbn [hex flat_map app length] in *. unfold hex in IH. lia.
  - unfold hex. cbn. do 2 (constructor; [apply Hd|]). exact IH.
Qed.

Definition keygen_machine : env := fun X h o =>
  match o in Op X return X -> X with
  | CreateDirAll _ => fun _ => Ok tt
  | GenerateCert _ => fun _ => Ok (lit "CERT", lit "KEY")
  | GetRandom n => fun _ => Ok (repeat 171 (Z.to_nat n))
  | WriteFile _ _ => fun _ => Ok tt
  | SetPermissions _ _ => fun _ => Ok tt
  | _ => fun x => x
  end (quiet X h o).

Lemma keygen_token_fits_witness :
  let args := default_keygen_args in
  let r := run keygen_machine [] (keygen hex args) in
  exists t cert key token, r.2 = [] ++ t /\
    files_written t = [(cert_file args, cert); (key_file args, key);
                       (token_file args, as_bytes (token ++ [LF]))] /\
    modes_set t = [(key_file args, 384); (token_file args, 384)] /\
    (forall (E' : env) h' path, E' _ h' (ReadToString path) = Ok (token ++ [LF]) ->
       (run E' h' (load_token path)).1 =
       if 16 <=? token_bytes args then Val token
       else Fail (Msg (lit "token in " ++ path ++ lit " is too short; run litevpn-keygen"))) /\
    (forall mode, mode_requestable mode ->
       parse_request (auth_request token mode) = Ok (token, normalize_mode mode)) /\
    (zlen (auth_request token Vpn) <= MAX_AUTH_BYTES <-> token_bytes args <= 508).
Proof.
  apply (keygen_token_fits keygen_machine hex [] default_keygen_args).
  - exact hex_is_hex.
  - done.
  - intros h n d Hn [= <-]. rewrite repeat_length. lia.
  - vm_compute. reflexivity.
Defined.
