(* ===== verification/Tunnel.v ===== *)
(** * The tunnel as a whole

    Both ends run their two pumps at the same time, in a [tokio::select!]: the
    calls of the pumps are interleaved by the scheduler, and when one pump
    ends the other is dropped where it stands. What Pumps.v proves of a pump
    that runs alone is carried over here, with Follow.v, to the pumps of a
    race. *)

From S2P Require Import Prelude RustStr World Follow Auth Config Frame Float64 Pacer Backlog.
From S2P Require Import Pumps Summary Report Server Routes Connect ClientBench Client.

(** ** One pump of a race *)

(** All packets in order, at most the one in flight missing. *)
Definition relayed (from to : list bytes) : Prop :=
  exists in_flight, from = to ++ in_flight /\ (length in_flight <= 1)%nat.

Lemma relayed_refl l : relayed l l.
Proof. exists []. rewrite app_nil_r. split; [done|cbn; lia]. Qed.
Lemma relayed_last l p : relayed (l ++ [p]) l.
Proof. by exists [p]. Qed.

Lemma uplink_followed (E : env) c max fuel mtu label target backlog adaptive hs :
  (forall h, E _ h (MaxDatagramSize c) = max) ->
  let t := (follow E hs (pump_tun_to_quic fuel c mtu label target backlog adaptive)).1 in
  relayed (List.filter (fits max) (tun_received t)) (datagrams_sent c t).
Proof.
  intros Hmax t.
  destruct (follow_begins_run E (severed max)
    (pump_tun_to_quic fuel c mtu label target backlog adaptive) hs [] [] eq_refl) as (t' & Et & Ht' & _).
  cbn [app] in Et. fold t in Et.
  destruct (severed_unseen max c t' Ht') as (U1 & U2 & _).
  destruct (pump_tun_to_quic_spec (patched E (severed max) hs) c max fuel mtu label target backlog
    adaptive []) as [(t2 & E2 & Hs)|(e & p & _ & t2 & ps & E2 & Hr & Hs)].
  - by apply (patched_answers E (severed max) hs (MaxDatagramSize c) (fun m => m = max)).
  - rewrite Et in E2. cbn [app] in E2. subst t2.
    rewrite tun_received_app, datagrams_sent_app, U1, U2, !app_nil_r in Hs.
    rewrite Hs. apply relayed_refl.
  - rewrite Et in E2. cbn [app] in E2. subst t2.
    rewrite datagrams_sent_app, U2, app_nil_r in Hs. rewrite tun_received_app, U1, app_nil_r in Hr.
    rewrite Hr, Hs. unfold sent_datagrams. rewrite List.filter_app. eexists. split; [reflexivity|].
    cbn. destruct (fits max p); cbn; lia.
Qed.

Lemma downlink_followed (E : env) c label fuel hs :
  let t := (follow E hs (pump_quic_to_tun fuel c label)).1 in
  relayed (datagrams_received c t) (tun_sent t).
Proof.
  intros t.
  destruct (follow_begins_run E (severed None) (pump_quic_to_tun fuel c label) hs [] [] eq_refl)
    as (t' & Et & Ht' & _).
  cbn [app] in Et. fold t in Et.
  destruct (severed_unseen None c t' Ht') as (_ & _ & U1 & U2).
  destruct (pump_quic_to_tun_spec (patched E (severed None) hs) c label fuel []) as (t2 & E2 & Hs).
  rewrite Et in E2. cbn [app] in E2. subst t2.
  rewrite tun_sent_app, datagrams_received_app, U1, U2, !app_nil_r in Hs.
  destruct Hs as [Hs|(e & p & _ & Hs)].
  - rewrite Hs. apply relayed_refl.
  - rewrite Hs. apply relayed_last.
Qed.

(** ** The two pumps together *)

(** The upward half neither writes the device nor reads from the connection;
    the downward half neither reads the device nor sends on the connection. *)
Definition upward : forall X, Op X -> bool := fun X o =>
  match o with TunSend _ | ReadDatagram _ | Read _ _ => false | _ => true end.
Definition downward : forall X, Op X -> bool := fun X o =>
  match o with
  | TunRecv _ | SendDatagramWait _ _ | WriteAll _ _ | WriteAllChunks _ _ | Write _ _ => false
  | _ => true
  end.

Lemma pump_tun_to_quic_upward fuel c mtu label target backlog adaptive :
  all_ops upward (pump_tun_to_quic fuel c mtu label target backlog adaptive).
Proof. unfold pump_tun_to_quic, tun_to_quic_body, recv_or_closed. ops. Qed.

Lemma pump_quic_to_tun_downward fuel c label : all_ops downward (pump_quic_to_tun fuel c label).
Proof. unfold pump_quic_to_tun, quic_to_tun_body. ops. Qed.

(** The contract of a tunnel over datagrams on connection [c] of capacity
    [max], as seen in a history. *)
Definition relays (c : conn) (max : option Z) (t : history) : Prop :=
  relayed (List.filter (fits max) (tun_received t)) (datagrams_sent c t) /\
  relayed (datagrams_received c t) (tun_sent t).

Lemma silent_class {B} (f : forall X, Op X -> X -> list B) (P : forall X, Op X -> bool) t :
  (forall X (o : Op X) x, P X o = true -> f X o x = []) ->
  Forall (fun e => match e with Ev o _ => P _ o = true end) t -> Forall (silent f) t.
Proof. intros Hf Ht. eapply Forall_impl; [exact Ht|]. intros [X o x] H. by apply Hf. Qed.

(** A merge of the two halves keeps the contract of each. *)
Lemma merged_relays c max t1 t2 t :
  merged t1 t2 t ->
  Forall (fun e => match e with Ev o _ => upward _ o = true end) t1 ->
  Forall (fun e => match e with Ev o _ => downward _ o = true end) t2 ->
  relayed (List.filter (fits max) (tun_received t1)) (datagrams_sent c t1) ->
  relayed (datagrams_received c t2) (tun_sent t2) ->
  relays c max t.
Proof.
  intros Hm H1 H2 Hup Hdown. unfold relays.
  assert (tun_received t = tun_received t1) as ->.
  { apply (merged_observe_left _ t1 t2 t); [done|done|].
    eapply silent_class; [|exact H2]. intros X o x Ho. by destruct o. }
  assert (datagrams_sent c t = datagrams_sent c t1) as ->.
  { apply (merged_observe_left _ t1 t2 t); [done|done|].
    eapply silent_class; [|exact H2]. intros X o x Ho. by destruct o. }
  assert (datagrams_received c t = datagrams_received c t2) as ->.
  { apply (merged_observe_right _ t1 t2 t); [done|done|].
    eapply silent_class; [|exact H1]. intros X o x Ho. by destruct o. }
  assert (tun_sent t = tun_sent t2) as ->; [|done].
  apply (merged_observe_right _ t1 t2 t); [done|done|].
  eapply silent_class; [|exact H1]. intros X o x Ho. by destruct o.
Qed.

(** The client's select has a third branch, which touches no packet. *)
Definition packetless : forall X, Op X -> bool := fun X o =>
  match o with
  | TunRecv _ | TunSend _ | SendDatagramWait _ _ | ReadDatagram _ | Read _ _
  | WriteAll _ _ | WriteAllChunks _ _ | Write _ _ => false
  | _ => true
  end.

Lemma shutdown_packetless : all_ops packetless shutdown.
Proof.
  unfold shutdown, shutdown_signal. apply all_ops_bind; [apply all_ops_catch|]; ops.
Qed.

Lemma down_or_shutdown_followed (E : env) c label fuel hs :
  let t := (follow E hs (select2 (pump_quic_to_tun fuel c label) shutdown)).1 in
  relayed (datagrams_received c t) (tun_sent t) /\
  Forall (fun e => match e with Ev o _ => downward _ o = true end) t.
Proof.
  intros t. split.
  - destruct (follow_select2 E hs (pump_quic_to_tun fuel c label) shutdown) as (hs1 & hs2 & Hm).
    fold t in Hm. pose proof (follow_ops E packetless shutdown hs2 shutdown_packetless) as Hp.
    assert (datagrams_received c t = datagrams_received c (follow E hs1 (pump_quic_to_tun fuel c label)).1)
      as ->.
    { eapply merged_observe_left; [|exact Hm|]; [done|].
      eapply silent_class; [|exact Hp]. intros X o x Ho. by destruct o. }
    assert (tun_sent t = tun_sent (follow E hs1 (pump_quic_to_tun fuel c label)).1) as ->.
    { eapply merged_observe_left; [|exact Hm|]; [done|].
      eapply silent_class; [|exact Hp]. intros X o x Ho. by destruct o. }
    apply downlink_followed.
  - apply follow_ops, all_ops_select2; [done|apply pump_quic_to_tun_downward|].
    eapply all_ops_mono; [|exact shutdown_packetless]. intros X [] H; done.
Qed.

(** ** The two ends together

    What an end of a datagram tunnel promises to the other: its pumps relay.
    The theorem about the whole path is proved against this interface, which
    both binaries implement. *)
Class DatagramEnd {A} (pumps : conn -> M A) : Prop :=
  end_relays : forall (E : env) h c max, (forall h, E _ h (MaxDatagramSize c) = max) ->
    exists t, (run E h (pumps c)).2 = h ++ t /\ relays c max t.

#[export] Instance server_end fuel mtu target backlog adaptive :
  DatagramEnd (run_tunnel fuel mtu target backlog adaptive Datagram).
Proof.
  intros E h c max Hmax. unfold run_tunnel.
  destruct (run_followed E (select2
    (pump_tun_to_quic fuel c mtu (lit "server") target backlog adaptive)
    (pump_quic_to_tun fuel c (lit "server"))) h) as (hs & Et & _).
  destruct (follow_select2 E hs
    (pump_tun_to_quic fuel c mtu (lit "server") target backlog adaptive)
    (pump_quic_to_tun fuel c (lit "server"))) as (hs1 & hs2 & Hm).
  eexists. split; [exact Et|]. eapply merged_relays; [exact Hm|..].
  - apply follow_ops, pump_tun_to_quic_upward.
  - apply follow_ops, pump_quic_to_tun_downward.
  - by apply uplink_followed.
  - apply downlink_followed.
Qed.

Lemma client_end fuel config :
  ClientConfig.vpn_transport config = Datagram -> DatagramEnd (client_pumps fuel config).
Proof.
  intros Hd E h c max Hmax. unfold client_pumps. rewrite Hd.
  set (up := pump_tun_to_quic fuel c _ _ _ _ _).
  destruct (run_followed E
    (catch (select2 up (select2 (pump_quic_to_tun fuel c (lit "client")) shutdown))) h)
    as (hs & Et & _).
  unfold catch in Et at 2.
  match type of Et with context [follow E hs (pbind ?p ?f)] =>
    destruct (follow_pbind_ret E p f hs) as [hs0 E0]; [intros []; by eexists|] end.
  rewrite E0 in Et.
  destruct (follow_select2 E hs0 up (select2 (pump_quic_to_tun fuel c (lit "client")) shutdown))
    as (hs1 & hs2 & Hm).
  destruct (down_or_shutdown_followed E c (lit "client") fuel hs2) as [Hr Hf].
  eexists. split; [exact Et|]. eapply merged_relays; [exact Hm|..].
  - apply follow_ops, pump_tun_to_quic_upward.
  - exact Hf.
  - by apply uplink_followed.
  - exact Hr.
Qed.

(** What a network may do to the datagrams sent, at least lose a suffix of
    them: keep their order ([prefix_of], [sublist]), or reorder them too
    ([submseteq], a sub-multiset). *)
Class NetworkEffect (R : relation (list (list Z))) : Prop := {
  effect_trans :: Transitive R;
  effect_prefix : forall l k, l `prefix_of` k -> R l k;
}.

#[export] Instance prefix_effect : NetworkEffect list.prefix.
Proof. split; [apply _|done]. Qed.
#[export] Instance sublist_effect : NetworkEffect sublist.
Proof. split; [apply _|]. intros l k [r ->]. by apply sublist_inserts_r. Qed.
#[export] Instance submseteq_effect : NetworkEffect submseteq.
Proof. split; [apply _|]. intros l k [r ->]. by apply submseteq_inserts_r. Qed.

Lemma relayed_prefix from to : relayed from to -> to `prefix_of` from.
Proof. intros (f & -> & _). by eexists. Qed.

(** One direction of the path, from the packets one end read to those the
    other wrote. *)
Lemma path_effect R `{!NetworkEffect R} c c' max max' t t' :
  relays c max t -> relays c' max' t' ->
  R (datagrams_received c' t') (datagrams_sent c t) ->
  R (tun_sent t') (List.filter (fits max) (tun_received t)).
Proof.
  intros [Hup _] [_ Hdown] Hnet.
  etransitivity; [apply effect_prefix, relayed_prefix, Hdown|].
  etransitivity; [exact Hnet|]. apply effect_prefix, relayed_prefix, Hup.
Qed.

(** Two ends that implement the interface, whatever they are. *)
Lemma ends_compose {A B} (client : conn -> M A) (server : conn -> M B)
    `{!DatagramEnd client, !DatagramEnd server} R `{!NetworkEffect R}
    (Ec Es : env) cc cs maxc maxs hc hs :
  (forall h, Ec _ h (MaxDatagramSize cc) = maxc) ->
  (forall h, Es _ h (MaxDatagramSize cs) = maxs) ->
  exists tc ts, (run Ec hc (client cc)).2 = hc ++ tc /\ (run Es hs (server cs)).2 = hs ++ ts /\
    (R (datagrams_received cs ts) (datagrams_sent cc tc) ->
     R (tun_sent ts) (List.filter (fits maxc) (tun_received tc))) /\
    (R (datagrams_received cc tc) (datagrams_sent cs ts) ->
     R (tun_sent tc) (List.filter (fits maxs) (tun_received ts))).
Proof.
  intros Hc Hs.
  destruct (end_relays (pumps:=client) Ec hc cc maxc Hc) as (tc & Etc & Rc).
  destruct (end_relays (pumps:=server) Es hs cs maxs Hs) as (ts & Ets & Rs).
  exists tc, ts. split; [exact Etc|]. split; [exact Ets|].
  split; intros Hnet; by eapply path_effect.
Qed.

(** ** Properties *)

(** C2: The VPN end to end. The client's pumps and the server's run, each in
    its own environment, on connections of given capacities, however long and
    however interleaved. Whatever the network does to the datagrams of a
    direction, provided it neither forges nor duplicates them (it may lose
    and reorder), is all that happens to the packets: those written to one
    TUN device are related in the same way (as a prefix, a sublist or a
    sub-multiset) to those read from the other that fit the capacity. *)
Theorem vpn_end_to_end R `{!NetworkEffect R} (Ec Es : env) config fuel fuel' mtu target backlog
    adaptive cc cs maxc maxs hc hs :
  ClientConfig.vpn_transport config = Datagram ->
  (forall h, Ec _ h (MaxDatagramSize cc) = maxc) ->
  (forall h, Es _ h (MaxDatagramSize cs) = maxs) ->
  exists tc ts, (run Ec hc (client_pumps fuel config cc)).2 = hc ++ tc /\
    (run Es hs (run_tunnel fuel' mtu target backlog adaptive Datagram cs)).2 = hs ++ ts /\
    (R (datagrams_received cs ts) (datagrams_sent cc tc) ->
     R (tun_sent ts) (List.filter (fits maxc) (tun_received tc))) /\
    (R (datagrams_received cc tc) (datagrams_sent cs ts) ->
     R (tun_sent tc) (List.filter (fits maxs) (tun_received ts))).
Proof.
  intros Hd. pose proof (client_end fuel config Hd). by apply ends_compose; [|apply _|].
Qed.

(** C4: The server's tunnel relays packets. On a connection of a given datagram
    capacity, in every environment, under every interleaving of the two pumps
    and however the tunnel ends: the datagrams sent are exactly the packets
    read from the TUN device (less the empty ones and those above the
    capacity), and the packets written to the device are exactly the datagrams
    received, both in order and once each, except that at the end the one
    packet in flight in each direction may be missing. *)
Theorem server_tunnel_relays (E : env) h fuel mtu target backlog adaptive c max :
  (forall h, E _ h (MaxDatagramSize c) = max) ->
  exists t, (run E h (run_tunnel fuel mtu target backlog adaptive Datagram c)).2 = h ++ t /\
    relays c max t.
Proof.
  apply (server_end fuel mtu target backlog adaptive).
Qed.

(** The client's tunnel relays packets in the same sense, with the shutdown
    signal as a third party of its select: however the client's pumps end, by
    an error, by the peer or by a signal, no packet was reordered, duplicated
    or invented, and at most the one in flight in each direction was lost. *)
Lemma client_tunnel_relays (E : env) h fuel config c max :
  ClientConfig.vpn_transport config = Datagram ->
  (forall h, E _ h (MaxDatagramSize c) = max) ->
  exists t, (run E h (client_pumps fuel config c)).2 = h ++ t /\ relays c max t.
Proof.
  intros Hd. apply (client_end fuel config Hd).
Qed.

(** Three packets to send and as many datagrams as one likes to receive, on a
    connection that takes 4 bytes; the scheduler favours the half that is
    behind. *)
Definition polled_left (h : history) : bool :=
  match last h with
  | Some (Ev o x) =>
    (match o in Op X return X -> bool with Poll => fun b => b | _ => fun _ => false end) x
  | None => false
  end.
Definition busy_tunnel : env := fun X h o =>
  match o in Op X return X -> X with
  | Poll => fun _ =>
    polled_left h || (length (tun_received h) <=? length (tun_sent h))%nat
  | ReadDatagram _ => fun _ => Ok [7; zlen h]
  | TunSend p => fun _ => Ok (zlen p)
  | _ => fun x => x
  end (three_packets X h o).

Lemma server_tunnel_relays_witness :
  exists t, (run busy_tunnel [] (run_tunnel 9 20 36 64 true Datagram 1)).2 = [] ++ t /\
    relays 1 (Some 4) t.
Proof.
  apply (server_tunnel_relays busy_tunnel [] 9 20 36 64 true 1 (Some 4)). done.
Defined.

Lemma client_tunnel_relays_witness :
  exists t, (run busy_tunnel [] (client_pumps 9 ClientConfig.default 1)).2 = [] ++ t /\
    relays 1 (Some 4) t.
Proof.
  apply (client_tunnel_relays busy_tunnel [] 9 ClientConfig.default 1 (Some 4)); done.
Defined.

(** What the server does there: the packet above the capacity is dropped, the
    others and all datagrams go through; then the device fails. *)
Example busy_tunnel_packets :
  let t := (run busy_tunnel [] (run_tunnel 9 20 36 64 true Datagram 1)).2 in
  tun_received t = [[1; 2]; [3; 4; 5; 6; 7]; [8]] /\ datagrams_sent 1 t = [[1; 2]; [8]] /\
  datagrams_received 1 t = tun_sent t /\ length (tun_sent t) = 3%nat.
Proof. vm_compute. done. Qed.

(** One end of a small exchange: packets to send, datagrams to receive, on a
    connection that takes 4 bytes; what has arrived is written first. *)
Definition one_end (outgoing incoming : list bytes) : env := fun X h o =>
  match o in Op X return X -> X with
  | Poll => fun _ =>
    (length incoming <=? length (tun_sent h))%nat ||
    match last h with
    | Some (Ev o x) =>
      (match o in Op X return X -> bool with Poll => negb | _ => fun _ => false end) x
    | None => false
    end
  | TunRecv _ => fun _ =>
    match outgoing !! length (tun_received h) with Some p => Ok p | None => Err (lit "gone") end
  | ReadDatagram c => fun _ =>
    match incoming !! length (datagrams_received c h) with Some p => Ok p | None => Err (lit "gone") end
  | TunSend p => fun _ => Ok (zlen p)
  | _ => fun x => x
  end (three_packets X h o).

(** The client sends three packets, of which one is too large and one is lost
    on the way; the server sends one. *)
Definition from_client : list bytes := [[1; 2]; [3; 4; 5; 6; 7]; [8]; [9]].
Definition client_machine : env := one_end from_client [[5; 5]].
Definition server_machine : env := one_end [[5; 5]] [[1; 2]; [9]].

Lemma vpn_end_to_end_witness :
  exists tc ts,
    (run client_machine [] (client_pumps 9 ClientConfig.default 1)).2 = [] ++ tc /\
    (run server_machine [] (run_tunnel 9 20 36 64 true Datagram 2)).2 = [] ++ ts /\
    (datagrams_received 2 ts `sublist_of` datagrams_sent 1 tc ->
     tun_sent ts `sublist_of` List.filter (fits (Some 4)) (tun_received tc)) /\
    (datagrams_received 1 tc `sublist_of` datagrams_sent 2 ts ->
     tun_sent tc `sublist_of` List.filter (fits (Some 4)) (tun_received ts)).
Proof.
  apply (vpn_end_to_end sublist client_machine server_machine ClientConfig.default 9 9 20 36 64 true
    1 2 (Some 4) (Some 4) [] []); done.
Defined.

(** Their packets and datagrams are as told, and the network's part holds. *)
Example client_and_server :
  let tc := (run client_machine [] (client_pumps 9 ClientConfig.default 1)).2 in
  let ts := (run server_machine [] (run_tunnel 9 20 36 64 true Datagram 2)).2 in
  tun_received tc = from_client /\ datagrams_sent 1 tc = [[1; 2]; [8]; [9]] /\
  datagrams_received 2 ts = [[1; 2]; [9]] /\ tun_sent ts = [[1; 2]; [9]] /\
  datagrams_sent 2 ts = [[5; 5]] /\ tun_sent tc = [[5; 5]].
Proof. vm_compute. done. Qed.
