(* ===== verification/StreamTunnel.v ===== *)
(** * The tunnel over streams

    The stream mode of the VPN with both pumps of an end interleaved, and the
    two ends together. Pumps.v has the receiver alone on a stream with a known
    content; in a race what it reads depends on what the other half does, so
    it is followed here on whatever the reads return. *)

From S2P Require Import Prelude RustStr World Follow Auth Config Frame Float64 Pacer Backlog.
From S2P Require Import Pumps Summary Report Server Routes Connect ClientBench Client Tunnel.

(** ** The receiver *)

(** What was read from [s] is frames and perhaps one more, not yet dealt with;
    the packets of the frames were written to the device, in order and once
    each, but for the one in flight. *)
Definition unframed (s : sid) (t : history) : Prop :=
  exists ps tail in_flight, stream_read s t = concat (map frame ps) ++ tail /\
    Forall (fun p => zlen p <= U16_MAX) ps /\ within_frame tail /\
    List.filter nonempty ps = tun_sent t ++ in_flight /\
    (in_flight = [] \/ tail = [] /\ length in_flight = 1%nat).

(** The same between two packets. *)
Definition unframed_all (s : sid) (t : history) : Prop :=
  exists ps, stream_read s t = concat (map frame ps) /\
    Forall (fun p => zlen p <= U16_MAX) ps /\ tun_sent t = List.filter nonempty ps.

Lemma unframed_tail s t d :
  unframed_all s t -> within_frame d -> forall w, only_reads s w -> stream_read s w = d ->
  unframed s (t ++ w).
Proof.
  intros (ps & Er & Hps & Es) Hd w Hw Ew. exists ps, d, [].
  destruct (only_reads_unseen s w Hw) as [U _].
  rewrite stream_read_app, tun_sent_app, Er, Ew, U, !app_nil_r, <- Es.
  split; [done|]. split; [done|]. split; [done|]. split; [done|by left].
Qed.

Lemma unframed_between s t : unframed_all s t -> unframed s t.
Proof.
  intros Hu. rewrite <- (app_nil_r t).
  apply (unframed_tail s t [] Hu); [left; cbn; lia|constructor|done].
Qed.

Lemma unframed_packet s t w p e :
  unframed_all s t -> only_reads s w -> stream_read s w = frame p -> zlen p <= U16_MAX ->
  stream_read s [e] = [] ->
  exists ps, stream_read s (t ++ w ++ [e]) = concat (map frame (ps ++ [p])) /\
    Forall (fun p => zlen p <= U16_MAX) (ps ++ [p]) /\
    tun_sent (t ++ w ++ [e]) = List.filter nonempty ps ++ tun_sent [e].
Proof.
  intros (ps & Er & Hps & Es) Hw Ew Hp He. exists ps.
  destruct (only_reads_unseen s w Hw) as [U _].
  rewrite !stream_read_app, !tun_sent_app, Er, Ew, Es, U, He, map_app, concat_app. cbn.
  rewrite app_nil_r. split; [done|]. split; [|done]. apply Forall_app. split; [done|by apply Forall_singleton].
Qed.

Lemma stream_to_tun_any (E : env) s label F cap fuel h0 : reads_fit E ->
  forall h buf, zlen buf = cap -> (exists t, h = h0 ++ t /\ unframed_all s t) ->
  wp E h (loop fuel (stream_to_tun_body F s label) buf) (fun r h' =>
    exists t, h' = h0 ++ t /\ unframed s t).
Proof.
  intros HE h buf Hbuf Ht.
  apply (wp_loop _ _ _ _ _ (fun buf h => zlen buf = cap /\ exists t, h = h0 ++ t /\ unframed_all s t)).
  { by split. }
  2:{ intros buf' h1 [? (t & -> & Hu)]. exists t. split; [done|by apply unframed_between]. }
  clear h buf Hbuf Ht. intros buf h [Hbuf (t & -> & Hu)]. unfold stream_to_tun_body.
  apply wp_bind. eapply wp_mono; [by apply (read_packet_any E s label)|].
  intros r h1 (d & (w & -> & Hw & Ew & _) & Hr). rewrite <- app_assoc.
  destruct r as [[[n|] buf']|e| |]; try done;
    try (eexists; split; [reflexivity|]; apply (unframed_tail s t d); [done| |done..];
         first [done|by apply begun_within]).
  2:{ destruct Hr as [-> ->]. apply wp_ret. eexists. split; [reflexivity|].
      apply (unframed_tail s t []); [done|left; cbn; lia|done|done]. }
  destruct Hr as (Hl & p & -> & -> & Hp & Htake).
  destruct (Z.eqb_spec (zlen p) 0) as [Hz|Hz].
  { apply wp_ret. split; [lia|]. eexists. split; [reflexivity|].
    assert (p = []) as -> by by destruct p. destruct Hu as (ps & Er & Hps & Es).
    exists (ps ++ [[]]). destruct (only_reads_unseen s w Hw) as [U _].
    rewrite stream_read_app, tun_sent_app, Er, Ew, Es, U, map_app, concat_app, List.filter_app.
    split; [done|]. split; [|done]. apply Forall_app. split; [done|by apply Forall_singleton]. }
  rewrite Nat2Z.id, Htake. apply wp_bind, wp_vis.
  assert (nonempty p = true) as Hne by by destruct p.
  destruct (E _ _ (TunSend p)) as [written|e]; rewrite <- !app_assoc;
    match goal with |- context [t ++ w ++ [?e]] =>
      destruct (unframed_packet s t w p e Hu Hw Ew Hp eq_refl) as (ps & Er & Hps & Es) end;
    apply wp_ret; cbv beta.
  - assert (unframed_all s (t ++ w ++ [Ev (TunSend p) (Ok written)])) as Hu'.
    { exists (ps ++ [p]). split; [done|]. split; [done|].
      rewrite Es, List.filter_app. cbn. by rewrite Hne. }
    destruct (negb (written =? zlen p)); apply wp_ret.
    + eexists. split; [reflexivity|]. by apply unframed_between.
    + split; [lia|]. by eexists.
  - eexists. split; [reflexivity|]. exists (ps ++ [p]), [], [p]. rewrite app_nil_r.
    split; [done|]. split; [done|]. split; [left; cbn; lia|].
    rewrite Es, List.filter_app. cbn. rewrite Hne, app_nil_r. split; [done|by right].
Qed.

Lemma pump_stream_to_tun_any (E : env) s label cap fuel h : reads_fit E -> 0 <= cap ->
  wp E h (pump_stream_to_tun fuel s cap label) (fun r h' => exists t, h' = h ++ t /\ unframed s t).
Proof.
  intros HE Hc. apply (stream_to_tun_any E s label fuel cap fuel h HE).
  - rewrite repeat_length. lia.
  - exists []. rewrite app_nil_r. split; [done|]. by exists [].
Qed.

(** ** The halves of a race *)

Lemma patched_reads_fit (E : env) hs : reads_fit E -> reads_fit (patched E (severed None) hs).
Proof.
  intros HE h s cap d. unfold patched. destruct (hs !! length h); [apply HE|done].
Qed.

Lemma severed_streams s t : Forall (answered_by (severed None)) t ->
  stream_written s t = [] /\ stream_read s t = [].
Proof.
  intros Ht. split; apply observe_silent; (eapply Forall_impl; [exact Ht|]);
    intros e (X & o & h & ->); by destruct o.
Qed.

(** What was written to [s] is the frames of the packets taken from the
    device, but for the one in flight. *)
Definition framed (s : sid) (t : history) : Prop :=
  exists ps in_flight, tun_received t = ps ++ in_flight /\ (length in_flight <= 1)%nat /\
    stream_written s t = sent_frames ps.

Lemma stream_up_followed (E : env) s c fuel mtu label target adaptive hs :
  framed s (follow E hs (pump_tun_to_stream fuel s c mtu label target adaptive)).1.
Proof.
  set (t := (follow _ _ _).1).
  destruct (follow_begins_run E (severed None)
    (pump_tun_to_stream fuel s c mtu label target adaptive) hs [] [] eq_refl) as (t' & Et & Ht' & _).
  cbn [app] in Et. fold t in Et.
  destruct (severed_unseen None c t' Ht') as (U1 & _).
  destruct (severed_streams s t' Ht') as [U2 _].
  destruct (pump_tun_to_stream_spec (patched E (severed None) hs) s c fuel mtu label target
    adaptive []) as [(t2 & E2 & Hs)|(e & p & _ & t2 & ps & E2 & Hr & Hs)];
    rewrite Et in E2; cbn [app] in E2; subst t2;
    rewrite stream_written_app, U2, app_nil_r in Hs; rewrite tun_received_app, U1, app_nil_r in *.
  - exists (tun_received t), []. rewrite app_nil_r. split; [done|]. split; [cbn; lia|done].
  - by exists ps, [p].
Qed.

Lemma stream_down_followed (E : env) s label cap fuel hs : reads_fit E -> 0 <= cap ->
  unframed s (follow E hs (pump_stream_to_tun fuel s cap label)).1.
Proof.
  intros HE Hc. set (t := (follow _ _ _).1).
  destruct (follow_begins_run E (severed None) (pump_stream_to_tun fuel s cap label) hs [] []
    eq_refl) as (t' & Et & Ht' & _).
  cbn [app] in Et. fold t in Et.
  destruct (severed_unseen None 0 t' Ht') as (_ & _ & U1 & _).
  destruct (severed_streams s t' Ht') as [_ U2].
  destruct (pump_stream_to_tun_any (patched E (severed None) hs) s label cap fuel []
    (patched_reads_fit E hs HE) Hc) as (t2 & E2 & Hu).
  rewrite Et in E2. cbn [app] in E2. subst t2. unfold unframed in *.
  by rewrite stream_read_app, tun_sent_app, U1, U2, !app_nil_r in Hu.
Qed.

Lemma pump_tun_to_stream_upward fuel s c mtu label target adaptive :
  all_ops upward (pump_tun_to_stream fuel s c mtu label target adaptive).
Proof. unfold pump_tun_to_stream, tun_to_stream_body, recv_or_closed. ops. Qed.

Lemma pump_stream_to_tun_downward fuel s cap label :
  all_ops downward (pump_stream_to_tun fuel s cap label).
Proof. unfold pump_stream_to_tun, stream_to_tun_body. ops. Qed.

(** The contract of a tunnel that sends on [ss] and receives on [sr]. *)
Definition stream_relays (ss sr : sid) (t : history) : Prop := framed ss t /\ unframed sr t.

Lemma merged_stream_relays ss sr t1 t2 t :
  merged t1 t2 t ->
  Forall (fun e => match e with Ev o _ => upward _ o = true end) t1 ->
  Forall (fun e => match e with Ev o _ => downward _ o = true end) t2 ->
  framed ss t1 -> unframed sr t2 -> stream_relays ss sr t.
Proof.
  intros Hm H1 H2 Hup Hdown. unfold stream_relays, framed, unframed.
  assert (tun_received t = tun_received t1) as ->.
  { apply (merged_observe_left _ t1 t2 t); [done|done|].
    eapply silent_class; [|exact H2]. intros X o x Ho. by destruct o. }
  assert (stream_written ss t = stream_written ss t1) as ->.
  { apply (merged_observe_left _ t1 t2 t); [done|done|].
    eapply silent_class; [|exact H2]. intros X o x Ho. by destruct o. }
  assert (stream_read sr t = stream_read sr t2) as ->.
  { apply (merged_observe_right _ t1 t2 t); [done|done|].
    eapply silent_class; [|exact H1]. intros X o x Ho. by destruct o. }
  assert (tun_sent t = tun_sent t2) as ->; [|done].
  apply (merged_observe_right _ t1 t2 t); [done|done|].
  eapply silent_class; [|exact H1]. intros X o x Ho. by destruct o.
Qed.

(** The client's downward half beside the shutdown signal. *)
Lemma stream_down_or_shutdown (E : env) s label cap fuel hs : reads_fit E -> 0 <= cap ->
  let t := (follow E hs (select2 (pump_stream_to_tun fuel s cap label) shutdown)).1 in
  unframed s t /\ Forall (fun e => match e with Ev o _ => downward _ o = true end) t.
Proof.
  intros HE Hc t. split.
  - destruct (follow_select2 E hs (pump_stream_to_tun fuel s cap label) shutdown)
      as (hs1 & hs2 & Hm).
    fold t in Hm. pose proof (follow_ops E packetless shutdown hs2 shutdown_packetless) as Hp.
    pose proof (stream_down_followed E s label cap fuel hs1 HE Hc) as Hu. unfold unframed in *.
    set (t1 := (follow E hs1 _).1) in *.
    assert (stream_read s t = stream_read s t1) as ->.
    { eapply merged_observe_left; [|exact Hm|]; [done|].
      eapply silent_class; [|exact Hp]. intros X o x Ho. by destruct o. }
    assert (tun_sent t = tun_sent t1) as ->; [|exact Hu].
    eapply merged_observe_left; [|exact Hm|]; [done|].
    eapply silent_class; [|exact Hp]. intros X o x Ho. by destruct o.
  - apply follow_ops, all_ops_select2; [done|apply pump_stream_to_tun_downward|].
    eapply all_ops_mono; [|exact shutdown_packetless]. intros X [] H; done.
Qed.

(** ** The ends *)

(** What an end of a stream tunnel promises to the other: it frames what it
    sends on its stream and unframes what comes on the other's. *)
Class StreamEnd {A} (pumps : conn -> M A) : Prop :=
  end_streams : forall (E : env) h c ss sr, reads_fit E ->
    (forall h, E _ h (OpenUni c) = Ok ss) -> (forall h, E _ h (AcceptUni c) = Ok sr) ->
    exists t, (run E h (pumps c)).2 = h ++ t /\ stream_relays ss sr t /\
      Forall (answered_by E) t.

Lemma relays_after_opening ss sr (c : conn) t :
  stream_relays ss sr t ->
  stream_relays ss sr ([Ev (OpenUni c) (Ok ss)] ++ [Ev (AcceptUni c) (Ok sr)] ++ t).
Proof. done. Qed.

(** Both ends open their streams and then run the two halves. *)
Lemma streams_then (E : env) h c ss sr m1 m2 {A} (k : sid -> sid -> M A) :
  (forall h, E _ h (OpenUni c) = Ok ss) -> (forall h, E _ h (AcceptUni c) = Ok sr) ->
  (forall h', exists hs, (run E h' (k ss sr)).2 = h' ++ (follow E hs (k ss sr)).1 /\
     stream_relays ss sr (follow E hs (k ss sr)).1) ->
  exists t, (run E h (s1 <- call_context m1 (OpenUni c); s2 <- call_context m2 (AcceptUni c);
                      k s1 s2)).2 = h ++ t /\ stream_relays ss sr t /\ Forall (answered_by E) t.
Proof.
  intros Ho Ha Hk. cbn -[app]. rewrite Ho. cbn -[app]. rewrite Ha. cbn -[app].
  destruct (Hk ((h ++ [Ev (OpenUni c) (Ok ss)]) ++ [Ev (AcceptUni c) (Ok sr)])) as (hs & Et & Hr).
  eexists. split; [etransitivity; [exact Et|by rewrite <- !app_assoc]|].
  split; [by apply relays_after_opening|].
  constructor; [exists _, (OpenUni c), []; by rewrite Ho|].
  constructor; [exists _, (AcceptUni c), []; by rewrite Ha|]. apply follow_answered.
Qed.

#[export] Instance server_stream_end fuel mtu target backlog adaptive : 0 <= mtu ->
  StreamEnd (run_tunnel fuel mtu target backlog adaptive Stream).
Proof.
  intros Hmtu E h c ss sr HE Ho Ha. unfold run_tunnel.
  apply (streams_then E h c ss sr _ _ (fun s1 s2 => select2
    (pump_tun_to_stream fuel s1 c mtu (lit "server") target adaptive)
    (pump_stream_to_tun fuel s2 (mtu + 64) (lit "server"))) Ho Ha).
  intros h'. set (up := pump_tun_to_stream _ _ _ _ _ _ _). set (down := pump_stream_to_tun _ _ _ _).
  destruct (run_followed E (select2 up down) h') as (hs & Et & _). exists hs. split; [exact Et|].
  destruct (follow_select2 E hs up down) as (hs1 & hs2 & Hm).
  eapply merged_stream_relays; [exact Hm|..].
  - apply follow_ops, pump_tun_to_stream_upward.
  - apply follow_ops, pump_stream_to_tun_downward.
  - apply stream_up_followed.
  - apply stream_down_followed; [done|lia].
Qed.

Lemma client_stream_end fuel config :
  ClientConfig.vpn_transport config = Stream -> 0 <= ClientConfig.mtu config ->
  StreamEnd (client_pumps fuel config).
Proof.
  intros Hst Hmtu E h c ss sr HE Ho Ha. unfold client_pumps. rewrite Hst.
  apply (streams_then E h c ss sr _ _ (fun s1 s2 => catch (select2
    (pump_tun_to_stream fuel s1 c (ClientConfig.mtu config) (lit "client")
       (ClientConfig.egress_target_mbps config) (ClientConfig.adaptive_egress config))
    (select2 (pump_stream_to_tun fuel s2 (ClientConfig.mtu config + 64) (lit "client")) shutdown)))
    Ho Ha).
  intros h'. set (up := pump_tun_to_stream _ _ _ _ _ _ _). set (down := pump_stream_to_tun _ _ _ _).
  destruct (run_followed E (catch (select2 up (select2 down shutdown))) h') as (hs & Et & _).
  exists hs. split; [exact Et|]. unfold catch.
  match goal with |- context [follow E hs (pbind ?p ?f)] =>
    destruct (follow_pbind_ret E p f hs) as [hs0 E0]; [intros []; by eexists|] end.
  rewrite E0.
  destruct (follow_select2 E hs0 up (select2 down shutdown)) as (hs1 & hs2 & Hm).
  destruct (stream_down_or_shutdown E sr (lit "client") (ClientConfig.mtu config + 64) fuel hs2 HE)
    as [Hu Hf]; [lia|].
  eapply merged_stream_relays; [exact Hm|..].
  - apply follow_ops, pump_tun_to_stream_upward.
  - exact Hf.
  - apply stream_up_followed.
  - exact Hu.
Qed.

(** ** One direction of the path *)

(** [from] went into the sender's device and [to] came out of the receiver's:
    the same packets in the same order, the last of them perhaps missing. *)
Definition carried (from to : list bytes) (complete : Prop) : Prop :=
  to `prefix_of` List.filter nonempty from /\
  (complete -> exists lost, List.filter nonempty from = to ++ lost /\ (length lost <= 2)%nat).

Lemma filter_length_le (f : bytes -> bool) l : (length (List.filter f l) <= length l)%nat.
Proof. induction l as [|a l IH]; cbn; [lia|]. destruct (f a); cbn; lia. Qed.

Lemma stream_path mtu ss sr t t' :
  Forall (fun p => zlen p <= mtu) (tun_received t) -> mtu <= U16_MAX ->
  framed ss t -> unframed sr t' -> stream_read sr t' `prefix_of` stream_written ss t ->
  carried (tun_received t) (tun_sent t') (stream_read sr t' = stream_written ss t).
Proof.
  intros Hlen Hmtu (ps & fl & Er & Hfl & Ew) (qs & tail & fl' & Er' & Hqs & Htail & Es & Hcase) Hpre.
  set (sent := List.filter nonempty ps).
  assert (stream_written ss t = concat (map frame sent)) as Ew'.
  { rewrite Ew. unfold sent_frames, sent. do 2 f_equal. apply List.filter_ext.
    intros p. unfold fits. by rewrite andb_true_r. }
  assert (Forall (fun p => zlen p <= U16_MAX) sent) as Hsent.
  { rewrite Er in Hlen. apply Forall_app in Hlen as [Hlen _]. apply Forall_filter.
    eapply Forall_impl; [exact Hlen|]. cbv beta. lia. }
  rewrite Er', Ew' in *. destruct (frames_prefix qs sent tail Hqs Hsent Hpre) as (rest & Eq & _).
  assert (List.filter nonempty (tun_received t) = tun_sent t' ++ fl' ++ List.filter nonempty rest
    ++ List.filter nonempty fl) as Eall.
  { rewrite Er, List.filter_app, <- (filter_idem nonempty ps). fold sent.
    by rewrite Eq, List.filter_app, Es, <- !app_assoc. }
  split; [rewrite Eall; by eexists|]. intros Hcomplete. eexists. split; [exact Eall|].
  rewrite Eq, map_app, concat_app in Hcomplete. apply app_inv_head in Hcomplete.
  rewrite Eq in Hsent. apply Forall_app in Hsent as [_ Hrest]. rewrite Hcomplete in Htail.
  pose proof (within_frame_rest rest Hrest Htail).
  pose proof (filter_length_le nonempty rest). pose proof (filter_length_le nonempty fl).
  rewrite !length_app. destruct Hcase as [->|[-> Hl]]; [cbn; lia|].
  destruct rest as [|p rest]; [cbn; lia|done].
Qed.

Lemma answered_received (E : env) mtu t :
  tun_delivers E mtu -> Forall (answered_by E) t -> Forall (fun p => zlen p <= mtu) (tun_received t).
Proof.
  intros HE. induction 1 as [|e t (X & o & h & ->) _ IH]; [constructor|].
  change (Ev o (E X h o) :: t) with ([Ev o (E X h o)] ++ t). rewrite tun_received_app.
  apply Forall_app. split; [|exact IH]. destruct o; try constructor.
  unfold tun_received, observe. cbn. destruct (E _ h (TunRecv cap)) as [p|] eqn:Ep; [|constructor].
  cbn. apply Forall_singleton. by apply (HE h cap p).
Qed.

Lemma stream_ends_compose {A B} (client : conn -> M A) (server : conn -> M B)
    `{!StreamEnd client, !StreamEnd server} (Ec Es : env) mtuc mtus cc cs up up' down down' hc hs :
  reads_fit Ec -> reads_fit Es -> tun_delivers Ec mtuc -> tun_delivers Es mtus ->
  mtuc <= U16_MAX -> mtus <= U16_MAX ->
  (forall h, Ec _ h (OpenUni cc) = Ok up) -> (forall h, Es _ h (AcceptUni cs) = Ok up') ->
  (forall h, Es _ h (OpenUni cs) = Ok down) -> (forall h, Ec _ h (AcceptUni cc) = Ok down') ->
  exists tc ts, (run Ec hc (client cc)).2 = hc ++ tc /\ (run Es hs (server cs)).2 = hs ++ ts /\
    (stream_read up' ts `prefix_of` stream_written up tc ->
     carried (tun_received tc) (tun_sent ts) (stream_read up' ts = stream_written up tc)) /\
    (stream_read down' tc `prefix_of` stream_written down ts ->
     carried (tun_received ts) (tun_sent tc) (stream_read down' tc = stream_written down ts)).
Proof.
  intros Fc Fs Tc Ts Mc Ms Ouc Aus Ods Adc.
  destruct (end_streams (pumps := client) Ec hc cc up down' Fc Ouc Adc) as (tc & Etc & [Uc Dc] & Ac).
  destruct (end_streams (pumps := server) Es hs cs down up' Fs Ods Aus) as (ts & Ets & [Us Ds] & As).
  exists tc, ts. split; [exact Etc|]. split; [exact Ets|].
  split; intros Hnet; eapply stream_path; eauto using answered_received.
Qed.

(** ** Properties *)

(** C3: The VPN over streams, end to end. The client's pumps and the server's
    run, each in its own environment and under every interleaving, with TUN
    devices that respect the MTU and streams whose reads fit their buffers.
    If what an end has read is a beginning of what the other has written to
    that stream (QUIC's streams are reliable and ordered), then the packets
    written to its TUN device are the first of the non-empty packets read from
    the other's, in order and once each; and when all that was written has
    been read, at most two are missing, one in flight at each end. *)
Theorem stream_vpn_end_to_end (Ec Es : env) config fuel fuel' mtu target backlog adaptive cc cs
    up up' down down' hc hs :
  ClientConfig.vpn_transport config = Stream ->
  0 <= ClientConfig.mtu config <= U16_MAX -> 0 <= mtu <= U16_MAX ->
  reads_fit Ec -> reads_fit Es ->
  tun_delivers Ec (ClientConfig.mtu config) -> tun_delivers Es mtu ->
  (forall h, Ec _ h (OpenUni cc) = Ok up) -> (forall h, Es _ h (AcceptUni cs) = Ok up') ->
  (forall h, Es _ h (OpenUni cs) = Ok down) -> (forall h, Ec _ h (AcceptUni cc) = Ok down') ->
  exists tc ts, (run Ec hc (client_pumps fuel config cc)).2 = hc ++ tc /\
    (run Es hs (run_tunnel fuel' mtu target backlog adaptive Stream cs)).2 = hs ++ ts /\
    (stream_read up' ts `prefix_of` stream_written up tc ->
     carried (tun_received tc) (tun_sent ts) (stream_read up' ts = stream_written up tc)) /\
    (stream_read down' tc `prefix_of` stream_written down ts ->
     carried (tun_received ts) (tun_sent tc) (stream_read down' tc = stream_written down ts)).
Proof.
  intros Hst Hc Hs Fc Fs Tc Ts Ouc Aus Ods Adc.
  pose proof (client_stream_end fuel config Hst (proj1 Hc)).
  pose proof (server_stream_end fuel' mtu target backlog adaptive (proj1 Hs)).
  eapply stream_ends_compose; try done; lia.
Qed.

Definition next_chunk (incoming : bytes) (cap : Z) (h : history) : bytes :=
  take (Nat.min 2 (Z.to_nat cap)) (drop (length (stream_read 5 h)) incoming).

(** One end of a small exchange: packets to send on stream 3, frames of so
    many packets to read from stream 5 in chunks of two bytes; these are dealt
    with first. *)
Definition stream_machine (packets : nat) (outgoing : list bytes) (incoming : bytes) : env := fun X h o =>
  match o in Op X return X -> X with
  | Poll => fun _ =>
    (packets <=? length (tun_sent h))%nat ||
    match last h with
    | Some (Ev o x) =>
      (match o in Op X return X -> bool with Poll => negb | _ => fun _ => false end) x
    | None => false
    end
  | TunRecv _ => fun _ =>
    match outgoing !! length (tun_received h) with Some p => Ok p | None => Err (lit "gone") end
  | TunSend p => fun _ => Ok (zlen p)
  | OpenUni _ => fun _ => Ok 3
  | AcceptUni _ => fun _ => Ok 5
  | WriteAllChunks _ _ => fun _ => Ok tt
  | Read _ cap => fun x =>
    if is_empty (next_chunk incoming cap h) then x else Ok (Some (next_chunk incoming cap h))
  | _ => fun x => x
  end (three_packets X h o).

Lemma stream_machine_reads n outgoing incoming :
  Forall is_byte incoming -> reads_fit (stream_machine n outgoing incoming).
Proof.
  intros Hb h s cap d. cbn -[next_chunk].
  destruct (is_empty _) eqn:Hne; [done|]. intros [= <-]. unfold next_chunk in *. split.
  - destruct (Z.le_gt_cases 0 cap); [rewrite length_take; lia|].
    replace (Nat.min 2 (Z.to_nat cap)) with 0%nat in Hne by lia. done.
  - by apply Forall_take, Forall_drop.
Qed.

Lemma stream_machine_device n outgoing incoming mtu :
  Forall (fun p => zlen p <= mtu /\ Forall is_byte p) outgoing ->
  tun_delivers (stream_machine n outgoing incoming) mtu.
Proof.
  intros Ho h cap p. cbn. destruct (outgoing !! _) as [q|] eqn:Hq; [|done]. intros [= <-].
  rewrite Forall_lookup in Ho. by eapply Ho.
Qed.

(** The default configuration in stream mode. *)
Definition stream_config : ClientConfig.t :=
  let '(ClientConfig.mk a b c d e f g h i j k l m n o p q r _) := ClientConfig.default in
  ClientConfig.mk a b c d e f g h i j k l m n o p q r Stream.

(** The client sends three packets, one of them empty; the server one. *)
Definition stream_client : env := stream_machine 1 [[1; 2]; []; [3; 4; 5; 6; 7]] [0; 2; 5; 5].
Definition stream_server : env := stream_machine 2 [[5; 5]] [0; 2; 1; 2; 0; 5; 3; 4; 5; 6; 7].

Lemma stream_vpn_end_to_end_witness :
  exists tc ts, (run stream_client [] (client_pumps 99 stream_config 1)).2 = [] ++ tc /\
    (run stream_server [] (run_tunnel 99 1300 13 64 false Stream 2)).2 = [] ++ ts /\
    (stream_read 5 ts `prefix_of` stream_written 3 tc ->
     carried (tun_received tc) (tun_sent ts) (stream_read 5 ts = stream_written 3 tc)) /\
    (stream_read 5 tc `prefix_of` stream_written 3 ts ->
     carried (tun_received ts) (tun_sent tc) (stream_read 5 tc = stream_written 3 ts)).
Proof.
  apply (stream_vpn_end_to_end stream_client stream_server stream_config 99 99 1300 13 64 false
    1 2 3 5 3 5 [] []); try done.
  - apply stream_machine_reads. repeat constructor; done.
  - apply stream_machine_reads. repeat constructor; done.
  - apply stream_machine_device. repeat (constructor; [split; [done|repeat constructor; done]|]). done.
  - apply stream_machine_device. repeat (constructor; [split; [done|repeat constructor; done]|]). done.
Defined.

(** What they do there: all that was sent arrives. *)
Example streams_carry :
  let tc := (run stream_client [] (client_pumps 99 stream_config 1)).2 in
  let ts := (run stream_server [] (run_tunnel 99 1300 13 64 false Stream 2)).2 in
  stream_read 5 ts = stream_written 3 tc /\ stream_read 5 tc = stream_written 3 ts /\
  tun_sent ts = [[1; 2]; [3; 4; 5; 6; 7]] /\ tun_sent tc = [[5; 5]].
Proof. vm_compute. done. Qed.
